(* ===== verification/_CoqProject ===== *)
-Q . S2P
Prelude.v
Rand.v
Spinlock.v
Memory.v
Kalloc.v
Vm.v
VmMap.v
Proc.v
Mlfq.v
Sem.v
Pipe.v
Xfsck.v
Fs.v
FsData.v
FsDir.v
Mkfs.v
Mp.v
Icache.v
Ide.v
Bootmain.v
Bio.v
File.v
Syscall.v
ProcOps.v
Fork.v
SysFile.v
FileRefs.v
Exec.v
Sysproc.v
Console.v
Kbd.v
Ulib.v
Umalloc.v
Threads.v
Sh.v
ShText.v
ShRun.v
Textutils.v
Trap.v
Entry.v
Irq.v
Startup.v
