(* ===== verification/Prelude.v ===== *)
(** * A verification of xv6-Ro

    The program is a teaching kernel for x86 (xv6) with additions: a random
    page allocator, a multi-level feedback queue scheduler, threads, page
    protection, semaphores, user programs, and two tools that run on the host,
    the builder of the disk image and a file system checker.  This library
    models the kernel from the boot loader on, the tools, the user library and
    the shell as functions on explicit states, and proves what they do.

    ** Parts of the program and the files that model them

    - Prelude.v: machine integers as [Z] with their wrap-around, outcomes of C
      code, arrays, tactics and hints shared by all files.
    - Rand.v: kernel/rand.c.
    - Spinlock.v: kernel/spinlock.c, instruction by instruction on several
      processors.
    - Memory.v: bytes of memory and kernel/string.c.
    - Kalloc.v: kernel/kalloc.c; the free list is threaded through the free
      pages of the memory, as in the code.
    - Vm.v, VmMap.v: kernel/vm.c and the protection calls and [growproc] of
      kernel/proc.c; page tables are words of the same memory.
    - Proc.v, ProcOps.v, Fork.v: the process table and the life cycle of
      processes and threads of kernel/proc.c.  A pointer into the table is an
      index.
    - Mlfq.v: the scheduler of kernel/proc.c, [boostproc], [getprocinfo].
    - Sem.v: the semaphores of kernel/proc.c.
    - Pipe.v: kernel/pipe.c.
    - Fs.v (definitions), FsData.v (blocks and contents), FsDir.v (directories
      and paths), Icache.v (the inode cache): kernel/fs.c, on a disk of bytes.
    - Ide.v, Bio.v: kernel/ide.c and kernel/bio.c.  The drive is a type class
      [Drive] with the laws [DriveSpec] of the interface the driver relies on.
    - File.v, FileRefs.v: kernel/file.c; [kernel] is the state that system
      calls work on (processes, allocator, file system, open files, pipes).
    - Syscall.v: argument fetching of kernel/syscall.c through the page
      directory of the caller.
    - SysFile.v, Exec.v, Sysproc.v: kernel/sysfile.c, kernel/exec.c,
      kernel/sysproc.c and the dispatcher of kernel/syscall.c.
    - Trap.v: [trap] of kernel/trap.c; the devices it calls are the type class
      [Devices].  Entry.v: segments and gates (kernel/mmu.h, [seginit],
      [switchuvm], [tvinit]), the way in and out of the kernel
      (kernel/vectors.pl, kernel/trapasm.S) with the processor's part, and
      kernel/swtch.S.
    - Bootmain.v: kernel/bootmain.c, on the drive of Ide.v with the laws
      [BootDrive].  Mp.v: kernel/mp.c.
    - Irq.v: kernel/picirq.c, kernel/ioapic.c, kernel/timer.c, kernel/lapic.c,
      sending and set-up of kernel/uart.c, with models of the chips.
      Startup.v: the local APIC and [bootothers] of kernel/main.c.
    - Console.v, Kbd.v: kernel/console.c, kernel/kbd.c and receiving of
      kernel/uart.c.
    - Xfsck.v: tools/xfsck.c.  Mkfs.v: tools/mkfs.c.
    - Ulib.v: user/ulib.c and user/printf.c.  Umalloc.v: user/umalloc.c.
      Threads.v: the thread functions of user/ulib.c.
    - Sh.v (tokens and parser), ShText.v (the text of a command), ShRun.v
      (execution): user/sh.c.
    - Textutils.v: user/grep.c, user/wc.c, user/cat.c, user/echo.c and the
      names of user/ls.c.

    ** How the code is translated

    A C function becomes a function that returns an [outcome]: [Ret] of its
    result and the new state, [Panic] when it calls [panic], [Undef] when it
    does what C leaves undefined (an index outside an array, a null pointer, a
    division by zero).  A fault of the kernel on an unmapped user address is
    [Panic "trap"], as in kernel/trap.c.  Integers are kept at the width of the
    source with [u8], [u16], [u32], [i16], [i32].  Code between two points
    where a lock is released or the process sleeps is one step; a function
    that sleeps returns [Sleeps] with what is left to do and has a resumption.
    Interleavings of steps are the reachability relations of the files
    ([kreach], [mreach], [sreach], [preach], [treach], [freach] and others).
    Values chosen by the linker or the hardware (addresses of symbols, the
    device switch, the drive) are parameters.  Hardware that the kernel
    programs is modelled by what its data sheet says a write does.

    ** What the theorems show

    - Start: the boot loader loads the kernel image; the machine is found as
      the BIOS describes it; the interrupts of the devices arrive at the
      vectors that [trap] handles; the other processors start with stacks of
      their own.
    - Entry and traps: a program can enter the kernel only through the system
      call gate, its registers are saved and restored, a killed process does
      not return, spin locks exclude.
    - Memory: the allocator never hands out a page twice and exactly when it
      fails; [fork] gives the child a private copy; [setupkvm] and the
      protection calls change exactly the entries they should.
    - Processes: the process tree, what [fork] copies, scheduling as the four
      queues of the specification, semaphores that count.
    - Files: contents after reads and writes, directories, reference counts of
      inodes and open files, pipes as queues, the buffer cache as a store of
      sectors, disk requests in order.
    - System calls: what the argument checks establish, what [main] finds on
      its stack.
    - Console and keyboard: line editing as an editor of a line, scan codes.
    - Tools: what xfsck accepts is what a declarative description of a
      consistent file system accepts; the kernel reads from an image of mkfs
      exactly the files it was made of.
    - User code: [malloc] and [free], thread stacks, numbers printed and read
      back; the shell's parser ends, reads back the text of every command, and
      [runcmd] starts the programs a command means; grep selects the lines its
      patterns mean.
    - Errors: where the code does not do what it means to is proved too, and
      listed as findings.

    ** Bounds and fuel

    Loops without a structural measure take a number of rounds computed from
    their arguments (pages of a range, blocks of a file, bytes of a path) and
    end in [Undef "loop bound"] when it is too small; the functional theorems
    state that the functions return, which shows that the numbers suffice.
    Loops that poll a device take the number of polls as an argument, and
    their theorems assume a device that answers within it.

    ** Not modelled

    - The assembly that runs before C (bootasm.S, bootother.S, multiboot.S,
      initcode.S): real mode and the switch to protected mode.  What it hands
      on is an argument.  [main], [jmpkstack] and [cinit] of kernel/main.c only
      call what other files model.
    - The translation look-aside buffer and the write-protect bit of the
      processor.
    - Spinlocks inside one step of the other files: a step is the code between
      two releases; Spinlock.v shows that a lock has one owner.
    - The main functions of the small programs (user/init.c, user/kill.c,
      user/ln.c, user/mkdir.c, user/rm.c and others), which make a few system
      calls, and the test programs (user/usertests.c and others), which check
      from outside what the theorems state.
    - Header files of prototypes, build and debugging files. *)

From Stdlib Require Import ZArith Lia.
From stdpp Require Export base option list numbers gmap strings.

#[global] Open Scope Z_scope.

(** ** Machine integers

    A C integer of width [w] is a [Z]; the functions below are the
    conversions the C types perform. *)

Definition u8 (x : Z) : Z := x mod 2 ^ 8.
Definition u16 (x : Z) : Z := x mod 2 ^ 16.
Definition u32 (x : Z) : Z := x mod 2 ^ 32.
Definition i16 (x : Z) : Z := (x + 2 ^ 15) mod 2 ^ 16 - 2 ^ 15.
Definition i32 (x : Z) : Z := (x + 2 ^ 31) mod 2 ^ 32 - 2 ^ 31.
Definition i8 (x : Z) : Z := (x + 2 ^ 7) mod 2 ^ 8 - 2 ^ 7.

Definition is_u8 (x : Z) : Prop := 0 <= x < 2 ^ 8.
Definition is_u32 (x : Z) : Prop := 0 <= x < 2 ^ 32.
Definition is_i32 (x : Z) : Prop := - 2 ^ 31 <= x < 2 ^ 31.

(** ** Outcomes of C code

    [Ret a]: the code returns [a].  [Panic msg]: the kernel calls
    [panic(msg)], which never returns.  [Undef why]: the C code performs an
    operation the language leaves undefined (an access outside an array, a
    null dereference, a division by zero); nothing is claimed after it. *)

Inductive outcome (A : Type) : Type :=
| Ret (a : A)
| Panic (msg : string)
| Undef (why : string).
Arguments Ret {A} a.
Arguments Panic {A} msg.
Arguments Undef {A} why.

#[export] Instance outcome_ret : MRet outcome := fun A a => Ret a.
#[export] Instance outcome_bind : MBind outcome := fun A B f c =>
  match c with
  | Ret a => f a
  | Panic msg => Panic msg
  | Undef why => Undef why
  end.

(** The body of a [for] loop over the elements of a list, threading a state. *)
Fixpoint iterM {A S : Type} (f : A -> S -> outcome S) (l : list A) (s : S)
  : outcome S :=
  match l with
  | [] => Ret s
  | x :: l' => s' ← f x s; iterM f l' s'
  end.

(** Array accesses: out of range is undefined. *)
Definition aget {A} (l : list A) (i : Z) : outcome A :=
  if decide (0 <= i) then
    match l !! Z.to_nat i with
    | Some x => Ret x
    | None => Undef "array index out of bounds"
    end
  else Undef "array index out of bounds".

Definition aset {A} (l : list A) (i : Z) (x : A) : outcome (list A) :=
  if decide (0 <= i < Z.of_nat (length l))
  then Ret (<[Z.to_nat i := x]> l)
  else Undef "array index out of bounds".

(** ** Automation *)

Create HintDb xv6.
Create Rewrite HintDb words.

(** Split conjunctions and existentials in the context, substitute, and invert
    equations between constructors. *)
Ltac inv_all :=
  repeat match goal with
    | H : _ /\ _ |- _ => destruct H
    | H : exists _, _ |- _ => destruct H
    | H : (_, _) = (_, _) |- _ => inversion H; clear H; subst
    | H : Some _ = Some _ |- _ => inversion H; clear H; subst
    | H : Ret _ = Ret _ |- _ => inversion H; clear H; subst
    | H : Ret _ = Panic _ |- _ => discriminate H
    | H : Ret _ = Undef _ |- _ => discriminate H
    | H : Panic _ = Ret _ |- _ => discriminate H
    | H : Undef _ = Ret _ |- _ => discriminate H
    end.

(** Case analysis on a boolean comparison, remembering the proposition. *)
Ltac zcase :=
  match goal with
  | |- context [Z.eqb ?a ?b] => destruct (Z.eqb_spec a b)
  | |- context [Z.ltb ?a ?b] => destruct (Z.ltb_spec a b)
  | |- context [Z.leb ?a ?b] => destruct (Z.leb_spec a b)
  | |- context [decide ?P] => destruct (decide P)
  end.

(** Arithmetic with division and modulus by constants. *)
Ltac dm := Z.div_mod_to_equations; lia.

(** ** Facts about machine integers *)

Lemma u32_range x : is_u32 (u32 x).
Proof. apply Z.mod_pos_bound; lia. Qed.

Lemma u8_range x : is_u8 (u8 x).
Proof. apply Z.mod_pos_bound; lia. Qed.

Lemma u32_small x : is_u32 x -> u32 x = x.
Proof. intros; apply Z.mod_small; auto. Qed.

Lemma u8_small x : is_u8 x -> u8 x = x.
Proof. intros; apply Z.mod_small; auto. Qed.

Lemma i32_range x : is_i32 (i32 x).
Proof.
  unfold is_i32, i32.
  pose proof (Z.mod_pos_bound (x + 2 ^ 31) (2 ^ 32) ltac:(lia)). lia.
Qed.

Lemma i32_small x : is_i32 x -> i32 x = x.
Proof. unfold is_i32, i32; intros; rewrite Z.mod_small; lia. Qed.

Lemma u32_u32 x : u32 (u32 x) = u32 x.
Proof. apply u32_small, u32_range. Qed.

Lemma u8_u8 x : u8 (u8 x) = u8 x.
Proof. apply u8_small, u8_range. Qed.

#[export] Hint Resolve u32_range u8_range i32_range : xv6.
#[export] Hint Rewrite u32_u32 u8_u8 : words.

(** ** Facts about arrays *)

Lemma aget_Ret {A} (l : list A) i x :
  aget l i = Ret x <-> 0 <= i /\ l !! Z.to_nat i = Some x.
Proof.
  unfold aget. case_decide; [destruct (l !! Z.to_nat i) eqn:E|].
  all: split; intros; inv_all; split_and?; auto; try congruence; lia.
Qed.

Lemma aget_Some {A} (l : list A) (i : nat) x :
  l !! i = Some x -> aget l (Z.of_nat i) = Ret x.
Proof. intros; apply aget_Ret; rewrite Nat2Z.id; split; auto; lia. Qed.

Lemma aset_Ret {A} (l : list A) i x :
  0 <= i < Z.of_nat (length l) -> aset l i x = Ret (<[Z.to_nat i := x]> l).
Proof. intros; unfold aset; case_decide; [done|lia]. Qed.

(** ** Bits of machine words *)

Lemma u32_testbit x n :
  0 <= n -> Z.testbit (u32 x) n = (n <? 32) && Z.testbit x n.
Proof.
  intros Hn. unfold u32. destruct (Z.ltb_spec n 32); simpl.
  - apply Z.mod_pow2_bits_low; lia.
  - apply Z.mod_pow2_bits_high; lia.
Qed.

Lemma u32_bit_high x n : is_u32 x -> 32 <= n -> Z.testbit x n = false.
Proof.
  intros Hx Hn. rewrite <- (u32_small x Hx), u32_testbit by lia.
  destruct (Z.ltb_spec n 32); [lia|done].
Qed.

Lemma is_u32_lxor x y : is_u32 x -> is_u32 y -> is_u32 (Z.lxor x y).
Proof.
  intros Hx Hy.
  assert (Z.lxor x y = u32 (Z.lxor x y)) as ->; [|apply u32_range].
  apply Z.bits_inj'; intros n Hn. rewrite u32_testbit, Z.lxor_spec by lia.
  destruct (Z.ltb_spec n 32); [done|].
  by rewrite !u32_bit_high.
Qed.

Lemma is_u32_shiftr x k : is_u32 x -> 0 <= k -> is_u32 (Z.shiftr x k).
Proof.
  unfold is_u32; intros Hx Hk. rewrite Z.shiftr_div_pow2 by lia.
  pose proof (Z.pow_pos_nonneg 2 k ltac:(lia) Hk).
  split; [apply Z.div_pos; lia|].
  apply Z.div_lt_upper_bound; nia.
Qed.

#[export] Hint Resolve is_u32_lxor is_u32_shiftr : xv6.

(** The test of a single bit with a mask. *)
Lemma land_shiftl_1 x k :
  0 <= k -> (Z.land x (Z.shiftl 1 k) =? 0) = negb (Z.testbit x k).
Proof.
  intros Hk. rewrite Z.shiftl_1_l. destruct (Z.testbit x k) eqn:E; simpl.
  - apply Z.eqb_neq. intros H. apply (f_equal (fun y => Z.testbit y k)) in H.
    rewrite Z.land_spec, E, Z.pow2_bits_true, Z.bits_0 in H by done. discriminate.
  - apply Z.eqb_eq, Z.bits_inj'. intros n Hn.
    rewrite Z.land_spec, Z.pow2_bits_eqb, Z.bits_0 by done.
    destruct (Z.eqb_spec k n) as [->|]; [by rewrite E|by rewrite andb_false_r].
Qed.

Lemma u8_testbit x n : 0 <= n -> Z.testbit (u8 x) n = (n <? 8) && Z.testbit x n.
Proof.
  intros Hn. unfold u8. destruct (Z.ltb_spec n 8); simpl.
  - apply Z.mod_pow2_bits_low; lia.
  - apply Z.mod_pow2_bits_high; lia.
Qed.

Lemma is_u8_lor x y : is_u8 x -> is_u8 y -> is_u8 (Z.lor x y).
Proof.
  intros Hx Hy. assert (Z.lor x y = u8 (Z.lor x y)) as ->; [|apply u8_range].
  apply Z.bits_inj'. intros n Hn. rewrite u8_testbit, Z.lor_spec by done.
  destruct (Z.ltb_spec n 8); [done|].
  rewrite <- (u8_small x Hx), <- (u8_small y Hy), !u8_testbit, (proj2 (Z.ltb_ge n 8)) by lia. done.
Qed.

(** Filters that agree on a list, and filters that differ at one element. *)
Section Filters.
Context {A : Type} (P Q : A -> Prop) `{!forall x, Decision (P x), !forall x, Decision (Q x)}.

Lemma filter_agree (l : list A) : (forall x, x ∈ l -> P x <-> Q x) -> filter P l = filter Q l.
Proof.
  induction l as [|x l IH]; intros E; [done|]. rewrite !filter_cons.
  assert (P x <-> Q x) as Hx by (apply E; left). rewrite IH by (intros; apply E; by right).
  repeat case_decide; tauto.
Qed.

Lemma length_filter_remove (l : list A) r :
  NoDup l -> r ∈ l -> P r -> ~ Q r -> (forall x, x <> r -> P x <-> Q x) ->
  length (filter P l) = S (length (filter Q l)).
Proof.
  intros Hn (l1 & l2 & ->)%list_elem_of_split HP HQ E.
  apply NoDup_app in Hn as (_ & H1 & H2). apply NoDup_cons in H2 as [H2 _].
  rewrite !filter_app, !filter_cons, decide_True, decide_False by done.
  rewrite (filter_agree l1), (filter_agree l2); [|intros x Hx; apply E..].
  - rewrite !length_app. simpl. lia.
  - intros ->. done.
  - intros ->. apply (H1 r Hx). left.
Qed.
End Filters.

(** A property of a range of numbers, checked by evaluation. *)
Lemma forall_range (P : Z -> bool) a n :
  forallb P (seqZ a n) = true -> forall x, a <= x < a + n -> P x = true.
Proof.
  intros H x Hx. rewrite forallb_forall in H. apply H, list_elem_of_In, elem_of_seqZ. done.
Qed.

(** ** Inverting sequences of outcomes *)

Lemma bind_Ret_inv {A B} (c : outcome A) (f : A -> outcome B) b :
  c ≫= f = Ret b -> exists a, c = Ret a /\ f a = Ret b.
Proof. destruct c; simpl; [eauto|done..]. Qed.

(** A result computed by evaluation. *)
Definition ends_in {A} (o : outcome A) (Q : A -> bool) : bool := match o with Ret a => Q a | _ => false end.
Lemma ends_in_true {A} (o : outcome A) Q : ends_in o Q = true -> exists a, o = Ret a /\ Q a = true.
Proof. destruct o; simpl; [eauto|done..]. Qed.

(** Take apart a sequence that returned, naming the intermediate results. *)
Ltac bind_inv H :=
  let a := fresh "a" in let Ha := fresh H in
  apply bind_Ret_inv in H as (a & Ha & H).
