(* ===== verification/Rand.v ===== *)
(** * The pseudo-random generator of the page allocator

    Models [kernel/rand.c] and [kernel/rand.h]: Marsaglia's "xor" generator on
    a 32-bit state word, and the value it returns.  The generator step is a
    permutation of the 32-bit words ([xorshift_inv_l]), so a non-zero seed
    never degenerates to zero. *)

From S2P Require Import Prelude.

Definition XV6_RAND_MAX : Z := 2147483647.

(** [unsigned int rand_seed = 1;] *)
Definition rand_seed_init : Z := 1.

(** The three statements on [x]; [<<] drops the bits above 31. *)
Definition xorshift (x : Z) : Z :=
  let x := Z.lxor x (u32 (Z.shiftl x 13)) in
  let x := Z.lxor x (Z.shiftr x 17) in
  let x := Z.lxor x (u32 (Z.shiftl x 5)) in
  x.

(** [xv6_rand seed] is the returned value and the new [rand_seed]. *)
Definition xv6_rand (rand_seed : Z) : Z * Z :=
  let x := xorshift rand_seed in
  (x mod XV6_RAND_MAX, x).

Definition xv6_srand (seed : Z) : Z := u32 seed.

(** The state after [n] calls. *)
Fixpoint rand_iter (n : nat) (seed : Z) : Z :=
  match n with
  | O => seed
  | S n => rand_iter n (snd (xv6_rand seed))
  end.

(** ** The step is invertible *)

(** One left step [x ^= x << k] and one right step [x ^= x >> k]. *)
Definition xl (k x : Z) : Z := Z.lxor x (u32 (Z.shiftl x k)).
Definition xr (k x : Z) : Z := Z.lxor x (Z.shiftr x k).

Definition xorshift_inv (y : Z) : Z :=
  let x2 := xl 20 (xl 10 (xl 5 y)) in
  let x1 := xr 17 x2 in
  xl 26 (xl 13 x1).

Lemma is_u32_xl k x : is_u32 x -> is_u32 (xl k x).
Proof. unfold xl; auto with xv6. Qed.

Lemma is_u32_xr k x : 0 <= k -> is_u32 x -> is_u32 (xr k x).
Proof. unfold xr; auto with xv6. Qed.

#[export] Hint Resolve is_u32_xl is_u32_xr : xv6.

Lemma xl_testbit k x n :
  0 <= n < 32 ->
  Z.testbit (xl k x) n = xorb (Z.testbit x n) (Z.testbit x (n - k)).
Proof.
  intros Hn. unfold xl.
  rewrite Z.lxor_spec, u32_testbit, Z.shiftl_spec by lia.
  by destruct (Z.ltb_spec n 32); [|lia].
Qed.

Lemma xr_testbit k x n :
  0 <= n -> 0 <= k ->
  Z.testbit (xr k x) n = xorb (Z.testbit x n) (Z.testbit x (n + k)).
Proof. intros. unfold xr. by rewrite Z.lxor_spec, Z.shiftr_spec by lia. Qed.

(** Two words are equal when their low 32 bits are. *)
Lemma u32_bits_inj x y :
  is_u32 x -> is_u32 y ->
  (forall n, 0 <= n < 32 -> Z.testbit x n = Z.testbit y n) -> x = y.
Proof.
  intros Hx Hy Heq. apply Z.bits_inj'; intros n Hn.
  destruct (Z.lt_ge_cases n 32); [by apply Heq; lia|].
  by rewrite !u32_bit_high.
Qed.

Lemma xl_xl k x : 0 < k -> is_u32 x -> xl k (xl k x) = xl (2 * k) x.
Proof.
  intros Hk Hx. apply u32_bits_inj; auto with xv6. intros n Hn.
  rewrite (xl_testbit k (xl k x)), (xl_testbit k x n), (xl_testbit (2 * k)) by lia.
  destruct (Z.lt_ge_cases (n - k) 0).
  - by rewrite !(Z.testbit_neg_r _ (n - k)), (Z.testbit_neg_r x (n - 2 * k)),
      !xorb_false_r by lia.
  - rewrite xl_testbit by lia. replace (n - k - k) with (n - 2 * k) by lia.
    by destruct (Z.testbit x n), (Z.testbit x (n - k)), (Z.testbit x (n - 2 * k)).
Qed.

Lemma xl_wide k x : 32 <= k -> is_u32 x -> xl k x = x.
Proof.
  intros Hk Hx. apply u32_bits_inj; auto with xv6. intros n Hn.
  rewrite xl_testbit, (Z.testbit_neg_r x (n - k)) by lia.
  by destruct (Z.testbit x n).
Qed.

Lemma xr_xr k x : 16 <= k -> is_u32 x -> xr k (xr k x) = x.
Proof.
  intros Hk Hx. apply u32_bits_inj; auto with xv6 lia.
  intros n Hn. rewrite !xr_testbit by lia.
  rewrite (u32_bit_high x (n + k + k)) by (done || lia).
  by destruct (Z.testbit x n), (Z.testbit x (n + k)).
Qed.

Lemma xorshift_steps x : xorshift x = xl 5 (xr 17 (xl 13 x)).
Proof. done. Qed.

Lemma is_u32_xorshift x : is_u32 x -> is_u32 (xorshift x).
Proof.
  intros. rewrite xorshift_steps. apply is_u32_xl, is_u32_xr; auto with xv6 lia.
Qed.
#[export] Hint Resolve is_u32_xorshift : xv6.

Lemma xl_undo5 x : is_u32 x -> xl 20 (xl 10 (xl 5 (xl 5 x))) = x.
Proof.
  intros. rewrite xl_xl by (done || lia). change (2 * 5) with 10.
  rewrite xl_xl by (done || lia). change (2 * 10) with 20.
  rewrite xl_xl by (done || lia). by apply xl_wide.
Qed.

Lemma xl_undo13 x : is_u32 x -> xl 26 (xl 13 (xl 13 x)) = x.
Proof.
  intros. rewrite xl_xl by (done || lia). change (2 * 13) with 26.
  rewrite xl_xl by (done || lia). by apply xl_wide.
Qed.

Lemma xorshift_undo x : is_u32 x -> xorshift_inv (xorshift x) = x.
Proof.
  intros Hx. rewrite xorshift_steps. unfold xorshift_inv.
  assert (is_u32 (xl 13 x)) by auto with xv6.
  assert (is_u32 (xr 17 (xl 13 x))) by (apply is_u32_xr; [lia|done]).
  by rewrite (xl_undo5 (xr 17 _)), xr_xr, xl_undo13 by (done || lia).
Qed.

Lemma xorshift_nonzero x : is_u32 x -> x <> 0 -> xorshift x <> 0.
Proof.
  intros Hx Hnz E. apply Hnz. rewrite <- (xorshift_undo x Hx), E. done.
Qed.

Lemma xv6_rand_range x : 0 <= fst (xv6_rand x) < XV6_RAND_MAX.
Proof. apply Z.mod_pos_bound; done. Qed.

(** C30.  The generator step permutes the 32-bit words ([xorshift_inv] undoes
    it), and from a non-zero 32-bit seed the state word stays a non-zero 32-bit
    word after any number of calls; every value returned lies in
    [0, XV6_RAND_MAX), so [XV6_RAND_MAX] itself is never returned. *)
Theorem xv6_rand_ok n seed :
  is_u32 seed -> seed <> 0 ->
  let s := rand_iter n seed in
  is_u32 s /\ s <> 0 /\ xorshift_inv (snd (xv6_rand s)) = s /\
  0 <= fst (xv6_rand s) < XV6_RAND_MAX.
Proof.
  revert seed; induction n as [|n IH]; intros seed Hs Hnz; simpl.
  - split_and!; auto; try apply xv6_rand_range. by apply xorshift_undo.
  - apply IH; [auto with xv6|by apply xorshift_nonzero].
Qed.

Lemma xv6_rand_ok_witness :
  let s := rand_iter 5 rand_seed_init in
  is_u32 s /\ s <> 0 /\ xorshift_inv (snd (xv6_rand s)) = s /\
  0 <= fst (xv6_rand s) < XV6_RAND_MAX.
Proof.
  apply (xv6_rand_ok 5 rand_seed_init); vm_compute; [split; congruence|congruence].
Defined.
