(* ===== verification/Spinlock.v ===== *)
(** * Spin locks (kernel/spinlock.c)

    Processors run [acquire] and [release] step by step; a step is one access
    to shared memory, and the steps of different processors interleave in any
    order.  The registers and the fields of [struct cpu] are private to a
    processor.  The list [held] of the locks a processor has is not part of
    the program; it states how the callers use the locks: a processor acquires
    locks that it does not hold and releases locks that it holds. *)

From S2P Require Import Prelude.

(** [locked] and [cpu]; the call stack for debugging is not modelled. *)
Record spinlock := Lock { locked : Z; owner : option nat }.
Definition initlock : spinlock := Lock 0 None.

(** Where a processor is. *)
Inductive pc :=
| Running                    (** outside of [acquire] and [release] *)
| AcqLocked (l : nat)        (** [holding] reads [locked] *)
| AcqOwner (l : nat)         (** [holding] reads [cpu] *)
| AcqXchg (l : nat)          (** [while(xchg(&lk->locked, 1) != 0)] *)
| AcqSet (l : nat)           (** [lk->cpu = cpu] *)
| RelLocked (l : nat)
| RelOwner (l : nat)
| RelClear (l : nat)         (** [lk->cpu = 0] *)
| RelXchg (l : nat)          (** [xchg(&lk->locked, 0)] *)
| RelPop                     (** [popcli] *)
| Panicked (msg : string).

(** [ncli], [intena], the interrupt flag of [eflags], the position, and the
    locks. *)
Record cpu := Cpu { ncli : Z; intena : bool; eif : bool; at_pc : pc; held : list nat }.
Definition set_pc p c := Cpu (ncli c) (intena c) (eif c) p (held c).
Definition set_held h c := Cpu (ncli c) (intena c) (eif c) (at_pc c) h.

(** [pushcli]: interrupts off, remembering whether they were on. *)
Definition pushcli (c : cpu) : cpu :=
  Cpu (ncli c + 1) (if ncli c =? 0 then eif c else intena c) false (at_pc c) (held c).

(** [popcli] *)
Definition popcli (c : cpu) : cpu :=
  if eif c then set_pc (Panicked "popcli - interruptible") c
  else
    let n := ncli c - 1 in
    if n <? 0 then set_pc (Panicked "popcli") (Cpu n (intena c) (eif c) (at_pc c) (held c))
    else Cpu n (intena c) (if (n =? 0) && intena c then true else eif c) Running (held c).

Record smp := Smp { locks : list spinlock; cpus : list cpu }.

(** The effect of one step of processor [i] at its position on the lock it
    works on and on itself. *)
Definition exec_pc (i : nat) (k : spinlock) (c : cpu) : spinlock * cpu :=
  match at_pc c with
  | Running | Panicked _ => (k, c)
  | AcqLocked l => (k, set_pc (if locked k =? 0 then AcqXchg l else AcqOwner l) c)
  | AcqOwner l => (k, set_pc (if bool_decide (owner k = Some i) then Panicked "acquire" else AcqXchg l) c)
  | AcqXchg l => (Lock 1 (owner k), set_pc (if locked k =? 0 then AcqSet l else AcqXchg l) c)
  | AcqSet l => (Lock (locked k) (Some i), set_pc Running (set_held (l :: held c) c))
  | RelLocked l => (k, set_pc (if locked k =? 0 then Panicked "release" else RelOwner l) c)
  | RelOwner l => (k, set_pc (if bool_decide (owner k = Some i) then RelClear l else Panicked "release") c)
  | RelClear l => (Lock (locked k) None, set_pc (RelXchg l) c)
  | RelXchg l => (Lock 0 (owner k), set_pc RelPop (set_held (remove Nat.eq_dec l (held c)) c))
  | RelPop => (k, popcli c)
  end.

Definition pc_lock (p : pc) : option nat :=
  match p with
  | AcqLocked l | AcqOwner l | AcqXchg l | AcqSet l | RelLocked l | RelOwner l | RelClear l | RelXchg l => Some l
  | _ => None
  end.

Definition step_cpu (i : nat) (s : smp) : option smp :=
  c ← cpus s !! i;
  match pc_lock (at_pc c) with
  | Some l => k ← locks s !! l; let '(k', c') := exec_pc i k c in Some (Smp (<[l := k']> (locks s)) (<[i := c']> (cpus s)))
  | None => let '(_, c') := exec_pc i initlock c in Some (Smp (locks s) (<[i := c']> (cpus s)))
  end.

(** ** Runs *)

Inductive lstep : smp -> smp -> Prop :=
| ls_step i s s' : step_cpu i s = Some s' -> lstep s s'
| ls_acquire i s c l :
    cpus s !! i = Some c -> at_pc c = Running -> l ∉ held c -> (l < length (locks s))%nat ->
    lstep s (Smp (locks s) (<[i := set_pc (AcqLocked l) (pushcli c)]> (cpus s)))
| ls_release i s c l :
    cpus s !! i = Some c -> at_pc c = Running -> l ∈ held c ->
    lstep s (Smp (locks s) (<[i := set_pc (RelLocked l) c]> (cpus s)))
| ls_flags i s c b :
    (* cli, sti and the return from an interrupt outside of critical sections *)
    cpus s !! i = Some c -> at_pc c = Running -> ncli c = 0 ->
    lstep s (Smp (locks s) (<[i := Cpu 0 (intena c) b Running (held c)]> (cpus s))).

Inductive lreach (nl nc : nat) : smp -> Prop :=
| lr_boot fl : length fl = nc ->
    lreach nl nc (Smp (replicate nl initlock) (map (fun b => Cpu 0 false b Running []) fl))
| lr_step s s' : lreach nl nc s -> lstep s s' -> lreach nl nc s'.

(** Processor [c] is inside the critical section of [l]. *)
Definition owns (c : cpu) (l : nat) : Prop := l ∈ held c \/ at_pc c = AcqSet l.

(** The interrupt levels that the position stands for. *)
Definition depth (c : cpu) : Z :=
  Z.of_nat (length (held c)) +
  match at_pc c with
  | AcqLocked _ | AcqOwner _ | AcqXchg _ | AcqSet _ | RelPop => 1
  | _ => 0
  end.

(** ** The invariant *)

(** The lock records processor [i] as its owner. *)
Definition settled (c : cpu) (l : nat) : Prop := l ∈ held c /\ at_pc c <> RelXchg l.

Lemma settled_owns c l : settled c l -> owns c l.
Proof. intros [? _]. by left. Qed.

Record lock_inv (l : nat) (k : spinlock) (cs : list cpu) : Prop := {
  li_free : locked k = 0 <-> forall i c, cs !! i = Some c -> ~ owns c l;
  li_one : forall i j ci cj, cs !! i = Some ci -> cs !! j = Some cj -> owns ci l -> owns cj l -> i = j;
  li_owner : forall i, owner k = Some i <-> exists c, cs !! i = Some c /\ settled c l }.

Section Update.
Context (l : nat) (k : spinlock) (cs : list cpu) (i : nat) (c c' : cpu).
Context (HL : lock_inv l k cs) (Hi : cs !! i = Some c).

Lemma lookup_new j d : <[i := c']> cs !! j = Some d <-> (i = j /\ d = c') \/ (i <> j /\ cs !! j = Some d).
Proof.
  rewrite list_lookup_insert. pose proof (lookup_lt_Some _ _ _ Hi). case_decide as Hd.
  - destruct Hd as [-> _]. split; [intros [= <-]; by left|]. intros [[_ ->]|[? _]]; done.
  - split; [|intros [[-> ->]|[_ ?]]; tauto]. intros. right. split; [|done]. intros ->. tauto.
Qed.

(** A step that does not concern the lock. *)
Lemma inv_same : (owns c' l <-> owns c l) -> (settled c' l <-> settled c l) -> lock_inv l k (<[i := c']> cs).
Proof.
  intros Ho Hs. destruct HL as [L1 L2 L3]. split.
  - rewrite L1. split; intros E j d Hj.
    + apply lookup_new in Hj as [[<- ->]|[_ Hj]]; [rewrite Ho; by apply (E i)|by apply (E j)].
    + destruct (decide (i = j)) as [<-|Hn].
      * assert (d = c) as -> by congruence. rewrite <- Ho. apply (E i), lookup_new. by left.
      * apply (E j), lookup_new. by right.
  - intros a b ca cb Ha Hb. apply lookup_new in Ha as [[<- ->]|[_ Ha]], Hb as [[<- ->]|[_ Hb]]; rewrite ?Ho; eauto.
  - intros j. rewrite L3. split; intros (d & Hj & Hd).
    + destruct (decide (i = j)) as [<-|Hn].
      * exists c'. assert (d = c) as -> by congruence. split; [apply lookup_new; by left|by apply Hs].
      * exists d. split; [apply lookup_new; by right|done].
    + apply lookup_new in Hj as [[<- ->]|[_ Hj]]; [exists c; split; [done|by apply Hs]|by exists d].
Qed.

(** [xchg] found the lock free. *)
Lemma inv_take : locked k = 0 -> owns c' l -> ~ settled c' l -> lock_inv l (Lock 1 (owner k)) (<[i := c']> cs).
Proof.
  intros Hk Ho Hs. destruct HL as [L1 L2 L3]. rewrite L1 in Hk. split; cbn [locked owner].
  - split; [done|]. intros E. destruct (E i c'); [apply lookup_new; by left|done].
  - intros a b ca cb Ha Hb Oa Ob. apply lookup_new in Ha as [[<- ->]|[_ Ha]], Hb as [[<- ->]|[_ Hb]]; [done| | |eauto].
    + by destruct (Hk b cb Hb).
    + by destruct (Hk a ca Ha).
  - intros j. rewrite L3. split; intros (d & Hj & Hd).
    + by destruct (Hk j d Hj); apply settled_owns.
    + apply lookup_new in Hj as [[<- ->]|[_ Hj]]; [done|]. by exists d.
Qed.

(** [xchg] found it taken. *)
Lemma inv_spin : locked k <> 0 -> lock_inv l (Lock 1 (owner k)) cs.
Proof.
  intros Hk. destruct HL as [L1 L2 L3]. split; cbn [locked owner]; [|done..].
  split; [done|]. intros E. by destruct Hk; apply L1.
Qed.

(** The new owner is recorded. *)
Lemma inv_set : owns c l -> settled c' l -> lock_inv l (Lock (locked k) (Some i)) (<[i := c']> cs).
Proof.
  intros Ho Hs. destruct HL as [L1 L2 L3]. split; cbn [locked owner].
  - rewrite L1. split; intros E; exfalso; [by apply (E i c)|]. apply (E i c'); [apply lookup_new; by left|by apply settled_owns].
  - intros a b ca cb Ha Hb Oa Ob. apply lookup_new in Ha as [[<- ->]|[_ Ha]], Hb as [[<- ->]|[_ Hb]]; eauto.
  - intros j. split.
    + intros [= <-]. exists c'. split; [apply lookup_new; by left|done].
    + intros (d & Hj & Hd). apply lookup_new in Hj as [[<- ->]|[Hn Hj]]; [done|]. destruct Hn. eapply L2; eauto. by apply settled_owns.
Qed.

(** The owner is cleared before the lock is free. *)
Lemma inv_clear : owns c l -> owns c' l -> ~ settled c' l -> lock_inv l (Lock (locked k) None) (<[i := c']> cs).
Proof.
  intros Ho Ho' Hs. destruct HL as [L1 L2 L3]. split; cbn [locked owner].
  - rewrite L1. split; intros E; exfalso; [by apply (E i c)|]. apply (E i c'); [apply lookup_new; by left|done].
  - intros a b ca cb Ha Hb Oa Ob. apply lookup_new in Ha as [[<- ->]|[_ Ha]], Hb as [[<- ->]|[_ Hb]]; eauto.
  - intros j. split; [done|]. intros (d & Hj & Hd). apply lookup_new in Hj as [[<- ->]|[Hn Hj]]; [done|].
    destruct Hn. eapply L2; eauto. by apply settled_owns.
Qed.

(** The lock is free again. *)
Lemma inv_drop : owns c l -> ~ settled c l -> ~ owns c' l -> lock_inv l (Lock 0 (owner k)) (<[i := c']> cs).
Proof.
  intros Ho Hs Ho'. destruct HL as [L1 L2 L3]. split; cbn [locked owner].
  - split; [|done]. intros _ j d Hj Od. apply lookup_new in Hj as [[<- ->]|[Hn Hj]]; [done|]. destruct Hn. eauto.
  - intros a b ca cb Ha Hb Oa Ob. apply lookup_new in Ha as [[<- ->]|[_ Ha]], Hb as [[<- ->]|[_ Hb]]; eauto; done.
  - intros j. rewrite L3. split; intros (d & Hj & Hd).
    + destruct (decide (i = j)) as [<-|Hn]; [congruence|]. exists d. split; [apply lookup_new; by right|done].
    + apply lookup_new in Hj as [[<- ->]|[_ Hj]]; [by destruct Ho'; apply settled_owns|by exists d].
Qed.
End Update.

Record cpu_inv (n : nat) (c : cpu) : Prop := {
  ci_nodup : NoDup (held c);
  ci_len : forall l, l ∈ held c -> (l < n)%nat;
  ci_pc : match at_pc c with
          | Panicked _ => False
          | AcqLocked l | AcqOwner l | AcqXchg l | AcqSet l => l ∉ held c /\ (l < n)%nat
          | RelLocked l | RelOwner l | RelClear l | RelXchg l => l ∈ held c
          | _ => True
          end;
  ci_ncli : ncli c = depth c;
  ci_if : 0 < ncli c -> eif c = false }.

Lemma elem_of_remove_lock l l' (h : list nat) : l' ∈ remove Nat.eq_dec l h <-> l' ∈ h /\ l' <> l.
Proof. rewrite !list_elem_of_In. split; [apply in_remove|]. intros [? ?]. by apply in_in_remove. Qed.

Lemma length_remove_lock l (h : list nat) : NoDup h -> l ∈ h -> S (length (remove Nat.eq_dec l h)) = length h.
Proof.
  induction 1 as [|x h Hx Hn IH]; [by intros ?%elem_of_nil|]. simpl. destruct (Nat.eq_dec l x) as [->|Hne].
  - intros _. f_equal. rewrite notin_remove; [done|]. by rewrite <- list_elem_of_In.
  - intros [?|Hl]%elem_of_cons; [done|]. simpl. by rewrite IH.
Qed.

Lemma NoDup_remove_lock l (h : list nat) : NoDup h -> NoDup (remove Nat.eq_dec l h).
Proof.
  induction 1 as [|x h Hx Hn IH]; simpl; [constructor|]. destruct (Nat.eq_dec l x); [done|].
  constructor; [|done]. by intros [? _]%elem_of_remove_lock.
Qed.

Section Exec.
Context (n i : nat) (k : spinlock) (c : cpu) (l : nat) (cs : list cpu).
Context (Hc : cpu_inv n c) (Hpc : pc_lock (at_pc c) = Some l) (Hk : lock_inv l k cs) (Hi : cs !! i = Some c).

Lemma holding_owner : owner k = Some i -> l ∈ held c.
Proof. intros (d & Hd & [Hl _])%(li_owner _ _ _ Hk). congruence. Qed.
Lemma holding_locked : l ∈ held c -> locked k <> 0.
Proof. intros Hl E. rewrite (li_free _ _ _ Hk) in E. apply (E i c Hi). by left. Qed.

Lemma exec_other l' : l' <> l ->
  (owns (exec_pc i k c).2 l' <-> owns c l') /\ (settled (exec_pc i k c).2 l' <-> settled c l').
Proof.
  intros Hn. unfold exec_pc, owns, settled. destruct (at_pc c) eqn:Ep; inversion Hpc; subst; cbn [snd set_pc set_held held at_pc].
  all: rewrite ?elem_of_cons, ?elem_of_remove_lock.
  all: repeat case_match; repeat case_bool_decide; split; split; intros; destruct_and?; destruct_or?; split_and?; try tauto; try congruence; auto.
  all: try (left; tauto).
Qed.

(** A step that keeps what the processor has, for the lock itself. *)
Lemma exec_keep p : at_pc c <> AcqSet l -> at_pc c <> RelXchg l -> p <> AcqSet l -> p <> RelXchg l ->
  lock_inv l k (<[i := set_pc p c]> cs).
Proof.
  intros H1 H2 H3 H4. apply (inv_same _ _ _ _ c); [done..| |]; unfold owns, settled; cbn [set_pc held at_pc]; tauto.
Qed.

Lemma exec_lock : lock_inv l (exec_pc i k c).1 (<[i := (exec_pc i k c).2]> cs).
Proof.
  pose proof (ci_pc _ _ Hc) as P. unfold exec_pc. destruct (at_pc c) eqn:Ep; inversion Hpc; subst; cbn [fst snd].
  - apply exec_keep; rewrite ?Ep; by repeat case_match.
  - apply exec_keep; rewrite ?Ep; by repeat case_match.
  - destruct P as [P _]. destruct (Z.eqb_spec (locked k) 0).
    + eapply inv_take; [done..| |]; unfold owns, settled; cbn [set_pc held at_pc]; tauto.
    + apply inv_spin; [|done]. by apply exec_keep; rewrite ?Ep.
  - apply (inv_set _ _ _ _ c); [done..| |]; unfold owns, settled; cbn [set_pc set_held held at_pc]; [by right|]. split; [left|done].
  - apply exec_keep; rewrite ?Ep; by repeat case_match.
  - apply exec_keep; rewrite ?Ep; by repeat case_match.
  - apply (inv_clear _ _ _ _ c); [done..|by left|by left|]. unfold settled. cbn. tauto.
  - apply (inv_drop _ _ _ _ c); [done..|by left| |]; unfold owns, settled; cbn [set_pc set_held held at_pc]; [by rewrite Ep; tauto|].
    rewrite elem_of_remove_lock. intros [[_ ?]|?]; done.
Qed.

Lemma exec_cpu : cpu_inv n (exec_pc i k c).2.
Proof.
  destruct Hc as [C1 C2 C3 C4 C5]. unfold exec_pc. destruct (at_pc c) eqn:Ep; inversion Hpc; subst; cbn [snd].
  - destruct (locked k =? 0); split; cbn [set_pc held at_pc ncli eif]; auto; rewrite C4; unfold depth; by rewrite Ep.
  - case_bool_decide as Ho; [by destruct (proj1 C3 (holding_owner Ho))|]. split; cbn [set_pc held at_pc ncli eif]; auto.
    rewrite C4. unfold depth. by rewrite Ep.
  - destruct (locked k =? 0); split; cbn [set_pc held at_pc ncli eif]; auto; rewrite C4; unfold depth; by rewrite Ep.
  - destruct C3 as [C3 C3']. split; cbn [set_pc set_held held at_pc ncli eif]; auto.
    + by constructor.
    + intros l' [->|Hl]%elem_of_cons; auto.
    + rewrite C4. unfold depth. rewrite Ep. cbn [set_pc set_held held at_pc length]. lia.
  - pose proof (holding_locked C3) as Hl. destruct (Z.eqb_spec (locked k) 0); [done|]. split; cbn [set_pc held at_pc ncli eif]; auto.
    rewrite C4. unfold depth. by rewrite Ep.
  - case_bool_decide as Ho.
    + split; cbn [set_pc held at_pc ncli eif]; auto. rewrite C4. unfold depth. by rewrite Ep.
    + destruct Ho. apply (li_owner _ _ _ Hk). exists c. split; [done|]. split; [done|]. by rewrite Ep.
  - split; cbn [set_pc held at_pc ncli eif]; auto. rewrite C4. unfold depth. by rewrite Ep.
  - split; cbn [set_pc set_held held at_pc ncli eif]; auto.
    + by apply NoDup_remove_lock.
    + intros l' [Hl _]%elem_of_remove_lock. auto.
    + rewrite C4. unfold depth. rewrite Ep. cbn [set_pc set_held held at_pc]. pose proof (length_remove_lock l (held c) C1 C3). lia.
Qed.
End Exec.

Lemma popcli_inv n c : cpu_inv n c -> at_pc c = RelPop ->
  cpu_inv n (popcli c) /\ held (popcli c) = held c /\ at_pc (popcli c) = Running.
Proof.
  intros [C1 C2 C3 C4 C5] Ep. unfold depth in C4. rewrite Ep in C4. assert (eif c = false) as E by (apply C5; lia).
  unfold popcli. rewrite E. destruct (Z.ltb_spec (ncli c - 1) 0); [lia|]. split; [|done].
  split; cbn [held at_pc ncli eif]; auto; [unfold depth; cbn; lia|]. intros Hn. destruct (Z.eqb_spec (ncli c - 1) 0); [lia|done].
Qed.

Definition smp_inv (s : smp) : Prop :=
  (forall l k, locks s !! l = Some k -> lock_inv l k (cpus s)) /\ (forall i c, cpus s !! i = Some c -> cpu_inv (length (locks s)) c).

(** Steps of one processor that do not concern any lock. *)
Lemma smp_local s i c c' :
  smp_inv s -> cpus s !! i = Some c -> cpu_inv (length (locks s)) c' ->
  (forall l, (owns c' l <-> owns c l) /\ (settled c' l <-> settled c l)) -> smp_inv (Smp (locks s) (<[i := c']> (cpus s))).
Proof.
  intros [I1 I2] Hi Hc' Hs. split; cbn [locks cpus].
  - intros l k Hl. apply (inv_same _ _ _ _ c); [by apply I1|done|apply Hs..].
  - intros j d Hj. apply (lookup_new _ _ _ _ Hi) in Hj as [[<- ->]|[_ Hj]]; [done|by apply (I2 j)].
Qed.

Lemma step_cpu_inv i s s' : smp_inv s -> step_cpu i s = Some s' -> smp_inv s'.
Proof.
  intros HI E. pose proof HI as [I1 I2]. unfold step_cpu in E. destruct (cpus s !! i) as [c|] eqn:Hi; [|done]. cbn in E.
  pose proof (I2 i c Hi) as Hc. destruct (pc_lock (at_pc c)) as [l|] eqn:Hpc.
  - destruct (locks s !! l) as [k|] eqn:Hl; [|done]. cbn in E. pose proof (I1 l k Hl) as Hk.
    destruct (exec_pc i k c) as [k' c'] eqn:Ee. inversion E; subst.
    pose proof (exec_lock _ i k c l _ Hc Hpc Hk Hi) as X1. pose proof (exec_cpu _ i k c l _ Hc Hpc Hk Hi) as X2. rewrite Ee in X1, X2.
    split; cbn [locks cpus].
    + intros l' k1 Hl'. destruct (decide (l = l')) as [<-|Hn].
      * rewrite list_lookup_insert_eq in Hl' by (by eapply lookup_lt_Some). by inversion Hl'; subst.
      * rewrite list_lookup_insert_ne in Hl' by done. apply (inv_same _ _ _ _ c); [by apply I1|done|..].
        all: pose proof (exec_other i k c l Hpc l' ltac:(done)) as [X3 X4]; by rewrite Ee in X3, X4.
    + rewrite length_insert. intros j d Hj. apply (lookup_new _ _ _ _ Hi) in Hj as [[<- ->]|[_ Hj]]; [done|by apply (I2 j)].
  - destruct (exec_pc i initlock c) as [k' c'] eqn:Ee. inversion E; subst. apply (smp_local s i c c' HI Hi).
    all: unfold exec_pc in Ee; destruct (at_pc c) eqn:Ep; try discriminate Hpc; inversion Ee; subst; try done.
    + by destruct (popcli_inv _ _ Hc Ep).
    + destruct (popcli_inv _ _ Hc Ep) as (_ & E1 & E2). intros l. unfold owns, settled. rewrite E1, E2, Ep. intuition discriminate.
Qed.

Lemma lstep_inv s s' : smp_inv s -> lstep s s' -> smp_inv s'.
Proof.
  intros HI Hs. revert HI. destruct Hs as [i s1 s2 E|i s1 c l Hi Ep Hl Hn|i s1 c l Hi Ep Hl|i s1 c b Hi Ep Hz]; intros HI.
  - by eapply step_cpu_inv.
  - apply (smp_local s1 i c); [done..| |].
    + destruct (proj2 HI i c Hi) as [C1 C2 C3 C4 C5]. unfold depth in C4. rewrite Ep in C4.
      split; cbn; auto; unfold depth; cbn; lia.
    + intros l'. unfold owns, settled. cbn. rewrite Ep. intuition discriminate.
  - apply (smp_local s1 i c); [done..| |].
    + destruct (proj2 HI i c Hi) as [C1 C2 C3 C4 C5]. unfold depth in C4. rewrite Ep in C4.
      split; cbn; auto; unfold depth; cbn; lia.
    + intros l'. unfold owns, settled. cbn. rewrite Ep. intuition discriminate.
  - apply (smp_local s1 i c); [done..| |].
    + destruct (proj2 HI i c Hi) as [C1 C2 C3 C4 C5]. unfold depth in C4. rewrite Ep in C4.
      split; cbn; auto; unfold depth; cbn; lia.
    + intros l'. unfold owns, settled. cbn. rewrite Ep. intuition discriminate.
Qed.

Lemma lreach_inv nl nc s : lreach nl nc s -> smp_inv s.
Proof.
  induction 1 as [fl Hf|s s' _ IH Hs]; [|by eapply lstep_inv].
  assert (forall i c, map (fun b => Cpu 0 false b Running []) fl !! i = Some c -> held c = [] /\ at_pc c = Running /\ ncli c = 0) as K.
  { intros i c Hc. change (map ?f fl) with (f <$> fl) in Hc. apply list_lookup_fmap_Some in Hc as (b & -> & _). done. }
  assert (forall i c l, map (fun b => Cpu 0 false b Running []) fl !! i = Some c -> ~ owns c l) as K2.
  { intros i c l Hc. destruct (K i c Hc) as (E1 & E2 & _). unfold owns. rewrite E1, E2. intros [?%elem_of_nil|?]; done. }
  split; cbn [locks cpus].
  - intros l k [-> _]%lookup_replicate. split; cbn.
    + split; [|done]. intros _ i c Hc. by apply (K2 i).
    + intros i j ci cj Hi _ Oi. by destruct (K2 i ci l Hi).
    + intros i. split; [done|]. intros (c & Hc & Hs). by destruct (K2 i c l Hc); apply settled_owns.
  - intros i c Hc. destruct (K i c Hc) as (E1 & E2 & E3).
    split; rewrite ?E1, ?E2, ?E3; [constructor|by intros l ?%elem_of_nil|done|unfold depth; by rewrite E1, E2|lia].
Qed.

(** C13. In every interleaving of the steps of any number of processors on any
    number of locks: at most one processor is in the critical section of a
    lock, its interrupts are off, and it holds no lock when [ncli] is 0; the
    lock word is 0 exactly when nobody is in the critical section; and no
    processor panics in [acquire], [release] or [popcli]. *)
Theorem spinlock_exclusive (nl nc : nat) (s : smp) (Hs : lreach nl nc s) :
  (forall l i j ci cj, cpus s !! i = Some ci -> cpus s !! j = Some cj -> (l < length (locks s))%nat -> owns ci l -> owns cj l -> i = j)
  /\ (forall i c l, cpus s !! i = Some c -> owns c l -> eif c = false /\ 0 < ncli c)
  /\ (forall l k, locks s !! l = Some k -> locked k = 0 <-> forall i c, cpus s !! i = Some c -> ~ owns c l)
  /\ (forall i c msg, cpus s !! i = Some c -> at_pc c <> Panicked msg).
Proof.
  destruct (lreach_inv _ _ _ Hs) as [I1 I2]. split_and!.
  - intros l i j ci cj Hi Hj Hl. destruct (lookup_lt_is_Some_2 _ _ Hl) as [k Hk]. by apply (li_one _ _ _ (I1 l k Hk)).
  - intros i c l Hi Ho. destruct (I2 i c Hi) as [C1 C2 C3 C4 C5].
    assert (0 < ncli c) as Hn; [|auto]. rewrite C4. unfold depth. destruct Ho as [Ho| ->]; [|lia].
    assert (length (held c) <> 0%nat) by (destruct (held c); [by apply elem_of_nil in Ho|done]). case_match; lia.
  - intros l k Hk. apply (I1 l k Hk).
  - intros i c msg Hi E. destruct (I2 i c Hi) as [_ _ C3 _ _]. by rewrite E in C3.
Qed.

(** A script: a processor makes a step, or begins to acquire a lock. *)
Definition act (s : smp) (a : nat * option nat) : option smp :=
  match a with
  | (i, None) => step_cpu i s
  | (i, Some l) =>
    match cpus s !! i with
    | Some (Cpu n e f Running h) =>
      if decide (l ∉ h /\ (l < length (locks s))%nat)
      then Some (Smp (locks s) (<[i := set_pc (AcqLocked l) (pushcli (Cpu n e f Running h))]> (cpus s))) else None
    | _ => None
    end
  end.

Lemma act_reach nl nc s a s' : lreach nl nc s -> act s a = Some s' -> lreach nl nc s'.
Proof.
  intros Hs. destruct a as [i [l|]]; cbn [act]; [|intros E; by eapply lr_step; [|apply (ls_step i)]].
  destruct (cpus s !! i) as [[n e f [] h]|] eqn:Hi; try done. case_decide as Hd; [|done]. intros [= <-].
  eapply lr_step; [done|]. by apply ls_acquire; try apply Hd.
Qed.

Definition play (s : smp) (l : list (nat * option nat)) : option smp := foldl (fun o a => o ≫= fun s => act s a) (Some s) l.
Lemma play_reach nl nc l : forall s s', lreach nl nc s -> play s l = Some s' -> lreach nl nc s'.
Proof.
  induction l as [|a l IH]; intros s s' Hs; unfold play; cbn [foldl]; [by intros [= <-]|]. cbn [mbind option_bind].
  destruct (act s a) as [s1|] eqn:E.
  - apply IH. by eapply act_reach.
  - assert (foldl (fun o a => o ≫= fun s => act s a) None l = None) as -> by (clear; by induction l). done.
Qed.

(** Processor 0 has the lock and processor 1 spins. *)
Definition demo_smp : smp :=
  Smp [Lock 1 (Some 0%nat)] [Cpu 1 true false Running [0%nat]; Cpu 1 false false (AcqXchg 0) []].
Lemma demo_smp_reach : lreach 1 2 demo_smp.
Proof.
  apply (play_reach 1 2 [(0, Some 0); (0, None); (0, None); (1, Some 0); (1, None); (0, None); (1, None); (1, None)]%nat
    (Smp (replicate 1 initlock) (map (fun b => Cpu 0 false b Running []) [true; false]))); [by apply lr_boot|reflexivity].
Qed.

Lemma spinlock_exclusive_witness : lreach 1 2 demo_smp /\ forall c, cpus demo_smp !! 1%nat = Some c -> ~ owns c 0.
Proof.
  split; [exact demo_smp_reach|]. intros c Hc Ho.
  destruct (spinlock_exclusive 1 2 demo_smp demo_smp_reach) as (H & _).
  discriminate (H 0%nat 0%nat 1%nat _ c eq_refl Hc ltac:(apply Nat.lt_0_1) ltac:(left; left) Ho).
Defined.
