(* ===== verification/Memory.v ===== *)
(** * Byte-addressed memory and the string routines

    Physical memory as the kernel sees it (identity mapped, little endian), and
    [kernel/string.c].  [memset] and [memmove] act on memory; the routines on
    NUL-terminated text take their arguments as readers (the byte at each
    offset from the pointer) and give the bytes they write. *)

From S2P Require Import Prelude.

Abbreviation memory := (gmap Z Z).

(** ** Loads and stores *)

Definition rd8 (m : memory) (a : Z) : Z := u8 (default 0 (m !! a)).
Definition wr8 (m : memory) (a v : Z) : memory := <[a := u8 v]> m.

Definition load32 (m : memory) (a : Z) : Z :=
  rd8 m a + 2 ^ 8 * rd8 m (a + 1) + 2 ^ 16 * rd8 m (a + 2) + 2 ^ 24 * rd8 m (a + 3).

Definition store32 (m : memory) (a v : Z) : memory :=
  wr8 (wr8 (wr8 (wr8 m a v) (a + 1) (v / 2 ^ 8)) (a + 2) (v / 2 ^ 16)) (a + 3) (v / 2 ^ 24).

(** ** [memset] and [memmove] *)

Fixpoint stosb (n : nat) (m : memory) (addr data : Z) : memory :=
  match n with
  | O => m
  | S n => stosb n (wr8 m addr data) (addr + 1) data
  end.

Definition memset (m : memory) (dst c n : Z) : memory :=
  stosb (Z.to_nat n) m dst c.

(** [while(n-- > 0) *d++ = *s++;] *)
Fixpoint copy_up (n : nat) (m : memory) (d s : Z) : memory :=
  match n with
  | O => m
  | S n => copy_up n (wr8 m d (rd8 m s)) (d + 1) (s + 1)
  end.

(** [while(n-- > 0) *--d = *--s;] *)
Fixpoint copy_down (n : nat) (m : memory) (d s : Z) : memory :=
  match n with
  | O => m
  | S n => copy_down n (wr8 m (d - 1) (rd8 m (s - 1))) (d - 1) (s - 1)
  end.

Definition memmove (m : memory) (dst src n : Z) : memory :=
  if (src <? dst) && (dst <? src + n)
  then copy_down (Z.to_nat n) m (dst + n) (src + n)
  else copy_up (Z.to_nat n) m dst src.

(** [memcmp]: the difference of the first pair of bytes that differ. *)
Fixpoint memcmp (n : nat) (m : memory) (s1 s2 : Z) : Z :=
  match n with
  | O => 0
  | S n => if rd8 m s1 =? rd8 m s2 then memcmp n m (s1 + 1) (s2 + 1)
           else rd8 m s1 - rd8 m s2
  end.

(** ** Text

    A reader gives the byte at each offset from a pointer. *)

Abbreviation reader := (nat -> Z).

Definition skip (p : reader) : reader := fun i => p (S i).

(** The reader of a pointer into memory, and of an array of bytes. *)
Definition at_mem (m : memory) (a : Z) : reader := fun i => rd8 m (a + Z.of_nat i).
Definition at_list (l : list Z) : reader := fun i => nth i l 0.

Fixpoint strncmp (p q : reader) (n : nat) : Z :=
  match n with
  | O => 0
  | S n' => if negb (p 0%nat =? 0) && (p 0%nat =? q 0%nat)
            then strncmp (skip p) (skip q) n'
            else p 0%nat - q 0%nat
  end.

(** The bytes [strncpy(s, t, n)] writes from [s] on. *)
Fixpoint strncpy (t : reader) (n : nat) : list Z :=
  match n with
  | O => []
  | S n' => if t 0%nat =? 0 then 0 :: replicate n' 0
            else t 0%nat :: strncpy (skip t) n'
  end.

(** The bytes [safestrcpy(s, t, n)] writes from [s] on: at most [n - 1] bytes
    of [t], then a NUL; nothing when [n <= 0]. *)
Fixpoint safestrcpy (t : reader) (n : nat) : list Z :=
  match n with
  | O => []
  | S O => [0]
  | S n' => if t 0%nat =? 0 then [0; 0] else t 0%nat :: safestrcpy (skip t) n'
  end.

(** [for(n = 0; s[n]; n++)], given at most [fuel] iterations. *)
Fixpoint strlen_from (fuel : nat) (s : reader) (n : nat) : option nat :=
  match fuel with
  | O => None
  | S fuel => if s n =? 0 then Some n else strlen_from fuel s (S n)
  end.
Definition strlen (fuel : nat) (s : reader) : option nat := strlen_from fuel s 0.

(** ** Lemmas: loads and stores *)

Lemma rd8_range m a : is_u8 (rd8 m a).
Proof. apply u8_range. Qed.
#[export] Hint Resolve rd8_range : xv6.

Lemma rd8_wr8 m a v b :
  rd8 (wr8 m a v) b = if decide (a = b) then u8 v else rd8 m b.
Proof.
  unfold rd8, wr8. rewrite lookup_insert. case_decide; simpl; [|done].
  by rewrite u8_u8.
Qed.

Lemma rd8_wr8_eq m a v : rd8 (wr8 m a v) a = u8 v.
Proof. rewrite rd8_wr8. by rewrite decide_True. Qed.

Lemma rd8_wr8_ne m a v b : a <> b -> rd8 (wr8 m a v) b = rd8 m b.
Proof. intros. rewrite rd8_wr8. by rewrite decide_False. Qed.

Lemma load32_range m a : is_u32 (load32 m a).
Proof.
  unfold load32, is_u32.
  pose proof (rd8_range m a). pose proof (rd8_range m (a + 1)).
  pose proof (rd8_range m (a + 2)). pose proof (rd8_range m (a + 3)).
  unfold is_u8 in *. lia.
Qed.
#[export] Hint Resolve load32_range : xv6.

(** A store changes only its four bytes. *)
Lemma rd8_store32_ne m a v b :
  ~ (a <= b < a + 4) -> rd8 (store32 m a v) b = rd8 m b.
Proof. intros. unfold store32. rewrite !rd8_wr8_ne by lia. done. Qed.

Lemma rd8_store32 m a v b :
  a <= b < a + 4 -> rd8 (store32 m a v) b = u8 (v / 2 ^ (8 * (b - a))).
Proof.
  intros. unfold store32. rewrite !rd8_wr8.
  repeat case_decide; subst; try lia.
  - by replace (8 * (a + 3 - a)) with 24 by lia.
  - by replace (8 * (a + 2 - a)) with 16 by lia.
  - by replace (8 * (a + 1 - a)) with 8 by lia.
  - replace (8 * (b - b)) with 0 by lia. by rewrite Z.div_1_r.
Qed.

Lemma load32_store32_eq m a v : load32 (store32 m a v) a = u32 v.
Proof.
  unfold load32. rewrite !rd8_store32 by lia.
  replace (8 * (a - a)) with 0 by lia. replace (8 * (a + 1 - a)) with 8 by lia.
  replace (8 * (a + 2 - a)) with 16 by lia. replace (8 * (a + 3 - a)) with 24 by lia.
  unfold u8, u32. dm.
Qed.

(** A load depends only on its four bytes. *)
Lemma load32_ext m m' a :
  (forall b, a <= b < a + 4 -> rd8 m' b = rd8 m b) -> load32 m' a = load32 m a.
Proof. intros H. unfold load32. rewrite !H by lia. done. Qed.

Lemma load32_store32_ne m a v b :
  b + 4 <= a \/ a + 4 <= b -> load32 (store32 m a v) b = load32 m b.
Proof. intros. apply load32_ext; intros. apply rd8_store32_ne. lia. Qed.

(** ** Lemmas: [memset] and [memmove] *)

Lemma rd8_stosb n m dst c a :
  rd8 (stosb n m dst c) a =
  if decide (dst <= a < dst + Z.of_nat n) then u8 c else rd8 m a.
Proof.
  revert m dst; induction n as [|n IH]; intros m dst; cbn [stosb].
  - case_decide; [lia|done].
  - rewrite IH, rd8_wr8. repeat case_decide; (done || lia).
Qed.

Lemma rd8_memset m dst c n a :
  0 <= n ->
  rd8 (memset m dst c n) a = if decide (dst <= a < dst + n) then u8 c else rd8 m a.
Proof.
  intros. unfold memset. rewrite rd8_stosb, Z2Nat.id by lia. done.
Qed.

Lemma load32_memset_out m dst c n a :
  0 <= n -> a + 4 <= dst \/ dst + n <= a ->
  load32 (memset m dst c n) a = load32 m a.
Proof.
  intros. apply load32_ext; intros. rewrite rd8_memset by lia.
  case_decide; [lia|done].
Qed.

Lemma load32_memset_0 m dst n a :
  dst <= a -> a + 4 <= dst + n -> load32 (memset m dst 0 n) a = 0.
Proof.
  intros. unfold load32. rewrite !rd8_memset by lia.
  repeat (rewrite decide_True by lia). done.
Qed.

(** The upward copy is right when the source does not start below the
    destination inside the copied range. *)
Lemma rd8_copy_up n m d s a :
  ~ (s < d < s + Z.of_nat n) ->
  rd8 (copy_up n m d s) a =
  if decide (d <= a < d + Z.of_nat n) then rd8 m (s + (a - d)) else rd8 m a.
Proof.
  revert m d s; induction n as [|n IH]; intros m d s Hov; cbn [copy_up].
  - case_decide; [lia|done].
  - rewrite IH by lia. repeat case_decide; try lia.
    + rewrite rd8_wr8_ne by lia. f_equal; lia.
    + assert (a = d) as -> by lia. rewrite rd8_wr8_eq, u8_small by auto with xv6.
      f_equal; lia.
    + by rewrite rd8_wr8_ne by lia.
Qed.

(** The downward copy, from the ends of both ranges. *)
Lemma rd8_copy_down n m d s a :
  s <= d ->
  rd8 (copy_down n m d s) a =
  if decide (d - Z.of_nat n <= a < d) then rd8 m (s - (d - a)) else rd8 m a.
Proof.
  revert m d s; induction n as [|n IH]; intros m d s Hov; cbn [copy_down].
  - case_decide; [lia|done].
  - rewrite IH by lia. repeat case_decide; try lia.
    + rewrite rd8_wr8_ne by lia. f_equal; lia.
    + assert (a = d - 1) as -> by lia. rewrite rd8_wr8_eq, u8_small by auto with xv6.
      f_equal; lia.
    + by rewrite rd8_wr8_ne by lia.
Qed.

Lemma rd8_memmove m dst src n a :
  0 <= n ->
  rd8 (memmove m dst src n) a =
  if decide (dst <= a < dst + n) then rd8 m (src + (a - dst)) else rd8 m a.
Proof.
  intros Hn. unfold memmove.
  destruct (Z.ltb_spec src dst), (Z.ltb_spec dst (src + n)); simpl;
    [rewrite rd8_copy_down by lia|rewrite rd8_copy_up by lia ..];
    rewrite Z2Nat.id by lia; repeat case_decide; try lia; f_equal; lia.
Qed.

(** [memmove] copies [n] bytes whatever the overlap of the two ranges:
    every destination byte becomes the source byte as it was before the call,
    and no other byte of memory changes. *)
Theorem memmove_copies m dst src n a :
  0 <= n ->
  rd8 (memmove m dst src n) a =
  if decide (dst <= a < dst + n) then rd8 m (src + (a - dst)) else rd8 m a.
Proof. apply rd8_memmove. Qed.

(** Overlapping move of three bytes up by one. *)
Lemma memmove_copies_witness :
  let m := wr8 (wr8 (wr8 ∅ 100 1) 101 2) 102 3 in
  map (rd8 (memmove m 101 100 3)) [100; 101; 102; 103] = [1; 1; 2; 3].
Proof.
  cbv zeta. cbn [map]. rewrite !(memmove_copies _ 101 100 3) by lia.
  vm_compute. reflexivity.
Defined.

(** ** Lemmas: text *)

(** The text of a field of [n] bytes: the bytes before the first NUL. *)
Fixpoint cname (p : reader) (n : nat) : list Z :=
  match n with
  | O => []
  | S n => if p 0%nat =? 0 then [] else p 0%nat :: cname (skip p) n
  end.

Lemma strncmp_0_iff p q n : strncmp p q n = 0 <-> cname p n = cname q n.
Proof.
  revert p q; induction n as [|n IH]; intros p q; cbn [strncmp cname]; [done|].
  destruct (Z.eqb_spec (p 0%nat) 0), (Z.eqb_spec (q 0%nat) 0),
    (Z.eqb_spec (p 0%nat) (q 0%nat)) as [E|]; simpl; try (by split; intros; (lia || congruence)).
  rewrite IH, E. split; [by intros ->|congruence].
Qed.

Lemma strncpy_length t n : length (strncpy t n) = n.
Proof.
  revert t; induction n as [|n IH]; intros t; simpl; [done|].
  case_match; simpl; [by rewrite length_replicate|by rewrite IH].
Qed.

Lemma cname_replicate n k : cname (at_list (replicate k 0)) n = [].
Proof. by destruct n, k. Qed.

Lemma skip_at_list x l : skip (at_list (x :: l)) = at_list l.
Proof. done. Qed.

Lemma cname_strncpy t n : cname (at_list (strncpy t n)) n = cname t n.
Proof.
  revert t; induction n as [|n IH]; intros t; cbn [strncpy cname]; [done|].
  destruct (Z.eqb_spec (t 0%nat) 0); [done|].
  rewrite skip_at_list. cbn [at_list nth]. by rewrite IH, (proj2 (Z.eqb_neq _ _)).
Qed.

(** A name stored with [strncpy] in an [n]-byte field compares equal under
    [strncmp] exactly to the names with the same text in their first [n] bytes. *)
Theorem strncpy_strncmp t q n :
  length (strncpy t n) = n /\
  (strncmp q (at_list (strncpy t n)) n = 0 <-> cname q n = cname t n).
Proof. split; [apply strncpy_length|]. by rewrite strncmp_0_iff, cname_strncpy. Qed.

Lemma safestrcpy_length t n : (length (safestrcpy t n) <= n)%nat.
Proof.
  revert t; induction n as [|[|n] IH]; intros t; simpl; [lia..|].
  case_match; simpl; [lia|]. specialize (IH (skip t)). simpl in IH. lia.
Qed.

Lemma safestrcpy_SS t n :
  safestrcpy t (S (S n)) =
  if t 0%nat =? 0 then [0; 0] else t 0%nat :: safestrcpy (skip t) (S n).
Proof. done. Qed.

(** [safestrcpy] terminates its result inside the field. *)
Lemma safestrcpy_nul t n :
  (0 < n)%nat ->
  exists l, safestrcpy t n = l ++ [0] /\ cname (at_list (l ++ [0])) n = cname t (n - 1).
Proof.
  revert t; induction n as [|[|n] IH]; intros t Hn; [lia| |].
  - by exists [].
  - rewrite safestrcpy_SS. destruct (Z.eqb_spec (t 0%nat) 0) as [E|E].
    + exists [0]. split; [done|]. cbn. rewrite E. done.
    + destruct (IH (skip t) ltac:(lia)) as (l & Hl & Hc).
      exists (t 0%nat :: l). rewrite Hl. split; [done|].
      replace (S (S n) - 1)%nat with (S n) by lia. cbn [cname app at_list nth].
      rewrite (proj2 (Z.eqb_neq _ _) E). f_equal.
      change (cname (at_list (l ++ [0])) (S n) = cname (skip t) n).
      rewrite Hc. f_equal; lia.
Qed.

Lemma strlen_from_spec fuel s n k :
  (n <= k)%nat -> (k < n + fuel)%nat -> s k = 0 ->
  (forall j, (n <= j < k)%nat -> s j <> 0) -> strlen_from fuel s n = Some k.
Proof.
  revert n; induction fuel as [|fuel IH]; intros n Hle Hf Hk Hnz; [lia|]. simpl.
  destruct (decide (n = k)) as [->|]; [by rewrite Hk|].
  rewrite (proj2 (Z.eqb_neq _ _)) by (apply Hnz; lia).
  apply IH; [lia|lia|done|]. intros; apply Hnz; lia.
Qed.

(** [strlen] finds the first NUL whenever its fuel exceeds its offset. *)
Lemma strlen_spec fuel s k :
  (k < fuel)%nat -> s k = 0 -> (forall j, (j < k)%nat -> s j <> 0) ->
  strlen fuel s = Some k.
Proof. intros. apply strlen_from_spec; auto with lia. Qed.
