(* ===== verification/Kalloc.v ===== *)
(** * The physical page allocator

    Models [kernel/kalloc.c]: the free list threaded through the free pages
    themselves, the random choice of the page to hand out, the history of
    allocated pages and [dump_allocated].  The invariant [kinv] relates the
    concrete list in memory to the list of free pages; [kalloc_spec],
    [kfree_spec] and [kinit_spec] show that the operations implement an
    allocator on that list. *)

From S2P Require Import Prelude Rand Memory.

Definition PGSIZE : Z := 4096.
Definition PHYSTOP : Z := 0x1000000.
Definition PGROUNDUP (sz : Z) : Z := u32 (Z.land (sz + PGSIZE - 1) (Z.lnot (PGSIZE - 1))).
Definition PGROUNDDOWN (a : Z) : Z := u32 (Z.land a (Z.lnot (PGSIZE - 1))).

(** [kmem.freelist], the counters and history of [kalloc.c], [rand_seed], and
    the memory that holds the pages. *)
Record kst := Kst {
  mem : memory;
  freelist : Z;
  allocated : list Z;
  num_alloc : Z;
  size_freelist : Z;
  rand_seed : Z
}.

Definition set_mem (m : memory) (s : kst) : kst :=
  Kst m (freelist s) (allocated s) (num_alloc s) (size_freelist s) (rand_seed s).

Definition NALLOCATED : nat := 512.

(** The allocator at boot: an empty list and zeroed globals. *)
Definition kst_boot (m : memory) : kst :=
  Kst m 0 (replicate NALLOCATED 0) 0 0 rand_seed_init.

Section Kalloc.

(** [extern char end[]], the first address after the kernel. *)
Variable kend : Z.

Definition kfree (v : Z) (s : kst) : outcome kst :=
  if negb (v mod PGSIZE =? 0) || (v <? kend) || (PHYSTOP <=? v)
  then Panic "kfree"
  else
    let m := memset (mem s) v 1 PGSIZE in
    let m := store32 m v (freelist s) in
    Ret (Kst m v (allocated s) (num_alloc s) (i32 (size_freelist s + 1)) (rand_seed s)).

(** [for(; p + PGSIZE <= PHYSTOP; p += PGSIZE) kfree(p);] for at most [fuel]
    pages; physical memory has [PHYSTOP / PGSIZE] of them. *)
Fixpoint kinit_from (fuel : nat) (p : Z) (s : kst) : outcome kst :=
  match fuel with
  | O => Ret s
  | S fuel => if p + PGSIZE <=? PHYSTOP
              then s ← kfree p s; kinit_from fuel (p + PGSIZE) s
              else Ret s
  end.

Definition kinit (s : kst) : outcome kst :=
  kinit_from (Z.to_nat (PHYSTOP / PGSIZE)) (PGROUNDUP kend) s.

(** [for (i=0; i<rd; i++) { r_prev = r; r = r -> next; }] *)
Fixpoint kwalk (n : nat) (m : memory) (r_prev r : Z) : outcome (Z * Z) :=
  match n with
  | O => Ret (r_prev, r)
  | S n => if r =? 0 then Undef "null dereference" else kwalk n m r (load32 m r)
  end.

(** The part of [kalloc] under [kmem.lock]: take the [rd]-th page of the list. *)
Definition kalloc_locked (s : kst) : outcome (Z * kst) :=
  let r := freelist s in
  let '(rnd, seed) := xv6_rand (rand_seed s) in
  if size_freelist s =? 0 then Undef "division by zero" else
  let rd := Z.rem rnd (size_freelist s) in
  if rd =? 0 then
    if r =? 0 then Undef "null dereference" else
    Ret (r, Kst (mem s) (load32 (mem s) r) (allocated s) (num_alloc s)
                (size_freelist s) seed)
  else
    '(r_prev, r) ← kwalk (Z.to_nat rd) (mem s) r r;
    if r =? 0 then Undef "null dereference" else
    Ret (r, Kst (store32 (mem s) r_prev (load32 (mem s) r)) (freelist s) (allocated s)
                (num_alloc s) (size_freelist s) seed).

(** The part after [release]: record the page and adjust the counters. *)
Definition kalloc_record (r : Z) (s : kst) : outcome kst :=
  h ← aset (allocated s) (num_alloc s) r;
  Ret (Kst (mem s) (freelist s) h (i32 (num_alloc s + 1))
           (i32 (size_freelist s - 1)) (rand_seed s)).

Definition kalloc (s : kst) : outcome (Z * kst) :=
  '(r, s) ← kalloc_locked s;
  s ← kalloc_record r s;
  Ret (r, s).

End Kalloc.

(** [frames[i] = allocated[num_alloc-1-i]] for [i < numframes]; [None] is the
    return value -1. *)
Definition dump_allocated (s : kst) (numframes : Z) : outcome (option (list Z)) :=
  if num_alloc s <? numframes then Ret None
  else
    l ← iterM (fun i acc => x ← aget (allocated s) (num_alloc s - 1 - Z.of_nat i);
                            Ret (acc ++ [x]))
              (seq 0 (Z.to_nat numframes)) [];
    Ret (Some l).

(** ** Pages *)

Definition in_page (p a : Z) : Prop := p <= a < p + PGSIZE.

(** A page the allocator may own, when the kernel ends at [kend]. *)
Definition good_page (kend p : Z) : Prop :=
  p mod PGSIZE = 0 /\ 0 < kend <= p /\ p < PHYSTOP.

(** Two aligned pages that share an address are the same page. *)
Lemma page_disjoint p q a :
  p mod PGSIZE = 0 -> q mod PGSIZE = 0 -> in_page p a -> in_page q a -> p = q.
Proof. unfold in_page, PGSIZE. intros. dm. Qed.

(** Memory [m'] agrees with [m] outside the pages [ps]. *)
Definition same_outside (ps : list Z) (m m' : memory) : Prop :=
  forall a, (forall p, p ∈ ps -> ~ in_page p a) -> rd8 m' a = rd8 m a.

Lemma same_outside_refl ps m : same_outside ps m m.
Proof. done. Qed.

Lemma same_outside_trans ps m1 m2 m3 :
  same_outside ps m1 m2 -> same_outside ps m2 m3 -> same_outside ps m1 m3.
Proof. intros H1 H2 a Ha. rewrite H2, H1; auto. Qed.

Lemma same_outside_mono ps qs m m' :
  ps ⊆ qs -> same_outside ps m m' -> same_outside qs m m'.
Proof. intros Hsub H a Ha. apply H. set_solver. Qed.

Lemma same_outside_store32 ps m a v p :
  p ∈ ps -> p <= a -> a + 4 <= p + PGSIZE -> same_outside ps m (store32 m a v).
Proof.
  intros Hp Ha1 Ha2 b Hb. apply rd8_store32_ne. specialize (Hb p Hp).
  unfold in_page in Hb. lia.
Qed.

Lemma same_outside_memset ps m p c :
  p ∈ ps -> same_outside ps m (memset m p c PGSIZE).
Proof.
  intros Hp b Hb. rewrite rd8_memset by done. specialize (Hb p Hp).
  unfold in_page in Hb. by case_decide.
Qed.
#[export] Hint Resolve same_outside_refl same_outside_store32 same_outside_memset : xv6.

(** ** The free list in memory *)

Fixpoint lseg (m : memory) (h : Z) (l : list Z) (t : Z) : Prop :=
  match l with
  | [] => h = t
  | p :: l => h = p /\ lseg m (load32 m p) l t
  end.

Lemma lseg_app m h l1 l2 t :
  lseg m h (l1 ++ l2) t <-> exists mid, lseg m h l1 mid /\ lseg m mid l2 t.
Proof.
  revert h; induction l1 as [|p l1 IH]; intros h; simpl.
  - split; [by exists h|]. by intros (? & -> & ?).
  - rewrite IH. split; [intros (-> & mid & ? & ?)|intros (mid & (-> & ?) & ?)]; eauto.
Qed.

Lemma lseg_ext m m' h l t :
  (forall p, p ∈ l -> load32 m' p = load32 m p) -> lseg m h l t -> lseg m' h l t.
Proof.
  revert h; induction l as [|p l IH]; intros h Heq; simpl; [done|].
  intros [-> Hl]. split; [done|]. rewrite Heq by set_solver.
  apply IH; [set_solver|done].
Qed.

(** The state represents the free list [fl]. *)
Record kinv (kend : Z) (s : kst) (fl : list Z) : Prop := {
  kinv_list : lseg (mem s) (freelist s) fl 0;
  kinv_nodup : NoDup fl;
  kinv_pages : Forall (good_page kend) fl;
  kinv_size : size_freelist s = Z.of_nat (length fl);
  kinv_seed : is_u32 (rand_seed s) /\ rand_seed s <> 0;
  kinv_hist : length (allocated s) = NALLOCATED /\ 0 <= num_alloc s <= Z.of_nat NALLOCATED
}.

Lemma good_page_ne kend p : good_page kend p -> p <> 0.
Proof. unfold good_page. lia. Qed.

(** The first words of two different pages do not overlap. *)
Lemma good_page_sep kend p q :
  good_page kend p -> good_page kend q -> p <> q -> p + 4 <= q \/ q + 4 <= p.
Proof. unfold good_page, PGSIZE. intros. inv_all. dm. Qed.

(** Walking [n] links reaches the [n]-th page, with the page before it. *)
Lemma kwalk_spec m h l1 p l2 rp :
  lseg m h (l1 ++ p :: l2) 0 -> Forall (fun q => q <> 0) l1 ->
  kwalk (length l1) m rp h = Ret (default rp (last l1), p).
Proof.
  revert h rp; induction l1 as [|q l1 IH]; intros h rp Hl Hnz; simpl in *.
  - by destruct Hl as [-> _].
  - destruct Hl as [-> Hl]. inversion Hnz; subst.
    rewrite (proj2 (Z.eqb_neq _ _)) by done. rewrite (IH _ q Hl) by done.
    rewrite last_cons. by destruct (last l1).
Qed.

Lemma length_freelist_bound kend fl :
  NoDup fl -> Forall (good_page kend) fl -> Z.of_nat (length fl) < PHYSTOP / PGSIZE.
Proof.
  intros Hnd Hg.
  assert (fl ⊆+ (Z.mul PGSIZE <$> seqZ 1 (PHYSTOP / PGSIZE - 1))) as Hsub.
  { apply NoDup_submseteq; [done|]. intros p Hp.
    rewrite Forall_forall in Hg. destruct (Hg p Hp) as (? & ? & ?).
    apply list_elem_of_fmap. exists (p / PGSIZE). unfold PGSIZE, PHYSTOP in *.
    split; [dm|]. apply elem_of_seqZ. dm. }
  apply submseteq_length in Hsub. rewrite length_fmap, length_seqZ in Hsub.
  change (PHYSTOP / PGSIZE) with 4096 in *. lia.
Qed.

(** The index drawn by [kalloc] for a free list of length [n]. *)
Definition kdraw (seed n : Z) : Z := Z.rem (fst (xv6_rand seed)) n.

Lemma kdraw_range seed n : 0 < n -> 0 <= kdraw seed n < n.
Proof.
  intros. unfold kdraw. pose proof (xv6_rand_range seed).
  rewrite Z.rem_mod_nonneg by lia. apply Z.mod_pos_bound. lia.
Qed.

(** ** [kfree] *)

(** Writing inside page [v] keeps a free list that does not contain [v]. *)
Lemma lseg_other_page kend m m' v h fl :
  Forall (good_page kend) fl -> v mod PGSIZE = 0 -> v ∉ fl ->
  same_outside [v] m m' -> lseg m h fl 0 -> lseg m' h fl 0.
Proof.
  intros Hg Hv Hnin Hsame. apply lseg_ext. intros p Hp. apply load32_ext.
  intros b Hb. apply Hsame. intros q Hq Hin. apply list_elem_of_singleton in Hq as ->.
  rewrite Forall_forall in Hg. destruct (Hg p Hp) as (Hp1 & _).
  assert (in_page p b) by (unfold in_page, PGSIZE; lia).
  assert (v = p) as -> by eauto using page_disjoint. done.
Qed.

Lemma lseg_head_u32 kend m h fl :
  Forall (good_page kend) fl -> lseg m h fl 0 -> is_u32 h.
Proof.
  destruct fl as [|p fl]; simpl; intros Hg Hl; [subst; done|].
  destruct Hl as [-> _]. inversion Hg as [|? ? (? & ? & ?)]; subst.
  unfold is_u32, PHYSTOP in *. lia.
Qed.

Lemma kfree_spec kend s fl v :
  kinv kend s fl -> good_page kend v -> v ∉ fl ->
  exists s',
    kfree kend v s = Ret s' /\ kinv kend s' (v :: fl) /\
    same_outside [v] (mem s) (mem s') /\
    allocated s' = allocated s /\ num_alloc s' = num_alloc s.
Proof.
  intros [Hl Hnd Hg Hsz Hseed Hh] Hv Hnin.
  pose proof (length_freelist_bound _ _ Hnd Hg) as Hb.
  change (PHYSTOP / PGSIZE) with 4096 in Hb.
  unfold kfree. pose proof Hv as (Hv1 & Hv2 & Hv3).
  rewrite (proj2 (Z.eqb_eq _ _)), (proj2 (Z.ltb_ge _ _)), (proj2 (Z.leb_gt _ _)) by lia.
  assert (same_outside [v] (mem s)
    (store32 (memset (mem s) v 1 PGSIZE) v (freelist s))) as Hsame.
  { eapply same_outside_trans; [by apply same_outside_memset; left|].
    apply (same_outside_store32 _ _ _ _ v); [by left|lia|unfold PGSIZE; lia]. }
  simpl. eexists; split_and!; [done| |done|done|done].
  constructor; simpl; try done.
  - split; [done|]. rewrite load32_store32_eq, u32_small by eauto using lseg_head_u32.
    eauto using lseg_other_page.
  - by constructor.
  - by constructor.
  - rewrite i32_small by (unfold is_i32; lia). lia.
Qed.

(** ** [kalloc] *)

(** Unlinking page [p] after page [q]: the list without [p]. *)
Lemma lseg_unlink kend m h l1 q p l2 :
  Forall (good_page kend) (l1 ++ q :: p :: l2) -> NoDup (l1 ++ q :: p :: l2) ->
  lseg m h (l1 ++ q :: p :: l2) 0 ->
  lseg (store32 m q (load32 m p)) h (l1 ++ q :: l2) 0.
Proof.
  intros Hg Hnd Hl. apply lseg_app in Hl as (mid & Hl1 & -> & Hqp & Hl2).
  rewrite Forall_forall in Hg. apply NoDup_app in Hnd as (_ & Hd & Hnd).
  apply NoDup_cons in Hnd as (Hq & _).
  assert (forall r, r ∈ l1 \/ r ∈ l2 ->
    load32 (store32 m q (load32 m p)) r = load32 m r) as Hother.
  { intros r Hr. assert (r <> q).
    { intros ->. destruct Hr as [Hr|Hr]; [by apply (Hd q Hr); left|by apply Hq; right]. }
    apply load32_store32_ne. apply (good_page_sep kend); auto; apply Hg; set_solver. }
  apply lseg_app. exists q. split; [eapply lseg_ext; [|exact Hl1]; auto|].
  simpl. split; [done|]. rewrite load32_store32_eq, u32_small by apply load32_range.
  eapply lseg_ext; [|exact Hl2]; auto.
Qed.

Lemma kalloc_locked_spec kend s fl :
  kinv kend s fl -> fl <> [] ->
  exists l1 p l2 m' h',
    fl = l1 ++ p :: l2 /\ Z.of_nat (length l1) = kdraw (rand_seed s) (Z.of_nat (length fl)) /\
    kalloc_locked s = Ret (p, Kst m' h' (allocated s) (num_alloc s) (size_freelist s)
                                  (xorshift (rand_seed s))) /\
    lseg m' h' (l1 ++ l2) 0 /\ same_outside l1 (mem s) m'.
Proof.
  intros [Hl Hnd Hg Hsz Hseed Hh] Hne.
  assert (0 < Z.of_nat (length fl)) as Hlen by (destruct fl; simpl; [done|lia]).
  pose proof (kdraw_range (rand_seed s) _ Hlen) as Hrd.
  destruct (lookup_lt_is_Some_2 fl (Z.to_nat (kdraw (rand_seed s) (Z.of_nat (length fl)))))
    as [p Hp]; [lia|].
  apply list_elem_of_split_length in Hp as (l1 & l2 & Hfl & Hl1).
  assert (Z.of_nat (length l1) = kdraw (rand_seed s) (Z.of_nat (length fl))) as Hn by lia.
  unfold kalloc_locked. simpl.
  rewrite (proj2 (Z.eqb_neq (size_freelist s) 0)) by lia.
  rewrite Hsz.
  change (Z.rem (xorshift (rand_seed s) mod XV6_RAND_MAX) (Z.of_nat (length fl)))
    with (kdraw (rand_seed s) (Z.of_nat (length fl))).
  rewrite <- Hn.
  assert (p <> 0 /\ Forall (fun q => q <> 0) l1) as [Hp0 Hl0].
  { subst fl. apply Forall_app in Hg as [Hg1 Hg2]. inversion Hg2; subst.
    split; [by eapply good_page_ne|]. eapply Forall_impl; eauto using good_page_ne. }
  rewrite Hfl in Hl. destruct (decide (l1 = [])) as [->|Hl1ne].
  - simpl in *. destruct Hl as [-> Hl]. rewrite (proj2 (Z.eqb_neq p 0) Hp0).
    exists [], p, l2, (mem s), (load32 (mem s) p). done.
  - assert (length l1 <> 0%nat) by (by destruct l1).
    rewrite (proj2 (Z.eqb_neq (Z.of_nat (length l1)) 0)) by lia.
    rewrite Nat2Z.id, (kwalk_spec _ _ l1 p l2) by done. simpl.
    rewrite (proj2 (Z.eqb_neq p 0) Hp0).
    destruct (last l1) as [q|] eqn:Hlast; [|by apply last_None in Hlast].
    apply last_Some in Hlast as [l1' ->]. rewrite <- app_assoc in *. simpl in *. subst fl.
    eexists (l1' ++ [q]), p, l2, _, _. split_and!; try done.
    + by rewrite <- app_assoc.
    + rewrite <- app_assoc. by eapply lseg_unlink.
    + apply (same_outside_store32 _ _ _ _ q); [set_solver|lia|unfold PGSIZE; lia].
Qed.

Lemma kalloc_spec kend s fl :
  kinv kend s fl -> fl <> [] -> num_alloc s < Z.of_nat NALLOCATED ->
  exists l1 p l2 s',
    fl = l1 ++ p :: l2 /\ Z.of_nat (length l1) = kdraw (rand_seed s) (Z.of_nat (length fl)) /\
    kalloc s = Ret (p, s') /\ kinv kend s' (l1 ++ l2) /\
    same_outside l1 (mem s) (mem s') /\
    allocated s' = <[Z.to_nat (num_alloc s) := p]> (allocated s) /\
    num_alloc s' = num_alloc s + 1.
Proof.
  intros Hk Hne Hroom.
  destruct (kalloc_locked_spec _ _ _ Hk Hne) as (l1 & p & l2 & m' & h' & Hfl & Hn & He & Hl' & Hs').
  destruct Hk as [Hl Hnd Hg Hsz [Hseed Hs0] [Hh1 Hh2]].
  unfold kalloc. rewrite He. simpl. unfold kalloc_record. simpl.
  rewrite aset_Ret by lia. simpl.
  pose proof (length_freelist_bound _ _ Hnd Hg). change (PHYSTOP / PGSIZE) with 4096 in *.
  unfold NALLOCATED in *.
  exists l1, p, l2. eexists; split_and!; try done; simpl.
  - subst fl. constructor; simpl; try done.
    + eapply sublist_NoDup; [exact Hnd|]. apply sublist_app; [done|by constructor].
    + apply Forall_app in Hg as [? Hg]. inversion Hg; subst. by apply Forall_app.
    + rewrite Hsz. rewrite !length_app in *. simpl in *.
      rewrite i32_small by (unfold is_i32; lia). lia.
    + split; [auto with xv6|by apply xorshift_nonzero].
    + rewrite length_insert. unfold NALLOCATED. rewrite i32_small by (unfold is_i32; lia). lia.
  - rewrite i32_small by (unfold is_i32; lia). done.
Qed.

(** ** [kinit] *)

Lemma land_page_mask x : Z.land x (Z.lnot (PGSIZE - 1)) = PGSIZE * (x / PGSIZE).
Proof.
  change (PGSIZE - 1) with (Z.ones 12). rewrite <- Z.ldiff_land.
  rewrite Z.ldiff_ones_r by lia.
  rewrite Z.shiftl_mul_pow2, Z.shiftr_div_pow2 by lia.
  change (2 ^ 12) with PGSIZE. lia.
Qed.

Lemma PGROUNDUP_div sz :
  0 <= sz <= 2 ^ 32 - PGSIZE -> PGROUNDUP sz = PGSIZE * ((sz + PGSIZE - 1) / PGSIZE).
Proof.
  unfold PGROUNDUP. intros. rewrite land_page_mask. apply u32_small.
  unfold is_u32, PGSIZE in *. dm.
Qed.

Lemma PGROUNDDOWN_div a : is_u32 a -> PGROUNDDOWN a = PGSIZE * (a / PGSIZE).
Proof.
  unfold PGROUNDDOWN, is_u32. intros. rewrite land_page_mask. apply u32_small.
  unfold is_u32, PGSIZE in *. dm.
Qed.

(** The [n] pages from [p] on, lowest first. *)
Definition pages_from (p : Z) (n : nat) : list Z :=
  (fun i => p + PGSIZE * i) <$> seqZ 0 (Z.of_nat n).

(** All the pages between the end of the kernel and [PHYSTOP]. *)
Definition boot_pages (kend : Z) : list Z :=
  pages_from (PGROUNDUP kend) (Z.to_nat ((PHYSTOP - PGROUNDUP kend) / PGSIZE)).

Lemma pages_from_S p n : pages_from p (S n) = p :: pages_from (p + PGSIZE) n.
Proof.
  unfold pages_from. rewrite Nat2Z.inj_succ, seqZ_cons by lia.
  rewrite fmap_cons. f_equal; [lia|].
  change (Z.succ 0) with (0 + 1). rewrite Z.pred_succ.
  rewrite (Z.add_comm 0 1). rewrite <- (fmap_add_seqZ 1 0), <- list_fmap_compose.
  apply list_fmap_ext. intros; simpl. lia.
Qed.

Lemma kinit_from_spec kend fuel p s fl :
  kinv kend s fl -> 0 < kend <= p -> p mod PGSIZE = 0 ->
  Forall (fun q => q < p) fl -> PHYSTOP - p <= PGSIZE * Z.of_nat fuel -> p <= PHYSTOP ->
  exists s', kinit_from kend fuel p s = Ret s' /\
    kinv kend s' (reverse (pages_from p (Z.to_nat ((PHYSTOP - p) / PGSIZE))) ++ fl) /\
    num_alloc s' = num_alloc s.
Proof.
  revert p s fl; induction fuel as [|fuel IH]; intros p s fl Hk Hp Hal Hlt Hfuel Htop.
  - assert (p = PHYSTOP) as -> by lia. by exists s.
  - simpl. destruct (Z.leb_spec (p + PGSIZE) PHYSTOP) as [Hle|Hgt].
    + destruct (kfree_spec kend s fl p) as (s1 & -> & Hk1 & _ & _ & Hna1); simpl; auto.
      { unfold good_page, PGSIZE in *. lia. }
      { intros Hin. rewrite Forall_forall in Hlt. specialize (Hlt p Hin). lia. }
      destruct (IH (p + PGSIZE) s1 (p :: fl)) as (s2 & -> & Hk2 & Hna2).
      * done.
      * unfold PGSIZE; lia.
      * unfold PGSIZE in *. dm.
      * constructor; [unfold PGSIZE; lia|]. eapply Forall_impl; [exact Hlt|].
        simpl; unfold PGSIZE; lia.
      * unfold PGSIZE in *. lia.
      * unfold PGSIZE in *; lia.
      * exists s2. split; [done|]. split; [|congruence].
        replace (Z.to_nat ((PHYSTOP - p) / PGSIZE))
          with (S (Z.to_nat ((PHYSTOP - (p + PGSIZE)) / PGSIZE))) by (unfold PGSIZE in *; dm).
        by rewrite pages_from_S, reverse_cons, <- app_assoc.
    + exists s. assert ((PHYSTOP - p) / PGSIZE = 0) as -> by (unfold PGSIZE in *; dm). done.
Qed.

Lemma kinv_boot kend m : kinv kend (kst_boot m) [].
Proof.
  by constructor; simpl; try constructor.
Qed.

Lemma kinit_spec kend m :
  0 < kend <= PHYSTOP ->
  exists s, kinit kend (kst_boot m) = Ret s /\
            kinv kend s (reverse (boot_pages kend)) /\ num_alloc s = 0.
Proof.
  intros Hk. unfold kinit.
  assert (PGROUNDUP kend = PGSIZE * ((kend + PGSIZE - 1) / PGSIZE)) as E
    by (apply PGROUNDUP_div; unfold PHYSTOP, PGSIZE in *; lia).
  destruct (kinit_from_spec kend (Z.to_nat (PHYSTOP / PGSIZE)) (PGROUNDUP kend)
    (kst_boot m) []) as (s & He & Hi & Hn).
  - apply kinv_boot.
  - rewrite E. unfold PGSIZE. dm.
  - rewrite E. unfold PGSIZE. dm.
  - constructor.
  - rewrite E. unfold PHYSTOP, PGSIZE. dm.
  - rewrite E. unfold PHYSTOP, PGSIZE in *. dm.
  - exists s. by rewrite app_nil_r in Hi.
Qed.

(** ** Clients of the allocator

    A client allocates pages, frees pages it holds and writes into pages it
    holds.  [live] are the pages it holds, [hist] all pages it was ever given,
    oldest first. *)

Inductive kreach (kend : Z) (m0 : memory) : kst -> list Z -> list Z -> Prop :=
| kreach_boot s :
    kinit kend (kst_boot m0) = Ret s -> kreach kend m0 s [] []
| kreach_alloc s live hist p s' :
    kreach kend m0 s live hist -> kalloc s = Ret (p, s') ->
    kreach kend m0 s' (p :: live) (hist ++ [p])
| kreach_free s l1 v l2 hist s' :
    kreach kend m0 s (l1 ++ v :: l2) hist -> kfree kend v s = Ret s' ->
    kreach kend m0 s' (l1 ++ l2) hist
| kreach_write s live hist m' :
    kreach kend m0 s live hist -> same_outside live (mem s) m' ->
    kreach kend m0 (set_mem m' s) live hist.

(** What holds along every such run: free and held pages together are the
    pages of the machine, and the array records the history. *)
Record kclient (kend : Z) (s : kst) (live hist fl : list Z) : Prop := {
  kc_inv : kinv kend s fl;
  kc_pages : fl ++ live ≡ₚ boot_pages kend;
  kc_num : num_alloc s = Z.of_nat (length hist);
  kc_hist : take (length hist) (allocated s) = hist
}.

Lemma boot_pages_good kend :
  0 < kend <= PHYSTOP -> NoDup (boot_pages kend) /\ Forall (good_page kend) (boot_pages kend).
Proof.
  intros Hk. unfold boot_pages, pages_from.
  rewrite PGROUNDUP_div by (unfold PHYSTOP, PGSIZE in *; lia).
  split.
  - apply NoDup_fmap_2; [|apply NoDup_seqZ]. intros i j. unfold PGSIZE. lia.
  - apply Forall_fmap, Forall_forall. intros i Hi. apply elem_of_seqZ in Hi.
    unfold compose, good_page, PGSIZE, PHYSTOP in *. dm.
Qed.

Lemma kclient_nodup kend s live hist fl :
  0 < kend <= PHYSTOP -> kclient kend s live hist fl ->
  NoDup (fl ++ live) /\ Forall (good_page kend) (fl ++ live).
Proof.
  intros Hk [_ Hp _ _]. destruct (boot_pages_good kend Hk) as [Hn Hg].
  split; [by rewrite Hp|by rewrite Hp].
Qed.

(** Writes to held pages do not reach the free list. *)
Lemma kinv_write kend s fl live m' :
  Forall (good_page kend) (fl ++ live) -> NoDup (fl ++ live) ->
  kinv kend s fl -> same_outside live (mem s) m' -> kinv kend (set_mem m' s) fl.
Proof.
  intros Hg Hn [Hl Hnd Hgf Hsz Hseed Hh] Hw. constructor; try done. simpl.
  eapply lseg_ext; [|exact Hl]. intros p Hp. apply load32_ext. intros b Hb. apply Hw.
  intros q Hq Hin. rewrite Forall_forall in Hg.
  assert (p = q) as ->.
  { eapply page_disjoint; [apply Hg; set_solver..| |exact Hin].
    unfold in_page, PGSIZE; lia. }
  apply NoDup_app in Hn as (_ & Hd & _). by apply (Hd q).
Qed.

(** What a successful [kalloc] does to a client. *)
Lemma kclient_alloc kend s live hist fl p s' :
  kclient kend s live hist fl -> kalloc s = Ret (p, s') ->
  exists l1 l2, fl = l1 ++ p :: l2 /\ kclient kend s' (p :: live) (hist ++ [p]) (l1 ++ l2) /\
    same_outside l1 (mem s) (mem s').
Proof.
  intros [Hk Hp Hn Hh] He.
  assert (fl <> []) as Hne.
  { intros ->. unfold kalloc, kalloc_locked in He. simpl in He.
    by rewrite (kinv_size _ _ _ Hk) in He. }
  assert (num_alloc s < Z.of_nat NALLOCATED) as Hroom.
  { destruct (kalloc_locked_spec _ _ _ Hk Hne) as (? & ? & ? & ? & ? & _ & _ & El & _).
    unfold kalloc in He. rewrite El in He. simpl in He. unfold kalloc_record, aset in He.
    simpl in He. rewrite (proj1 (kinv_hist _ _ _ Hk)) in He. case_decide; [lia|done]. }
  destruct (kalloc_spec _ _ _ Hk Hne Hroom)
    as (l1 & p' & l2 & s1 & -> & _ & E & Hk' & Hs & Ha & Hna).
  rewrite E in He. inv_all. exists l1, l2. split_and!; try done.
  constructor; try done.
  - rewrite <- Hp, <- !app_assoc. by rewrite <- Permutation_middle.
  - rewrite Hna, length_app, Hn. simpl. lia.
  - rewrite Ha, Hn, Nat2Z.id, length_app, Nat.add_1_r.
    assert (length hist < length (allocated s))%nat.
    { rewrite (proj1 (kinv_hist _ _ _ Hk)). lia. }
    rewrite (take_S_r _ _ p) by (by apply list_lookup_insert_eq).
    by rewrite take_insert_ge, Hh by lia.
Qed.

Lemma kclient_free kend s l1 v l2 hist fl s' :
  0 < kend <= PHYSTOP ->
  kclient kend s (l1 ++ v :: l2) hist fl -> kfree kend v s = Ret s' ->
  kclient kend s' (l1 ++ l2) hist (v :: fl).
Proof.
  intros Hkend Hc He. destruct (kclient_nodup _ _ _ _ _ Hkend Hc) as [Hnd Hg].
  destruct Hc as [Hk Hp Hn Hh].
  rewrite Forall_forall in Hg. apply NoDup_app in Hnd as (_ & Hd & _).
  destruct (kfree_spec _ _ _ v Hk) as (s1 & E & Hk1 & _ & Ha & Hna).
  { apply Hg. set_solver. }
  { intros Hin. apply (Hd v Hin). set_solver. }
  rewrite E in He. inv_all. constructor; try done; try congruence.
  rewrite <- Hp. rewrite (Permutation_app_comm l1 (v :: l2)). simpl.
  rewrite <- Permutation_middle. by rewrite (Permutation_app_comm l2 l1).
Qed.

(** Every run of a client keeps the invariant. *)
Lemma kreach_client kend m0 s live hist :
  0 < kend <= PHYSTOP -> kreach kend m0 s live hist ->
  exists fl, kclient kend s live hist fl.
Proof.
  intros Hkend H. induction H as [s Hs|s live hist p s' _ [fl IH] He|
    s l1 v l2 hist s' _ [fl IH] He|s live hist m' _ [fl IH] Hw].
  - destruct (kinit_spec kend m0 Hkend) as (s0 & E & Hi & Hn). rewrite E in Hs. inv_all.
    exists (reverse (boot_pages kend)). constructor; try done.
    by rewrite app_nil_r, reverse_Permutation.
  - destruct (kclient_alloc _ _ _ _ _ _ _ IH He) as (l1 & l2 & _ & Hc & _). eauto.
  - eauto using kclient_free.
  - destruct (kclient_nodup _ _ _ _ _ Hkend IH). destruct IH. exists fl.
    constructor; try done. eapply kinv_write; eauto.
Qed.

(** ** [dump_allocated] *)

Lemma dump_loop s hist k n acc :
  take (length hist) (allocated s) = hist -> num_alloc s = Z.of_nat (length hist) ->
  (k + n <= length hist)%nat ->
  iterM (fun i acc => x ← aget (allocated s) (num_alloc s - 1 - Z.of_nat i);
                      Ret (acc ++ [x])) (seq k n) acc
  = Ret (acc ++ take n (drop k (reverse hist))).
Proof.
  intros Hh Hn. revert k acc; induction n as [|n IH]; intros k acc Hk; simpl.
  - by rewrite take_0, app_nil_r.
  - destruct (lookup_lt_is_Some_2 (reverse hist) k) as [x Hx]; [rewrite length_reverse; lia|].
    pose proof Hx as Hx'. rewrite reverse_lookup in Hx' by lia.
    assert (aget (allocated s) (num_alloc s - 1 - Z.of_nat k) = Ret x) as ->.
    { apply aget_Ret. split; [lia|]. rewrite <- Hh in Hx'.
      apply lookup_take_Some in Hx' as [Hx' _]. rewrite Hh in Hx'.
      replace (Z.to_nat (num_alloc s - 1 - Z.of_nat k)) with (length hist - S k)%nat by lia.
      done. }
    simpl. rewrite IH by lia. rewrite (drop_S _ _ _ Hx). simpl.
    by rewrite <- app_assoc.
Qed.

Lemma dump_allocated_spec kend s live hist fl n :
  kclient kend s live hist fl ->
  dump_allocated s n =
  Ret (if Z.of_nat (length hist) <? n then None
       else Some (take (Z.to_nat n) (reverse hist))).
Proof.
  intros [_ _ Hn Hh]. unfold dump_allocated. rewrite Hn.
  destruct (Z.ltb_spec (Z.of_nat (length hist)) n); [done|].
  rewrite <- Hn, (dump_loop s hist) by (done || lia). done.
Qed.

(** ** Properties *)

(** A machine with two free pages, for concrete runs: at boot, and after both
    pages were allocated. *)
Definition demo_kend : Z := PHYSTOP - 3 * PGSIZE + 1.
Definition demo_boot : kst :=
  match kinit demo_kend (kst_boot ∅) with Ret s => s | _ => kst_boot ∅ end.
Definition run2 (s0 : kst) : outcome (kst * list Z) :=
  '(p, s1) ← kalloc s0;
  '(q, s2) ← kalloc s1;
  Ret (s2, [q; p]).
Definition demo_full : kst :=
  match run2 demo_boot with Ret (s, _) => s | _ => demo_boot end.

Lemma run2_reach kend s0 s2 p q :
  kreach kend ∅ s0 [] [] -> run2 s0 = Ret (s2, [q; p]) ->
  kreach kend ∅ s2 [q; p] [p; q].
Proof.
  intros H0 Hr. unfold run2 in Hr. bind_inv Hr. destruct a as [p' s1].
  bind_inv Hr. destruct a as [q' s2']. inv_all.
  change [p; q] with (([] ++ [p]) ++ [q]).
  eapply kreach_alloc; [eapply kreach_alloc|]; eauto.
Qed.

Lemma demo_boot_reach : kreach demo_kend ∅ demo_boot [] [].
Proof.
  apply kreach_boot. unfold demo_boot.
  destruct (kinit_spec demo_kend ∅) as (s & E & _); [vm_compute; split; congruence|].
  by rewrite E.
Qed.

Lemma demo_full_reach :
  kreach demo_kend ∅ demo_full [16773120; 16769024] [16769024; 16773120].
Proof.
  assert (match run2 demo_boot with Ret (_, l) => Some l | _ => None end
          = Some [16773120; 16769024]) as E by (vm_compute; reflexivity).
  apply (run2_reach _ demo_boot); [apply demo_boot_reach|]. unfold demo_full.
  destruct (run2 demo_boot) as [[s2 l]| |]; [|done..]. by injection E as ->.
Qed.

(** C8.  In every run of clients that free only pages they hold and write only
    into pages they hold, no page is held twice, held pages lie between the end
    of the kernel and [PHYSTOP], and a further [kalloc] gives a page nobody
    holds without changing one byte of the pages that are held. *)
Theorem kalloc_exclusive kend m0 s live hist :
  0 < kend <= PHYSTOP -> kreach kend m0 s live hist ->
  NoDup live /\ Forall (good_page kend) live /\
  forall p s', kalloc s = Ret (p, s') ->
    (p ∉ live) /\ good_page kend p /\ p <> 0 /\
    forall q a, q ∈ live -> in_page q a -> rd8 (mem s') a = rd8 (mem s) a.
Proof.
  intros Hkend H. destruct (kreach_client _ _ _ _ _ Hkend H) as [fl Hc].
  destruct (kclient_nodup _ _ _ _ _ Hkend Hc) as [Hnd Hg].
  pose proof Hnd as (_ & Hd & Hndl)%NoDup_app. pose proof Hg as [_ Hgl]%Forall_app.
  split_and!; try done. intros p s' He.
  destruct (kclient_alloc _ _ _ _ _ _ _ Hc He) as (l1 & l2 & -> & _ & Hs).
  rewrite Forall_forall in Hg. assert (good_page kend p) by (apply Hg; set_solver).
  split_and!; eauto using good_page_ne.
  - apply Hd. set_solver.
  - intros q a Hq Hin. apply Hs. intros r Hr Hin'.
    assert (q = r) as <- by (eapply page_disjoint; eauto; apply Hg; set_solver).
    apply (Hd q); set_solver.
Qed.

Lemma kalloc_exclusive_witness :
  NoDup [16773120; 16769024] /\ Forall (good_page demo_kend) [16773120; 16769024].
Proof.
  destruct (kalloc_exclusive demo_kend ∅ demo_full [16773120; 16769024] [16769024; 16773120])
    as (H1 & H2 & _); [vm_compute; split; congruence|apply demo_full_reach|exact (conj H1 H2)].
Defined.

(** C29.  [kalloc] returns exactly while a free page is left and fewer than 512
    pages were ever allocated: with an empty free list the index computation
    divides by zero instead of returning 0, and the 513th allocation of the
    machine's life writes past the end of [allocated]. *)
Theorem kalloc_limits kend m0 s live hist :
  0 < kend <= PHYSTOP -> kreach kend m0 s live hist ->
  if decide (length live = length (boot_pages kend))
  then kalloc s = Undef "division by zero"
  else if decide (length hist = NALLOCATED)
  then kalloc s = Undef "array index out of bounds"
  else exists p s', kalloc s = Ret (p, s').
Proof.
  intros Hkend H. destruct (kreach_client _ _ _ _ _ Hkend H) as [fl [Hk Hp Hn Hh]].
  apply Permutation_length in Hp. rewrite length_app in Hp.
  destruct (decide (fl = [])) as [->|Hne].
  - rewrite decide_True by (simpl in Hp; lia).
    unfold kalloc, kalloc_locked. simpl. by rewrite (kinv_size _ _ _ Hk).
  - assert (length fl <> 0%nat) by (by destruct fl).
    rewrite decide_False by lia. case_decide as Hl.
    + destruct (kalloc_locked_spec _ _ _ Hk Hne) as (? & ? & ? & ? & ? & _ & _ & El & _).
      unfold kalloc. rewrite El. simpl. unfold kalloc_record, aset. simpl.
      rewrite (proj1 (kinv_hist _ _ _ Hk)). case_decide; [lia|done].
    + pose proof (proj2 (kinv_hist _ _ _ Hk)).
      destruct (kalloc_spec _ _ _ Hk Hne) as (? & p & ? & s' & _ & _ & E & _); [lia|]. eauto.
Qed.

Lemma kalloc_limits_witness : kalloc demo_full = Undef "division by zero".
Proof.
  pose proof (kalloc_limits demo_kend ∅ demo_full [16773120; 16769024] [16769024; 16773120]
    ltac:(vm_compute; split; congruence) demo_full_reach) as H.
  rewrite decide_True in H by (vm_compute; reflexivity). exact H.
Defined.

(** [dump_allocated] stores the last [numframes] pages handed out, most
    recent first, and fails exactly when fewer pages were ever allocated. *)
Theorem dump_allocated_hist kend m0 s live hist n :
  0 < kend <= PHYSTOP -> kreach kend m0 s live hist ->
  dump_allocated s n =
  Ret (if Z.of_nat (length hist) <? n then None
       else Some (take (Z.to_nat n) (reverse hist))).
Proof.
  intros Hkend H. destruct (kreach_client _ _ _ _ _ Hkend H) as [fl Hc].
  by apply (dump_allocated_spec kend s live hist fl).
Qed.

Lemma dump_allocated_hist_witness :
  dump_allocated demo_full 1 = Ret (Some [16773120]) /\
  dump_allocated demo_full 3 = Ret None.
Proof.
  split; (rewrite (dump_allocated_hist demo_kend ∅ demo_full [16773120; 16769024]
    [16769024; 16773120]); [reflexivity|vm_compute; split; congruence|apply demo_full_reach]).
Defined.

(**  The counters are updated after [kmem.lock] is released: when two
    processors run their critical sections before either has adjusted
    [size_freelist], the second draws its index from a stale length and runs off
    the end of the list, although both calls succeed one after the other. *)
Theorem kalloc_race :
  (exists p s1 q s2, kalloc demo_boot = Ret (p, s1) /\ kalloc s1 = Ret (q, s2)) /\
  exists p s1, kalloc_locked demo_boot = Ret (p, s1) /\
               kalloc_locked s1 = Undef "null dereference".
Proof.
  assert ((x ← kalloc demo_boot; y ← kalloc (snd x); Ret (fst x, fst y)) =
    Ret (16769024, 16773120)) as E1 by (vm_compute; reflexivity).
  assert ((x ← kalloc_locked demo_boot; y ← kalloc_locked (snd x); Ret (fst x, fst y)) =
    Undef "null dereference") as E2 by (vm_compute; reflexivity).
  generalize dependent demo_boot. intros s E1 E2. split.
  - bind_inv E1. bind_inv E1. destruct a as [p s1], a0 as [q s2]. by exists p, s1, q, s2.
  - destruct (kalloc_locked s) as [[p s1]| |] eqn:E3; simpl in E2; [|done|].
    + exists p, s1. split; [done|]. destruct (kalloc_locked s1) as [[]| |]; simpl in E2; congruence.
    + exfalso. revert E1. unfold kalloc. rewrite E3. done.
Qed.
