(* ===== verification/Vm.v ===== *)
(** * Virtual memory

    Models [kernel/vm.c] (two-level x86 page tables in the allocator's memory),
    the paging macros of [kernel/mmu.h], and the page-protection system calls
    [mprotect], [munprotect] and [growproc] of [kernel/proc.c].  Page tables
    are words in memory; [pte_val] is the entry the hardware finds for an
    address, and [wfdir] says that a directory and its tables are distinct
    pages outside the free list. *)

From S2P Require Import Prelude Rand Memory Kalloc.

(** ** Layout of addresses and entries *)

Definition PTE_P : Z := 0x001.
Definition PTE_W : Z := 0x002.
Definition PTE_U : Z := 0x004.
Definition NPDENTRIES : Z := 1024.
Definition USERTOP : Z := 0xA0000.

Definition PDX (la : Z) : Z := Z.land (Z.shiftr la 22) 0x3FF.
Definition PTX (la : Z) : Z := Z.land (Z.shiftr la 12) 0x3FF.
Definition PGADDR (d t o : Z) : Z := u32 (Z.lor (Z.lor (Z.shiftl d 22) (Z.shiftl t 12)) o).
Definition PTE_ADDR (pte : Z) : Z := u32 (Z.land pte (Z.lnot 0xFFF)).

(** [e & flag] as a condition. *)
Definition has (e flag : Z) : bool := negb (Z.land e flag =? 0).

Section Vm.

(** [end] and [data], placed by the linker. *)
Variable kend : Z.
Variable data : Z.

(** ** Walking and mapping *)

(** The address of the entry for [va], or 0. *)
Definition walkpgdir (pgdir va : Z) (create : bool) (s : kst) : outcome (Z * kst) :=
  let pde := pgdir + 4 * PDX va in
  let pdev := load32 (mem s) pde in
  if has pdev PTE_P then Ret (PTE_ADDR pdev + 4 * PTX va, s)
  else if negb create then Ret (0, s)
  else
    '(pgtab, s) ← kalloc s;
    if pgtab =? 0 then Ret (0, s) else
    let m := memset (mem s) pgtab 0 PGSIZE in
    let m := store32 m pde (Z.lor (Z.lor (Z.lor pgtab PTE_P) PTE_W) PTE_U) in
    Ret (pgtab + 4 * PTX va, set_mem m s).

(** The [for(;;)] of [mappages]; 2^20 rounds visit every page. *)
Fixpoint mappages_loop (fuel : nat) (pgdir a last pa perm : Z) (s : kst)
  : outcome (Z * kst) :=
  match fuel with
  | O => Undef "loop bound"
  | S fuel =>
    '(pte, s) ← walkpgdir pgdir a true s;
    if pte =? 0 then Ret (-1, s)
    else if has (load32 (mem s) pte) PTE_P then Panic "remap"
    else
      let s := set_mem (store32 (mem s) pte (Z.lor (Z.lor pa perm) PTE_P)) s in
      if a =? last then Ret (0, s)
      else mappages_loop fuel pgdir (u32 (a + PGSIZE)) last (u32 (pa + PGSIZE)) perm s
  end.

(** Pages from [a] to [last], both included, modulo 2^32. *)
Definition npages (a last : Z) : nat := Z.to_nat (u32 (last - a) / PGSIZE + 1).

Definition mappages (pgdir la size pa perm : Z) (s : kst) : outcome (Z * kst) :=
  let a := PGROUNDDOWN la in
  let last := PGROUNDDOWN (u32 (la + size - 1)) in
  mappages_loop (npages a last) pgdir a last pa perm s.

(** ** The kernel part of a page table *)

Definition kmap : list (Z * Z * Z) :=
  [(USERTOP, 0x100000, PTE_W);
   (0x100000, data, 0);
   (data, PHYSTOP, PTE_W);
   (0xFE000000, 0, PTE_W)].

Fixpoint setupkvm_loop (k : list (Z * Z * Z)) (pgdir : Z) (s : kst) : outcome (Z * kst) :=
  match k with
  | [] => Ret (pgdir, s)
  | (p, e, perm) :: k =>
    '(r, s) ← mappages pgdir p (u32 (e - p)) p perm s;
    if r <? 0 then Ret (0, s) else setupkvm_loop k pgdir s
  end.

Definition setupkvm (s : kst) : outcome (Z * kst) :=
  '(pgdir, s) ← kalloc s;
  if pgdir =? 0 then Ret (0, s) else
  setupkvm_loop kmap pgdir (set_mem (memset (mem s) pgdir 0 PGSIZE) s).

(** ** User memory *)

(** [readi] of [kernel/fs.c] for the inode of the program: destination,
    offset and count, giving the number of bytes read.  [X] is the state of
    the file system. *)
Definition read_fun (X : Type) : Type := Z -> Z -> Z -> kst * X -> outcome (Z * (kst * X)).

Fixpoint loaduvm_loop {X} (fuel : nat) (readi : read_fun X) (pgdir addr offset i sz : Z) (s : kst) (x : X)
  : outcome (Z * (kst * X)) :=
  match fuel with
  | O => Undef "loop bound"
  | S fuel =>
    if i <? sz then
      '(pte, s) ← walkpgdir pgdir (u32 (addr + i)) false s;
      if pte =? 0 then Panic "loaduvm: address should exist" else
      let pa := PTE_ADDR (load32 (mem s) pte) in
      let n := if u32 (sz - i) <? PGSIZE then u32 (sz - i) else PGSIZE in
      '(r, (s, x)) ← readi pa (u32 (offset + i)) n (s, x);
      if negb (u32 r =? n) then Ret (-1, (s, x))
      else loaduvm_loop fuel readi pgdir addr offset (u32 (i + PGSIZE)) sz s x
    else Ret (0, (s, x))
  end.

Definition loaduvm {X} (readi : read_fun X) (pgdir addr offset sz : Z) (s : kst) (x : X)
  : outcome (Z * (kst * X)) :=
  if negb (addr mod PGSIZE =? 0) then Panic "loaduvm: addr must be page aligned"
  else loaduvm_loop (Z.to_nat (sz / PGSIZE + 2)) readi pgdir addr offset 0 sz s x.

Definition inituvm (pgdir init sz : Z) (s : kst) : outcome kst :=
  if PGSIZE <=? sz then Panic "inituvm: more than a page"
  else
    '(m, s) ← kalloc s;
    let s := set_mem (memset (mem s) m 0 PGSIZE) s in
    '(_, s) ← mappages pgdir 0 PGSIZE m (Z.lor PTE_W PTE_U) s;
    Ret (set_mem (memmove (mem s) m init sz) s).

Fixpoint deallocuvm_loop (fuel : nat) (pgdir a oldsz : Z) (s : kst) : outcome kst :=
  match fuel with
  | O => Undef "loop bound"
  | S fuel =>
    if a <? oldsz then
      '(pte, s) ← walkpgdir pgdir a false s;
      s ← (if negb (pte =? 0) && has (load32 (mem s) pte) PTE_P then
             let pa := PTE_ADDR (load32 (mem s) pte) in
             if pa =? 0 then Panic "kfree"
             else
               s ← kfree kend pa s;
               Ret (set_mem (store32 (mem s) pte 0) s)
           else Ret s);
      deallocuvm_loop fuel pgdir (u32 (a + PGSIZE)) oldsz s
    else Ret s
  end.

Definition deallocuvm (pgdir oldsz newsz : Z) (s : kst) : outcome (Z * kst) :=
  if oldsz <=? newsz then Ret (i32 oldsz, s)
  else
    s ← deallocuvm_loop (Z.to_nat (oldsz / PGSIZE + 2)) pgdir (PGROUNDUP newsz) oldsz s;
    Ret (i32 newsz, s).

(** [Ret (r, s)]: [allocuvm] returns [r]. *)
Fixpoint allocuvm_loop (fuel : nat) (pgdir a oldsz newsz : Z) (s : kst)
  : outcome (Z * kst) :=
  match fuel with
  | O => Undef "loop bound"
  | S fuel =>
    if a <? newsz then
      '(m, s) ← kalloc s;
      if m =? 0 then
        '(_, s) ← deallocuvm pgdir newsz oldsz s;
        Ret (0, s)
      else
        let s := set_mem (memset (mem s) m 0 PGSIZE) s in
        '(_, s) ← mappages pgdir a PGSIZE m (Z.lor PTE_W PTE_U) s;
        allocuvm_loop fuel pgdir (u32 (a + PGSIZE)) oldsz newsz s
    else Ret (i32 newsz, s)
  end.

Definition allocuvm (pgdir oldsz newsz : Z) (s : kst) : outcome (Z * kst) :=
  if USERTOP <? newsz then Ret (0, s)
  else if newsz <? oldsz then Ret (i32 oldsz, s)
  else allocuvm_loop (Z.to_nat (newsz / PGSIZE + 2)) pgdir (PGROUNDUP oldsz) oldsz newsz s.

Definition freevm (pgdir : Z) (s : kst) : outcome kst :=
  if pgdir =? 0 then Panic "freevm: no pgdir"
  else
    '(_, s) ← deallocuvm pgdir USERTOP 0 s;
    s ← iterM (fun i s =>
           let e := load32 (mem s) (pgdir + 4 * i) in
           if has e PTE_P then kfree kend (PTE_ADDR e) s else Ret s)
         (seqZ 0 NPDENTRIES) s;
    kfree kend pgdir s.

(** The copy loop of [copyuvm]; [false] is the jump to [bad]. *)
Fixpoint copyuvm_loop (fuel : nat) (pgdir d i sz : Z) (s : kst) : outcome (bool * kst) :=
  match fuel with
  | O => Undef "loop bound"
  | S fuel =>
    if i <? sz then
      '(pte, s) ← walkpgdir pgdir i false s;
      if pte =? 0 then Panic "copyuvm: pte should exist" else
      let e := load32 (mem s) pte in
      if negb (has e PTE_P) then Panic "copyuvm: page not present" else
      let pa := PTE_ADDR e in
      '(m, s) ← kalloc s;
      if m =? 0 then Ret (false, s) else
      let s := set_mem (memmove (mem s) m pa PGSIZE) s in
      '(r, s) ← (if Z.land (load32 (mem s) pte) PTE_W =? 0
                 then mappages d i PGSIZE m PTE_U s
                 else mappages d i PGSIZE m (Z.lor PTE_W PTE_U) s);
      if r <? 0 then Ret (false, s)
      else copyuvm_loop fuel pgdir d (u32 (i + PGSIZE)) sz s
    else Ret (true, s)
  end.

Definition copyuvm (pgdir sz : Z) (s : kst) : outcome (Z * kst) :=
  '(d, s) ← setupkvm s;
  if d =? 0 then Ret (0, s) else
  '(ok, s) ← copyuvm_loop (Z.to_nat (sz / PGSIZE + 2)) pgdir d 0 sz s;
  if ok : bool then Ret (d, s)
  else s ← freevm d s; Ret (0, s).

Definition uva2ka (pgdir uva : Z) (s : kst) : outcome Z :=
  '(pte, _) ← walkpgdir pgdir uva false s;
  if pte =? 0 then Undef "null dereference" else
  let e := load32 (mem s) pte in
  if negb (has e PTE_P) then Ret 0
  else if negb (has e PTE_U) then Ret 0
  else Ret (PTE_ADDR e).

Fixpoint copyout_loop (fuel : nat) (pgdir va buf len : Z) (s : kst) : outcome (Z * kst) :=
  match fuel with
  | O => Undef "loop bound"
  | S fuel =>
    if 0 <? len then
      let va0 := PGROUNDDOWN va in
      pa0 ← uva2ka pgdir va0 s;
      if pa0 =? 0 then Ret (-1, s) else
      let n := u32 (PGSIZE - (va - va0)) in
      let n := if len <? n then len else n in
      let s := set_mem (memmove (mem s) (pa0 + (va - va0)) buf n) s in
      copyout_loop fuel pgdir (u32 (va0 + PGSIZE)) (buf + n) (len - n) s
    else Ret (0, s)
  end.

Definition copyout (pgdir va p len : Z) (s : kst) : outcome (Z * kst) :=
  copyout_loop (Z.to_nat (len / PGSIZE + 2)) pgdir va p len s.

End Vm.

(** ** Page protection ([kernel/proc.c]) *)

(** The loop of [mprotect] and [munprotect]; [f] changes the entry. *)
Fixpoint protect_loop (f : Z -> Z) (fuel : nat) (pgdir addr last : Z) (s : kst)
  : outcome (Z * kst) :=
  match fuel with
  | O => Undef "loop bound"
  | S fuel =>
    let pdev := load32 (mem s) (pgdir + 4 * PDX addr) in
    let next s :=
      if addr =? last then Ret (0, s)
      else protect_loop f fuel pgdir (u32 (addr + PGSIZE)) last s in
    if has pdev PTE_P then
      let pte := PTE_ADDR pdev + 4 * PTX addr in
      if has (load32 (mem s) pte) PTE_P
      then next (set_mem (store32 (mem s) pte (f (load32 (mem s) pte))) s)
      else Ret (-1, s)
    else next s
  end.

Definition protect (f : Z -> Z) (pgdir addr len : Z) (s : kst) : outcome (Z * kst) :=
  if negb (addr =? PGROUNDDOWN addr) then Ret (-1, s)
  else if len <=? 0 then Ret (-1, s)
  else if negb ((len - 1) * PGSIZE <? 2 ^ 31) then Undef "signed overflow"
  else protect_loop f (Z.to_nat len) pgdir addr (u32 (addr + (len - 1) * PGSIZE)) s.

Definition clear_w (e : Z) : Z := Z.land e 0xFFFFFFFD.
Definition set_w (e : Z) : Z := Z.lor e 0x0000002.

Definition mprotect := protect clear_w.
Definition munprotect := protect set_w.

(** [growproc(n)] for the process with page directory [pgdir] and size [sz]:
    the return value and the new size. *)
Definition growproc (kend pgdir sz n : Z) (s : kst) : outcome (Z * Z * kst) :=
  let switch sz s :=
    if pgdir =? 0 then Panic "switchuvm: no pgdir" else Ret (0, sz, s) in
  if 0 <? n then
    '(sz', s) ← allocuvm kend pgdir sz (u32 (sz + n)) s;
    if sz' =? 0 then Ret (-1, sz, s) else switch (u32 sz') s
  else if n <? 0 then
    '(sz', s) ← deallocuvm kend pgdir sz (u32 (sz + n)) s;
    if sz' =? 0 then Ret (-1, sz, s) else switch (u32 sz') s
  else switch sz s.

(** ** Facts about addresses and entries *)

Lemma has_P e : has e PTE_P = Z.odd e.
Proof.
  unfold has, PTE_P. change 1 with (Z.ones 1). rewrite Z.land_ones by lia.
  rewrite Zmod_odd. by destruct (Z.odd e).
Qed.

Lemma has_bit e i : 0 <= i -> has e (2 ^ i) = Z.testbit e i.
Proof.
  intros Hi. assert (E : Z.land e (2 ^ i) = if Z.testbit e i then 2 ^ i else 0).
  { apply Z.bits_inj'. intros n Hn. rewrite Z.land_spec, Z.pow2_bits_eqb by done.
    destruct (Z.eqb_spec i n) as [->|Hne].
    - destruct (Z.testbit e n); rewrite ?Z.pow2_bits_eqb, ?Z.eqb_refl, ?Z.bits_0 by done; done.
    - rewrite andb_false_r. destruct (Z.testbit e i); rewrite ?Z.bits_0; [|done].
      rewrite Z.pow2_bits_eqb by done. symmetry. by apply Z.eqb_neq. }
  unfold has. rewrite E. pose proof (Z.pow_pos_nonneg 2 i ltac:(lia) Hi).
  destruct (Z.testbit e i); [|done]. rewrite (proj2 (Z.eqb_neq _ _)); [done|lia].
Qed.

Lemma has_W e : has e PTE_W = Z.testbit e 1.
Proof. apply (has_bit e 1). lia. Qed.

Lemma has_U e : has e PTE_U = Z.testbit e 2.
Proof. apply (has_bit e 2). lia. Qed.

Lemma aligned_bit p i : p mod PGSIZE = 0 -> 0 <= i < 12 -> Z.testbit p i = false.
Proof.
  intros Hp Hi. rewrite (Z.div_mod p PGSIZE), Hp, Z.add_0_r, Z.mul_comm by done.
  apply (Z.mul_pow2_bits_low _ 12). lia.
Qed.

Lemma PDX_div a : is_u32 a -> PDX a = a / PGSIZE / 1024.
Proof.
  intros Ha. unfold PDX, is_u32, PGSIZE in *. change 0x3FF with (Z.ones 10).
  rewrite Z.land_ones, Z.shiftr_div_pow2 by lia. dm.
Qed.

Lemma PTX_div a : is_u32 a -> PTX a = (a / PGSIZE) mod 1024.
Proof.
  intros Ha. unfold PTX, is_u32, PGSIZE in *. change 0x3FF with (Z.ones 10).
  rewrite Z.land_ones, Z.shiftr_div_pow2 by lia. done.
Qed.

Lemma PDX_range a : is_u32 a -> 0 <= PDX a < 1024.
Proof. intros Ha. rewrite PDX_div by done. unfold is_u32, PGSIZE in *. dm. Qed.

Lemma PTX_range a : is_u32 a -> 0 <= PTX a < 1024.
Proof. intros Ha. rewrite PTX_div by done. apply Z.mod_pos_bound. lia. Qed.

Lemma same_entry a b :
  is_u32 a -> is_u32 b ->
  PDX a = PDX b -> PTX a = PTX b -> a / PGSIZE = b / PGSIZE.
Proof.
  intros Ha Hb. rewrite !PDX_div, !PTX_div by done. intros H1 H2.
  rewrite (Z.div_mod (a / PGSIZE) 1024), (Z.div_mod (b / PGSIZE) 1024) by lia. congruence.
Qed.

Lemma PTE_ADDR_div e : is_u32 e -> PTE_ADDR e = PGSIZE * (e / PGSIZE).
Proof. intros. by apply PGROUNDDOWN_div. Qed.

(** A page address and flags below the page size do not share bits. *)
Lemma lor_aligned p f : p mod PGSIZE = 0 -> 0 <= f < PGSIZE -> Z.lor p f = p + f.
Proof.
  intros Hp Hf. rewrite <- Z.add_lor_land.
  assert (Z.land p f = 0) as ->; [|lia].
  assert (p = Z.shiftl (p / PGSIZE) 12) as ->.
  { rewrite Z.shiftl_mul_pow2 by lia. change (2 ^ 12) with PGSIZE. unfold PGSIZE in *. dm. }
  apply Z.bits_inj'. intros n Hn. rewrite Z.land_spec, Z.bits_0.
  destruct (decide (n < 12)) as [Hlt|Hge].
  - by rewrite Z.shiftl_spec_low.
  - rewrite (Z.bits_above_log2 f n), andb_false_r; [done|lia|].
    destruct (decide (f = 0)) as [->|]; [simpl; lia|].
    apply Z.log2_lt_pow2; [lia|]. unfold PGSIZE in Hf.
    pose proof (Z.pow_le_mono_r 2 12 n ltac:(lia) ltac:(lia)). lia.
Qed.

(** An entry for page [p] with flags [f] gives them back. *)
Lemma PTE_ADDR_entry p f :
  p mod PGSIZE = 0 -> 0 <= f < PGSIZE -> is_u32 p -> PTE_ADDR (p + f) = p.
Proof.
  intros Hp Hf Hu. rewrite PTE_ADDR_div by (unfold is_u32, PGSIZE in *; dm).
  unfold PGSIZE in *. dm.
Qed.

(** ** The translation a directory stands for *)

Definition pde (m : memory) (d i : Z) : Z := load32 m (d + 4 * i).
Definition tab (m : memory) (d i : Z) : Z := PTE_ADDR (pde m d i).

(** Where the entry for [va] is, and its value ([0]: not present). *)
Definition pte_slot (m : memory) (d va : Z) : option Z :=
  if has (pde m d (PDX va)) PTE_P then Some (tab m d (PDX va) + 4 * PTX va) else None.
Definition pte_val (m : memory) (d va : Z) : Z :=
  match pte_slot m d va with Some a => load32 m a | None => 0 end.

(** The pages a directory is made of. *)
Definition pt_pages (m : memory) (d : Z) : list Z :=
  d :: omap (fun i => if has (pde m d i) PTE_P then Some (tab m d i) else None) (seqZ 0 1024).

Record wfdir (kend : Z) (fl : list Z) (m : memory) (d : Z) : Prop := {
  wf_good : forall p, p ∈ pt_pages m d -> good_page kend p /\ p ∉ fl;
  wf_root : forall i, 0 <= i < 1024 -> has (pde m d i) PTE_P -> tab m d i <> d;
  wf_inj : forall i j, 0 <= i < 1024 -> 0 <= j < 1024 ->
    has (pde m d i) PTE_P -> has (pde m d j) PTE_P -> tab m d i = tab m d j -> i = j
}.

Lemma elem_of_pt_pages m d p :
  p ∈ pt_pages m d <->
  p = d \/ exists i, 0 <= i < 1024 /\ has (pde m d i) PTE_P = true /\ p = tab m d i.
Proof.
  unfold pt_pages. rewrite elem_of_cons, list_elem_of_omap. f_equiv. split.
  - intros (i & Hi & E). apply elem_of_seqZ in Hi. case_match; simplify_eq. exists i. split_and!; [lia..|done|done].
  - intros (i & Hi & E & ->). exists i. rewrite E, elem_of_seqZ. split; [lia|done].
Qed.

Lemma pt_pages_root m d : d ∈ pt_pages m d.
Proof. apply elem_of_pt_pages; auto. Qed.

Lemma pt_pages_tab m d i :
  0 <= i < 1024 -> has (pde m d i) PTE_P = true -> tab m d i ∈ pt_pages m d.
Proof. intros. apply elem_of_pt_pages; eauto. Qed.
#[export] Hint Resolve pt_pages_root pt_pages_tab PDX_range PTX_range : xv6.

(** A word of a page is unchanged when the page is. *)
Lemma load32_in_page m m' p a :
  p <= a -> a + 4 <= p + PGSIZE ->
  (forall b, in_page p b -> rd8 m' b = rd8 m b) -> load32 m' a = load32 m a.
Proof. intros ?? H. apply load32_ext. intros. apply H. unfold in_page. lia. Qed.

(** A directory whose first level does not change keeps its tables. *)
Definition pdes_same (m m' : memory) (d : Z) : Prop :=
  forall i, 0 <= i < 1024 -> pde m' d i = pde m d i.

Lemma pdes_slot m m' d va :
  pdes_same m m' d -> is_u32 va -> pte_slot m' d va = pte_slot m d va.
Proof. intros H Hva. unfold pte_slot, tab. by rewrite (H (PDX va)) by auto with xv6. Qed.

Lemma pdes_pages m m' d : pdes_same m m' d -> pt_pages m' d = pt_pages m d.
Proof.
  intros H. apply (f_equal (cons d)), list_omap_ext, Forall_Forall2_diag, Forall_forall.
  intros i Hi. apply elem_of_seqZ in Hi. unfold tab. by rewrite (H i) by lia.
Qed.

#[global] Opaque pt_pages memset memmove.
#[global] Typeclasses Opaque pt_pages.

Lemma pdes_wf kend fl fl' m m' d :
  pdes_same m m' d -> fl' ⊆ fl -> wfdir kend fl m d -> wfdir kend fl' m' d.
Proof.
  intros E Hfl [H1 H2 H3]. constructor.
  - intros p. rewrite (pdes_pages m m') by done. intros Hp.
    destruct (H1 p Hp) as [? Hn]. split; [done|]. intros Hin. by apply Hn, Hfl.
  - intros i Hi. unfold tab. rewrite (E i) by done. by apply H2.
  - intros i j Hi Hj. unfold tab. rewrite (E i), (E j) by done. by apply H3.
Qed.

(** A directory whose pages do not change keeps its meaning. *)
Definition pt_agree (m m' : memory) (d : Z) : Prop :=
  forall p b, p ∈ pt_pages m d -> in_page p b -> rd8 m' b = rd8 m b.

Lemma pt_agree_pdes m m' d : pt_agree m m' d -> pdes_same m m' d.
Proof.
  intros H i Hi. apply (load32_in_page _ _ d); [lia|unfold PGSIZE; lia|].
  intros b Hb. apply (H d); auto with xv6.
Qed.
#[export] Hint Resolve pt_agree_pdes : xv6.

Lemma pt_agree_val m m' d va :
  pt_agree m m' d -> is_u32 va -> pte_val m' d va = pte_val m d va.
Proof.
  intros H Hva. unfold pte_val. rewrite (pdes_slot m m') by auto with xv6.
  unfold pte_slot. destruct (has (pde m d (PDX va)) PTE_P) eqn:E; [|done].
  pose proof (PTX_range va Hva). pose proof (PDX_range va Hva).
  apply (load32_in_page _ _ (tab m d (PDX va))); [lia|unfold PGSIZE; lia|].
  intros b. apply H. auto with xv6.
Qed.

(** Writes outside a directory's pages. *)
Lemma pt_agree_outside kend fl ps m m' d :
  same_outside ps m m' -> wfdir kend fl m d ->
  Forall (fun p => p mod PGSIZE = 0) ps -> (forall p, p ∈ pt_pages m d -> p ∉ ps) ->
  pt_agree m m' d.
Proof.
  intros Hs Hwf Hps Hd p b Hp Hb. apply Hs. intros q Hq Hqb. apply (Hd p Hp).
  rewrite Forall_forall in Hps. destruct (wf_good _ _ _ _ Hwf p Hp) as [[Hal _] _].
  by rewrite (page_disjoint p q b Hal (Hps q Hq) Hb Hqb).
Qed.

(** Two words in distinct pages do not overlap. *)
Lemma words_apart p q a b :
  p mod PGSIZE = 0 -> q mod PGSIZE = 0 -> p <> q ->
  p <= a -> a + 4 <= p + PGSIZE -> q <= b -> b + 4 <= q + PGSIZE ->
  a + 4 <= b \/ b + 4 <= a.
Proof. unfold PGSIZE. intros. dm. Qed.

Lemma wf_tab_good kend fl m d i :
  wfdir kend fl m d -> 0 <= i < 1024 -> has (pde m d i) PTE_P = true ->
  good_page kend (tab m d i) /\ (tab m d i ∉ fl) /\ tab m d i <> d.
Proof.
  intros Hwf Hi He. destruct (wf_good _ _ _ _ Hwf (tab m d i)); auto with xv6.
  split_and!; auto. apply (wf_root _ _ _ _ Hwf); rewrite ?He; auto.
Qed.

Lemma pte_slot_Some m d va a :
  pte_slot m d va = Some a <->
  has (pde m d (PDX va)) PTE_P = true /\ a = tab m d (PDX va) + 4 * PTX va.
Proof. unfold pte_slot. case_match; split; intros; inv_all; auto; congruence. Qed.

(** Distinct pages of the address space have distinct entries. *)
Lemma slots_apart kend fl m d va va' a a' :
  wfdir kend fl m d -> is_u32 va -> is_u32 va' ->
  pte_slot m d va = Some a -> pte_slot m d va' = Some a' ->
  va / PGSIZE <> va' / PGSIZE -> a + 4 <= a' \/ a' + 4 <= a.
Proof.
  intros Hwf Hva Hva' (E & ->)%pte_slot_Some (E' & ->)%pte_slot_Some Hne.
  pose proof (PDX_range va Hva). pose proof (PDX_range va' Hva').
  pose proof (PTX_range va Hva). pose proof (PTX_range va' Hva').
  destruct (decide (PDX va = PDX va')) as [Hd|Hd].
  - rewrite Hd. assert (PTX va <> PTX va'); [|lia].
    intros Ht. apply Hne. by apply same_entry.
  - destruct (wf_tab_good _ _ _ _ (PDX va) Hwf) as ((Hm & _) & _); auto.
    destruct (wf_tab_good _ _ _ _ (PDX va') Hwf) as ((Hm' & _) & _); auto.
    eapply (words_apart (tab m d (PDX va)) (tab m d (PDX va'))); auto; unfold PGSIZE; try lia.
    intros Heq. apply Hd, (wf_inj _ _ _ _ Hwf); rewrite ?E, ?E'; auto.
Qed.

(** Writing the entry of one page changes the translation of that page only. *)
Lemma pte_store kend fl m d va a v :
  wfdir kend fl m d -> is_u32 va -> pte_slot m d va = Some a ->
  pdes_same m (store32 m a v) d /\ same_outside (pt_pages m d) m (store32 m a v) /\
  forall va', is_u32 va' ->
    pte_val (store32 m a v) d va' =
    if decide (va' / PGSIZE = va / PGSIZE) then u32 v else pte_val m d va'.
Proof.
  intros Hwf Hva Ha. pose proof Ha as (E & Hslot)%pte_slot_Some.
  pose proof (PTX_range va Hva) as Ht. pose proof (PDX_range va Hva) as Hd.
  destruct (wf_tab_good _ _ _ _ (PDX va) Hwf) as ((Hal & _) & _ & Hne); auto.
  destruct (wf_good _ _ _ _ Hwf d) as ((Hald & _) & _); auto with xv6.
  assert (Hsame : pdes_same m (store32 m a v) d).
  { intros i Hi. unfold pde. apply load32_store32_ne, or_comm. rewrite Hslot.
    eapply (words_apart (tab m d (PDX va)) d); auto; unfold PGSIZE; lia. }
  split_and!; [done| |].
  - rewrite Hslot. apply (same_outside_store32 _ _ _ _ (tab m d (PDX va))); auto with xv6;
      unfold PGSIZE; lia.
  - intros va' Hva'. unfold pte_val. rewrite (pdes_slot _ _ _ _ Hsame Hva'). case_decide as Hp.
    + unfold pte_slot. rewrite !PDX_div, !PTX_div, Hp, <- PDX_div, <- PTX_div, E by done.
      rewrite <- Hslot. apply load32_store32_eq.
    + destruct (pte_slot m d va') eqn:E'; [|done]. apply load32_store32_ne, or_comm.
      eapply (slots_apart _ _ m d va va'); eauto.
Qed.

(** ** Changing the protection of a range *)

(** [va] is in one of the [k] pages from [addr] on. *)
Definition in_range (addr k va : Z) : Prop :=
  addr / PGSIZE <= va / PGSIZE < addr / PGSIZE + k.
#[export] Instance in_range_dec addr k va : Decision (in_range addr k va).
Proof. apply _. Defined.

(** The table of [va] exists and its entry is not present: the case in which
    the protection calls give up. *)
Definition stops (m : memory) (d va : Z) : Prop :=
  is_Some (pte_slot m d va) /\ has (pte_val m d va) PTE_P = false.

(** What the calls do to an entry. *)
Definition changed (f : Z -> Z) (m : memory) (d va : Z) : Z :=
  match pte_slot m d va with Some _ => u32 (f (pte_val m d va)) | None => 0 end.

(** [k] pages have been changed, and nothing else. *)
Definition protected (f : Z -> Z) (m m' : memory) (d addr k : Z) : Prop :=
  pdes_same m m' d /\ same_outside (pt_pages m d) m m' /\
  forall va, is_u32 va -> pte_val m' d va =
    if decide (in_range addr k va) then changed f m d va else pte_val m d va.

Lemma protected_0 f m d addr : protected f m m d addr 0.
Proof.
  split_and!; [done|auto with xv6|]. intros va _. rewrite decide_False; [done|].
  unfold in_range. lia.
Qed.

Lemma pdes_same_trans m1 m2 m3 d : pdes_same m1 m2 d -> pdes_same m2 m3 d -> pdes_same m1 m3 d.
Proof. intros H1 H2 i Hi. by rewrite H2, H1. Qed.

Lemma page_next a : (a + PGSIZE) / PGSIZE = a / PGSIZE + 1.
Proof. unfold PGSIZE. dm. Qed.

(** One more page at the front. *)
Lemma protected_S f m m1 m' d addr k :
  0 <= k -> protected f m m1 d addr 1 -> protected f m1 m' d (addr + PGSIZE) k ->
  protected f m m' d addr (k + 1).
Proof.
  intros Hk (E1 & S1 & V1) (E2 & S2 & V2). rewrite (pdes_pages _ _ _ E1) in S2.
  split_and!; [by eapply pdes_same_trans|by eapply same_outside_trans|].
  intros va Hva. rewrite V2, V1 by done.
  unfold changed. rewrite (V1 va), (pdes_slot _ _ _ _ E1) by done.
  pose proof (page_next addr). unfold in_range, changed.
  repeat case_decide; try lia; done.
Qed.

(** The entry of [addr] after one step of the loop. *)
Lemma protected_1 kend fl f m d addr a :
  wfdir kend fl m d -> is_u32 addr -> pte_slot m d addr = Some a ->
  protected f m (store32 m a (f (load32 m a))) d addr 1.
Proof.
  intros Hwf Hu Ha.
  destruct (pte_store kend fl m d addr a (f (load32 m a)) Hwf Hu Ha) as (H1 & H2 & H3).
  split_and!; [done..|]. intros va Hva. rewrite H3 by done.
  unfold in_range, changed. repeat case_decide; try lia.
  unfold pte_val, pte_slot in *. rewrite !PDX_div, !PTX_div in * by done.
  replace (va / PGSIZE) with (addr / PGSIZE) by lia. by rewrite Ha.
Qed.

Lemma protected_absent f m d addr :
  is_u32 addr -> pte_slot m d addr = None -> protected f m m d addr 1.
Proof.
  intros Hu Ha. split_and!; [done|auto with xv6|]. intros va Hva. case_decide as Hr; [|done].
  unfold in_range, changed in *. unfold pte_val, pte_slot in *.
  rewrite !PDX_div, !PTX_div in * by done.
  replace (va / PGSIZE) with (addr / PGSIZE) by lia. by rewrite Ha.
Qed.

(** Pages that are not changed stop the calls exactly when they did before. *)
Lemma protected_stops f m m' d addr k va :
  protected f m m' d addr k -> is_u32 va -> ~ in_range addr k va ->
  stops m' d va <-> stops m d va.
Proof.
  intros (E & _ & V) Hva Hr. unfold stops.
  rewrite V, (pdes_slot _ _ _ _ E), decide_False by done. done.
Qed.

Lemma set_mem_id s : set_mem (mem s) s = s.
Proof. by destruct s. Qed.

(** One round of the loop. *)
Lemma protect_step kend fl f d n addr last s :
  wfdir kend fl (mem s) d -> is_u32 addr ->
  stops (mem s) d addr /\ protect_loop f (S n) d addr last s = Ret (-1, s) \/
  exists m1,
    ~ stops (mem s) d addr /\ protected f (mem s) m1 d addr 1 /\
    protect_loop f (S n) d addr last s =
      if addr =? last then Ret (0, set_mem m1 s)
      else protect_loop f n d (u32 (addr + PGSIZE)) last (set_mem m1 s).
Proof.
  intros Hwf Hu. cbn [protect_loop].
  change (load32 (mem s) (d + 4 * PDX addr)) with (pde (mem s) d (PDX addr)).
  destruct (pte_slot (mem s) d addr) as [a|] eqn:Ha.
  - pose proof Ha as (EP & Hslot)%pte_slot_Some. rewrite EP.
    change (PTE_ADDR (pde (mem s) d (PDX addr))) with (tab (mem s) d (PDX addr)).
    rewrite <- Hslot. unfold stops, pte_val. rewrite Ha.
    destruct (has (load32 (mem s) a) PTE_P) eqn:E; [right|left; eauto].
    eexists; split_and!; [by intros []|by eapply protected_1|done].
  - unfold pte_slot in Ha. case_match; [done|]. right. exists (mem s). rewrite set_mem_id.
    assert (Ha' : pte_slot (mem s) d addr = None) by (unfold pte_slot; by case_match).
    split_and!; [|by apply protected_absent|done].
    unfold stops. rewrite Ha'. by intros [[] _].
Qed.

(** The loop changes the pages up to the first one at which it stops. *)
Lemma protect_loop_spec kend fl f d n : forall addr s,
  wfdir kend fl (mem s) d -> addr mod PGSIZE = 0 -> 0 <= addr ->
  addr + Z.of_nat (S n) * PGSIZE <= 2 ^ 32 ->
  exists r k m',
    protect_loop f (S n) d addr (addr + Z.of_nat n * PGSIZE) s = Ret (r, set_mem m' s) /\
    protected f (mem s) m' d addr k /\
    (r = 0 /\ k = Z.of_nat (S n) \/
     r = -1 /\ 0 <= k < Z.of_nat (S n) /\ stops (mem s) d (addr + k * PGSIZE)) /\
    (forall j, 0 <= j < k -> ~ stops (mem s) d (addr + j * PGSIZE)).
Proof.
  induction n as [|n IH]; intros addr s Hwf Hal H0 Hb.
  all: assert (Hu : is_u32 addr) by (unfold is_u32, PGSIZE in *; lia).
  all: edestruct (protect_step kend fl f d) as [(Hst & ->)|(m1 & Hst & Hp1 & ->)]; eauto.
  1,3: exists (-1), 0, (mem s); rewrite set_mem_id; split_and!; auto using protected_0; [|lia];
    right; rewrite Z.mul_0_l, Z.add_0_r; split_and!; auto; lia.
  - rewrite Z.add_0_r, Z.eqb_refl. exists 0, 1, m1. split_and!; auto.
    intros j Hj. replace j with 0 by lia. by rewrite Z.mul_0_l, Z.add_0_r.
  - rewrite (proj2 (Z.eqb_neq addr _)), u32_small by (unfold is_u32, PGSIZE in *; lia).
    destruct (IH (addr + PGSIZE) (set_mem m1 s)) as (r & k & m' & E & Hp & Hr & Hns).
    + by eapply pdes_wf; [apply Hp1| |].
    + unfold PGSIZE in *. dm.
    + unfold PGSIZE. lia.
    + lia.
    + replace (addr + Z.of_nat (S n) * PGSIZE) with (addr + PGSIZE + Z.of_nat n * PGSIZE) by lia.
      assert (Hk : 0 <= k) by lia.
      assert (Hsh : forall j, addr + PGSIZE + (j - 1) * PGSIZE = addr + j * PGSIZE) by lia.
      assert (Hstops : forall j, 1 <= j <= Z.of_nat (S n) ->
        stops m1 d (addr + j * PGSIZE) <-> stops (mem s) d (addr + j * PGSIZE)).
      { intros j Hj. eapply protected_stops; [done|unfold is_u32, PGSIZE in *; lia|].
        unfold in_range, PGSIZE. dm. }
      exists r, (k + 1), m'. rewrite E. split_and!; [done|by eapply protected_S|..].
      * destruct Hr as [(-> & ->)|(-> & ? & Hs)]; [left; lia|right]. split_and!; [lia..|].
        apply Hstops; [lia|]. by rewrite <- Hsh, Z.add_simpl_r.
      * intros j Hj. destruct (decide (j = 0)) as [->|]; [by rewrite Z.mul_0_l, Z.add_0_r|].
        rewrite <- Hstops, <- Hsh by lia. apply Hns. lia.
Qed.

(** ** Adding a table to a directory *)

Lemma install_pde kend fl m d i p j :
  wfdir kend fl m d -> 0 <= i < 1024 -> 0 <= j < 1024 -> good_page kend p ->
  pde (store32 m (d + 4 * i) (Z.lor (Z.lor (Z.lor p PTE_P) PTE_W) PTE_U)) d j =
  if decide (j = i) then p + 7 else pde m d j.
Proof.
  intros Hwf Hi Hj (Hal & Hp & Hp'). unfold pde. case_decide; subst.
  - rewrite load32_store32_eq, <- !Z.lor_assoc. change (Z.lor PTE_P (Z.lor PTE_W PTE_U)) with 7.
    rewrite lor_aligned by (unfold PGSIZE in *; lia).
    apply u32_small. unfold is_u32, PHYSTOP in *. lia.
  - apply load32_store32_ne. lia.
Qed.

Lemma odd_page_7 p : p mod PGSIZE = 0 -> has (p + 7) PTE_P = true.
Proof.
  intros Hp. rewrite has_P. replace (p + 7) with (2 * (2048 * (p / PGSIZE) + 3) + 1).
  - by rewrite Z.odd_add, Z.odd_mul.
  - unfold PGSIZE in *. dm.
Qed.

Section Install.
Context (kend : Z) (fl : list Z) (m : memory) (d i p : Z).
Context (Hwf : wfdir kend fl m d) (Hi : 0 <= i < 1024).
Context (Habs : has (pde m d i) PTE_P = false).
Context (Hp : good_page kend p) (Hfl : p ∉ fl) (Hnew : p ∉ pt_pages m d).
Let m' := store32 m (d + 4 * i) (Z.lor (Z.lor (Z.lor p PTE_P) PTE_W) PTE_U).

Lemma install_tab : has (pde m' d i) PTE_P = true /\ tab m' d i = p.
Proof.
  unfold tab, m'. rewrite (install_pde kend fl) by done. rewrite decide_True by done.
  destruct Hp as (Hal & ? & ?). split; [by apply odd_page_7|].
  apply PTE_ADDR_entry; unfold is_u32, PGSIZE, PHYSTOP in *; lia || done.
Qed.

Lemma install_other j : 0 <= j < 1024 -> j <> i -> pde m' d j = pde m d j.
Proof. intros. unfold m'. rewrite (install_pde kend fl) by done. by rewrite decide_False. Qed.

Lemma install_pages q : q ∈ pt_pages m' d <-> q ∈ pt_pages m d \/ q = p.
Proof.
  destruct install_tab as [T1 T2]. rewrite !elem_of_pt_pages. split.
  - intros [->|(j & Hj & Ej & ->)]; [auto|].
    destruct (decide (j = i)) as [->|Hne]; [auto|]. left; right. exists j.
    unfold tab. rewrite install_other in Ej |- * by done. auto.
  - intros [[->|(j & Hj & Ej & ->)]| ->]; [auto| |eauto].
    right. exists j. destruct (decide (j = i)) as [->|Hne]; [congruence|].
    unfold tab. rewrite install_other by done. auto.
Qed.

Lemma install_wf : wfdir kend fl m' d.
Proof.
  destruct install_tab as [T1 T2]. constructor.
  - intros q [Hq| ->]%install_pages; [by apply (wf_good _ _ _ _ Hwf)|done].
  - intros j Hj Ej. destruct (decide (j = i)) as [->|Hne].
    + rewrite T2. intros ->. apply Hnew. auto with xv6.
    + unfold tab. rewrite install_other in Ej |- * by done. by apply (wf_root _ _ _ _ Hwf).
  - assert (Hx : forall j, 0 <= j < 1024 -> j <> i -> has (pde m' d j) PTE_P ->
                  tab m' d j <> p).
    { intros j Hj Hne Ej Heq. apply Hnew. rewrite <- Heq. unfold tab. rewrite install_other in Ej |- * by done.
      apply pt_pages_tab; [done|]. by apply Is_true_true. }
    intros j k Hj Hk Ej Ek E. destruct (decide (j = i)) as [->|Hj'], (decide (k = i)) as [->|Hk'];
      [done| | |].
    + rewrite T2 in E. by destruct (Hx k Hk Hk' Ek).
    + rewrite T2 in E. by destruct (Hx j Hj Hj' Ej).
    + unfold tab in E. rewrite (install_other j) in Ej, E by done.
      rewrite (install_other k) in Ek, E by done. by apply (wf_inj _ _ _ _ Hwf).
Qed.

(** The translation does not change when the new table is zero. *)
Lemma install_val va :
  (forall b, in_page p b -> rd8 m b = 0) -> is_u32 va -> pte_val m' d va = pte_val m d va.
Proof.
  intros Hz Hva. destruct install_tab as [T1 T2].
  destruct (wf_good _ _ _ _ Hwf d) as ((Hald & _) & _); auto with xv6.
  assert (Hnd : p <> d) by (intros ->; apply Hnew; auto with xv6).
  pose proof (PTX_range va Hva). pose proof (PDX_range va Hva).
  unfold pte_val, pte_slot. destruct (decide (PDX va = i)) as [E|Hne].
  - rewrite E, Habs, T1, T2. unfold m'. rewrite load32_store32_ne.
    + unfold load32. rewrite !Hz by (unfold in_page, PGSIZE; lia). done.
    + eapply (words_apart p d); try apply Hp; auto; unfold PGSIZE; lia.
  - unfold tab. rewrite !install_other by done.
    destruct (has (pde m d (PDX va)) PTE_P) eqn:E; [|done].
    destruct (wf_tab_good _ _ _ _ (PDX va) Hwf) as ((Hal & _) & _ & Hne'); auto.
    apply load32_store32_ne.
    eapply (words_apart (tab m d (PDX va)) d); auto; unfold tab, PGSIZE; lia.
Qed.

Lemma install_outside : same_outside (pt_pages m d) m m'.
Proof. apply (same_outside_store32 _ _ _ _ d); auto with xv6; unfold PGSIZE; lia. Qed.

End Install.
