(* ===== verification/VmMap.v ===== *)
(** * Building address spaces

    Theorems about the part of [kernel/vm.c] that takes pages from the
    allocator: [walkpgdir] with [create], [mappages], [setupkvm] and
    [copyuvm].  [evolves] is the frame of such code: which memory it may
    write, and how many pages it takes. *)

From S2P Require Import Prelude Rand Memory Kalloc Vm.

(** ** Code that takes pages from the allocator

    [evolves kend W k s fl s' fl']: the allocator invariant holds in [s'],
    pages were only taken (at most [k] of them), and memory outside [W] and
    the pages that were free has not changed. *)

Record evolves (kend : Z) (W : list Z) (k : Z) (s : kst) (fl : list Z) (s' : kst) (fl' : list Z)
  : Prop := {
  ev_inv : kinv kend s' fl';
  ev_fl : fl' ⊆ fl;
  ev_out : same_outside (W ++ fl) (mem s) (mem s');
  ev_used : 0 <= num_alloc s' - num_alloc s <= k;
  ev_len : Z.of_nat (length fl) = Z.of_nat (length fl') + (num_alloc s' - num_alloc s)
}.

(** [k] more pages can be taken: they are free, and the history has room. *)
Definition room (s : kst) (fl : list Z) (k : Z) : Prop :=
  k <= Z.of_nat (length fl) /\ num_alloc s + k <= Z.of_nat NALLOCATED.

Lemma evolves_refl kend W s fl : kinv kend s fl -> evolves kend W 0 s fl s fl.
Proof. intros. constructor; auto with xv6; lia. Qed.

Lemma evolves_trans kend W1 W2 k1 k2 s1 fl1 s2 fl2 s3 fl3 :
  evolves kend W1 k1 s1 fl1 s2 fl2 -> evolves kend W2 k2 s2 fl2 s3 fl3 ->
  W2 ⊆ W1 ++ fl1 -> evolves kend W1 (k1 + k2) s1 fl1 s3 fl3.
Proof.
  intros [I1 F1 O1 U1 L1] [I2 F2 O2 U2 L2] Hsub. constructor; try lia; [done|set_solver|].
  eapply same_outside_trans; [exact O1|]. eapply same_outside_mono; [|exact O2].
  apply list_subseteq_app_iff_l; split; [done|set_solver].
Qed.

Lemma evolves_mono kend W W' k k' s fl s' fl' :
  evolves kend W k s fl s' fl' -> W ⊆ W' ++ fl -> k <= k' -> evolves kend W' k' s fl s' fl'.
Proof.
  intros [I F O U L] HW Hk. constructor; try lia; [done..|].
  eapply same_outside_mono; [|exact O]. apply list_subseteq_app_iff_l; split; [done|set_solver].
Qed.

Lemma evolves_write kend W s fl m' :
  kinv kend s fl -> (forall p, p ∈ W -> p mod PGSIZE = 0 /\ p ∉ fl) ->
  same_outside W (mem s) m' -> evolves kend W 0 s fl (set_mem m' s) fl.
Proof.
  intros [Hl Hnd Hgf Hsz Hseed Hh] HW Hw. constructor; simpl; try lia; [|done|].
  - constructor; try done. simpl. eapply lseg_ext; [|exact Hl].
    intros p Hp. apply load32_ext. intros b Hb. apply Hw. intros q Hq Hin.
    destruct (HW q Hq) as [Hal Hn]. apply Hn. rewrite Forall_forall in Hgf.
    destruct (Hgf p Hp) as [Halp _].
    rewrite <- (page_disjoint p q b); auto. unfold in_page, PGSIZE; lia.
  - eapply same_outside_mono; [|done]. set_solver.
Qed.

Lemma evolves_kalloc kend s fl :
  kinv kend s fl -> room s fl 1 ->
  exists p s' fl',
    kalloc s = Ret (p, s') /\ evolves kend [] 1 s fl s' fl' /\
    p ∈ fl /\ (p ∉ fl') /\ good_page kend p.
Proof.
  intros Hk [Hr1 Hr2]. destruct (kalloc_spec kend s fl Hk) as
    (l1 & p & l2 & s' & -> & _ & E & Hk' & Hs & _ & Hn); [by destruct fl|lia|].
  exists p, s', (l1 ++ l2). destruct Hk as [_ Hnd Hg _ _ _].
  assert (Hp : p ∈ l1 ++ p :: l2) by set_solver.
  split_and!; [done| |done| |by rewrite Forall_forall in Hg; apply Hg].
  - constructor; [done|set_solver| |lia|rewrite !length_app in *; simpl; lia].
    eapply same_outside_mono; [|done]. set_solver.
  - apply NoDup_app in Hnd as (_ & Hd & Hnd). apply NoDup_cons in Hnd as [Hnd _].
    rewrite elem_of_app. intros [H|H]; [|done]. apply (Hd p H). set_solver.
Qed.

Lemma evolves_room kend W k j s fl s' fl' :
  evolves kend W k s fl s' fl' -> room s fl (k + j) -> room s' fl' j.
Proof. intros [] []. unfold room. lia. Qed.

(** A directory that is not written survives. *)
Lemma evolves_agree kend W k s fl s' fl' d :
  kinv kend s fl -> evolves kend W k s fl s' fl' -> wfdir kend fl (mem s) d ->
  Forall (fun p => p mod PGSIZE = 0) W -> (forall p, p ∈ pt_pages (mem s) d -> p ∉ W) ->
  pt_agree (mem s) (mem s') d.
Proof.
  intros Hk [_ _ O _ _] Hwf HW Hd. eapply (pt_agree_outside kend fl (W ++ fl)); eauto.
  - apply Forall_app; split; [done|]. eapply Forall_impl; [apply Hk|]. by intros p [].
  - intros p Hp. destruct (wf_good _ _ _ _ Hwf p Hp). rewrite elem_of_app.
    intros [?|?]; [by apply (Hd p)|done].
Qed.

Lemma evolves_wf kend W k s fl s' fl' d :
  kinv kend s fl -> evolves kend W k s fl s' fl' -> wfdir kend fl (mem s) d ->
  Forall (fun p => p mod PGSIZE = 0) W -> (forall p, p ∈ pt_pages (mem s) d -> p ∉ W) ->
  wfdir kend fl' (mem s') d.
Proof.
  intros Hk Hev Hwf HW Hd. eapply (pdes_wf kend fl fl' (mem s)); [|apply Hev|done].
  apply pt_agree_pdes. by eapply evolves_agree.
Qed.

(** A fresh page, zeroed by its new owner. *)
Lemma evolves_kzalloc kend s fl :
  kinv kend s fl -> room s fl 1 ->
  exists p s1 fl',
    let s' := set_mem (memset (mem s1) p 0 PGSIZE) s1 in
    kalloc s = Ret (p, s1) /\ evolves kend [] 1 s fl s' fl' /\
    p ∈ fl /\ (p ∉ fl') /\ good_page kend p /\ (forall b, in_page p b -> rd8 (mem s') b = 0).
Proof.
  intros Hk Hroom.
  destruct (evolves_kalloc kend s fl Hk Hroom) as (p & s1 & fl' & E & Hev & Hin & Hnin & Hg).
  exists p, s1, fl'. split_and!; auto.
  - change 1 with (1 + 0). eapply (evolves_trans _ [] [p]); [exact Hev| |set_solver].
    apply evolves_write; [apply Hev| |apply same_outside_memset; set_solver].
    intros q ->%list_elem_of_singleton. split; [apply Hg|done].
  - intros b Hb. simpl. rewrite rd8_memset by done. by rewrite decide_True.
Qed.

(** ** [walkpgdir] and [mappages] *)

Lemma walk_present d va create s a :
  pte_slot (mem s) d va = Some a -> walkpgdir d va create s = Ret (a, s).
Proof.
  intros (E & ->)%pte_slot_Some. unfold walkpgdir. unfold pde in E. rewrite E. done.
Qed.

Lemma walk_absent d va s :
  pte_slot (mem s) d va = None -> walkpgdir d va false s = Ret (0, s).
Proof. unfold pte_slot, walkpgdir, pde. by case_match. Qed.

Lemma slot_nonzero kend fl m d va a :
  wfdir kend fl m d -> is_u32 va -> pte_slot m d va = Some a -> 0 < a.
Proof.
  intros Hwf Hva (E & ->)%pte_slot_Some. pose proof (PTX_range va Hva).
  destruct (wf_tab_good _ _ _ _ (PDX va) Hwf) as ((_ & ? & _) & _); auto with xv6. lia.
Qed.

(** Pages a walk takes. *)
Definition walk_cost (m : memory) (d va : Z) : Z :=
  match pte_slot m d va with Some _ => 0 | None => 1 end.

(** The result of a walk with [create]: the slot exists, the translation is
    the same. *)
Lemma walk_create kend fl s d va :
  kinv kend s fl -> wfdir kend fl (mem s) d -> is_u32 va ->
  room s fl (walk_cost (mem s) d va) ->
  exists a s' fl',
    walkpgdir d va true s = Ret (a, s') /\
    evolves kend (pt_pages (mem s) d) (walk_cost (mem s) d va) s fl s' fl' /\
    wfdir kend fl' (mem s') d /\ pte_slot (mem s') d va = Some a /\
    (forall va', is_u32 va' -> pte_val (mem s') d va' = pte_val (mem s) d va') /\
    pt_pages (mem s') d ⊆ pt_pages (mem s) d ++ fl.
Proof.
  intros Hk Hwf Hva Hroom. unfold walk_cost in *.
  destruct (pte_slot (mem s) d va) as [a|] eqn:Hslot.
  { exists a, s, fl. split_and!; auto using walk_present, evolves_refl.
    by apply list_subseteq_app_l. }
  unfold pte_slot in Hslot. destruct (has (pde (mem s) d (PDX va)) PTE_P) eqn:EP; [done|].
  destruct (evolves_kzalloc kend s fl Hk Hroom)
    as (p & s1 & fl1 & E & Hev & Hin & Hnin & Hg & Hz).
  unfold walkpgdir. unfold pde in EP. rewrite EP, E. simpl.
  rewrite (proj2 (Z.eqb_neq p 0)) by (eapply good_page_ne; eauto).
  match goal with |- context [store32 (memset ?m ?q ?c ?n) ?a ?v] =>
    change (set_mem (store32 (memset m q c n) a v) s1)
      with (set_mem (store32 (mem (set_mem (memset m q c n) s1)) a v) (set_mem (memset m q c n) s1))
  end.
  generalize dependent (set_mem (memset (mem s1) p 0 PGSIZE) s1). intros s2 Hev Hz.
  assert (Hd : forall q, q ∈ pt_pages (mem s) d -> q ∉ @nil Z) by set_solver.
  assert (Hag : pt_agree (mem s) (mem s2) d) by (eapply evolves_agree; eauto).
  assert (Hwf2 : wfdir kend fl1 (mem s2) d) by (eapply evolves_wf; eauto).
  assert (Hpg : pt_pages (mem s2) d = pt_pages (mem s) d) by auto using pdes_pages with xv6.
  assert (Hp : p ∉ pt_pages (mem s2) d).
  { rewrite Hpg. intros H. destruct (wf_good _ _ _ _ Hwf p H) as [_ Hn]. exact (Hn Hin). }
  pose proof (PDX_range va Hva) as Hi.
  assert (Habs : has (pde (mem s2) d (PDX va)) PTE_P = false).
  { rewrite (pt_agree_pdes _ _ _ Hag) by done. exact EP. }
  destruct (install_tab kend fl1 (mem s2) d (PDX va) p Hwf2 Hi Hg) as [T1 T2].
  eexists _, _, fl1. split_and!; [reflexivity|..]; simpl.
  - change 1 with (1 + 0). eapply (evolves_trans _ _ (pt_pages (mem s2) d)).
    + eapply evolves_mono; [exact Hev|apply list_subseteq_nil|lia].
    + apply evolves_write; [apply Hev| |by apply install_outside].
      intros q Hq. destruct (wf_good _ _ _ _ Hwf2 q Hq) as [[? _] ?]. done.
    + rewrite Hpg. by apply list_subseteq_app_l.
  - by apply install_wf.
  - unfold pte_slot. cbn [mem]. by rewrite T1, T2.
  - intros va' Hva'. rewrite install_val with (kend := kend) (fl := fl1) by done.
    by apply pt_agree_val.
  - intros q. rewrite (install_pages kend fl1), Hpg, elem_of_app by done.
    intros [?| ->]; auto.
Qed.

(** The entry [mappages] writes. *)
Definition entry (pa perm : Z) : Z := Z.lor (Z.lor pa perm) PTE_P.

(** The [k] pages from [a] on map the pages from [pa] on; all others as before. *)
Definition mapped (m m' : memory) (d a k pa perm : Z) : Prop :=
  forall va, is_u32 va -> pte_val m' d va =
    if decide (in_range a k va)
    then u32 (entry (pa + PGSIZE * (va / PGSIZE - a / PGSIZE)) perm)
    else pte_val m d va.

Definition unmapped (m : memory) (d a k : Z) : Prop :=
  forall va, is_u32 va -> in_range a k va -> has (pte_val m d va) PTE_P = false.

(** Everything that is known of a directory after pages were mapped in it. *)
Record grown (kend d k : Z) (s : kst) (fl : list Z) (s' : kst) (fl' : list Z) : Prop := {
  gr_ev : evolves kend (pt_pages (mem s) d) k s fl s' fl';
  gr_wf : wfdir kend fl' (mem s') d;
  gr_pages : pt_pages (mem s') d ⊆ pt_pages (mem s) d ++ fl
}.

Lemma grown_trans kend d k1 k2 s1 fl1 s2 fl2 s3 fl3 :
  grown kend d k1 s1 fl1 s2 fl2 -> grown kend d k2 s2 fl2 s3 fl3 ->
  grown kend d (k1 + k2) s1 fl1 s3 fl3.
Proof.
  intros [E1 W1 P1] [E2 W2 P2]. constructor; [|done|].
  - by eapply evolves_trans.
  - intros p [Hp|Hp]%P2%elem_of_app; [by apply P1|]. apply elem_of_app. right.
    by apply (ev_fl _ _ _ _ _ _ _ E1).
Qed.

Lemma grown_mono kend d k k' s fl s' fl' :
  grown kend d k s fl s' fl' -> k <= k' -> grown kend d k' s fl s' fl'.
Proof.
  intros [E W P] Hk. constructor; [|done..].
  eapply evolves_mono; [done|by apply list_subseteq_app_l|done].
Qed.

Lemma page_eqb va a k : 1 <= k ->
  in_range a k va <-> va / PGSIZE = a / PGSIZE \/ in_range (a + PGSIZE) (k - 1) va.
Proof. intros. unfold in_range. rewrite page_next. lia. Qed.

(** One round of the loop. *)
Lemma map_step kend d n a last pa perm s fl :
  kinv kend s fl -> wfdir kend fl (mem s) d -> is_u32 a ->
  has (pte_val (mem s) d a) PTE_P = false -> room s fl (walk_cost (mem s) d a) ->
  exists s1 fl1,
    mappages_loop (S n) d a last pa perm s =
      (if a =? last then Ret (0, s1)
       else mappages_loop n d (u32 (a + PGSIZE)) last (u32 (pa + PGSIZE)) perm s1) /\
    grown kend d (walk_cost (mem s) d a) s fl s1 fl1 /\
    is_Some (pte_slot (mem s1) d a) /\ mapped (mem s) (mem s1) d a 1 pa perm.
Proof.
  intros Hk Hwf Ha Hnp Hroom.
  destruct (walk_create kend fl s d a Hk Hwf Ha Hroom)
    as (pte & s1 & fl1 & E & Hev & Hwf1 & Hslot & Hval & Hpg).
  pose proof (slot_nonzero _ _ _ _ _ _ Hwf1 Ha Hslot).
  destruct (pte_store _ _ _ _ _ _ (entry pa perm) Hwf1 Ha Hslot) as (H1 & H2 & H3).
  exists (set_mem (store32 (mem s1) pte (entry pa perm)) s1), fl1. split_and!.
  - cbn [mappages_loop]. rewrite E. simpl. rewrite (proj2 (Z.eqb_neq pte 0)) by lia.
    rewrite <- (Hval a Ha) in Hnp. unfold pte_val in Hnp. rewrite Hslot in Hnp. by rewrite Hnp.
  - constructor; simpl.
    + rewrite <- (Z.add_0_r (walk_cost _ _ _)).
      eapply evolves_trans; [exact Hev| |exact Hpg]. apply evolves_write; [apply Hev| |done].
      intros p Hp. destruct (wf_good _ _ _ _ Hwf1 p Hp) as [[? _] ?]. done.
    + by eapply pdes_wf.
    + by rewrite (pdes_pages _ _ _ H1).
  - simpl. rewrite (pdes_slot _ _ _ _ H1), Hslot by done. eauto.
  - intros va Hva. simpl. rewrite H3, Hval by done. unfold in_range.
    repeat case_decide; try lia. f_equal. f_equal.
    replace (va / PGSIZE) with (a / PGSIZE) by lia. lia.
Qed.

(** Pages [mappages] takes at most: one per missing table. *)
Definition map_cost (m : memory) (d a last : Z) : Z :=
  PDX last - PDX a + walk_cost m d a.

Lemma map_cost_next m m1 d a last :
  is_u32 (a + PGSIZE) -> is_u32 a -> is_Some (pte_slot m1 d a) ->
  walk_cost m d a + map_cost m1 d (a + PGSIZE) last <= map_cost m d a last.
Proof.
  intros Hn Ha [x (Hs & _)%pte_slot_Some]. unfold map_cost, walk_cost at 2.
  unfold pte_slot. destruct (decide (PDX (a + PGSIZE) = PDX a)) as [->|Hne].
  - rewrite Hs. lia.
  - assert (PDX (a + PGSIZE) = PDX a + 1).
    { revert Hne. rewrite !PDX_div, page_next by done. unfold is_u32, PGSIZE in *. dm. }
    case_match; lia.
Qed.

Lemma PDX_mono a b : is_u32 a -> is_u32 b -> a <= b -> PDX a <= PDX b.
Proof. intros. rewrite !PDX_div by done. unfold is_u32, PGSIZE in *. dm. Qed.

Lemma walk_cost_pos m d a : 0 <= walk_cost m d a.
Proof. unfold walk_cost. by case_match. Qed.

Lemma room_mono s fl k k' : room s fl k -> k' <= k -> room s fl k'.
Proof. unfold room. lia. Qed.

Lemma mapped_S m m1 m' d a k pa perm :
  0 <= k -> mapped m m1 d a 1 pa perm -> mapped m1 m' d (a + PGSIZE) k (pa + PGSIZE) perm ->
  mapped m m' d a (k + 1) pa perm.
Proof.
  intros Hk M1 M2 va Hva. rewrite M2, M1 by done.
  pose proof (page_next a). unfold in_range. repeat case_decide; try lia.
  do 2 f_equal. lia.
Qed.

Lemma mappages_loop_spec kend d perm n : forall a last pa s fl,
  kinv kend s fl -> wfdir kend fl (mem s) d -> a mod PGSIZE = 0 -> 0 <= a -> 0 <= pa ->
  last = a + Z.of_nat n * PGSIZE -> last + PGSIZE <= 2 ^ 32 ->
  pa + Z.of_nat (S n) * PGSIZE <= 2 ^ 32 ->
  unmapped (mem s) d a (Z.of_nat (S n)) ->
  room s fl (map_cost (mem s) d a last) ->
  exists s' fl',
    mappages_loop (S n) d a last pa perm s = Ret (0, s') /\
    grown kend d (map_cost (mem s) d a last) s fl s' fl' /\
    mapped (mem s) (mem s') d a (Z.of_nat (S n)) pa perm.
Proof.
  induction n as [|n IH]; intros a last pa s fl Hk Hwf Hal Ha Hpa Hlast Hb Hb' Hun Hroom.
  all: assert (Hu : is_u32 a) by (unfold is_u32, PGSIZE in *; lia).
  all: assert (Hl : PDX a <= PDX last) by (apply PDX_mono; unfold is_u32, PGSIZE in *; lia).
  all: assert (Hnp : has (pte_val (mem s) d a) PTE_P = false)
    by (apply Hun; [done|unfold in_range; lia]).
  all: assert (Hr : room s fl (walk_cost (mem s) d a))
    by (eapply room_mono; [done|unfold map_cost; lia]).
  all: edestruct (map_step kend d) as (s1 & fl1 & E & Hgr & Hslot & Hm1); eauto; rewrite E.
  - replace last with a by lia. rewrite Z.eqb_refl. exists s1, fl1. split_and!; auto.
    eapply grown_mono; [done|unfold map_cost; lia].
  - rewrite (proj2 (Z.eqb_neq a last)), !u32_small by (unfold is_u32, PGSIZE in *; lia).
    pose proof (map_cost_next (mem s) (mem s1) d a last
      ltac:(unfold is_u32, PGSIZE in *; lia) Hu Hslot) as Hc.
    destruct (IH (a + PGSIZE) last (pa + PGSIZE) s1 fl1) as (s' & fl' & E' & Hgr' & Hm').
    + apply Hgr.
    + apply Hgr.
    + unfold PGSIZE in *. dm.
    + unfold PGSIZE. lia.
    + unfold PGSIZE. lia.
    + lia.
    + done.
    + lia.
    + intros va Hva Hin. rewrite Hm1, decide_False by (auto; unfold in_range in *;
        rewrite page_next in *; lia).
      apply Hun; [done|]. unfold in_range in *. rewrite page_next in *. lia.
    + eapply evolves_room; [apply Hgr|]. exact (room_mono _ _ _ _ Hroom Hc).
    + exists s', fl'. split_and!; [done| |].
      * eapply grown_mono; [by eapply grown_trans|done].
      * rewrite Nat2Z.inj_succ. apply (mapped_S _ (mem s1)); auto. lia.
Qed.

(** [mappages] on a range that is not mapped, with enough pages for the tables. *)
Lemma mappages_spec kend d la size pa perm s fl :
  kinv kend s fl -> wfdir kend fl (mem s) d -> 0 <= la -> 1 <= size -> la + size <= 2 ^ 32 ->
  let last := PGROUNDDOWN (la + size - 1) in
  let k := last / PGSIZE - la / PGSIZE + 1 in
  0 <= pa -> pa + k * PGSIZE <= 2 ^ 32 ->
  unmapped (mem s) d la k -> room s fl (map_cost (mem s) d (PGROUNDDOWN la) last) ->
  exists s' fl',
    mappages d la size pa perm s = Ret (0, s') /\
    grown kend d (map_cost (mem s) d (PGROUNDDOWN la) last) s fl s' fl' /\
    mapped (mem s) (mem s') d la k pa perm.
Proof.
  intros Hk Hwf Hla Hsz Hb last k Hpa Hpb Hun Hroom.
  assert (Ea : PGROUNDDOWN la = PGSIZE * (la / PGSIZE))
    by (apply PGROUNDDOWN_div; unfold is_u32; lia).
  assert (El : last = PGSIZE * ((la + size - 1) / PGSIZE))
    by (apply PGROUNDDOWN_div; unfold is_u32; lia).
  assert (Hdiv : forall x, PGSIZE * x / PGSIZE = x) by (intros; unfold PGSIZE; dm).
  assert (Hk1 : 1 <= k) by (unfold k; rewrite El, Hdiv; unfold PGSIZE; dm).
  assert (Hk' : k = Z.of_nat (S (Z.to_nat (k - 1)))) by lia.
  unfold mappages. rewrite (u32_small (la + size - 1)) by (unfold is_u32; lia). fold last.
  assert (Hn : npages (PGROUNDDOWN la) last = S (Z.to_nat (k - 1))).
  { unfold npages. rewrite u32_small, Ea, El.
    - unfold k. rewrite El, Hdiv. unfold PGSIZE. dm.
    - unfold is_u32. rewrite Ea, El. unfold PGSIZE. dm. }
  rewrite Hn.
  assert (Hir : forall j va, in_range (PGROUNDDOWN la) j va <-> in_range la j va)
    by (intros; unfold in_range; by rewrite Ea, Hdiv).
  destruct (mappages_loop_spec kend d perm (Z.to_nat (k - 1)) (PGROUNDDOWN la) last pa s fl)
    as (s' & fl' & E & Hg & Hm); auto.
  - rewrite Ea. unfold PGSIZE. dm.
  - rewrite Ea. unfold PGSIZE. dm.
  - rewrite Ea. unfold k. rewrite El, Hdiv. unfold PGSIZE. dm.
  - rewrite El. unfold PGSIZE. dm.
  - lia.
  - intros va Hva. rewrite <- Hk', Hir. by apply Hun.
  - exists s', fl'. split_and!; [done..|]. intros va Hva. rewrite Hm by done.
    rewrite <- Hk'. destruct (decide (in_range (PGROUNDDOWN la) k va)) as [H|H],
      (decide (in_range la k va)) as [H'|H']; rewrite Hir in H; try done.
    do 2 f_equal. rewrite Ea, Hdiv. done.
Qed.

(** ** [setupkvm] *)

(** The addresses from [p] to [e] map to themselves; all others as before. *)
Definition idmapped (m m' : memory) (d p e perm : Z) : Prop :=
  forall va, is_u32 va -> pte_val m' d va =
    if decide (p <= va < e) then u32 (entry (PGSIZE * (va / PGSIZE)) perm) else pte_val m d va.

Lemma in_range_bytes p e va :
  p mod PGSIZE = 0 -> e mod PGSIZE = 0 ->
  in_range p (e / PGSIZE - p / PGSIZE) va <-> p <= va < e.
Proof. unfold in_range, PGSIZE. intros. dm. Qed.

(** One row of [kmap], [p] to [e] with [e] up to 2^32. *)
Lemma mappages_id kend d p e perm s fl :
  kinv kend s fl -> wfdir kend fl (mem s) d ->
  p mod PGSIZE = 0 -> e mod PGSIZE = 0 -> 0 <= p < e -> e <= 2 ^ 32 ->
  (forall va, is_u32 va -> p <= va < e -> has (pte_val (mem s) d va) PTE_P = false) ->
  room s fl (map_cost (mem s) d p (e - PGSIZE)) ->
  exists s' fl',
    mappages d p (e - p) p perm s = Ret (0, s') /\
    grown kend d (map_cost (mem s) d p (e - PGSIZE)) s fl s' fl' /\
    idmapped (mem s) (mem s') d p e perm.
Proof.
  intros Hk Hwf Hp He Hpe Hb Hun Hroom.
  assert (El : PGROUNDDOWN (p + (e - p) - 1) = e - PGSIZE).
  { rewrite PGROUNDDOWN_div by (unfold is_u32; lia). unfold PGSIZE in *. dm. }
  assert (Ep : PGROUNDDOWN p = p).
  { rewrite PGROUNDDOWN_div by (unfold is_u32; lia). unfold PGSIZE in *. dm. }
  assert (Ek : (e - PGSIZE) / PGSIZE - p / PGSIZE + 1 = e / PGSIZE - p / PGSIZE)
    by (unfold PGSIZE; dm).
  destruct (mappages_spec kend d p (e - p) p perm s fl) as (s' & fl' & E & Hg & Hm);
    rewrite ?El, ?Ep, ?Ek; try done; try lia.
  - unfold PGSIZE in *. dm.
  - intros va Hva Hin. apply Hun; [done|]. by apply in_range_bytes.
  - exists s', fl'. rewrite El, Ep in Hg. rewrite El, Ek in Hm. split_and!; [done..|].
    intros va Hva. rewrite Hm by done.
    pose proof (in_range_bytes p e va Hp He) as Hir. do 2 case_decide; try tauto.
    do 2 f_equal. unfold PGSIZE in *. dm.
Qed.

(** One row, when [c] pages are enough for its tables and [j] more are left. *)
Lemma setupkvm_row kend d p e perm rows s fl c j :
  kinv kend s fl -> wfdir kend fl (mem s) d ->
  p mod PGSIZE = 0 -> u32 e mod PGSIZE = 0 -> 0 < p < e -> e <= 2 ^ 32 ->
  (forall va, is_u32 va -> p <= va < e -> pte_val (mem s) d va = 0) ->
  map_cost (mem s) d p (e - PGSIZE) <= c -> room s fl (c + j) -> 0 <= j ->
  exists s' fl',
    setupkvm_loop ((p, u32 e, perm) :: rows) d s = setupkvm_loop rows d s' /\
    grown kend d c s fl s' fl' /\ room s' fl' j /\ idmapped (mem s) (mem s') d p e perm.
Proof.
  intros Hk Hwf Hp He Hpe Hb Hun Hc Hroom Hj.
  destruct (mappages_id kend d p e perm s fl) as (s' & fl' & E & Hg & Hm); auto.
  { unfold u32, PGSIZE in *. dm. } { lia. } { intros. by rewrite Hun. }
  { eapply room_mono; [done|lia]. }
  apply (grown_mono _ _ _ c) in Hg; [|done].
  exists s', fl'. split_and!; auto; [|by eapply evolves_room; [apply Hg|]].
  cbn [setupkvm_loop].
  replace (u32 (u32 e - p)) with (e - p) by (unfold u32, PGSIZE in *; dm).
  by rewrite E.
Qed.

(** The kernel mapping every directory has. *)
Definition kernel_pte (data va : Z) : Z :=
  let page := PGSIZE * (va / PGSIZE) in
  if decide (USERTOP <= va < 0x100000) then entry page PTE_W
  else if decide (0x100000 <= va < data) then entry page 0
  else if decide (data <= va < PHYSTOP) then entry page PTE_W
  else if decide (0xFE000000 <= va) then entry page PTE_W
  else 0.

Lemma wfdir_zero kend fl m d :
  good_page kend d -> d ∉ fl -> (forall b, in_page d b -> rd8 m b = 0) ->
  wfdir kend fl m d /\ (forall va, is_u32 va -> pte_slot m d va = None) /\ pt_pages m d ⊆ [d].
Proof.
  intros Hg Hfl Hz.
  assert (H0 : forall i, 0 <= i < 1024 -> pde m d i = 0).
  { intros i Hi. unfold pde, load32. rewrite !Hz by (unfold in_page, PGSIZE; lia). done. }
  assert (Hpg : pt_pages m d ⊆ [d]).
  { intros p [->|(i & Hi & E & _)]%elem_of_pt_pages; [set_solver|].
    rewrite H0 in E by done. discriminate. }
  split_and!; [|intros va Hva; unfold pte_slot; by rewrite H0 by auto with xv6|done].
  constructor.
  - intros p ->%Hpg%list_elem_of_singleton. done.
  - intros i Hi. by rewrite H0.
  - intros i j Hi Hj. by rewrite H0.
Qed.

Lemma entry_u32 pa perm :
  pa mod PGSIZE = 0 -> 0 <= pa < 2 ^ 32 -> 0 <= perm < PGSIZE ->
  u32 (entry pa perm) = entry pa perm /\ has (entry pa perm) PTE_P = true /\
  PTE_ADDR (entry pa perm) = pa.
Proof.
  intros Hal Hpa Hperm. unfold entry. rewrite <- Z.lor_assoc.
  assert (Hf : 0 <= Z.lor perm PTE_P < PGSIZE).
  { split; [apply Z.lor_nonneg; unfold PTE_P; lia|].
    unfold PGSIZE in *. change 4096 with (2 ^ 12) in *.
    destruct (decide (Z.lor perm PTE_P = 0)) as [->|]; [lia|].
    apply Z.log2_lt_pow2; [pose proof (proj2 (Z.lor_nonneg perm PTE_P)); unfold PTE_P in *; lia|].
    rewrite Z.log2_lor by (unfold PTE_P; lia).
    destruct (decide (perm = 0)) as [->|]; [done|].
    pose proof (proj1 (Z.log2_lt_pow2 perm 12 ltac:(lia)) ltac:(lia)). simpl. lia. }
  rewrite lor_aligned by done. split_and!.
  - apply u32_small. unfold is_u32, PGSIZE in *. dm.
  - rewrite <- lor_aligned, has_P by done. rewrite <- Z.bit0_odd, !Z.lor_spec. simpl.
    by rewrite !orb_true_r.
  - by apply PTE_ADDR_entry.
Qed.

Lemma walk_cost_same m d va va' :
  PDX va = PDX va' -> is_Some (pte_slot m d va') -> walk_cost m d va = 0.
Proof.
  intros E [x (Hs & _)%pte_slot_Some]. unfold walk_cost, pte_slot. by rewrite E, Hs.
Qed.

Lemma walk_cost_1 m d va : walk_cost m d va <= 1.
Proof. unfold walk_cost. case_match; lia. Qed.

Lemma idmapped_slot m m' d p e perm va :
  idmapped m m' d p e perm -> is_u32 va -> 0 <= perm < PGSIZE -> p <= va < e ->
  is_Some (pte_slot m' d va).
Proof.
  intros H Hva Hperm Hin. specialize (H va Hva). rewrite decide_True in H by done.
  destruct (entry_u32 (PGSIZE * (va / PGSIZE)) perm) as (E1 & E2 & _); auto.
  { unfold PGSIZE. dm. } { unfold is_u32, PGSIZE in *. dm. }
  rewrite E1 in H. unfold pte_val in H. destruct (pte_slot m' d va); [eauto|].
  rewrite <- H in E2. discriminate.
Qed.

(** What the four rows add up to. *)
Lemma kernel_rows data m0 m1 m2 m3 m4 d va :
  0x100000 < data < PHYSTOP -> is_u32 va -> (forall va, is_u32 va -> pte_slot m0 d va = None) ->
  idmapped m0 m1 d USERTOP 0x100000 PTE_W -> idmapped m1 m2 d 0x100000 data 0 ->
  idmapped m2 m3 d data PHYSTOP PTE_W -> idmapped m3 m4 d 0xFE000000 (2 ^ 32) PTE_W ->
  pte_val m4 d va = kernel_pte data va.
Proof.
  intros Hd Hva H0 H1 H2 H3 H4. rewrite H4, H3, H2, H1 by done.
  assert (pte_val m0 d va = 0) as -> by (unfold pte_val; by rewrite H0).
  assert (Hent : forall perm, 0 <= perm < PGSIZE ->
    u32 (entry (PGSIZE * (va / PGSIZE)) perm) = entry (PGSIZE * (va / PGSIZE)) perm).
  { intros perm Hp. apply entry_u32; [unfold PGSIZE; dm|unfold is_u32, PGSIZE in *; dm|done]. }
  unfold kernel_pte, USERTOP, PHYSTOP, is_u32 in *.
  repeat case_decide; try lia; apply Hent; unfold PGSIZE, PTE_W; lia.
Qed.

Section Setupkvm.
Context (kend data : Z).
Context (Hdata : 0x100000 < data < PHYSTOP) (Haldata : data mod PGSIZE = 0).

(** The tables each row needs. *)
Lemma cost1 m d : map_cost m d USERTOP (0x100000 - PGSIZE) <= 1.
Proof. unfold map_cost. apply walk_cost_1. Qed.

Lemma cost2 m d :
  is_Some (pte_slot m d USERTOP) ->
  map_cost m d 0x100000 (data - PGSIZE) = PDX (data - PGSIZE).
Proof.
  intros H. unfold map_cost. rewrite (walk_cost_same m d 0x100000 USERTOP) by done.
  change (PDX 0x100000) with 0. lia.
Qed.

Lemma cost3 m d :
  is_Some (pte_slot m d (data - PGSIZE)) ->
  PDX (data - PGSIZE) + map_cost m d data (PHYSTOP - PGSIZE) <= 3.
Proof.
  intros H. unfold map_cost. change (PDX (PHYSTOP - PGSIZE)) with 3.
  destruct (decide (PDX (data - PGSIZE) = PDX data)) as [E|Hne].
  - rewrite (walk_cost_same m d data (data - PGSIZE)) by done. lia.
  - pose proof (walk_cost_1 m d data).
    assert (PDX (data - PGSIZE) = PDX data - 1); [|lia].
    revert Hne. unfold PHYSTOP, PGSIZE in *.
    rewrite !PDX_div by (unfold is_u32; lia). unfold PGSIZE. dm.
Qed.

Lemma cost4 m d : map_cost m d 0xFE000000 (2 ^ 32 - PGSIZE) <= 8.
Proof.
  unfold map_cost. pose proof (walk_cost_1 m d 0xFE000000).
  change (PDX (2 ^ 32 - PGSIZE)) with 1023. change (PDX 0xFE000000) with 1016. lia.
Qed.

Lemma setupkvm_loop_spec d s0 fl0 :
  kinv kend s0 fl0 -> wfdir kend fl0 (mem s0) d ->
  (forall va, is_u32 va -> pte_slot (mem s0) d va = None) -> room s0 fl0 12 ->
  exists s' fl',
    setupkvm_loop (kmap data) d s0 = Ret (d, s') /\ grown kend d 12 s0 fl0 s' fl' /\
    forall va, is_u32 va -> pte_val (mem s') d va = kernel_pte data va.
Proof.
  intros Hk Hwf Hz Hroom. unfold kmap.
  assert (Hnone : forall va, is_u32 va -> pte_val (mem s0) d va = 0)
    by (intros; unfold pte_val; by rewrite Hz).
  assert (Ha : 0 <= PDX (data - PGSIZE) <= 3).
  { unfold PHYSTOP in *. rewrite PDX_div by (unfold is_u32, PGSIZE; lia). unfold PGSIZE. dm. }
  destruct (setupkvm_row kend d USERTOP 0x100000 PTE_W [(0x100000, data, 0);
    (data, PHYSTOP, PTE_W); (0xFE000000, 0, PTE_W)] s0 fl0 1 11)
    as (s1 & fl1 & E1 & G1 & R1 & M1); auto using cost1; try done.
  set (x := PDX (data - PGSIZE)) in *.
  assert (Eud : u32 data = data) by (apply u32_small; unfold is_u32, PHYSTOP in *; lia).
  assert (S1 : is_Some (pte_slot (mem s1) d USERTOP)) by (by eapply idmapped_slot).
  destruct (setupkvm_row kend d 0x100000 data 0 [
    (data, PHYSTOP, PTE_W); (0xFE000000, 0, PTE_W)] s1 fl1 x (11 - x))
    as (s2 & fl2 & E2 & G2 & R2 & M2).
  1,2: apply G1. 1: done.
  { by rewrite Eud. } { lia. } { unfold PHYSTOP in *; lia. }
  { intros va Hva Hr. rewrite M1, decide_False by (auto; lia). auto. }
  { rewrite cost2 by done. done. } { eapply room_mono; [done|lia]. } { lia. }
  assert (S2 : is_Some (pte_slot (mem s2) d (data - PGSIZE))).
  { eapply idmapped_slot; [done|..]; unfold is_u32, PHYSTOP, PGSIZE in *; try lia. dm. }
  assert (C3 := cost3 (mem s2) d S2). fold x in C3.
  destruct (setupkvm_row kend d data PHYSTOP PTE_W [(0xFE000000, 0, PTE_W)] s2 fl2 (3 - x) 8)
    as (s3 & fl3 & E3 & G3 & R3 & M3).
  1,2: apply G2. 1,2,4: done. { lia. }
  { intros va Hva Hr. rewrite M2, M1, !decide_False by (auto; lia). auto. }
  { lia. } { eapply room_mono; [done|lia]. } { lia. }
  destruct (setupkvm_row kend d 0xFE000000 (2 ^ 32) PTE_W [] s3 fl3 8 0)
    as (s4 & fl4 & E4 & G4 & _ & M4).
  1,2: apply G3. 1,2,4,7,8: done. { lia. }
  { intros va Hva Hr. unfold PHYSTOP in *.
    rewrite M3, M2, M1, !decide_False by (auto; unfold PHYSTOP; lia). auto. }
  { apply cost4. }
  exists s4, fl4. split_and!.
  - rewrite Eud in E2. exact (eq_trans E1 (eq_trans E2 (eq_trans E3 E4))).
  - eapply grown_mono; [eapply grown_trans; [exact G1|]|].
    { eapply grown_trans; [exact G2|]. eapply grown_trans; [exact G3|exact G4]. }
    lia.
  - intros va Hva. by eapply kernel_rows.
Qed.

(** [setupkvm] builds a directory with the kernel's mappings and nothing else. *)
Lemma setupkvm_spec s fl :
  kinv kend s fl -> room s fl 13 ->
  exists d s' fl',
    setupkvm data s = Ret (d, s') /\ evolves kend [] 13 s fl s' fl' /\
    good_page kend d /\ wfdir kend fl' (mem s') d /\ pt_pages (mem s') d ⊆ fl /\
    forall va, is_u32 va -> pte_val (mem s') d va = kernel_pte data va.
Proof.
  intros Hk Hroom.
  destruct (evolves_kzalloc kend s fl Hk) as (d & s1 & fl1 & E & Hev & Hin & Hnin & Hg & Hz).
  { eapply room_mono; [done|lia]. }
  unfold setupkvm. rewrite E. simpl.
  rewrite (proj2 (Z.eqb_neq d 0)) by (eapply good_page_ne; eauto).
  generalize dependent (set_mem (memset (mem s1) d 0 PGSIZE) s1). intros s2 Hev Hz.
  destruct (wfdir_zero kend fl1 (mem s2) d Hg Hnin Hz) as (Hwf & Hno & Hpg).
  destruct (setupkvm_loop_spec d s2 fl1) as (s' & fl' & E' & Hgr & Hv); auto.
  { apply Hev. } { by eapply evolves_room. }
  exists d, s', fl'. split_and!; auto; try apply Hgr.
  - change 13 with (1 + 12). eapply evolves_trans; [done|apply Hgr|].
    intros p ->%Hpg%list_elem_of_singleton. set_solver.
  - intros p [->%Hpg%list_elem_of_singleton|Hp]%(gr_pages _ _ _ _ _ _ _ Hgr)%elem_of_app; [done|].
    by apply (ev_fl _ _ _ _ _ _ _ Hev).
Qed.
End Setupkvm.

(** ** [copyuvm] *)

(** A page that is neither written nor free keeps its bytes. *)
Lemma evolves_page kend W k s fl s' fl' f b :
  kinv kend s fl -> evolves kend W k s fl s' fl' -> Forall (fun p => p mod PGSIZE = 0) W ->
  f mod PGSIZE = 0 -> f ∉ W -> f ∉ fl -> in_page f b -> rd8 (mem s') b = rd8 (mem s) b.
Proof.
  intros Hk Hev HW Hf HnW Hnfl Hb. apply (ev_out _ _ _ _ _ _ _ Hev).
  intros p Hp Hpb. assert (p mod PGSIZE = 0).
  { apply elem_of_app in Hp as [Hp|Hp]; [by rewrite Forall_forall in HW; apply HW|].
    pose proof (kinv_pages _ _ _ Hk) as Hg. rewrite Forall_forall in Hg. by apply Hg. }
  assert (f = p) as -> by (by eapply page_disjoint).
  apply elem_of_app in Hp as [?|?]; done.
Qed.

(** The permission [copyuvm] gives the copy of a page with entry [e]. *)
Definition copy_perm (e : Z) : Z :=
  if Z.land e PTE_W =? 0 then PTE_U else Z.lor PTE_W PTE_U.

(** A fresh page with a copy of the page [pa]. *)
Lemma evolves_copy kend s fl pa :
  kinv kend s fl -> room s fl 1 -> pa mod PGSIZE = 0 -> pa ∉ fl ->
  exists p s1 fl',
    let s' := set_mem (memmove (mem s1) p pa PGSIZE) s1 in
    kalloc s = Ret (p, s1) /\ evolves kend [] 1 s fl s' fl' /\
    p ∈ fl /\ (p ∉ fl') /\ good_page kend p /\
    (forall o, 0 <= o < PGSIZE -> rd8 (mem s') (p + o) = rd8 (mem s) (pa + o)).
Proof.
  intros Hk Hroom Hal Hpa.
  destruct (evolves_kalloc kend s fl Hk Hroom) as (p & s1 & fl' & E & Hev & Hin & Hnin & Hg).
  exists p, s1, fl'. split_and!; auto.
  - change 1 with (1 + 0). eapply (evolves_trans _ [] [p]); [exact Hev| |set_solver].
    apply evolves_write; [apply Hev| |].
    + intros q ->%list_elem_of_singleton. split; [apply Hg|done].
    + intros b Hb. rewrite rd8_memmove by done. rewrite decide_False; [done|].
      apply (Hb p). set_solver.
  - intros o Ho. simpl. rewrite rd8_memmove by done. rewrite decide_True by lia.
    rewrite Z.add_simpl_l. eapply (evolves_page kend [] 1 s fl s1 fl'); eauto; [set_solver|].
    unfold in_page. lia.
Qed.

Lemma not_in_nil (l : list Z) p : p ∈ l -> p ∉ @nil Z.
Proof. intros _. apply not_elem_of_nil. Qed.

Lemma pte_val_page m d va : is_u32 va -> pte_val m d (PGSIZE * (va / PGSIZE)) = pte_val m d va.
Proof.
  intros Hva. unfold pte_val, pte_slot.
  rewrite !PDX_div, !PTX_div by (unfold is_u32, PGSIZE in *; dm).
  replace (PGSIZE * (va / PGSIZE) / PGSIZE) with (va / PGSIZE) by (unfold PGSIZE; dm). done.
Qed.

Section Copyuvm.
Context (kend data : Z).
Context (Hdata : 0x100000 < data < PHYSTOP) (Haldata : data mod PGSIZE = 0).
(** The parent, in the state [copyuvm] starts from. *)
Context (s0 : kst) (fl0 : list Z) (pd sz : Z).
Context (Hk0 : kinv kend s0 fl0) (Hwf0 : wfdir kend fl0 (mem s0) pd).
Context (Hsz : 0 <= sz <= USERTOP).
Let pte0 (va : Z) : Z := pte_val (mem s0) pd va.
Context (Hpres : forall va, 0 <= va < sz -> has (pte0 va) PTE_P = true).
Context (Hheld : forall va, 0 <= va < sz -> PTE_ADDR (pte0 va) ∉ fl0).

(** The state after the pages [fs] were copied. *)
Record copied (d : Z) (s : kst) (fl fs : list Z) : Prop := {
  cp_ev : evolves kend [] (13 + Z.of_nat (length fs)) s0 fl0 s fl;
  cp_wf : wfdir kend fl (mem s) d;
  cp_pages : pt_pages (mem s) d ⊆ fl0;
  cp_nodup : NoDup fs;
  cp_fs : forall f, f ∈ fs -> f ∈ fl0 /\ (f ∉ fl) /\ (f ∉ pt_pages (mem s) d);
  cp_val : forall va, is_u32 va -> pte_val (mem s) d va =
    match fs !! Z.to_nat (va / PGSIZE) with
    | Some f => u32 (entry f (copy_perm (pte0 (PGSIZE * (va / PGSIZE)))))
    | None => kernel_pte data va
    end;
  cp_data : forall j f o, fs !! j = Some f -> 0 <= o < PGSIZE ->
    rd8 (mem s) (f + o) = rd8 (mem s0) (PTE_ADDR (pte0 (PGSIZE * Z.of_nat j)) + o)
}.

Lemma copied_start :
  room s0 fl0 13 ->
  exists d s fl, setupkvm data s0 = Ret (d, s) /\ good_page kend d /\ copied d s fl [].
Proof.
  intros Hroom. destruct (setupkvm_spec kend data Hdata Haldata s0 fl0 Hk0 Hroom)
    as (d & s & fl & E & Hev & Hg & Hwf & Hpg & Hv).
  exists d, s, fl. split_and!; auto. constructor; auto.
  - apply NoDup_nil_2.
  - intros f Hf. by apply elem_of_nil in Hf.
  - done.
Qed.

Lemma parent_agree d s fl fs : copied d s fl fs -> pt_agree (mem s0) (mem s) pd.
Proof. intros H. eapply evolves_agree; [done|apply H|done|done|]. apply not_in_nil. Qed.

(** The table of user addresses exists from the start. *)
Lemma child_slot d s fl fs :
  copied d s fl fs -> Z.of_nat (length fs) * PGSIZE <= USERTOP ->
  is_Some (pte_slot (mem s) d USERTOP).
Proof.
  intros H Hl. pose proof (cp_val _ _ _ _ H USERTOP ltac:(done)) as Hv.
  rewrite lookup_ge_None_2 in Hv.
  - unfold pte_val in Hv. destruct (pte_slot (mem s) d USERTOP); [eauto|].
    vm_compute in Hv. discriminate.
  - change (USERTOP / PGSIZE) with 160. unfold PGSIZE, USERTOP in *. lia.
Qed.

(** The next page of the child is not mapped, and needs no new table. *)
Lemma child_next d s fl fs i :
  copied d s fl fs -> i = PGSIZE * Z.of_nat (length fs) -> i < sz ->
  unmapped (mem s) d i 1 /\ map_cost (mem s) d i i = 0.
Proof.
  intros H Hi Hlt. assert (is_u32 i) by (unfold is_u32, PGSIZE, USERTOP in *; lia). split.
  - intros va Hva Hr. rewrite (cp_val _ _ _ _ H va Hva).
    assert (Hpg : va / PGSIZE = Z.of_nat (length fs)).
    { unfold in_range in Hr. subst i. unfold PGSIZE in *. revert Hr. dm. }
    rewrite lookup_ge_None_2 by (rewrite Hpg; lia).
    assert (va < USERTOP) by (unfold PGSIZE, USERTOP in *; subst i; dm).
    unfold kernel_pte, USERTOP, PHYSTOP, is_u32 in *. repeat case_decide; try lia. done.
  - unfold map_cost. rewrite (walk_cost_same _ _ i USERTOP); [lia| |].
    + rewrite !PDX_div by done. unfold USERTOP, PGSIZE, is_u32 in *. dm.
    + eapply child_slot; [done|]. unfold PGSIZE, USERTOP in *. lia.
Qed.

(** One more page. *)
Section Snoc.
Context (d : Z) (s : kst) (fl fs : list Z) (Hc : copied d s fl fs).
Context (p : Z) (s2 : kst) (fl1 : list Z) (s3 : kst) (fl3 : list Z) (i : Z).
Context (Hi : i = PGSIZE * Z.of_nat (length fs)) (Hlt : i < sz).
Context (Hev : evolves kend [] 1 s fl s2 fl1) (Hp : p ∈ fl) (Hp1 : p ∉ fl1).
Context (Hg : good_page kend p).
Context (Hdat : forall o, 0 <= o < PGSIZE ->
  rd8 (mem s2) (p + o) = rd8 (mem s) (PTE_ADDR (pte0 i) + o)).
Context (Hgr : grown kend d 0 s2 fl1 s3 fl3).
Context (Hm : mapped (mem s2) (mem s3) d i 1 p (copy_perm (pte0 i))).

Lemma snoc_agree : pt_agree (mem s) (mem s2) d.
Proof using Hc Hev.
  destruct Hc as [[Hk] Hwf _ _ _ _ _]. eapply evolves_agree; [exact Hk|exact Hev|done|done|].
  apply not_in_nil.
Qed.

Lemma snoc_pages : pt_pages (mem s3) d ⊆ pt_pages (mem s) d ++ fl1.
Proof.
  rewrite <- (pdes_pages (mem s) (mem s2)) by auto using snoc_agree with xv6. apply Hgr.
Qed.

Lemma snoc_fs f : f ∈ fs ++ [p] -> f ∈ fl0 /\ (f ∉ fl3) /\ (f ∉ pt_pages (mem s3) d).
Proof.
  destruct Hc as [Hev0 Hwf Hpg Hnd Hfs _ _].
  pose proof (ev_fl _ _ _ _ _ _ _ Hev) as F1.
  pose proof (ev_fl _ _ _ _ _ _ _ (gr_ev _ _ _ _ _ _ _ Hgr)) as F3.
  pose proof snoc_pages as Hpg3.
  intros [Hf| ->%list_elem_of_singleton]%elem_of_app.
  - destruct (Hfs f Hf) as (H1 & H2 & H3). split_and!; [done|by intros ?%F3%F1|].
    intros [?|?%F1]%Hpg3%elem_of_app; done.
  - split_and!; [by apply (ev_fl _ _ _ _ _ _ _ Hev0)|by intros ?%F3|].
    intros [H|?]%Hpg3%elem_of_app; [|done]. by destruct (wf_good _ _ _ _ Hwf p H).
Qed.

Lemma snoc_ev : evolves kend (pt_pages (mem s) d) 1 s fl s3 fl3.
Proof.
  change 1 with (1 + 0). eapply evolves_trans; [|apply Hgr|].
  - eapply evolves_mono; [exact Hev|apply list_subseteq_nil|lia].
  - rewrite (pdes_pages (mem s) (mem s2)) by auto using snoc_agree with xv6.
    by apply list_subseteq_app_l.
Qed.

Lemma snoc_data j f o :
  (fs ++ [p]) !! j = Some f -> 0 <= o < PGSIZE ->
  rd8 (mem s3) (f + o) = rd8 (mem s0) (PTE_ADDR (pte0 (PGSIZE * Z.of_nat j)) + o).
Proof.
  pose proof Hc as [Hev0 Hwf Hpg Hnd Hfs _ Hd]. intros Hj Ho.
  assert (Hpgs : Forall (fun q => q mod PGSIZE = 0) (pt_pages (mem s) d)).
  { apply Forall_forall. intros q Hq. by destruct (wf_good _ _ _ _ Hwf q Hq) as [[]]. }
  apply lookup_snoc_Some in Hj as [(Hlt' & Hj)|(-> & <-)].
  - rewrite <- (Hd j f o) by done. destruct (Hfs f) as (H1 & H2 & H3).
    { by eapply list_elem_of_lookup_2. }
    eapply (evolves_page kend _ 1 s fl s3 fl3 f); eauto using snoc_ev; [apply Hev0| |].
    + pose proof (kinv_pages _ _ _ Hk0) as Hg0. rewrite Forall_forall in Hg0. by apply Hg0.
    + unfold in_page; lia.
  - rewrite <- Hi.
    assert (Hin : in_page p (p + o)) by (unfold in_page; lia).
    destruct Hgr as [Hev3 _ _].
    rewrite (evolves_page kend (pt_pages (mem s2) d) 0 s2 fl1 s3 fl3 p (p + o)); auto.
    + rewrite Hdat by done.
      eapply (evolves_page kend [] _ s0 fl0 s fl (PTE_ADDR (pte0 i))); eauto.
      * rewrite PTE_ADDR_div by (unfold pte0, pte_val; case_match; auto using load32_range; done).
        unfold PGSIZE; dm.
      * apply not_elem_of_nil.
      * apply Hheld. unfold PGSIZE in *. lia.
      * unfold in_page; lia.
    + apply Hev.
    + by rewrite (pdes_pages (mem s) (mem s2)) by auto using snoc_agree with xv6.
    + apply Hg.
    + rewrite (pdes_pages (mem s) (mem s2)) by auto using snoc_agree with xv6.
      intros H. by destruct (wf_good _ _ _ _ Hwf p H).
Qed.

Lemma copied_snoc : copied d s3 fl3 (fs ++ [p]).
Proof.
  pose proof Hc as [Hev0 Hwf Hpg Hnd Hfs Hv Hd]. constructor.
  - rewrite length_app. simpl.
    replace (13 + Z.of_nat (length fs + 1)) with (13 + Z.of_nat (length fs) + 1) by lia.
    eapply evolves_trans; [exact Hev0|exact snoc_ev|]. done.
  - apply Hgr.
  - intros q [Hq|Hq]%snoc_pages%elem_of_app; [by apply Hpg|].
    by apply (ev_fl _ _ _ _ _ _ _ Hev0), (ev_fl _ _ _ _ _ _ _ Hev).
  - apply NoDup_app. split_and!; [done| |apply NoDup_singleton].
    intros f Hf ->%list_elem_of_singleton. by destruct (Hfs p Hf) as (_ & ? & _).
  - exact snoc_fs.
  - intros va Hva. rewrite Hm by done. unfold in_range.
    assert (Hq : i / PGSIZE = Z.of_nat (length fs)) by (subst i; unfold PGSIZE; dm).
    assert (0 <= va / PGSIZE) by (unfold is_u32, PGSIZE in *; dm).
    case_decide as Hr.
    + replace (va / PGSIZE) with (Z.of_nat (length fs)) by lia.
      rewrite Nat2Z.id, list_lookup_middle, Hq by done.
      rewrite Z.sub_diag, Z.mul_0_r, Z.add_0_r, Hi. done.
    + rewrite (pt_agree_val _ _ _ _ snoc_agree Hva), Hv by done.
      destruct (decide (va / PGSIZE < Z.of_nat (length fs))).
      * by rewrite lookup_app_l by lia.
      * rewrite !lookup_ge_None_2; [done| |]; rewrite ?length_app; simpl; lia.
  - exact snoc_data.
Qed.
End Snoc.

Lemma mappages_one d p perm s fl i :
  kinv kend s fl -> wfdir kend fl (mem s) d -> good_page kend p ->
  i mod PGSIZE = 0 -> 0 <= i < sz -> unmapped (mem s) d i 1 -> map_cost (mem s) d i i = 0 ->
  exists s' fl',
    mappages d i PGSIZE p perm s = Ret (0, s') /\ grown kend d 0 s fl s' fl' /\
    mapped (mem s) (mem s') d i 1 p perm.
Proof.
  intros Hk Hwf (Hal & Hp & Hp') Hi Hr Hun Hcost.
  assert (Ei : PGROUNDDOWN i = i).
  { rewrite PGROUNDDOWN_div; unfold is_u32, PGSIZE, USERTOP in *; dm. }
  assert (El : PGROUNDDOWN (i + PGSIZE - 1) = i).
  { rewrite PGROUNDDOWN_div; unfold is_u32, PGSIZE, USERTOP in *; dm. }
  assert (E1 : i / PGSIZE - i / PGSIZE + 1 = 1) by lia.
  destruct (mappages_spec kend d i PGSIZE p perm s fl) as (s' & fl' & E & Hg & Hm);
    rewrite ?El, ?Ei, ?E1; auto; try (unfold PGSIZE, USERTOP, PHYSTOP in *; lia).
  - rewrite Hcost. pose proof (kinv_hist _ _ _ Hk). unfold room. lia.
  - exists s', fl'. rewrite El, Ei, Hcost in Hg. rewrite El, E1 in Hm. done.
Qed.

(** The parent's entry, wherever its tables have not changed. *)
Lemma parent_pte i :
  0 <= i < sz ->
  exists pte, 0 < pte /\ PTE_ADDR (pte0 i) mod PGSIZE = 0 /\
    forall m, pt_agree (mem s0) m pd -> pte_slot m pd i = Some pte /\ load32 m pte = pte0 i.
Proof.
  intros Hi. assert (Hui : is_u32 i) by (unfold is_u32, USERTOP in *; lia).
  pose proof (Hpres i Hi) as HP.
  assert (exists pte, pte_slot (mem s0) pd i = Some pte /\ load32 (mem s0) pte = pte0 i)
    as (pte & Hslot & Hv0).
  { unfold pte0, pte_val in *. destruct (pte_slot (mem s0) pd i); [eauto|done]. }
  exists pte. split_and!.
  - by eapply (slot_nonzero kend fl0 (mem s0) pd i).
  - rewrite <- Hv0, PTE_ADDR_div by apply load32_range. unfold PGSIZE. dm.
  - intros m Hag.
    assert (Hslot' : pte_slot m pd i = Some pte)
      by (by rewrite (pdes_slot (mem s0)) by auto with xv6).
    split; [done|]. pose proof (pt_agree_val _ _ _ _ Hag Hui) as H. unfold pte_val in H.
    rewrite Hslot', Hslot in H. congruence.
Qed.

Lemma copy_step d s fl fs n i :
  copied d s fl fs -> i = PGSIZE * Z.of_nat (length fs) -> i < sz -> room s fl 1 ->
  exists p s' fl',
    copyuvm_loop (S n) pd d i sz s = copyuvm_loop n pd d (i + PGSIZE) sz s' /\
    copied d s' fl' (fs ++ [p]).
Proof.
  intros Hc Hi Hlt Hroom. pose proof Hc as [Hev0 Hwf _ _ _ _ _].
  assert (Hi0 : 0 <= i < sz) by (unfold PGSIZE in *; lia).
  destruct (parent_pte i Hi0) as (pte & Hpos & Hpa & Hpte).
  destruct (Hpte (mem s) (parent_agree _ _ _ _ Hc)) as [Hslot Hv].
  destruct (evolves_copy kend s fl (PTE_ADDR (pte0 i)))
    as (p & s1 & fl1 & E & Hev & Hp & Hp1 & Hg & Hd); auto.
  { apply Hev0. }
  { intros H. apply (Hheld i Hi0). by apply (ev_fl _ _ _ _ _ _ _ Hev0). }
  cbn [copyuvm_loop]. rewrite (proj2 (Z.ltb_lt i sz)), (walk_present _ _ _ _ _ Hslot) by done.
  simpl. rewrite (proj2 (Z.eqb_neq pte 0)), Hv, (Hpres i Hi0), E by lia. simpl.
  rewrite (proj2 (Z.eqb_neq p 0)) by (eapply good_page_ne; eauto).
  change (memmove (mem s1) p (PTE_ADDR (pte0 i)) PGSIZE)
    with (mem (set_mem (memmove (mem s1) p (PTE_ADDR (pte0 i)) PGSIZE) s1)) at 1.
  generalize dependent (set_mem (memmove (mem s1) p (PTE_ADDR (pte0 i)) PGSIZE) s1).
  intros s2 Hev Hd.
  assert (Hag2 : pt_agree (mem s0) (mem s2) pd).
  { eapply evolves_agree; [done|eapply evolves_trans; [exact Hev0|exact Hev|apply list_subseteq_nil]|done..|].
    apply not_in_nil. }
  rewrite (proj2 (Hpte (mem s2) Hag2)).
  destruct (child_next _ _ _ _ _ Hc Hi Hlt) as [Hun Hcost].
  pose proof (snoc_agree _ _ _ _ Hc s2 fl1 Hev) as Hagd.
  destruct (mappages_one d p (copy_perm (pte0 i)) s2 fl1 i) as (s3 & fl3 & E3 & Hgr & Hm); auto.
  { apply Hev. }
  { eapply evolves_wf; [apply Hev0|exact Hev|done|done|]. apply not_in_nil. }
  { subst i. unfold PGSIZE. dm. }
  { intros va Hva Hr. rewrite (pt_agree_val (mem s)) by done. by apply Hun. }
  { rewrite <- Hcost. unfold map_cost, walk_cost.
    by rewrite (pdes_slot (mem s)) by (auto with xv6; unfold is_u32, USERTOP in *; lia). }
  exists p, s3, fl3. split;
    [|exact (copied_snoc d s fl fs Hc p s2 fl1 s3 fl3 i Hi Hlt Hev Hp Hp1 Hg Hd Hgr Hm)].
  assert (Eu : u32 (i + PGSIZE) = i + PGSIZE)
    by (apply u32_small; unfold is_u32, USERTOP, PGSIZE in *; lia).
  unfold copy_perm in E3. destruct (Z.land (pte0 i) PTE_W =? 0); rewrite E3; simpl; by rewrite Eu.
Qed.

Lemma copy_loop n : forall d s fl fs,
  copied d s fl fs -> PGSIZE * Z.of_nat (length fs) < sz + PGSIZE ->
  sz <= PGSIZE * (Z.of_nat (length fs) + Z.of_nat n) ->
  room s0 fl0 (13 + Z.of_nat (length fs) + Z.of_nat n) ->
  exists s' fl' fs',
    copyuvm_loop (S n) pd d (PGSIZE * Z.of_nat (length fs)) sz s = Ret (true, s') /\
    copied d s' fl' fs' /\ sz <= PGSIZE * Z.of_nat (length fs') < sz + PGSIZE.
Proof.
  induction n as [|n IH]; intros d s fl fs Hc Hlo Hhi Hroom.
  all: destruct (decide (PGSIZE * Z.of_nat (length fs) < sz)) as [Hlt|Hge]; [|exists s, fl, fs;
    cbn [copyuvm_loop]; rewrite (proj2 (Z.ltb_ge _ _)) by lia; split_and!; auto; lia].
  - lia.
  - destruct (copy_step d s fl fs (S n) _ Hc eq_refl Hlt) as (p & s' & fl' & E & Hc').
    { eapply evolves_room; [apply Hc|]. eapply room_mono; [done|lia]. }
    rewrite E.
    replace (PGSIZE * Z.of_nat (length fs) + PGSIZE)
      with (PGSIZE * Z.of_nat (length (fs ++ [p]))) by (rewrite length_app; simpl; lia).
    apply (IH d s' fl'); [done|..]; rewrite length_app; simpl; try (unfold PGSIZE in *; lia).
    eapply room_mono; [done|lia].
Qed.

(** The pages of the child, in terms of the frames [fs]. *)
Lemma copied_frame d s fl fs va :
  copied d s fl fs -> sz <= PGSIZE * Z.of_nat (length fs) -> 0 <= va < sz ->
  exists f, fs !! Z.to_nat (va / PGSIZE) = Some f /\
    pte_val (mem s) d va = entry f (copy_perm (pte0 va)) /\
    PTE_ADDR (pte_val (mem s) d va) = f /\ has (pte_val (mem s) d va) PTE_P = true.
Proof.
  intros Hc Hl Hva. assert (Hu : is_u32 va) by (unfold is_u32, USERTOP in *; lia).
  destruct (lookup_lt_is_Some_2 fs (Z.to_nat (va / PGSIZE))) as [f Hf].
  { unfold PGSIZE in *. dm. }
  exists f. split; [done|]. rewrite (cp_val _ _ _ _ Hc va Hu), Hf by done.
  unfold pte0. rewrite pte_val_page by done. fold (pte0 va).
  assert (Hg : good_page kend f).
  { pose proof (kinv_pages _ _ _ Hk0) as Hg. rewrite Forall_forall in Hg.
    apply Hg, (cp_fs _ _ _ _ Hc). by eapply list_elem_of_lookup_2. }
  destruct (entry_u32 f (copy_perm (pte0 va))) as (E1 & E2 & E3).
  - apply Hg.
  - destruct Hg as (_ & ? & ?). unfold PHYSTOP in *. lia.
  - unfold copy_perm. by case_match.
  - by rewrite E1.
Qed.
End Copyuvm.

(** The flags of a copied page. *)
Lemma copy_flags f e :
  f mod PGSIZE = 0 ->
  has (entry f (copy_perm e)) PTE_U = true /\
  has (entry f (copy_perm e)) PTE_W = has e PTE_W.
Proof.
  intros Hf. rewrite has_U, !has_W. unfold entry. rewrite !Z.lor_spec, (aligned_bit f 2), (aligned_bit f 1) by (auto; lia).
  rewrite <- (has_W e). unfold copy_perm, has. destruct (Z.land e PTE_W =? 0); done.
Qed.

(** ** A concrete address space

    Twenty free pages, and a directory with one read-only user page. *)

Definition demo_fl : list Z := pages_from 0x200000 20.
Definition demo_links : memory :=
  foldr (fun p m => store32 m p (if p =? 0x213000 then 0 else p + PGSIZE)) ∅ demo_fl.
Definition demo_dir : Z := 0x300000.
Definition demo_table : Z := 0x301000.
Definition demo_frame : Z := 0x302000.
Definition demo_mem1 : memory :=
  store32 demo_links (demo_dir + 4 * 0)
    (Z.lor (Z.lor (Z.lor demo_table PTE_P) PTE_W) PTE_U).
Definition demo_mem : memory := store32 demo_mem1 demo_table (entry demo_frame PTE_U).
Definition demo_vm : kst := Kst demo_mem 0x200000 (replicate 512 0) 0 20 1.

Lemma demo_links_outside : same_outside demo_fl ∅ demo_links.
Proof.
  unfold demo_links. assert (H : forall l, l ⊆ demo_fl -> same_outside demo_fl ∅
    (foldr (fun p m => store32 m p (if p =? 0x213000 then 0 else p + PGSIZE)) ∅ l)).
  { induction l as [|p l IH]; intros Hl; [done|]. cbn [foldr].
    eapply same_outside_trans; [apply IH; set_solver|].
    apply (same_outside_store32 _ _ _ _ p); [apply Hl; set_solver|lia|unfold PGSIZE; lia]. }
  by apply H.
Qed.

Lemma demo_kinv_links :
  kinv 0x110000 (set_mem demo_links demo_vm) demo_fl.
Proof.
  constructor.
  - vm_compute. tauto.
  - apply (bool_decide_unpack _). vm_compute. done.
  - unfold good_page. apply (bool_decide_unpack _). vm_compute. done.
  - done.
  - done.
  - vm_compute. intuition congruence.
Qed.

Lemma demo_facts :
  good_page 0x110000 demo_table /\ is_u32 0 /\ (demo_table ∉ demo_fl) /\
  has (pde demo_links demo_dir 0) PTE_P = false.
Proof.
  split_and!; [by vm_compute..| |by vm_compute]. apply (bool_decide_unpack _). by vm_compute.
Qed.

Lemma demo_zero b p :
  p mod PGSIZE = 0 -> p ∉ demo_fl -> in_page p b -> rd8 demo_links b = 0.
Proof.
  intros Hal Hp Hb. rewrite demo_links_outside; [done|].
  intros q Hq Hqb. apply Hp. rewrite (page_disjoint p q b); auto.
  pose proof (kinv_pages _ _ _ demo_kinv_links) as Hg. rewrite Forall_forall in Hg. by apply Hg.
Qed.

Lemma demo_wf_links :
  wfdir 0x110000 demo_fl demo_links demo_dir /\
  (forall va, is_u32 va -> pte_slot demo_links demo_dir va = None) /\
  pt_pages demo_links demo_dir ⊆ [demo_dir].
Proof.
  assert (demo_dir ∉ demo_fl) by (apply (bool_decide_unpack _); by vm_compute).
  apply wfdir_zero; [by vm_compute|done|]. intros b. by apply demo_zero.
Qed.

Lemma demo_wf1 :
  wfdir 0x110000 demo_fl demo_mem1 demo_dir /\
  pte_slot demo_mem1 demo_dir 0 = Some demo_table /\
  forall va, is_u32 va -> pte_val demo_mem1 demo_dir va = 0.
Proof.
  destruct demo_wf_links as (Hwf & Hno & Hpg).
  destruct demo_facts as (Hg & _ & Hfl & Habs). assert (Hi : 0 <= 0 < 1024) by lia.
  assert (Hnew : demo_table ∉ pt_pages demo_links demo_dir)
    by (intros H%Hpg%list_elem_of_singleton; discriminate).
  split_and!.
  - by apply install_wf.
  - destruct (install_tab 0x110000 demo_fl demo_links demo_dir 0 demo_table Hwf Hi Hg) as [T1 T2].
    apply pte_slot_Some. split; [exact T1|].
    change (PDX 0) with 0. unfold demo_mem1. rewrite T2. done.
  - intros va Hva. unfold demo_mem1.
    rewrite install_val with (kend := 0x110000) (fl := demo_fl); auto.
    + unfold pte_val. by rewrite Hno.
    + intros b. by apply demo_zero.
Qed.

Lemma demo_wf :
  wfdir 0x110000 demo_fl demo_mem demo_dir /\
  forall va, is_u32 va -> pte_val demo_mem demo_dir va =
    if decide (va / PGSIZE = 0) then entry demo_frame PTE_U else 0.
Proof.
  destruct demo_wf1 as (Hwf & Hslot & Hz).
  destruct (pte_store 0x110000 demo_fl demo_mem1 demo_dir 0 demo_table (entry demo_frame PTE_U)
    Hwf (proj1 (proj2 demo_facts)) Hslot) as (H1 & _ & H3).
  split; [by eapply pdes_wf|]. intros va Hva. unfold demo_mem.
  rewrite (H3 va Hva), (Hz va Hva). reflexivity.
Qed.

Lemma demo_kinv : kinv 0x110000 demo_vm demo_fl.
Proof.
  apply (ev_inv _ [demo_dir; demo_table] 0 (set_mem demo_links demo_vm) demo_fl demo_vm demo_fl).
  change demo_vm with (set_mem demo_mem (set_mem demo_links demo_vm)) at 2.
  apply evolves_write; [apply demo_kinv_links| |].
  - apply Forall_forall. repeat constructor; apply (bool_decide_unpack _); by vm_compute.
  - simpl. apply (same_outside_trans _ _ demo_mem1);
      [apply (same_outside_store32 _ _ _ _ demo_dir)|
       apply (same_outside_store32 _ _ _ _ demo_table)]; try set_solver; by vm_compute.
Qed.

(** ** What the builders guarantee *)

(** C31. [setupkvm] on an allocator with 13 free pages and room for them in the
    history always returns a new directory.  In it the kernel's I/O space,
    text, data and device addresses map to themselves, text without the write
    flag and the rest with it, and no other address is mapped; the allocator
    invariant and every page that was not free are kept. *)
Theorem setupkvm_maps_kernel kend data s fl :
  0x100000 < data < PHYSTOP -> data mod PGSIZE = 0 ->
  kinv kend s fl -> room s fl 13 ->
  exists d s' fl',
    setupkvm data s = Ret (d, s') /\ kinv kend s' fl' /\ fl' ⊆ fl /\
    same_outside fl (mem s) (mem s') /\ wfdir kend fl' (mem s') d /\
    forall va, is_u32 va -> pte_val (mem s') d va = kernel_pte data va.
Proof.
  intros Hd Hal Hk Hroom.
  destruct (setupkvm_spec kend data Hd Hal s fl Hk Hroom) as (d & s' & fl' & E & [] & _ & Hwf & _ & Hv).
  exists d, s', fl'. split_and!; auto.
Qed.

Lemma setupkvm_maps_kernel_witness :
  exists d s', setupkvm 0x108000 demo_vm = Ret (d, s') /\
    pte_val (mem s') d 0x107010 = 0x107001 /\ pte_val (mem s') d 0x4000 = 0.
Proof.
  assert (U1 : is_u32 0x107010) by (by vm_compute).
  assert (U2 : is_u32 0x4000) by (by vm_compute).
  assert (D : 0x100000 < 0x108000 < PHYSTOP) by (by vm_compute).
  assert (R : room demo_vm demo_fl 13) by (vm_compute; intuition congruence).
  destruct (setupkvm_maps_kernel 0x110000 0x108000 demo_vm demo_fl D eq_refl demo_kinv R)
    as (d & s' & fl' & E & _ & _ & _ & _ & Hv).
  exists d, s'. split; [exact E|]. rewrite (Hv _ U1), (Hv _ U2). split; reflexivity.
Defined.

(** The directory [d] of state [s'] maps a private copy of what [pd] maps in
    [s] below [sz], in pages that were free. *)
Definition is_copy (data : Z) (s : kst) (fl : list Z) (pd sz d : Z) (s' : kst) (fl' : list Z) : Prop :=
  (forall va, 0 <= va < sz ->
    let e := pte_val (mem s) pd va in let e' := pte_val (mem s') d va in
    has e' PTE_P = true /\ has e' PTE_U = true /\ has e' PTE_W = has e PTE_W /\
    PTE_ADDR e' ∈ fl /\ (PTE_ADDR e' ∉ fl') /\
    forall o, 0 <= o < PGSIZE -> rd8 (mem s') (PTE_ADDR e' + o) = rd8 (mem s) (PTE_ADDR e + o)) /\
  (forall va va', 0 <= va < sz -> 0 <= va' < sz ->
    PTE_ADDR (pte_val (mem s') d va) = PTE_ADDR (pte_val (mem s') d va') ->
    va / PGSIZE = va' / PGSIZE) /\
  (forall va, is_u32 va -> sz + PGSIZE <= va -> pte_val (mem s') d va = kernel_pte data va).

Lemma copyuvm_spec kend data s fl pd sz :
  0x100000 < data < PHYSTOP -> data mod PGSIZE = 0 ->
  kinv kend s fl -> wfdir kend fl (mem s) pd -> 0 <= sz <= USERTOP ->
  (forall va, 0 <= va < sz ->
    has (pte_val (mem s) pd va) PTE_P = true /\ PTE_ADDR (pte_val (mem s) pd va) ∉ fl) ->
  room s fl (14 + sz / PGSIZE) ->
  exists d s' fl',
    copyuvm kend data pd sz s = Ret (d, s') /\ evolves kend [] (14 + sz / PGSIZE) s fl s' fl' /\
    wfdir kend fl' (mem s') d /\ pt_agree (mem s) (mem s') pd /\ is_copy data s fl pd sz d s' fl' /\ good_page kend d.
Proof.
  intros Hd Hal Hk Hwf Hsz Hu Hroom.
  assert (Hp : forall va, 0 <= va < sz -> has (pte_val (mem s) pd va) PTE_P = true)
    by (intros; by apply Hu).
  assert (Hh : forall va, 0 <= va < sz -> PTE_ADDR (pte_val (mem s) pd va) ∉ fl)
    by (intros; by apply Hu).
  destruct (copied_start kend data Hd Hal s fl pd Hk) as (d & s1 & fl1 & E & Hg & Hc).
  { eapply room_mono; [done|]. unfold PGSIZE. dm. }
  destruct (copy_loop kend data Hd Hal s fl pd sz Hk Hwf Hsz Hp Hh
    (Z.to_nat (sz / PGSIZE + 1)) d s1 fl1 []) as (s' & fl' & fs & E' & Hc' & Hlen); auto.
  { unfold PGSIZE. simpl. lia. } { unfold PGSIZE. simpl. dm. }
  { eapply room_mono; [done|]. simpl. unfold PGSIZE. dm. }
  assert (Hfr : forall va, 0 <= va < sz -> exists f, fs !! Z.to_nat (va / PGSIZE) = Some f /\
    pte_val (mem s') d va = entry f (copy_perm (pte_val (mem s) pd va)) /\
    PTE_ADDR (pte_val (mem s') d va) = f /\ has (pte_val (mem s') d va) PTE_P = true)
    by (intros; eapply copied_frame; eauto; lia).
  exists d, s', fl'. split; [|split; [|split; [|split; [|split; [split; [|split]|]]]]].
  - unfold copyuvm. rewrite E. simpl. rewrite (proj2 (Z.eqb_neq d 0)) by (eapply good_page_ne; eauto).
    replace (Z.to_nat (sz / PGSIZE + 2)) with (S (Z.to_nat (sz / PGSIZE + 1)))
      by (unfold PGSIZE; dm).
    cbn [length] in E'. rewrite Z.mul_0_r in E'. rewrite E'. done.
  - eapply evolves_mono; [apply Hc'|set_solver|]. revert Hlen. unfold PGSIZE. dm.
  - apply Hc'.
  - by eapply (parent_agree kend data).
  - intros va Hva. destruct (Hfr va Hva) as (f & Hf & E1 & E2 & E3).
    destruct (cp_fs _ _ _ _ _ _ _ _ _ Hc' f) as (F1 & F2 & _); [by eapply list_elem_of_lookup_2|].
    pose proof (kinv_pages _ _ _ Hk) as Hgs. rewrite Forall_forall in Hgs.
    destruct (copy_flags f (pte_val (mem s) pd va)) as [U W]; [by apply Hgs|].
    cbv zeta. rewrite E2, E3. split_and!; auto; [by rewrite E1..|].
    intros o Ho. rewrite (cp_data _ _ _ _ _ _ _ _ _ Hc' _ f o Hf Ho).
    rewrite Z2Nat.id by (unfold PGSIZE; dm).
    by rewrite pte_val_page by (unfold is_u32, USERTOP in *; lia).
  - intros va va' Hva Hva'. destruct (Hfr va Hva) as (f & Hf & _ & -> & _).
    destruct (Hfr va' Hva') as (f' & Hf' & _ & -> & _). intros ->.
    pose proof (NoDup_lookup _ _ _ _ (cp_nodup _ _ _ _ _ _ _ _ _ Hc') Hf Hf') as Hq.
    unfold PGSIZE in *. revert Hq. dm.
  - intros va Hva Hge. rewrite (cp_val _ _ _ _ _ _ _ _ _ Hc' va Hva).
    rewrite lookup_ge_None_2; [done|]. unfold PGSIZE in *. dm.
  - done.
Qed.


(** The page that the demonstration directory maps. *)
Lemma demo_page va : 0 <= va < 4096 -> pte_val (mem demo_vm) demo_dir va = entry demo_frame PTE_U.
Proof.
  intros Hva. destruct demo_wf as [_ Hval]. change (mem demo_vm) with demo_mem.
  rewrite Hval by (unfold is_u32; lia). rewrite decide_True; [done|]. unfold PGSIZE. dm.
Qed.

Lemma demo_present va : 0 <= va < 4096 ->
  has (pte_val (mem demo_vm) demo_dir va) PTE_P = true /\ PTE_ADDR (pte_val (mem demo_vm) demo_dir va) ∉ demo_fl.
Proof.
  intros Hva. rewrite (demo_page va Hva). split; [reflexivity|].
  change (demo_frame ∉ demo_fl). apply (bool_decide_unpack _). by vm_compute.
Qed.


(** ** What the protection calls guarantee *)

Lemma clear_w_bit e i : 0 <= i -> is_u32 e ->
  Z.testbit (u32 (clear_w e)) i = Z.testbit e i && negb (i =? 1).
Proof.
  intros Hi He. rewrite u32_testbit by done. unfold clear_w.
  change 0xFFFFFFFD with (Z.ldiff (Z.ones 32) (2 ^ 1)).
  rewrite Z.land_spec, Z.ldiff_spec, Z.pow2_bits_eqb, (Z.eqb_sym 1 i) by lia.
  rewrite Z.testbit_ones_nonneg by lia.
  destruct (Z.ltb_spec i 32); simpl; [done|]. by rewrite (u32_bit_high e i He) by lia.
Qed.

Lemma set_w_bit e i : 0 <= i -> is_u32 e ->
  Z.testbit (u32 (set_w e)) i = Z.testbit e i || (i =? 1).
Proof.
  intros Hi He. rewrite u32_testbit by done. unfold set_w. change 0x0000002 with (2 ^ 1).
  rewrite Z.lor_spec, Z.pow2_bits_eqb, (Z.eqb_sym 1 i) by lia.
  destruct (Z.ltb_spec i 32); simpl; [done|]. rewrite (u32_bit_high e i He) by lia.
  symmetry. by apply Z.eqb_neq; lia.
Qed.

Lemma pte_val_range m d va : is_u32 (pte_val m d va).
Proof. unfold pte_val. case_match; [apply load32_range|done]. Qed.

(** The call that gives pages the write flag [w]. *)
Definition set_writable (w : bool) : Z -> Z -> Z -> kst -> outcome (Z * kst) :=
  if w then munprotect else mprotect.

(** One bit of a changed entry. *)
Lemma changed_bit (w : bool) m d va i :
  0 <= i ->
  (has (pte_val m d va) PTE_P = true \/ pte_slot m d va = None) ->
  Z.testbit (changed (if w then set_w else clear_w) m d va) i =
  if (i =? 1) && has (pte_val m d va) PTE_P then w else Z.testbit (pte_val m d va) i.
Proof.
  intros Hi Hp. unfold changed. destruct (pte_slot m d va) as [a|] eqn:E.
  - destruct Hp as [Hp|]; [|done]. rewrite Hp, andb_true_r.
    destruct w; [rewrite set_w_bit|rewrite clear_w_bit]; auto using pte_val_range;
      destruct (i =? 1); simpl; rewrite ?orb_true_r, ?orb_false_r, ?andb_true_r, ?andb_false_r; done.
  - unfold pte_val. rewrite E. by rewrite andb_false_r.
Qed.

Lemma stops_page m d va va' :
  is_u32 va -> is_u32 va' -> va / PGSIZE = va' / PGSIZE -> stops m d va -> stops m d va'.
Proof.
  intros Hva Hva' E. unfold stops, pte_val, pte_slot. by rewrite !PDX_div, !PTX_div, E by done.
Qed.

(** A page the calls did not stop at. *)
Lemma not_stops m d va :
  ~ stops m d va -> has (pte_val m d va) PTE_P = true \/ pte_slot m d va = None.
Proof.
  unfold stops. destruct (pte_slot m d va); [|auto].
  destruct (has (pte_val m d va) PTE_P); [auto|]. intros []. eauto.
Qed.

(** C32. [mprotect] ([w = false]) and [munprotect] ([w = true]) on [len] pages
    from [addr].  An address that is not page-aligned or a length that is not
    positive gives -1 and changes nothing.  Otherwise the pages are handled
    in order up to the first one whose table exists but whose entry is not
    present: if there is one the result is -1 and exactly the [k] pages before
    it are changed, else the result is 0 and all are.  In a changed page only
    the write flag of a present entry changes, to [w]; every other page, every
    other flag and all memory outside the page tables are kept. *)
Theorem page_protection (w : bool) kend fl s d addr len :
  wfdir kend fl (mem s) d -> is_u32 addr -> len <= 2 ^ 19 -> addr + len * PGSIZE <= 2 ^ 32 ->
  if decide (addr mod PGSIZE = 0 /\ 0 < len) then
    exists r k m',
      set_writable w d addr len s = Ret (r, set_mem m' s) /\
      (r = 0 /\ k = len \/
       r = -1 /\ 0 <= k < len /\ stops (mem s) d (addr + k * PGSIZE)) /\
      (forall j, 0 <= j < k -> ~ stops (mem s) d (addr + j * PGSIZE)) /\
      same_outside (pt_pages (mem s) d) (mem s) m' /\ wfdir kend fl m' d /\
      forall va i, is_u32 va -> 0 <= i ->
        Z.testbit (pte_val m' d va) i =
        if bool_decide (in_range addr k va) && (i =? 1) && has (pte_val (mem s) d va) PTE_P
        then w else Z.testbit (pte_val (mem s) d va) i
  else set_writable w d addr len s = Ret (-1, s).
Proof.
  intros Hwf Ha Hlen Hb.
  assert (E : set_writable w = protect (if w then set_w else clear_w)) by (by destruct w).
  rewrite E. unfold protect. rewrite PGROUNDDOWN_div by done. case_decide as Hc.
  - destruct Hc as [Hal Hl].
    rewrite (proj2 (Z.eqb_eq addr _)) by (unfold PGSIZE in *; dm). simpl.
    rewrite (proj2 (Z.leb_gt len 0)), (proj2 (Z.ltb_lt _ (2 ^ 31))) by (unfold PGSIZE; lia).
    simpl. rewrite u32_small by (unfold is_u32, PGSIZE in *; lia).
    destruct (protect_loop_spec kend fl (if w then set_w else clear_w) d (Z.to_nat (len - 1)) addr s)
      as (r & k & m' & El & (Hp1 & Hp2 & Hp3) & Hr & Hns);
      [done|done|unfold is_u32 in Ha; lia|unfold PGSIZE in *; lia|].
    replace (S (Z.to_nat (len - 1))) with (Z.to_nat len) in * by lia.
    rewrite !Z2Nat.id in * by lia.
    exists r, k, m'. split_and!; auto; [by eapply pdes_wf|].
    intros va i Hva Hi. rewrite Hp3 by done. case_bool_decide as Hin.
    + rewrite decide_True by done. apply changed_bit; [done|]. apply not_stops.
      intros Hst. unfold in_range in Hin.
      apply (Hns (va / PGSIZE - addr / PGSIZE)); [lia|].
      apply (stops_page _ _ va); auto; unfold is_u32, PGSIZE in *; dm.
    + by rewrite decide_False.
  - destruct (Z.eqb_spec addr (PGSIZE * (addr / PGSIZE))); simpl; [|done].
    rewrite (proj2 (Z.leb_le len 0)); [done|].
    destruct (decide (len <= 0)); [done|]. destruct Hc. split; [|lia]. unfold PGSIZE in *. dm.
Qed.

Lemma page_protection_witness :
  exists m', set_writable true demo_dir 0 1 demo_vm = Ret (0, set_mem m' demo_vm) /\
    has (pte_val m' demo_dir 0x10) PTE_W = true.
Proof.
  destruct demo_wf as [Hwf Hval].
  assert (U0 : is_u32 0) by (by vm_compute).
  assert (U1 : is_u32 0x10) by (by vm_compute).
  assert (L : 1 <= 2 ^ 19) by (by vm_compute).
  assert (B : 0 + 1 * PGSIZE <= 2 ^ 32) by (by vm_compute).
  assert (P : has (pte_val demo_mem demo_dir 0) PTE_P = true) by (rewrite Hval by done; reflexivity).
  destruct (page_protection true 0x110000 demo_fl demo_vm demo_dir 0 1 Hwf U0 L B)
    as (r & k & m' & E & Hr & _ & _ & _ & Hbits).
  assert (r = 0 /\ k = 1) as [-> ->].
  { destruct Hr as [Hr|(_ & Hk & _ & Hs)]; [exact Hr|]. replace k with 0 in Hs by lia.
    change (mem demo_vm) with demo_mem in Hs. change (0 + 0 * PGSIZE) with 0 in Hs. congruence. }
  exists m'. split; [exact E|]. rewrite has_W, Hbits by (exact U1 || lia).
  change (mem demo_vm) with demo_mem. rewrite Hval by exact U1. reflexivity.
Defined.
