(* ===== verification/Proc.v ===== *)
(** * The process table

    The data of [kernel/proc.h] and of the top of [kernel/proc.c]: the
    process descriptor, the table [ptable.proc], the scheduler's queues
    [mlfq] and [mlfq_size], and the operations that only look at or change
    process states: [wakeup1], [kill], [yield], [sleep] up to the switch and
    [getfilenum].  A pointer into the table is the index of the entry. *)

From S2P Require Import Prelude Memory.

(** ** Data *)

Definition NPROC : nat := 64.
Definition NOFILE : nat := 16.
Definition NLAYER : nat := 4.
(** Entries of one row of [mlfq]. *)
Definition MLFQLEN : nat := 512.

Inductive procstate := UNUSED | EMBRYO | SLEEPING | RUNNABLE | RUNNING | ZOMBIE.
#[export] Instance procstate_eq_dec : EqDecision procstate.
Proof. solve_decision. Defined.

Record trapframe := Trapframe {
  tf_edi : Z; tf_esi : Z; tf_ebp : Z; tf_oesp : Z; tf_ebx : Z; tf_edx : Z; tf_ecx : Z;
  tf_eax : Z; tf_gs : Z; tf_fs : Z; tf_es : Z; tf_ds : Z; tf_trapno : Z; tf_err : Z;
  tf_eip : Z; tf_cs : Z; tf_eflags : Z; tf_esp : Z; tf_ss : Z
}.
Definition tf_zero : trapframe :=
  Trapframe 0 0 0 0 0 0 0 0 0 0 0 0 0 0 0 0 0 0 0.

(** The fields of [struct proc] the scheduler added. *)
Record mq := Mq {
  level : Z;
  ticks : list Z;
  wait_ticks : list Z;
  ticks_curr : Z;
  wait_ticks_curr : Z
}.

Record proc := Proc {
  sz : Z;
  pgdir : Z;
  kstack : Z;
  state : procstate;
  pid : Z;
  parent : option nat;
  tf : trapframe;
  chan : Z;
  killed : Z;
  ofile : list (option nat);
  cwd : option nat;
  name : list Z;
  ustack : Z;
  sched_info : mq
}.

Definition mq_zero : mq := Mq 0 (replicate NLAYER 0) (replicate NLAYER 0) 0 0.
Definition proc_zero : proc :=
  Proc 0 0 0 UNUSED 0 None tf_zero 0 0 (replicate NOFILE None) None (replicate 16 0) 0 mq_zero.

(** Assignments to fields. *)
Definition p_sz v p := let '(Proc _ b c d e f g h i j k l m n) := p in Proc v b c d e f g h i j k l m n.
Definition p_pgdir v p := let '(Proc a _ c d e f g h i j k l m n) := p in Proc a v c d e f g h i j k l m n.
Definition p_kstack v p := let '(Proc a b _ d e f g h i j k l m n) := p in Proc a b v d e f g h i j k l m n.
Definition p_state v p := let '(Proc a b c _ e f g h i j k l m n) := p in Proc a b c v e f g h i j k l m n.
Definition p_pid v p := let '(Proc a b c d _ f g h i j k l m n) := p in Proc a b c d v f g h i j k l m n.
Definition p_parent v p := let '(Proc a b c d e _ g h i j k l m n) := p in Proc a b c d e v g h i j k l m n.
Definition p_tf v p := let '(Proc a b c d e f _ h i j k l m n) := p in Proc a b c d e f v h i j k l m n.
Definition p_chan v p := let '(Proc a b c d e f g _ i j k l m n) := p in Proc a b c d e f g v i j k l m n.
Definition p_killed v p := let '(Proc a b c d e f g h _ j k l m n) := p in Proc a b c d e f g h v j k l m n.
Definition p_ofile v p := let '(Proc a b c d e f g h i _ k l m n) := p in Proc a b c d e f g h i v k l m n.
Definition p_cwd v p := let '(Proc a b c d e f g h i j _ l m n) := p in Proc a b c d e f g h i j v l m n.
Definition p_name v p := let '(Proc a b c d e f g h i j k _ m n) := p in Proc a b c d e f g h i j k v m n.
Definition p_ustack v p := let '(Proc a b c d e f g h i j k l _ n) := p in Proc a b c d e f g h i j k l v n.
Definition p_sched v p := let '(Proc a b c d e f g h i j k l m _) := p in Proc a b c d e f g h i j k l m v.

(** [ptable], [nextpid], [initproc], [mlfq], [mlfq_size] and this CPU's [proc]. *)
Record ptable := Ptable {
  procs : list proc;
  nextpid : Z;
  initproc : option nat;
  mlfq : list (list (option nat));
  mlfq_size : list Z;
  cur : option nat
}.

Definition ptable_boot : ptable :=
  Ptable (replicate NPROC proc_zero) 1 None (replicate NLAYER (replicate MLFQLEN None))
    (replicate NLAYER 0) None.

Definition set_procs ps t := Ptable ps (nextpid t) (initproc t) (mlfq t) (mlfq_size t) (cur t).
Definition set_nextpid n t := Ptable (procs t) n (initproc t) (mlfq t) (mlfq_size t) (cur t).
Definition set_initproc i t := Ptable (procs t) (nextpid t) i (mlfq t) (mlfq_size t) (cur t).
Definition set_mlfq q t := Ptable (procs t) (nextpid t) (initproc t) q (mlfq_size t) (cur t).
Definition set_size n t := Ptable (procs t) (nextpid t) (initproc t) (mlfq t) n (cur t).
Definition set_cur c t := Ptable (procs t) (nextpid t) (initproc t) (mlfq t) (mlfq_size t) c.

(** [*p] for a pointer into the table. *)
Definition getp (t : ptable) (i : nat) : outcome proc :=
  match procs t !! i with Some p => Ret p | None => Undef "null dereference" end.
(** [*proc]. *)
Definition curp (t : ptable) : outcome (nat * proc) :=
  match cur t with
  | Some i => p ← getp t i; Ret (i, p)
  | None => Undef "null dereference"
  end.
(** Update one entry, or all of them. *)
Definition updp (i : nat) (f : proc -> proc) (t : ptable) : ptable :=
  set_procs (alter f i (procs t)) t.
Definition mapp (f : proc -> proc) (t : ptable) : ptable :=
  set_procs (f <$> procs t) t.

(** ** Operations on process states *)

Definition wakeup1_one (c : Z) (p : proc) : proc :=
  if bool_decide (state p = SLEEPING) && (chan p =? c) then p_state RUNNABLE p else p.

Definition wakeup1 (c : Z) (t : ptable) : ptable := mapp (wakeup1_one c) t.

(** [wakeup] is [wakeup1] with the table locked. *)
Definition wakeup := wakeup1.

Definition kill_one (p : proc) : proc :=
  let p := p_killed 1 p in
  if bool_decide (state p = SLEEPING) then p_state RUNNABLE p else p.

Definition kill (n : Z) (t : ptable) : Z * ptable :=
  match list_find (fun p => pid p = n) (procs t) with
  | Some (i, _) => (0, updp i kill_one t)
  | None => (-1, t)
  end.

(** The guards of [sched], which switches to the scheduler: the caller holds
    only [ptable.lock] ([ncli]), with interrupts off. *)
Definition sched_guard (holding : bool) (ncli : Z) (int_on : bool) (t : ptable) : outcome unit :=
  if negb holding then Panic "sched ptable.lock"
  else if negb (ncli =? 1) then Panic "sched locks"
  else
    '(_, p) ← curp t;
    if bool_decide (state p = RUNNING) then Panic "sched running"
    else if int_on then Panic "sched interruptible"
    else Ret tt.

(** [yield] up to the switch. *)
Definition yield (t : ptable) : outcome ptable :=
  '(i, _) ← curp t; Ret (updp i (p_state RUNNABLE) t).

(** [sleep(chan, lk)] up to the switch, and what the process does when it runs
    again. *)
Definition sleep (c : Z) (lk_null : bool) (t : ptable) : outcome ptable :=
  match cur t with
  | None => Panic "sleep"
  | Some i =>
    if lk_null then Panic "sleep without lk"
    else Ret (updp i (fun p => p_state SLEEPING (p_chan c p)) t)
  end.
Definition sleep_return (t : ptable) : outcome ptable :=
  '(i, _) ← curp t; Ret (updp i (p_chan 0) t).

(** Number of open files of a process, or -1. *)
Definition open_files (p : proc) : Z :=
  Z.of_nat (length (filter is_Some (ofile p))).

Definition getfilenum (n : Z) (t : ptable) : Z :=
  if n =? 0 then -1
  else match list_find (fun p => pid p = n) (procs t) with
       | Some (_, p) => open_files p
       | None => -1
       end.

(** ** Facts *)

Lemma lookup_updp t i f j :
  procs (updp i f t) !! j = (if decide (i = j) then f <$> procs t !! j else procs t !! j).
Proof.
  unfold updp, set_procs. cbn [procs]. case_decide; subst.
  - apply list_lookup_alter_eq.
  - by apply list_lookup_alter_ne.
Qed.

Lemma length_updp t i f : length (procs (updp i f t)) = length (procs t).
Proof. apply length_alter. Qed.
