(* ===== verification/Mlfq.v ===== *)
(** * The MLFQ scheduler

    Models the multi-level feedback queue of [kernel/proc.c]: the arrays
    [mlfq] and [mlfq_size], [rm_priority], the queueing of new processes in
    [allocproc], one turn of the loop of [scheduler] split at [swtch]
    ([sched_pick], [sched_dispatch], [sched_return]), [boostproc] and
    [getprocinfo].  [qrep] relates the arrays to four lists of processes. *)

From S2P Require Import Prelude Memory Proc.

Definition limit_total : list Z := [64; 32; 16; 8].
Definition limit_rr : list Z := [64; 4; 2; 1].

(** ** The arrays *)

Definition mlfq_get (t : ptable) (lvl i : Z) : outcome (option nat) :=
  row ← aget (mlfq t) lvl; aget row i.

Definition mlfq_set (lvl i : Z) (x : option nat) (t : ptable) : outcome ptable :=
  row ← aget (mlfq t) lvl;
  row ← aset row i x;
  q ← aset (mlfq t) lvl row;
  Ret (set_mlfq q t).

Definition size_add (lvl k : Z) (t : ptable) : outcome ptable :=
  n ← aget (mlfq_size t) lvl;
  ns ← aset (mlfq_size t) lvl (n + k);
  Ret (set_size ns t).

(** [*p] where [p] was read from [mlfq]. *)
Definition deref (t : ptable) (x : option nat) : outcome (nat * proc) :=
  match x with
  | Some i => p ← getp t i; Ret (i, p)
  | None => Undef "null dereference"
  end.

Definition rm_priority (lvl index : Z) (t : ptable) : outcome ptable :=
  n ← aget (mlfq_size t) lvl;
  t ← (if 1 <? n then
         iterM (fun i t =>
           x ← mlfq_get t lvl (i + 1);
           t ← mlfq_set lvl i x t;
           mlfq_set lvl (i + 1) None t) (seqZ index (n - 1 - index)) t
       else mlfq_set lvl index None t);
  size_add lvl (-1) t.

(** [mlfq[lvl][mlfq_size[lvl]] = p; mlfq_size[lvl] += 1]. *)
Definition enqueue (lvl : Z) (p : nat) (t : ptable) : outcome ptable :=
  n ← aget (mlfq_size t) lvl;
  t ← mlfq_set lvl n (Some p) t;
  size_add lvl 1 t.

(** ** Fields of a process *)

Definition q_update (f : mq -> mq) (p : proc) : proc := p_sched (f (sched_info p)) p.

(** The end of [allocproc]: a new process starts at the highest level. *)
Definition alloc_queue (i : nat) (t : ptable) : outcome ptable :=
  enqueue 3 i (updp i (p_sched (Mq 3 (replicate NLAYER 0) (replicate NLAYER 0) 0 0)) t).

(** ** One turn of the scheduler *)

(** The [for] loop over one level: the first RUNNABLE process. *)
Fixpoint scan (t : ptable) (lvl : Z) (idx : list Z) : outcome (option (Z * nat)) :=
  match idx with
  | [] => Ret None
  | i :: idx =>
    x ← mlfq_get t lvl i;
    '(k, p) ← deref t x;
    if bool_decide (state p = RUNNABLE) then Ret (Some (i, k)) else scan t lvl idx
  end.

(** The loop over the levels: level, index and process. *)
Fixpoint pick_levels (t : ptable) (lvls : list Z) : outcome (option (Z * Z * nat)) :=
  match lvls with
  | [] => Ret None
  | lvl :: lvls =>
    n ← aget (mlfq_size t) lvl;
    r ← scan t lvl (seqZ 0 n);
    match r with
    | Some (i, k) => Ret (Some (lvl, i, k))
    | None => pick_levels t lvls
    end
  end.
Definition sched_pick (t : ptable) : outcome (option (Z * Z * nat)) :=
  pick_levels t [3; 2; 1; 0].

(** [x[i] += 1] on an array of [int]. *)
Definition incr (l : list Z) (i : Z) : outcome (list Z) :=
  x ← aget l i; aset l i (i32 (x + 1)).

(** Waiting time of one entry of the table. *)
Definition wait_tick (p : proc) : outcome proc :=
  if bool_decide (state p = RUNNABLE) && (0 <? pid p) then
    let q := sched_info p in
    w ← incr (wait_ticks q) (level q);
    Ret (p_sched (Mq (level q) (ticks q) w (ticks_curr q) (i32 (wait_ticks_curr q + 1))) p)
  else Ret p.

Fixpoint mapM_out {A B} (f : A -> outcome B) (l : list A) : outcome (list B) :=
  match l with
  | [] => Ret []
  | x :: l => y ← f x; ys ← mapM_out f l; Ret (y :: ys)
  end.

(** From [proc = p] to [swtch]. *)
Definition sched_dispatch (lvl : Z) (k : nat) (t : ptable) : outcome ptable :=
  ps ← mapM_out wait_tick (procs t);
  let t := set_cur (Some k) (set_procs ps t) in
  p ← getp t k;
  if pgdir p =? 0 then Panic "switchuvm: no pgdir" else
  let q := sched_info p in
  tk ← incr (ticks q) lvl;
  Ret (updp k (fun p => p_sched (Mq (level q) tk (wait_ticks q) (i32 (ticks_curr q + 1)) 0)
                          (p_state RUNNING p)) t).

(** Remove the entry at [(lvl, i)] and queue [p] at [lvl'], with its times
    at the current level reset. *)
Definition reset_level (lvl lvl' : Z) (p : proc) : outcome proc :=
  let q := sched_info p in
  w ← aset (wait_ticks q) lvl 0;
  Ret (p_sched (Mq lvl' (ticks q) w 0 0) p).

Definition move (lvl i : Z) (k : nat) (lvl' : Z) (newlvl : proc -> Z) (t : ptable)
  : outcome ptable :=
  t ← rm_priority lvl i t;
  t ← enqueue lvl' k t;
  p ← getp t k;
  p' ← reset_level lvl (newlvl p) p;
  Ret (updp k (fun _ => p') t).

(** Downgrading and round robin of a process with [tc] ticks at its level. *)
Definition requeue_code (l i : Z) (k : nat) (tc : Z) (t : ptable) : outcome ptable :=
  lim ← aget limit_total l;
  rr ← aget limit_rr l;
  if (0 <? l) && (lim <=? tc) then move l i k (l - 1) (fun _ => l - 1) t
  else if Z.rem tc rr =? 0 then t ← rm_priority l i t; enqueue l k t
  else Ret t.

(** The promotion loop over one level; [fuel] covers the entries left. *)
Fixpoint promote_level (fuel : nat) (lvl i : Z) (t : ptable) : outcome ptable :=
  n ← aget (mlfq_size t) lvl;
  if i <? n then
    match fuel with
    | O => Undef "loop bound"
    | S fuel =>
      x ← mlfq_get t lvl i;
      '(k, p) ← deref t x;
      lim ← aget limit_total (level (sched_info p));
      t ← (if 10 * lim <=? wait_ticks_curr (sched_info p)
           then move lvl i k (lvl + 1) (fun p => i32 (level (sched_info p) + 1)) t
           else Ret t);
      promote_level fuel lvl (i + 1) t
    end
  else Ret t.

Definition promote (t : ptable) : outcome ptable :=
  iterM (fun lvl t => n ← aget (mlfq_size t) lvl; promote_level (Z.to_nat n) lvl 0 t)
    [3; 2; 1; 0] t.

(** From [swtch] to the end of the turn.  The promotion loop leaves [lvl] at
    -1, so the test of the loop that encloses it then reads
    [mlfq_size[-1]], the word [before] in front of the array: the turn ends
    when it is not positive, else the code goes on to read [mlfq[-1]]. *)
Definition sched_return (before lvl i : Z) (k : nat) (t : ptable) : outcome ptable :=
  let t := set_cur None t in
  p ← getp t k;
  t ← requeue_code lvl i k (ticks_curr (sched_info p)) t;
  t ← promote t;
  if 0 <? before then Undef "array index out of bounds" else Ret t.

(** ** System calls *)

Fixpoint find_pid (t : ptable) (n lvl : Z) (idx : list Z) : outcome (option Z) :=
  match idx with
  | [] => Ret None
  | i :: idx =>
    x ← mlfq_get t lvl i;
    '(_, p) ← deref t x;
    if n =? pid p then Ret (Some i) else find_pid t n lvl idx
  end.

Definition boostproc (t : ptable) : outcome (Z * ptable) :=
  '(k, p) ← curp t;
  let lvl := level (sched_info p) in
  if lvl =? 3 then Ret (0, t)
  else
    n ← aget (mlfq_size t) lvl;
    r ← find_pid t (pid p) lvl (seqZ 0 n);
    match r with
    | None => Ret (0, t)
    | Some i =>
      t ← move lvl i k (lvl + 1) (fun p => i32 (level (sched_info p) + 1)) t;
      Ret (0, t)
    end.

(** [struct pstat] of [include/pstat.h]. *)
Record pstat := Pstat {
  st_inuse : list Z;
  st_pid : list Z;
  st_priority : list Z;
  st_state : list procstate;
  st_ticks : list (list Z);
  st_wait_ticks : list (list Z)
}.

(** The body of the inner loop of [getprocinfo]. *)
Definition stat_one (lvl i : Z) (t : ptable) (a : pstat) : outcome pstat :=
  x ← mlfq_get t lvl i;
  '(_, p) ← deref t x;
  l1 ← aset (st_inuse a) i 1;
  l2 ← aset (st_pid a) i (pid p);
  l3 ← aset (st_priority a) i (level (sched_info p));
  l4 ← aset (st_state a) i (state p);
  l5 ← aset (st_ticks a) i (ticks (sched_info p));
  l6 ← aset (st_wait_ticks a) i (wait_ticks (sched_info p));
  Ret (Pstat l1 l2 l3 l4 l5 l6).

(** [None]: a null pointer. *)
Definition getprocinfo (a : option pstat) (t : ptable) : outcome (Z * option pstat) :=
  match a with
  | None => Ret (-1, None)
  | Some a =>
    a ← iterM (fun lvl a =>
           n ← aget (mlfq_size t) lvl;
           iterM (fun i a => stat_one lvl i t a) (seqZ 0 n) a) [3; 2; 1; 0] a;
    Ret (0, Some a)
  end.

(** ** The queues as lists *)

(** [qs] are the four queues, lowest level first: the first [mlfq_size[l]]
    entries of row [l] are the processes of the [l]-th list. *)
Record qrep (t : ptable) (qs : list (list nat)) : Prop := {
  qr_rows : Forall2 (fun r q => length r = MLFQLEN /\ take (length q) r = Some <$> q) (mlfq t) qs;
  qr_sizes : mlfq_size t = (fun q => Z.of_nat (length q)) <$> qs;
  qr_levels : length qs = NLAYER;
  qr_room : Forall (fun q => (length q <= MLFQLEN)%nat) qs;
  qr_valid : Forall (Forall (fun k => (k < length (procs t))%nat)) qs
}.

Lemma mlfq_get_row t (l i : nat) r x :
  mlfq t !! l = Some r -> r !! i = Some x -> mlfq_get t (Z.of_nat l) (Z.of_nat i) = Ret x.
Proof. intros Hr Hx. unfold mlfq_get. rewrite (aget_Some _ _ _ Hr). simpl. by apply aget_Some. Qed.

Lemma mlfq_set_row t (l i : nat) r x :
  mlfq t !! l = Some r -> (i < length r)%nat ->
  mlfq_set (Z.of_nat l) (Z.of_nat i) x t = Ret (set_mlfq (<[l := <[i := x]> r]> (mlfq t)) t).
Proof.
  intros Hr Hi. unfold mlfq_set. rewrite (aget_Some _ _ _ Hr). simpl.
  pose proof (lookup_lt_Some _ _ _ Hr).
  rewrite aset_Ret by lia. simpl. rewrite aset_Ret by lia. simpl. by rewrite !Nat2Z.id.
Qed.

Lemma qrep_row t qs l q :
  qrep t qs -> qs !! l = Some q ->
  exists r, mlfq t !! l = Some r /\ length r = MLFQLEN /\ take (length q) r = Some <$> q.
Proof. intros H Hq. destruct (Forall2_lookup_r _ _ _ _ _ (qr_rows _ _ H) Hq) as (r & ? & ? & ?). eauto. Qed.

Lemma qrep_size t qs l q :
  qrep t qs -> qs !! l = Some q -> aget (mlfq_size t) (Z.of_nat l) = Ret (Z.of_nat (length q)).
Proof. intros H Hq. apply aget_Some. rewrite (qr_sizes _ _ H), list_lookup_fmap, Hq. done. Qed.

Lemma qrep_get t qs l q i k :
  qrep t qs -> qs !! l = Some q -> q !! i = Some k ->
  mlfq_get t (Z.of_nat l) (Z.of_nat i) = Ret (Some k).
Proof.
  intros H Hq Hi. destruct (qrep_row _ _ _ _ H Hq) as (r & Hr & _ & Ht).
  eapply mlfq_get_row; [done|]. pose proof (lookup_lt_Some _ _ _ Hi).
  rewrite <- (lookup_take_lt r (length q) i), Ht, list_lookup_fmap, Hi by done. done.
Qed.

Lemma qrep_deref t qs l q i k :
  qrep t qs -> qs !! l = Some q -> q !! i = Some k ->
  exists p, procs t !! k = Some p /\ deref t (Some k) = Ret (k, p).
Proof.
  intros H Hq Hi. pose proof (qr_valid _ _ H) as Hv.
  assert (Hk : (k < length (procs t))%nat)
    by exact (Forall_lookup_1 _ _ _ _ (Forall_lookup_1 _ _ _ _ Hv Hq) Hi).
  apply lookup_lt_is_Some_2 in Hk as [p Hp]. exists p. split; [done|].
  unfold deref, getp. by rewrite Hp.
Qed.

Lemma size_add_rep t qs l q k :
  qrep t qs -> qs !! l = Some q ->
  size_add (Z.of_nat l) k t = Ret (set_size (<[l := Z.of_nat (length q) + k]> (mlfq_size t)) t).
Proof.
  intros H Hq. unfold size_add. rewrite (qrep_size _ _ _ _ H Hq). simpl.
  pose proof (lookup_lt_Some _ _ _ Hq).
  rewrite aset_Ret; [by rewrite Nat2Z.id|]. rewrite (qr_sizes _ _ H), length_fmap. lia.
Qed.

(** *** Removing *)

Lemma rm_loop l b : forall a x c t,
  mlfq t !! l = Some (a ++ x :: b ++ c) ->
  exists y, iterM (fun i t =>
      x ← mlfq_get t (Z.of_nat l) (i + 1);
      t ← mlfq_set (Z.of_nat l) i x t;
      mlfq_set (Z.of_nat l) (i + 1) None t)
    (seqZ (Z.of_nat (length a)) (Z.of_nat (length b))) t
  = Ret (set_mlfq (<[l := a ++ b ++ y :: c]> (mlfq t)) t).
Proof.
  induction b as [|z b IH]; intros a x c t Hr.
  - exists x. simpl. rewrite list_insert_id by done. by destruct t.
  - cbn [length]. rewrite Nat2Z.inj_succ, seqZ_cons by lia. cbn [iterM].
    replace (Z.of_nat (length a) + 1) with (Z.of_nat (S (length a))) by lia.
    assert (Hz : (a ++ x :: z :: b ++ c) !! S (length a) = Some z).
    { by rewrite lookup_app_r, Nat.sub_succ_l, Nat.sub_diag by lia. }
    rewrite (mlfq_get_row _ _ _ _ z Hr Hz). simpl.
    rewrite (mlfq_set_row _ _ _ _ _ Hr) by (rewrite length_app; simpl; lia). simpl.
    assert (Hl : (l < length (mlfq t))%nat) by (by eapply lookup_lt_Some).
    erewrite mlfq_set_row; [|by apply list_lookup_insert_eq|
      rewrite length_insert, length_app; simpl; lia].
    simpl. rewrite insert_app_r_alt, Nat.sub_diag by done. simpl.
    rewrite insert_app_r_alt, Nat.sub_succ_l, Nat.sub_diag by lia. simpl.
    rewrite list_insert_insert_eq.
    set (t1 := set_mlfq _ _).
    destruct (IH (a ++ [z]) None c t1) as [y Hy].
    { subst t1. simpl. rewrite <- app_assoc. by rewrite list_lookup_insert_eq. }
    exists y. rewrite length_app in Hy. simpl in Hy.
    replace (Z.of_nat (length a + 1)) with (Z.succ (Z.of_nat (length a))) in Hy by lia.
    rewrite Z.pred_succ, Hy. subst t1. simpl.
    by rewrite list_insert_insert_eq, <- app_assoc.
Qed.

(** A row and its list, changed together. *)
Lemma qrep_update t qs l q r' q' :
  qrep t qs -> qs !! l = Some q -> length r' = MLFQLEN -> take (length q') r' = Some <$> q' ->
  (length q' <= MLFQLEN)%nat -> Forall (fun k => (k < length (procs t))%nat) q' ->
  qrep (set_size (<[l := Z.of_nat (length q')]> (mlfq_size t)) (set_mlfq (<[l := r']> (mlfq t)) t))
    (<[l := q']> qs).
Proof.
  intros [H1 H2 H3 H4 H5] Hq Hr Ht Hl Hv. constructor; simpl.
  - by apply Forall2_insert.
  - by rewrite H2, list_fmap_insert.
  - by rewrite length_insert.
  - by apply Forall_insert.
  - by apply Forall_insert.
Qed.

(** The loop of [rm_priority] deletes the entry from the row. *)
Lemma rm_row t l r q i :
  mlfq t !! l = Some r -> length r = MLFQLEN -> take (length q) r = Some <$> q ->
  (i < length q)%nat ->
  exists r', length r' = MLFQLEN /\ take (length (delete i q)) r' = Some <$> delete i q /\
    (if 1 <? Z.of_nat (length q) then
         iterM (fun i t =>
           x ← mlfq_get t (Z.of_nat l) (i + 1);
           t ← mlfq_set (Z.of_nat l) i x t;
           mlfq_set (Z.of_nat l) (i + 1) None t)
           (seqZ (Z.of_nat i) (Z.of_nat (length q) - 1 - Z.of_nat i)) t
     else mlfq_set (Z.of_nat l) (Z.of_nat i) None t)
    = Ret (set_mlfq (<[l := r']> (mlfq t)) t).
Proof.
  intros Hr Hlen Ht Hi. destruct (lookup_lt_is_Some_2 q i Hi) as [x Hx].
  set (a := Some <$> take i q). set (b := Some <$> drop (S i) q). set (c := drop (length q) r).
  assert (Hrow : r = a ++ Some x :: b ++ c).
  { rewrite <- (take_drop (length q) r), Ht. unfold a, b, c.
    rewrite <- (take_drop_middle q i x Hx) at 1.
    by rewrite fmap_app, fmap_cons, <- app_assoc. }
  assert (Ha : length a = i) by (unfold a; rewrite length_fmap, length_take; lia).
  assert (Hb : length b = (length q - S i)%nat) by (unfold b; rewrite length_fmap, length_drop; lia).
  assert (Hdel : Some <$> delete i q = a ++ b).
  { rewrite delete_take_drop, fmap_app. done. }
  assert (Hn : length (delete i q) = (length a + length b)%nat).
  { rewrite <- (length_fmap Some), Hdel, length_app. done. }
  assert (Hfin : forall y, length (a ++ b ++ y :: c) = MLFQLEN /\
    take (length (delete i q)) (a ++ b ++ y :: c) = Some <$> delete i q).
  { intros y. rewrite Hdel, Hn, app_assoc, take_app_length' by (by rewrite length_app).
    split; [|done]. rewrite <- Hlen, Hrow, !length_app. simpl. rewrite length_app. lia. }
  destruct (Z.ltb_spec 1 (Z.of_nat (length q))).
  - destruct (rm_loop l b a (Some x) c t) as [y Hy]; [by rewrite <- Hrow|].
    exists (a ++ b ++ y :: c). split_and!; [apply Hfin..|].
    rewrite <- Hy, Ha, Hb. do 2 f_equal. lia.
  - exists (a ++ b ++ None :: c). split_and!; [apply Hfin..|].
    assert (i = 0%nat) as -> by lia. destruct a; [|done]. destruct b; [|simpl in Hb; lia].
    rewrite (mlfq_set_row _ _ _ _ _ Hr) by (rewrite Hrow; simpl; lia). by rewrite Hrow.
Qed.

Definition same_others (t t' : ptable) : Prop :=
  procs t' = procs t /\ cur t' = cur t /\ nextpid t' = nextpid t /\ initproc t' = initproc t.

Lemma Forall_delete {A} (P : A -> Prop) l i : Forall P l -> Forall P (delete i l).
Proof. intros H. rewrite delete_take_drop. apply Forall_app; split; [by apply Forall_take|by apply Forall_drop]. Qed.

(** [rm_priority] deletes an entry of a queue. *)
Lemma rm_priority_rep t qs l q i :
  qrep t qs -> qs !! l = Some q -> (i < length q)%nat ->
  exists t', rm_priority (Z.of_nat l) (Z.of_nat i) t = Ret t' /\
    qrep t' (<[l := delete i q]> qs) /\ same_others t t'.
Proof.
  intros H Hq Hi. destruct (qrep_row _ _ _ _ H Hq) as (r & Hr & Hlen & Ht).
  unfold rm_priority. rewrite (qrep_size _ _ _ _ H Hq). simpl.
  destruct (rm_row t l r q i) as (r' & Hlen' & Ht' & ->); auto. simpl.
  unfold size_add. simpl. rewrite (qrep_size _ _ _ _ H Hq). simpl.
  pose proof (lookup_lt_Some _ _ _ Hq) as Hl. pose proof (qr_sizes _ _ H) as Hs.
  rewrite aset_Ret by (rewrite Hs, length_fmap; lia). simpl. rewrite Nat2Z.id.
  assert (Hd : length (delete i q) = (length q - 1)%nat).
  { apply lookup_lt_is_Some_2 in Hi as [x Hx]. rewrite length_delete; [done|eauto]. }
  replace (Z.of_nat (length q) + -1) with (Z.of_nat (length (delete i q))) by lia.
  eexists; split; [done|]. split; [|done].
  apply (qrep_update t qs l q r'); auto.
  - pose proof (Forall_lookup_1 _ _ _ _ (qr_room _ _ H) Hq). simpl in *. lia.
  - apply Forall_delete. exact (Forall_lookup_1 _ _ _ _ (qr_valid _ _ H) Hq).
Qed.

(** [enqueue] appends to a queue that has room, and overflows one that has not. *)
Lemma enqueue_rep t qs l q k :
  qrep t qs -> qs !! l = Some q -> (k < length (procs t))%nat ->
  if decide (length q < MLFQLEN)%nat then
    exists t', enqueue (Z.of_nat l) k t = Ret t' /\
      qrep t' (<[l := q ++ [k]]> qs) /\ same_others t t'
  else enqueue (Z.of_nat l) k t = Undef "array index out of bounds".
Proof.
  intros H Hq Hk. destruct (qrep_row _ _ _ _ H Hq) as (r & Hr & Hlen & Ht).
  unfold enqueue. rewrite (qrep_size _ _ _ _ H Hq). simpl. case_decide as Hroom.
  - rewrite (mlfq_set_row _ _ _ _ _ Hr) by lia. simpl.
    unfold size_add. simpl. rewrite (qrep_size _ _ _ _ H Hq). simpl.
    pose proof (lookup_lt_Some _ _ _ Hq) as Hl. pose proof (qr_sizes _ _ H) as Hs.
    rewrite aset_Ret by (rewrite Hs, length_fmap; lia). simpl. rewrite Nat2Z.id.
    replace (Z.of_nat (length q) + 1) with (Z.of_nat (length (q ++ [k]))) by (rewrite length_app; simpl; lia).
    eexists; split; [done|]. split; [|done].
    apply (qrep_update t qs l q); auto.
    + by rewrite length_insert.
    + rewrite length_app. simpl. rewrite Nat.add_1_r, (take_S_r _ _ (Some k)).
      * rewrite take_insert_ge by lia. by rewrite Ht, fmap_app.
      * apply list_lookup_insert_eq. lia.
    + rewrite length_app. simpl. lia.
    + apply Forall_app. split; [exact (Forall_lookup_1 _ _ _ _ (qr_valid _ _ H) Hq)|by constructor].
  - unfold mlfq_set. rewrite (aget_Some _ _ _ Hr). simpl. unfold aset.
    rewrite decide_False by lia. done.
Qed.

(** ** Choosing a process *)

Definition runnable (t : ptable) (k : nat) : Prop :=
  exists p, procs t !! k = Some p /\ state p = RUNNABLE.
#[export] Instance runnable_dec t k : Decision (runnable t k).
Proof.
  refine (match procs t !! k as o return procs t !! k = o -> _ with
          | Some p => fun E => cast_if (decide (state p = RUNNABLE))
          | None => fun E => right _ end eq_refl); unfold runnable; naive_solver.
Defined.

Lemma scan_rep t qs l q b : forall a,
  qrep t qs -> qs !! l = Some q -> q = a ++ b ->
  scan t (Z.of_nat l) (seqZ (Z.of_nat (length a)) (Z.of_nat (length b))) =
  Ret (prod_map (fun i => Z.of_nat (length a + i)) id <$> list_find (runnable t) b).
Proof.
  induction b as [|k b IH]; intros a H Hq E; [done|].
  cbn [length]. rewrite Nat2Z.inj_succ, seqZ_cons by lia. cbn [scan].
  assert (Hk : q !! length a = Some k) by (rewrite E; by apply list_lookup_middle).
  rewrite (qrep_get _ _ _ _ _ _ H Hq Hk). simpl.
  destruct (qrep_deref _ _ _ _ _ _ H Hq Hk) as (p & Hp & Hd). simpl in Hd. rewrite Hd. simpl.
  case_bool_decide as Hr.
  - rewrite decide_True by (by exists p). simpl. by rewrite Nat.add_0_r.
  - rewrite decide_False by (intros (p' & Hp' & ?); congruence).
    rewrite Z.pred_succ. specialize (IH (a ++ [k]) H Hq). rewrite length_app in IH. simpl in IH.
    replace (Z.of_nat (length a + 1)) with (Z.succ (Z.of_nat (length a))) in IH by lia.
    rewrite IH by (by rewrite <- app_assoc). f_equal.
    destruct (list_find (runnable t) b) as [[i x]|]; simpl; [|done]. do 3 f_equal. lia.
Qed.

(** The first runnable process of the highest level that has one. *)
Definition chosen (t : ptable) (qs : list (list nat)) (l i k : nat) : Prop :=
  (exists q, qs !! l = Some q /\ q !! i = Some k /\ runnable t k /\
     forall j x, (j < i)%nat -> q !! j = Some x -> ~ runnable t x) /\
  forall l' q' x, (l < l')%nat -> qs !! l' = Some q' -> x ∈ q' -> ~ runnable t x.

Lemma pick_levels_rep t qs n :
  qrep t qs -> (n <= NLAYER)%nat ->
  (forall l' q' x, (n <= l')%nat -> qs !! l' = Some q' -> x ∈ q' -> ~ runnable t x) ->
  match pick_levels t (reverse (seqZ 0 (Z.of_nat n))) with
  | Ret (Some (l, i, k)) => chosen t qs (Z.to_nat l) (Z.to_nat i) k /\ 0 <= l /\ 0 <= i
  | Ret None => forall l q k, qs !! l = Some q -> k ∈ q -> ~ runnable t k
  | _ => False
  end.
Proof.
  induction n as [|n IH]; intros H Hn Hhi.
  { simpl. intros l q k Hq. by apply (Hhi l); [lia|]. }
  rewrite seqZ_S, reverse_snoc, Z.add_0_l. cbn [pick_levels].
  destruct (lookup_lt_is_Some_2 qs n) as [q Hq]; [rewrite (qr_levels _ _ H); lia|].
  rewrite (qrep_size _ _ _ _ H Hq). simpl.
  pose proof (scan_rep t qs n q q [] H Hq eq_refl) as Es.
  change (Z.of_nat (length (@nil nat))) with 0 in Es. rewrite Es. simpl.
  destruct (list_find (runnable t) q) as [[i k]|] eqn:E; simpl.
  - apply list_find_Some in E as (Hi & Hr & Hb). split; [|lia].
    rewrite !Nat2Z.id. split.
    + exists q. split_and!; auto. intros j x Hj Hx. by apply (Hb j).
    + intros l' q' x Hl. apply Hhi. lia.
  - apply list_find_None in E. rewrite Forall_forall in E.
    apply IH; [done|lia|]. intros l' q' x Hl Hq' Hx.
    destruct (decide (l' = n)) as [->|]; [|apply (Hhi l' q'); auto; lia].
    rewrite Hq in Hq'. simplify_eq. by apply E.
Qed.

(** ** Entries are never given back *)

Definition qtotal (t : ptable) : Z := foldr Z.add 0 (mlfq_size t).

(** [n] entries are in use, and no row is longer than its array. *)
Record counted (n : Z) (t : ptable) : Prop := {
  ct_total : qtotal t = n;
  ct_sizes : length (mlfq_size t) = NLAYER /\ Forall (fun k => k <= Z.of_nat MLFQLEN) (mlfq_size t);
  ct_rows : Forall (fun r => length r = MLFQLEN) (mlfq t)
}.

Lemma aset_inv {A} (l l' : list A) i x :
  aset l i x = Ret l' -> 0 <= i < Z.of_nat (length l) /\ l' = <[Z.to_nat i := x]> l.
Proof. unfold aset. case_decide; intros; inv_all; auto. Qed.

Lemma sum_insert (l : list Z) i x y :
  l !! i = Some y -> foldr Z.add 0 (<[i := x]> l) = foldr Z.add 0 l + x - y.
Proof.
  revert i; induction l as [|z l IH]; intros [|i] Hi; simpl in *; simplify_eq; [lia|].
  rewrite (IH i Hi). lia.
Qed.

Lemma size_add_counted n lvl k t t' :
  (forall m, aget (mlfq_size t) lvl = Ret m -> m + k <= Z.of_nat MLFQLEN) ->
  counted n t -> size_add lvl k t = Ret t' -> counted (n + k) t'.
Proof.
  intros Hk [Ht [Hl Hs] Hr] E. unfold size_add in E. bind_inv E. bind_inv E.
  simplify_eq. pose proof (Hk _ E0). apply aget_Ret in E0 as [Hi Hi'].
  apply aset_inv in E1 as [Hb ->]. constructor; simpl; auto.
  - unfold qtotal in *. simpl. rewrite (sum_insert _ _ _ _ Hi'). lia.
  - split; [by rewrite length_insert|by apply Forall_insert].
Qed.

Lemma mlfq_set_counted n lvl i x t t' :
  counted n t -> mlfq_set lvl i x t = Ret t' ->
  counted n t' /\ mlfq_size t' = mlfq_size t /\ procs t' = procs t /\ 0 <= i < Z.of_nat MLFQLEN.
Proof.
  intros [Ht Hs Hr] E. unfold mlfq_set in E. bind_inv E. bind_inv E. bind_inv E. simplify_eq.
  apply aget_Ret in E0 as [Hi Hi']. apply aset_inv in E1 as [Hb ->]. apply aset_inv in E2 as [Hb' ->].
  pose proof (Forall_lookup_1 _ _ _ _ Hr Hi') as Hlen. simpl in Hlen.
  split_and!; auto; try lia. constructor; auto. simpl.
  apply Forall_insert; [done|]. by rewrite length_insert.
Qed.

Lemma iterM_counted {A} (f : A -> ptable -> outcome ptable) n l t t' :
  (forall x t t', counted n t -> f x t = Ret t' -> counted n t') ->
  counted n t -> iterM f l t = Ret t' -> counted n t'.
Proof.
  intros Hf. revert t. induction l as [|x l IH]; intros t Hc E; simpl in E; [by simplify_eq|].
  bind_inv E. eauto.
Qed.

Lemma rm_priority_counted n lvl i t t' :
  counted n t -> rm_priority lvl i t = Ret t' -> counted (n - 1) t'.
Proof.
  intros Hc E. unfold rm_priority in E. bind_inv E. bind_inv E.
  assert (counted n a0) as Hc1.
  { destruct (1 <? a); [|by eapply mlfq_set_counted].
    eapply iterM_counted; [|done|done]. intros j s s' Hs Es. bind_inv Es. bind_inv Es.
    eapply mlfq_set_counted in Es1 as [Hs' _]; [|done].
    by eapply mlfq_set_counted in Es as [? _]. }
  change (n - 1) with (n + -1). eapply size_add_counted; [|done|done].
  intros m Hm. destruct Hc1 as [_ [_ Hs] _]. apply aget_Ret in Hm as [_ Hm].
  pose proof (Forall_lookup_1 _ _ _ _ Hs Hm). simpl in *. lia.
Qed.

Lemma enqueue_counted n lvl k t t' :
  counted n t -> enqueue lvl k t = Ret t' -> counted (n + 1) t'.
Proof.
  intros Hc E. unfold enqueue in E. bind_inv E. bind_inv E.
  eapply mlfq_set_counted in E1 as (Hc1 & Hs & _ & Hb); [|done].
  eapply size_add_counted; [|done|done]. rewrite Hs. intros m Hm. rewrite Hm in E0.
  simplify_eq. lia.
Qed.

(** Code that leaves the arrays alone. *)
Lemma counted_same n t t' :
  mlfq t' = mlfq t -> mlfq_size t' = mlfq_size t -> counted n t -> counted n t'.
Proof. intros E1 E2 []. constructor; unfold qtotal in *; rewrite ?E1, ?E2; auto. Qed.

Lemma move_counted n lvl i k lvl' f t t' :
  counted n t -> move lvl i k lvl' f t = Ret t' -> counted n t'.
Proof.
  intros Hc E. unfold move in E. bind_inv E. bind_inv E. bind_inv E. bind_inv E. simplify_eq.
  apply (counted_same _ a0); auto.
  apply (rm_priority_counted n) in E0; [|done].
  apply (enqueue_counted (n - 1)) in E1; [|done]. by replace n with (n - 1 + 1) by lia.
Qed.

Lemma promote_level_counted n fuel : forall lvl i t t',
  counted n t -> promote_level fuel lvl i t = Ret t' -> counted n t'.
Proof.
  induction fuel as [|fuel IH]; intros lvl i t t' Hc E; cbn [promote_level] in E; bind_inv E.
  all: destruct (i <? a); [|by simplify_eq]; try done.
  bind_inv E. bind_inv E. destruct a1 as [k p]. bind_inv E. bind_inv E.
  apply IH in E; [done|]. destruct (_ <=? _); [by eapply move_counted|by simplify_eq].
Qed.

Lemma requeue_code_counted n lvl i k tc t t' :
  counted n t -> requeue_code lvl i k tc t = Ret t' -> counted n t'.
Proof.
  intros Hc E. unfold requeue_code in E. bind_inv E. bind_inv E.
  destruct (_ && _); [by eapply move_counted|]. destruct (_ =? 0); [|by simplify_eq].
  bind_inv E. apply (rm_priority_counted n) in E2; [|done].
  apply (enqueue_counted (n - 1)) in E; [|done]. by replace n with (n - 1 + 1) by lia.
Qed.

Lemma sched_return_counted n b lvl i k t t' :
  counted n t -> sched_return b lvl i k t = Ret t' -> counted n t'.
Proof.
  intros Hc E. unfold sched_return in E. bind_inv E. bind_inv E. bind_inv E.
  destruct (0 <? b); [done|]. simplify_eq.
  apply (counted_same n t (set_cur None t)) in Hc; try done.
  unfold promote in E2. eapply iterM_counted; [|by eapply requeue_code_counted|exact E2].
  intros lvl' s s' Hs Es. simpl in Es. bind_inv Es. by eapply promote_level_counted.
Qed.

Lemma boostproc_counted n r t t' :
  counted n t -> boostproc t = Ret (r, t') -> counted n t'.
Proof.
  intros Hc E. unfold boostproc in E. bind_inv E. destruct a as [k p].
  destruct (_ =? 3); [by simplify_eq|]. bind_inv E. bind_inv E. destruct a0; [|by simplify_eq].
  bind_inv E. simplify_eq. by eapply move_counted.
Qed.

(** Everything that happens to the queues, with the number of processes
    created.  [m_other] is all other kernel code: it changes neither array. *)
Inductive mstep : Z -> ptable -> ptable -> Prop :=
| m_alloc i t t' : alloc_queue i t = Ret t' -> mstep 1 t t'
| m_dispatch lvl k t t' : sched_dispatch lvl k t = Ret t' -> mstep 0 t t'
| m_return before lvl i k t t' : sched_return before lvl i k t = Ret t' -> mstep 0 t t'
| m_boost t r t' : boostproc t = Ret (r, t') -> mstep 0 t t'
| m_other t t' : mlfq t' = mlfq t -> mlfq_size t' = mlfq_size t -> mstep 0 t t'.

Inductive mreach : Z -> ptable -> Prop :=
| mreach_boot : mreach 0 ptable_boot
| mreach_step n k t t' : mreach n t -> mstep k t t' -> mreach (n + k) t'.

Lemma mstep_counted n k t t' : counted n t -> mstep k t t' -> counted (n + k) t'.
Proof.
  intros Hc H. revert Hc. destruct H as [i s s' E|lvl j s s' E|b lvl i j s s' E|s r s' E|s s' E1 E2];
    intros Hc; rewrite ?Z.add_0_r.
  - unfold alloc_queue in E. eapply enqueue_counted; [|exact E]. by apply (counted_same n s).
  - unfold sched_dispatch in E. bind_inv E. bind_inv E. destruct (_ =? 0); [done|].
    bind_inv E. simplify_eq. by apply (counted_same n s).
  - by eapply sched_return_counted.
  - by eapply boostproc_counted.
  - by apply (counted_same n s).
Qed.

Lemma mreach_counted n t : mreach n t -> counted n t.
Proof.
  induction 1 as [|n k t t' _ IH Hs]; [|by eapply mstep_counted].
  constructor; [done| |].
  - split; [done|]. by repeat constructor.
  - simpl. by repeat constructor; rewrite length_replicate.
Qed.

Lemma counted_bound n t : counted n t -> n <= Z.of_nat (NLAYER * MLFQLEN).
Proof.
  intros [<- [Hl Hs] _]. unfold qtotal. revert Hl Hs. unfold NLAYER, MLFQLEN.
  destruct (mlfq_size t) as [|a [|b [|c [|d [|]]]]]; try done. intros _ H.
  rewrite !Forall_cons in H. simpl in *. lia.
Qed.

(** ** Moving a process between levels *)

(** The scheduling fields of a process that leaves level [l] for [l']. *)
Definition relevel (l l' : Z) (p : proc) : proc :=
  let q := sched_info p in
  p_sched (Mq l' (ticks q) (<[Z.to_nat l := 0]> (wait_ticks q)) 0 0) p.

(** The arrays of a process have one entry per level, and it is at [l]. *)
Definition at_level (t : ptable) (l : nat) (k : nat) : Prop :=
  exists p, procs t !! k = Some p /\ level (sched_info p) = Z.of_nat l /\
    length (ticks (sched_info p)) = NLAYER /\ length (wait_ticks (sched_info p)) = NLAYER.

Lemma qrep_procs t qs ps :
  qrep t qs -> length ps = length (procs t) -> qrep (set_procs ps t) qs.
Proof. intros [] E. constructor; simpl; rewrite ?E; auto. Qed.

Lemma qrep_cur t qs c : qrep t qs -> qrep (set_cur c t) qs.
Proof. intros []. by constructor. Qed.

(** Two states that differ in the queues and in the process [k] only. *)
Definition only_proc (k : nat) (p' : proc) (t t' : ptable) : Prop :=
  procs t' = <[k := p']> (procs t) /\ cur t' = cur t /\ nextpid t' = nextpid t /\
  initproc t' = initproc t.

Lemma move_rep t qs l q i k l' u f :
  qrep t qs -> qs !! l = Some q -> q !! i = Some k -> l <> l' -> qs !! l' = Some u ->
  (length u < MLFQLEN)%nat -> (l < NLAYER)%nat ->
  forall p, procs t !! k = Some p -> length (wait_ticks (sched_info p)) = NLAYER ->
  exists t', move (Z.of_nat l) (Z.of_nat i) k (Z.of_nat l') f t = Ret t' /\
    qrep t' (<[l' := u ++ [k]]> (<[l := delete i q]> qs)) /\
    only_proc k (relevel (Z.of_nat l) (f p) p) t t'.
Proof.
  intros H Hq Hi Hne Hu Hroom Hl p Hp Hw. unfold move.
  destruct (rm_priority_rep t qs l q i H Hq) as (t1 & -> & H1 & Hp1 & Hc1 & Hn1 & Hi1);
    [by eapply lookup_lt_Some|]. simpl.
  pose proof (enqueue_rep t1 _ l' u k H1) as He.
  rewrite list_lookup_insert_ne in He by done.
  specialize (He Hu). rewrite Hp1 in He. specialize (He (lookup_lt_Some _ _ _ Hp)).
  rewrite decide_True in He by done.
  destruct He as (t2 & -> & H2 & Hp2 & Hc2 & Hn2 & Hi2). simpl.
  unfold getp, reset_level. rewrite Hp2, Hp1, Hp. simpl.
  rewrite aset_Ret by (rewrite Hw; unfold NLAYER in *; lia). simpl.
  eexists; split; [done|]. split.
  - apply qrep_procs; [done|]. by rewrite length_alter.
  - split_and!; simpl; try congruence. rewrite Hp2, Hp1.
    apply list_eq. intros j. rewrite list_lookup_insert.
    destruct (decide (k = j)) as [->|Hj].
    + rewrite list_lookup_alter_eq, Hp. simpl.
      rewrite decide_True by (split; [done|by eapply lookup_lt_Some]). done.
    + rewrite list_lookup_alter_ne by done. rewrite decide_False by tauto. done.
Qed.

(** Moving a process to the end of its own level. *)
Lemma rotate_rep t qs l q i k :
  qrep t qs -> qs !! l = Some q -> q !! i = Some k ->
  exists t', (t ← rm_priority (Z.of_nat l) (Z.of_nat i) t; enqueue (Z.of_nat l) k t) = Ret t' /\
    qrep t' (<[l := delete i q ++ [k]]> qs) /\ same_others t t'.
Proof.
  intros H Hq Hi. pose proof (lookup_lt_Some _ _ _ Hi) as Hlt.
  destruct (rm_priority_rep t qs l q i H Hq Hlt) as (t1 & -> & H1 & Hp1 & Hc1 & Hn1 & Hi1). simpl.
  pose proof (lookup_lt_Some _ _ _ Hq) as Hl.
  pose proof (enqueue_rep t1 _ l (delete i q) k H1) as He.
  specialize (He ltac:(by apply list_lookup_insert_eq)).
  assert (Hk : (k < length (procs t1))%nat).
  { rewrite Hp1. exact (Forall_lookup_1 _ _ _ _ (Forall_lookup_1 _ _ _ _ (qr_valid _ _ H) Hq) Hi). }
  specialize (He Hk).
  assert (Hd : length (delete i q) = (length q - 1)%nat) by (rewrite length_delete; [done|eauto]).
  pose proof (Forall_lookup_1 _ _ _ _ (qr_room _ _ H) Hq) as Hr. simpl in Hr.
  rewrite decide_True in He by lia.
  destruct He as (t2 & -> & H2 & Hp2 & Hc2 & Hn2 & Hi2).
  exists t2. rewrite list_insert_insert_eq in H2. split_and!; auto.
  unfold same_others. intuition congruence.
Qed.

(** ** Promotion *)

(** The process has waited ten times the limit of its level. *)
Definition starves (t : ptable) (k : nat) : bool :=
  match procs t !! k with
  | Some p =>
    match limit_total !! Z.to_nat (level (sched_info p)) with
    | Some lim => 10 * lim <=? wait_ticks_curr (sched_info p)
    | None => false
    end
  | None => false
  end.

(** The pass over one queue: who stays and who is promoted.  The entry after
    a promoted one moves into its place and is not looked at. *)
Fixpoint promo (st : nat -> bool) (q : list nat) : list nat * list nat :=
  match q with
  | [] => ([], [])
  | x :: q =>
    if st x then
      match q with
      | [] => ([], [x])
      | y :: q => prod_map (cons y) (cons x) (promo st q)
      end
    else prod_map (cons x) id (promo st q)
  end.

(** The processes [pr] went from level [l] to the next one. *)
Definition lifted (l : nat) (pr : list nat) (t t' : ptable) : Prop :=
  (forall k, procs t' !! k =
    if decide (k ∈ pr) then relevel (Z.of_nat l) (Z.of_nat l + 1) <$> procs t !! k
    else procs t !! k) /\
  cur t' = cur t /\ nextpid t' = nextpid t /\ initproc t' = initproc t.

Lemma lifted_nil l t : lifted l [] t t.
Proof. split_and!; auto. Qed.

Lemma lifted_cons l k pr t t1 t' :
  (forall p, procs t !! k = Some p -> level (sched_info p) = Z.of_nat l) ->
  k ∉ pr -> is_Some (procs t !! k) ->
  (forall p, procs t !! k = Some p -> only_proc k (relevel (Z.of_nat l) (Z.of_nat l + 1) p) t t1) ->
  lifted l pr t1 t' -> lifted l (k :: pr) t t'.
Proof.
  intros Hl Hk [p Hp] Ho (H1 & H2 & H3 & H4). destruct (Ho p Hp) as (P1 & P2 & P3 & P4).
  split_and!; try congruence. intros j. rewrite H1, P1.
  destruct (decide (j = k)) as [->|Hne].
  - rewrite decide_False, decide_True, Hp by set_solver.
    rewrite list_lookup_insert_eq; [done|by eapply lookup_lt_Some].
  - rewrite list_lookup_insert_ne by done.
    destruct (decide (j ∈ pr)); [rewrite decide_True by set_solver|rewrite decide_False by set_solver]; done.
Qed.

(** Induction with the last two elements in hand. *)
Lemma list_ind2 {A} (P : list A -> Prop) :
  P [] -> (forall x, P [x]) -> (forall x y l, P l -> P (y :: l) -> P (x :: y :: l)) -> forall l, P l.
Proof.
  intros H0 H1 H2 l. cut (P l /\ forall x, P (x :: l)); [tauto|].
  induction l as [|y l [IH1 IH2]]; split; auto.
Qed.

Lemma promo_subset st q x :
  (x ∈ (promo st q).1 -> x ∈ q) /\ (x ∈ (promo st q).2 -> x ∈ q).
Proof.
  induction q as [|y|y z q IH1 IH2] using list_ind2; [done|..]; cbn [promo]; destruct (st y);
    try set_solver.
Qed.

Lemma promo_ext st st' q : (forall x, x ∈ q -> st x = st' x) -> promo st q = promo st' q.
Proof.
  induction q as [|y|y z q IH1 IH2] using list_ind2; intros H; [done|..]; cbn [promo];
    rewrite (H y) by set_solver; [done|]. destruct (st' y).
  - rewrite IH1; [done|set_solver].
  - cbn [promo] in IH2. rewrite IH2; [done|set_solver].
Qed.

Lemma only_proc_starves t t1 k p' x :
  only_proc k p' t t1 -> x <> k -> starves t1 x = starves t x.
Proof.
  intros (P & _) Hx. unfold starves. rewrite P, list_lookup_insert_ne by done. done.
Qed.

Lemma only_proc_at t t1 k p' l x :
  only_proc k p' t t1 -> x <> k -> at_level t l x -> at_level t1 l x.
Proof.
  intros (P & _) Hx (p & Hp & Hr). exists p. split; [|done].
  rewrite P, list_lookup_insert_ne by done. done.
Qed.

(** A row is exhausted. *)
Lemma promote_level_end fuel t qs l q i :
  qrep t qs -> qs !! l = Some q -> (length q <= i)%nat ->
  promote_level fuel (Z.of_nat l) (Z.of_nat i) t = Ret t.
Proof.
  intros H Hq Hi. destruct fuel; cbn [promote_level]; rewrite (qrep_size _ _ _ _ H Hq); simpl;
    by rewrite (proj2 (Z.ltb_ge _ _)) by lia.
Qed.

(** One round of the pass. *)
Lemma promote_level_round fuel t qs l q i k u :
  qrep t qs -> qs !! l = Some q -> q !! i = Some k -> at_level t l k -> (l < NLAYER)%nat ->
  (starves t k = true -> qs !! S l = Some u /\ (length u < MLFQLEN)%nat) ->
  exists t1,
    promote_level (S fuel) (Z.of_nat l) (Z.of_nat i) t =
      promote_level fuel (Z.of_nat l) (Z.of_nat (S i)) t1 /\
    if starves t k then
      qrep t1 (<[S l := u ++ [k]]> (<[l := delete i q]> qs)) /\
      (forall p, procs t !! k = Some p -> only_proc k (relevel (Z.of_nat l) (Z.of_nat l + 1) p) t t1)
    else t1 = t.
Proof.
  intros H Hq Hi (p & Hp & Hlv & Ht & Hw) Hl Hst.
  pose proof (lookup_lt_Some _ _ _ Hi) as Hlt.
  cbn [promote_level]. rewrite (qrep_size _ _ _ _ H Hq). simpl.
  rewrite (proj2 (Z.ltb_lt _ _)) by lia.
  rewrite (qrep_get _ _ _ _ _ _ H Hq Hi). simpl. unfold getp. rewrite Hp. simpl.
  rewrite Hlv. destruct (lookup_lt_is_Some_2 limit_total l Hl) as [lim Hlim].
  rewrite (aget_Some _ _ _ Hlim). simpl.
  replace (Z.of_nat i + 1) with (Z.of_nat (S i)) by lia.
  unfold starves in *. rewrite Hp, Hlv, Nat2Z.id, Hlim in *.
  destruct (10 * lim <=? wait_ticks_curr (sched_info p)); [|by exists t].
  destruct (Hst eq_refl) as [Hu Hroom].
  replace (Z.of_nat l + 1) with (Z.of_nat (S l)) by lia.
  destruct (move_rep t qs l q i k (S l) u (fun p => i32 (level (sched_info p) + 1)) H Hq Hi)
    with (p := p) as (t1 & -> & H1 & Ho); auto.
  exists t1. split; [done|]. split; [done|]. intros p' Hp'. simplify_eq.
  replace (Z.of_nat (S l)) with (i32 (level (sched_info p') + 1)); [done|].
  rewrite Hlv, i32_small; [lia|]. unfold is_i32, NLAYER in *. lia.
Qed.

Lemma delete_middle {A} (a : list A) x b : delete (length a) (a ++ x :: b) = a ++ b.
Proof. rewrite delete_take_drop, take_app_length, drop_app_ge, Nat.sub_succ_l, Nat.sub_diag by lia. done. Qed.

Lemma promote_level_rep l fuel : forall a b t qs u,
  qrep t qs -> qs !! l = Some (a ++ b) -> NoDup b -> (forall k, k ∈ b -> at_level t l k) ->
  (length b <= fuel)%nat -> qs !! S l = Some u -> (length u + length b <= MLFQLEN)%nat ->
  let pr := promo (starves t) b in
  exists t', promote_level fuel (Z.of_nat l) (Z.of_nat (length a)) t = Ret t' /\
    qrep t' (<[S l := u ++ pr.2]> (<[l := a ++ pr.1]> qs)) /\ lifted l pr.2 t t'.
Proof.
  induction fuel as [|fuel IH]; intros a [|x b] t qs u H Hq Hnd Hat Hf Hu Hroom; simpl in Hf; try lia.
  1,2: cbn [promo fst snd]; rewrite !app_nil_r in *; exists t;
    rewrite (promote_level_end _ t qs l a) by (auto; lia);
    rewrite (list_insert_id qs l), list_insert_id by done; split_and!; auto using lifted_nil.
  assert (Hl : (l < NLAYER)%nat) by (rewrite <- (qr_levels _ _ H); by eapply lookup_lt_Some).
  assert (Hx : (a ++ x :: b) !! length a = Some x) by (by apply list_lookup_middle).
  apply NoDup_cons in Hnd as [Hxb Hnd]. simpl in Hroom.
  destruct (promote_level_round fuel t qs l _ _ x u H Hq Hx) as (t1 & -> & Ht1);
    [apply Hat; set_solver|done|intros; split; [done|lia]|].
  assert (Hsl : (S l < length qs)%nat) by (by eapply lookup_lt_Some).
  cbn [promo]. destruct (starves t x) eqn:Est.
  - rewrite delete_middle in Ht1. destruct Ht1 as [H1 Ho].
    assert (Hq1 : <[S l := u ++ [x]]> (<[l := a ++ b]> qs) !! l = Some (a ++ b))
      by (rewrite list_lookup_insert_ne, list_lookup_insert_eq by lia; done).
    destruct (Hat x) as (p & Hp & Hlv & _); [set_solver|].
    assert (Hlx : forall p, procs t !! x = Some p -> level (sched_info p) = Z.of_nat l) by naive_solver.
    destruct b as [|y b].
    + exists t1. rewrite (promote_level_end _ _ _ _ _ _ H1 Hq1) by (rewrite length_app; simpl; lia).
      split_and!; auto. eapply lifted_cons; eauto using lifted_nil, not_elem_of_nil.
    + apply NoDup_cons in Hnd as [Hyb Hnd].
      destruct (IH (a ++ [y]) b t1 _ (u ++ [x]) H1) as (t' & E' & H' & Hlf); auto.
      * by rewrite <- app_assoc.
      * intros k Hk. eapply only_proc_at; [by eapply Ho|set_solver|apply Hat; set_solver].
      * simpl in Hf. lia.
      * by apply list_lookup_insert_eq; rewrite length_insert.
      * rewrite length_app. simpl in *. lia.
      * rewrite length_app, Nat.add_1_r in E'. exists t'. split; [done|].
        rewrite (promo_ext _ (starves t)) in H', Hlf
          by (intros k Hk; eapply only_proc_starves; [by eapply Ho|set_solver]).
        rewrite <- !app_assoc in H'. simpl. split.
        -- revert H'. rewrite (list_insert_insert_ne _ l (S l)) by lia.
           by rewrite !list_insert_insert_eq.
        -- eapply lifted_cons; eauto. intros Hin.
           apply (promo_subset (starves t) b x) in Hin. set_solver.
  - subst t1. destruct (IH (a ++ [x]) b t qs u H) as (t' & E' & H' & Hlf); auto.
    + by rewrite <- app_assoc.
    + intros k Hk. apply Hat. set_solver.
    + lia.
    + lia.
    + rewrite length_app, Nat.add_1_r in E'. exists t'. split; [done|].
      rewrite <- app_assoc in H'. simpl. done.
Qed.

(** A level in which nobody starves. *)
Lemma promote_level_none l fuel : forall a b t qs,
  qrep t qs -> qs !! l = Some (a ++ b) -> (forall k, k ∈ b -> at_level t l k) ->
  (length b <= fuel)%nat -> (forall k, k ∈ b -> starves t k = false) ->
  promote_level fuel (Z.of_nat l) (Z.of_nat (length a)) t = Ret t.
Proof.
  induction fuel as [|fuel IH]; intros a [|x b] t qs H Hq Hat Hf Hst; simpl in Hf; try lia.
  1,2: rewrite app_nil_r in Hq; by apply (promote_level_end _ _ _ _ _ _ H Hq).
  assert (Hl : (l < NLAYER)%nat) by (rewrite <- (qr_levels _ _ H); by eapply lookup_lt_Some).
  assert (Hx : (a ++ x :: b) !! length a = Some x) by (by apply list_lookup_middle).
  destruct (promote_level_round fuel t qs l _ _ x [] H Hq Hx) as (t1 & -> & Ht1);
    [apply Hat; set_solver|done|rewrite Hst by set_solver; done|].
  rewrite Hst in Ht1 by set_solver. subst t1.
  specialize (IH (a ++ [x]) b t qs H). rewrite length_app, Nat.add_1_r in IH.
  apply IH; [by rewrite <- app_assoc|..]; try lia; intros k Hk; [apply Hat|apply Hst]; set_solver.
Qed.

(** Every queued process is at the level of its queue, once. *)
Definition levelled (t : ptable) (qs : list (list nat)) : Prop :=
  forall l q, qs !! l = Some q -> NoDup q /\ forall k, k ∈ q -> at_level t l k.

(** The queues after the promotion pass. *)
Definition promoted (st : nat -> bool) (qs : list (list nat)) : list (list nat) :=
  match qs with
  | [q0; q1; q2; q3] =>
    [(promo st q0).1; (promo st q1).1 ++ (promo st q0).2;
     (promo st q2).1 ++ (promo st q1).2; q3 ++ (promo st q2).2]
  | _ => qs
  end.

(** The descriptors after it: the levels below the highest lose [promo]'s
    second component, everybody else is unchanged. *)
Definition promoted_procs (st : nat -> bool) (qs : list (list nat)) (t t' : ptable) : Prop :=
  forall k, procs t' !! k =
    match list_find (fun q => k ∈ (promo st q).2) (take 3 qs) with
    | Some (l, _) => relevel (Z.of_nat l) (Z.of_nat l + 1) <$> procs t !! k
    | None => procs t !! k
    end.

Lemma at_level_inj t l l' k : at_level t l k -> at_level t l' k -> l = l'.
Proof. intros (p & Hp & Hl & _) (p' & Hp' & Hl' & _). simplify_eq. lia. Qed.

(** Processes of other levels are not touched by a pass over level [l]. *)
Lemma lifted_other t t' l pr k :
  (forall x, x ∈ pr -> at_level t l x) -> lifted l pr t t' -> ~ at_level t l k ->
  procs t' !! k = procs t !! k.
Proof. intros Hpr (H & _) Hk. rewrite H, decide_False; [done|]. intros ?. by apply Hk, Hpr. Qed.

Lemma at_level_same t t' l k :
  procs t' !! k = procs t !! k -> at_level t l k -> at_level t' l k.
Proof. intros E (p & Hp & Hr). exists p. by rewrite E. Qed.

Lemma starves_same t t' k : procs t' !! k = procs t !! k -> starves t' k = starves t k.
Proof. intros E. unfold starves. by rewrite E. Qed.

(** The pass over one of the levels 0, 1 and 2, from the start of the queue. *)
Lemma promote_level_full t qs l q u :
  qrep t qs -> qs !! l = Some q -> NoDup q -> (forall k, k ∈ q -> at_level t l k) ->
  qs !! S l = Some u -> (length u + length q <= MLFQLEN)%nat ->
  exists t', (n ← aget (mlfq_size t) (Z.of_nat l); promote_level (Z.to_nat n) (Z.of_nat l) 0 t) = Ret t' /\
    qrep t' (<[S l := u ++ (promo (starves t) q).2]> (<[l := (promo (starves t) q).1]> qs)) /\
    lifted l (promo (starves t) q).2 t t' /\
    (forall k, ~ at_level t l k -> procs t' !! k = procs t !! k).
Proof.
  intros H Hq Hnd Hat Hu Hroom. rewrite (qrep_size _ _ _ _ H Hq). simpl. rewrite Nat2Z.id.
  destruct (promote_level_rep l (length q) [] q t qs u) as (t' & E & H' & Hl); auto.
  exists t'. split_and!; auto. intros k. eapply lifted_other; [|done].
  intros x Hx. by apply Hat, (promo_subset (starves t) q x).
Qed.

Lemma promote_level_none_full t qs l q :
  qrep t qs -> qs !! l = Some q -> (forall k, k ∈ q -> at_level t l k) ->
  (forall k, k ∈ q -> starves t k = false) ->
  (n ← aget (mlfq_size t) (Z.of_nat l); promote_level (Z.to_nat n) (Z.of_nat l) 0 t) = Ret t.
Proof.
  intros H Hq Hat Hst. rewrite (qrep_size _ _ _ _ H Hq). simpl. rewrite Nat2Z.id.
  by apply (promote_level_none l (length q) [] q t qs).
Qed.

(** Nobody is lost or duplicated by the pass over a queue. *)
Lemma promo_perm st q : (promo st q).1 ++ (promo st q).2 ≡ₚ q.
Proof.
  induction q as [|y|y z q IH1 IH2] using list_ind2; [done|..]; cbn [promo]; destruct (st y);
    [done|done| |].
  - simpl. rewrite <- Permutation_middle, IH1. apply Permutation_swap.
  - cbn [promo] in IH2. simpl. by rewrite IH2.
Qed.

Lemma promo_length st q : (length (promo st q).1 + length (promo st q).2 = length q)%nat.
Proof. by rewrite <- length_app, promo_perm. Qed.

Section Promote.
Context (t : ptable) (q0 q1 q2 q3 : list nat).
Let qs := [q0; q1; q2; q3].
Context (H : qrep t qs) (Hlv : levelled t qs).
Context (Hroom : (length q0 + length q1 + length q2 + length q3 <= MLFQLEN)%nat).
Context (Htop : forall k, k ∈ q3 -> starves t k = false).

Lemma lv l q k : qs !! l = Some q -> k ∈ q -> at_level t l k.
Proof. intros Hq. by apply (Hlv l q). Qed.

(** A queue is as it was while only processes of other levels changed. *)
Lemma lv_keep t' l q :
  qs !! l = Some q -> (forall k, k ∈ q -> procs t' !! k = procs t !! k) ->
  (forall k, k ∈ q -> at_level t' l k) /\ promo (starves t') q = promo (starves t) q.
Proof.
  intros Hq Hs. split.
  - intros k Hk. eapply at_level_same; [by apply Hs|by eapply lv].
  - apply promo_ext. intros k Hk. by apply starves_same, Hs.
Qed.

Lemma lv_ne l q k l' : qs !! l = Some q -> k ∈ q -> l <> l' -> ~ at_level t l' k.
Proof. intros Hq Hk Hne Ha. apply Hne. eapply at_level_inj; [by eapply lv|done]. Qed.

Lemma promote_levels :
  exists t2 t1 t0, promote t = Ret t0 /\ qrep t0 (promoted (starves t) qs) /\
    lifted 2 (promo (starves t) q2).2 t t2 /\ lifted 1 (promo (starves t) q1).2 t2 t1 /\
    lifted 0 (promo (starves t) q0).2 t1 t0.
Proof.
  unfold promote. cbn [iterM].
  pose proof (promote_level_none_full t qs 3 q3 H eq_refl (fun k => lv 3 q3 k eq_refl) Htop) as E3.
  change (Z.of_nat 3) with 3 in E3. rewrite E3. clear E3. cbn [mbind outcome_bind].
  destruct (promote_level_full t qs 2 q2 q3) as (t2 & E2 & H2 & L2 & S2); auto;
    [by apply (Hlv 2%nat)|intros k; by apply (lv 2)|lia|].
  change (Z.of_nat 2) with 2 in E2. rewrite E2. clear E2. cbn [mbind outcome_bind].
  destruct (lv_keep t2 1 q1 eq_refl) as [A1 P1].
  { intros k Hk. apply S2. by eapply (lv_ne 1 q1). }
  pose proof (promo_length (starves t) q2) as N2.
  destruct (promote_level_full t2 _ 1 q1 (promo (starves t) q2).1 H2) as (t1 & E1 & H1 & L1 & S1);
    [done|by apply (Hlv 1%nat)|done|done|lia|].
  change (Z.of_nat 1) with 1 in E1. rewrite E1. clear E1. cbn [mbind outcome_bind].
  rewrite P1 in H1, L1.
  destruct (lv_keep t1 0 q0 eq_refl) as [A0 P0].
  { intros k Hk. rewrite S1; [apply S2; by eapply (lv_ne 0 q0)|].
    intros Ha. apply (lv_ne 0 q0 k 1 eq_refl Hk); [done|].
    eapply at_level_same; [|exact Ha]. symmetry. apply S2. by eapply (lv_ne 0 q0). }
  pose proof (promo_length (starves t) q1) as N1.
  destruct (promote_level_full t1 _ 0 q0 (promo (starves t) q1).1 H1) as (t0 & E0 & H0 & L0 & S0);
    [done|by apply (Hlv 0%nat)|done|done|lia|].
  change (Z.of_nat 0) with 0 in E0. rewrite E0. clear E0. cbn [mbind outcome_bind].
  rewrite P0 in H0, L0. exists t2, t1, t0. split_and!; auto.
Qed.

Let st := starves t.

(** What the pass does to the descriptors. *)
Lemma promote_procs t2 t1 t0 :
  lifted 2 (promo st q2).2 t t2 -> lifted 1 (promo st q1).2 t2 t1 -> lifted 0 (promo st q0).2 t1 t0 ->
  (forall l q k, (l < 3)%nat -> qs !! l = Some q -> k ∈ (promo st q).2 ->
     procs t0 !! k = relevel (Z.of_nat l) (Z.of_nat l + 1) <$> procs t !! k) /\
  (forall k, (forall l q, (l < 3)%nat -> qs !! l = Some q -> k ∉ (promo st q).2) ->
     procs t0 !! k = procs t !! k) /\ cur t0 = cur t.
Proof.
  intros (L2 & C2 & _) (L1 & C1 & _) (L0 & C0 & _).
  assert (D : forall l l' q q' k, qs !! l = Some q -> qs !! l' = Some q' -> l <> l' ->
    k ∈ (promo st q).2 -> k ∉ (promo st q').2).
  { intros l l' q q' k Hq Hq' Hne Hk Hk'.
    apply promo_subset in Hk, Hk'. apply Hne. by eapply at_level_inj; eapply lv. }
  split_and!; [| |congruence].
  - intros [|[|[|]]] q k Hl Hq Hk; simplify_eq/=; try lia.
    + rewrite L0, decide_True, L1, decide_False, L2, decide_False; auto;
        [by apply (D 0%nat 2%nat q)|by apply (D 0%nat 1%nat q)].
    + rewrite L0, decide_False, L1, decide_True, L2, decide_False; auto;
        [by apply (D 1%nat 2%nat q)|by apply (D 1%nat 0%nat q)].
    + rewrite L0, decide_False, L1, decide_False, L2, decide_True; auto;
        [by apply (D 2%nat 1%nat q)|by apply (D 2%nat 0%nat q)].
  - intros k Hk. rewrite L0, decide_False, L1, decide_False, L2, decide_False; auto.
    + by apply (Hk 2%nat); [lia|].
    + by apply (Hk 1%nat); [lia|].
    + by apply (Hk 0%nat); [lia|].
Qed.

Lemma relevel_at l k p t0 :
  procs t !! k = Some p -> at_level t l k ->
  procs t0 !! k = Some (relevel (Z.of_nat l) (Z.of_nat l + 1) p) -> at_level t0 (S l) k.
Proof.
  intros Hp (p' & Hp' & Hl & H1 & H2) H0. simplify_eq. eexists; split; [exact H0|].
  unfold relevel. destruct p as [? ? ? ? ? ? ? ? ? ? ? ? ? [? ? ? ? ?]]. simpl in *.
  split_and!; [lia|done|by rewrite length_insert].
Qed.

(** A queue made of processes that stay and of promoted ones. *)
Lemma new_queue t0 l keep up :
  NoDup keep -> NoDup up -> (forall k, k ∈ keep -> at_level t l k) ->
  (forall k, k ∈ up -> ~ at_level t l k) ->
  (forall k, k ∈ keep -> at_level t0 l k) -> (forall k, k ∈ up -> at_level t0 l k) ->
  NoDup (keep ++ up) /\ forall k, k ∈ keep ++ up -> at_level t0 l k.
Proof.
  intros N1 N2 A1 A2 B1 B2. split.
  - apply NoDup_app. split_and!; [done| |done]. intros k Hk Hk'. by apply (A2 k Hk'), A1.
  - intros k [?|?]%elem_of_app; auto.
Qed.

Lemma promo_parts l q :
  qs !! l = Some q ->
  NoDup (promo st q).1 /\ NoDup (promo st q).2 /\
  (forall k, k ∈ (promo st q).1 -> k ∉ (promo st q).2) /\
  (forall k, k ∈ (promo st q).1 -> at_level t l k) /\ (forall k, k ∈ (promo st q).2 -> at_level t l k).
Proof.
  intros Hq. destruct (Hlv l q Hq) as [Hnd Hat]. rewrite <- (promo_perm st q) in Hnd.
  apply NoDup_app in Hnd as (? & ? & ?). split_and!; auto; intros k Hk; apply Hat;
    by apply promo_subset in Hk.
Qed.

(** The new queues are levelled again. *)
Lemma promoted_levelled t0 :
  (forall l q k, (l < 3)%nat -> qs !! l = Some q -> k ∈ (promo st q).2 ->
     procs t0 !! k = relevel (Z.of_nat l) (Z.of_nat l + 1) <$> procs t !! k) ->
  (forall k, (forall l q, (l < 3)%nat -> qs !! l = Some q -> k ∉ (promo st q).2) ->
     procs t0 !! k = procs t !! k) ->
  levelled t0 (promoted st qs).
Proof.
  intros Hup Hsame.
  assert (Up : forall l q k, (l < 3)%nat -> qs !! l = Some q -> k ∈ (promo st q).2 -> at_level t0 (S l) k).
  { intros l q k Hl Hq Hk. destruct (promo_parts l q Hq) as (_ & _ & _ & _ & Ha).
    destruct (Ha k Hk) as (p & Hp & Hr). eapply relevel_at; [done|by exists p|].
    by rewrite (Hup l q k), Hp. }
  assert (Stay : forall l q k, qs !! l = Some q -> k ∈ q -> ((l < 3)%nat -> k ∉ (promo st q).2) ->
    at_level t0 l k).
  { intros l q k Hq Hk Hn. eapply at_level_same; [|by eapply lv]. apply Hsame.
    intros l' q' Hl' Hq' Hk'. destruct (promo_parts l' q' Hq') as (_ & _ & _ & _ & Ha).
    assert (l = l') as <- by (eapply at_level_inj; [by eapply lv|auto]). simplify_eq. by apply Hn. }
  assert (Keep : forall l q k, qs !! l = Some q -> k ∈ (promo st q).1 -> at_level t0 l k).
  { intros l q k Hq Hk. destruct (promo_parts l q Hq) as (_ & _ & Hd & _).
    apply (Stay l q k Hq); [by apply promo_subset in Hk|]. intros _. by apply Hd. }
  assert (New : forall l q q', (l < 3)%nat -> qs !! l = Some q -> qs !! S l = Some q' ->
    forall keep, NoDup keep -> (forall k, k ∈ keep -> at_level t (S l) k) ->
    (forall k, k ∈ keep -> at_level t0 (S l) k) ->
    NoDup (keep ++ (promo st q).2) /\ forall k, k ∈ keep ++ (promo st q).2 -> at_level t0 (S l) k).
  { intros l q q' Hl Hq Hq' keep Hn Ha Hb. destruct (promo_parts l q Hq) as (_ & Hn2 & _ & _ & Ha2).
    apply new_queue; auto; [|by intros k; apply (Up l q)].
    intros k Hk Hk'. pose proof (at_level_inj _ _ _ _ (Ha2 k Hk) Hk'). lia. }
  intros [|[|[|[|]]]] q Hq; simplify_eq/=.
  - destruct (promo_parts 0 q0 eq_refl) as (? & _ & _ & _). split; [done|]. intros k. by apply Keep.
  - destruct (promo_parts 1 q1 eq_refl) as (? & _ & _ & ? & _).
    apply (New 0%nat q0 q1); auto. intros k. by apply Keep.
  - destruct (promo_parts 2 q2 eq_refl) as (? & _ & _ & ? & _).
    apply (New 1%nat q1 q2); auto. intros k. by apply Keep.
  - destruct (Hlv 3%nat q3 eq_refl) as [? ?]. apply (New 2%nat q2 q3); auto.
    intros k Hk. apply (Stay 3%nat q3); [done..|lia].
Qed.
End Promote.

(** ** Demotion and round robin *)

(** The process has used up its time at level [l]. *)
Definition used_up (l : nat) (tc : Z) : bool :=
  (0 <? l)%nat && (limit_total !!! l <=? tc).

(** The queues when the process at [(l, i)] comes back with [tc] ticks. *)
Definition requeue (qs : list (list nat)) (l i k : nat) (tc : Z) : list (list nat) :=
  if used_up l tc then alter (fun u => u ++ [k]) (l - 1)%nat (alter (delete i) l qs)
  else if Z.rem tc (limit_rr !!! l) =? 0 then alter (fun q => delete i q ++ [k]) l qs
  else qs.

Definition requeue_proc (l : nat) (tc : Z) (p : proc) : proc :=
  if used_up l tc then relevel (Z.of_nat l) (Z.of_nat l - 1) p else p.

Lemma insert_alter {A} (l : list A) i f x : l !! i = Some x -> <[i := f x]> l = alter f i l.
Proof.
  revert i. induction l as [|y l IH]; intros [|i] Hx; simplify_eq/=; [done|].
  change (y :: <[i := f x]> l = y :: alter f i l). f_equal. by apply IH.
Qed.

Lemma requeue_rep t qs l q i k p tc :
  qrep t qs -> qs !! l = Some q -> q !! i = Some k -> procs t !! k = Some p -> at_level t l k ->
  (forall u, (0 < l)%nat -> qs !! (l - 1)%nat = Some u -> (length u < MLFQLEN)%nat) ->
  exists t1, requeue_code (Z.of_nat l) (Z.of_nat i) k tc t = Ret t1 /\
    qrep t1 (requeue qs l i k tc) /\ only_proc k (requeue_proc l tc p) t t1.
Proof.
  intros H Hq Hi Hp (p' & Hp' & Hlv & _ & Hw) Hroom. simplify_eq.
  assert (Hl : (l < NLAYER)%nat) by (rewrite <- (qr_levels _ _ H); by eapply lookup_lt_Some).
  unfold requeue_code, requeue, requeue_proc, used_up.
  rewrite (aget_Some limit_total l (limit_total !!! l)) by (by apply list_lookup_lookup_total_lt). simpl.
  rewrite (aget_Some limit_rr l (limit_rr !!! l)) by (by apply list_lookup_lookup_total_lt). simpl.
  replace (0 <? Z.of_nat l) with (0 <? l)%nat by (destruct l; done).
  destruct ((0 <? l)%nat && (limit_total !!! l <=? tc)) eqn:E.
  - apply andb_prop in E as [E _]. apply Nat.ltb_lt in E.
    destruct (lookup_lt_is_Some_2 qs (l - 1)) as [u Hu].
    { rewrite (qr_levels _ _ H). unfold NLAYER in *. lia. }
    replace (Z.of_nat l - 1) with (Z.of_nat (l - 1)) by lia.
    destruct (move_rep t qs l q i k (l - 1) u (fun _ => Z.of_nat (l - 1)) H Hq Hi) with (p := p)
      as (t1 & -> & H1 & Ho); auto; [lia|].
    exists t1. split; [done|]. split; [|done].
    rewrite <- (insert_alter qs l (delete i) q) by done.
    rewrite <- (insert_alter _ (l - 1) (fun u => u ++ [k]) u); [done|].
    by rewrite list_lookup_insert_ne by lia.
  - assert (Ho : only_proc k p t t).
    { split_and!; auto. symmetry. by apply list_insert_id. }
    destruct (Z.rem tc (limit_rr !!! l) =? 0); [|by exists t].
    destruct (rotate_rep t qs l q i k H Hq Hi) as (t1 & Et & H1 & Hs).
    exists t1. split; [exact Et|]. split.
    + by rewrite <- (insert_alter qs l (fun q => delete i q ++ [k]) q).
    + unfold only_proc. destruct Hs as (-> & -> & -> & ->). done.
Qed.

Lemma starves_relevel l l' p t k :
  procs t !! k = Some (relevel l l' p) -> starves t k = false.
Proof.
  intros Hk. unfold starves. rewrite Hk. unfold relevel.
  destruct p as [? ? ? ? ? ? ? ? ? ? ? ? ? [? ? ? ? ?]]. simpl.
  unfold limit_total. destruct (Z.to_nat l') as [|[|[|[|]]]]; done.
Qed.

Lemma requeue_starves t t1 l k tc p x :
  procs t !! k = Some p -> only_proc k (requeue_proc l tc p) t t1 -> starves t k = false ->
  starves t1 x = starves t x.
Proof.
  intros Hp Ho Hk. destruct (decide (x = k)) as [->|Hne]; [|by eapply only_proc_starves].
  rewrite Hk. destruct Ho as (P & _).
  assert (E : procs t1 !! k = Some (requeue_proc l tc p))
    by (rewrite P; apply list_lookup_insert_eq; by eapply lookup_lt_Some).
  unfold requeue_proc in E. destruct (used_up l tc); [by eapply starves_relevel|].
  rewrite <- Hk. apply starves_same. by rewrite E.
Qed.

Lemma elem_of_delete {A} (q : list A) i k x :
  NoDup q -> q !! i = Some k -> x ∈ delete i q <-> x ∈ q /\ x <> k.
Proof.
  intros Hnd Hi. pose proof (delete_Permutation q i k Hi) as Hp. rewrite Hp in Hnd.
  apply NoDup_cons in Hnd as [Hn _].
  assert (Hq : x ∈ q <-> x = k \/ x ∈ delete i q) by (by rewrite Hp, elem_of_cons at 1).
  rewrite Hq. split; [|naive_solver]. intros Hx. split; [by right|]. by intros ->.
Qed.

Lemma NoDup_delete {A} (q : list A) i k : NoDup q -> q !! i = Some k -> NoDup (delete i q).
Proof.
  intros Hnd Hi. rewrite (delete_Permutation q i k Hi) in Hnd. by apply NoDup_cons in Hnd as [_ ?].
Qed.

(** The queues stay levelled. *)
Lemma requeue_levelled t t1 qs l q i k p tc :
  levelled t qs -> qs !! l = Some q -> q !! i = Some k -> procs t !! k = Some p ->
  only_proc k (requeue_proc l tc p) t t1 -> levelled t1 (requeue qs l i k tc).
Proof.
  intros Hlv Hq Hi Hp Ho. destruct (Hlv l q Hq) as [Hnd Hat].
  assert (Hk : at_level t l k) by (apply Hat; by eapply list_elem_of_lookup_2).
  assert (E : procs t1 !! k = Some (requeue_proc l tc p))
    by (destruct Ho as (-> & _); apply list_lookup_insert_eq; by eapply lookup_lt_Some).
  assert (Oth : forall l' q', qs !! l' = Some q' -> l' <> l ->
    NoDup q' /\ (k ∉ q') /\ forall x, x ∈ q' -> at_level t1 l' x).
  { intros l' q' Hq' Hne. destruct (Hlv l' q' Hq') as [Hn Ha].
    assert (k ∉ q') by (intros Hin; apply Hne; eapply at_level_inj; eauto).
    split_and!; auto. intros x Hx. eapply only_proc_at; eauto. by intros ->. }
  assert (Rest : forall x, x ∈ delete i q -> at_level t1 l x).
  { intros x Hx. eapply (elem_of_delete q i k) in Hx as [Hx Hne]; [|done..].
    eapply only_proc_at; eauto. }
  pose proof (NoDup_delete q i k Hnd Hi) as Hdel.
  unfold requeue, requeue_proc in *. destruct (used_up l tc) eqn:Eu.
  - intros l' q' Hq'. apply andb_prop in Eu as [El _]. apply Nat.ltb_lt in El.
    destruct (decide (l' = (l - 1)%nat)) as [->|H1].
    + rewrite list_lookup_alter_eq, list_lookup_alter_ne in Hq' by lia.
      destruct (qs !! (l - 1)%nat) as [u|] eqn:Hu; simplify_eq/=.
      destruct (Oth (l - 1)%nat u Hu) as (Hn & Hnk & Ha); [lia|]. split.
      * apply NoDup_app. split_and!; [done|set_solver|apply NoDup_singleton].
      * intros x [Hx| ->%list_elem_of_singleton]%elem_of_app; [auto|].
        destruct Hk as (p' & Hp' & Hl' & Ht & Hw). simplify_eq.
        eexists; split; [exact E|]. unfold relevel.
        destruct p as [? ? ? ? ? ? ? ? ? ? ? ? ? [? ? ? ? ?]]. simpl in *.
        split_and!; [lia|done|by rewrite length_insert].
    + rewrite list_lookup_alter_ne in Hq' by done. destruct (decide (l' = l)) as [->|H2].
      * rewrite list_lookup_alter_eq, Hq in Hq'. simplify_eq/=. auto.
      * rewrite list_lookup_alter_ne in Hq' by done. destruct (Oth l' q' Hq' H2) as (? & _ & ?). auto.
  - assert (Hk1 : at_level t1 l k) by (eapply at_level_same; [|done]; congruence).
    destruct (_ =? 0); intros l' q' Hq'.
    + destruct (decide (l' = l)) as [->|H2].
      * rewrite list_lookup_alter_eq, Hq in Hq'. simplify_eq/=. split.
        -- apply NoDup_app. split_and!; [done| |apply NoDup_singleton].
           intros x Hx ->%list_elem_of_singleton. by apply (elem_of_delete q i k) in Hx as [_ ?].
        -- intros x [Hx| ->%list_elem_of_singleton]%elem_of_app; auto.
      * rewrite list_lookup_alter_ne in Hq' by done. destruct (Oth l' q' Hq' H2) as (? & _ & ?). auto.
    + destruct (decide (l' = l)) as [->|H2].
      * simplify_eq. split; [done|]. intros x Hx. destruct (decide (x = k)) as [->|]; [done|].
        eapply only_proc_at; eauto.
      * destruct (Oth l' q' Hq' H2) as (? & _ & ?). auto.
Qed.

(** ** Nobody is lost *)

Lemma concat_alter_perm (qs : list (list nat)) l q f :
  qs !! l = Some q -> q ++ concat (alter f l qs) ≡ₚ f q ++ concat qs.
Proof.
  revert l. induction qs as [|u qs IH]; intros [|l] Hq; simplify_eq/=.
  - rewrite !app_assoc. by rewrite (Permutation_app_comm q (f q)).
  - change (q ++ u ++ concat (alter f l qs) ≡ₚ f q ++ u ++ concat qs).
    rewrite (Permutation_app_swap_app q), (Permutation_app_swap_app (f q)). by rewrite IH.
Qed.

Lemma requeue_perm qs l q i k tc :
  qs !! l = Some q -> q !! i = Some k -> (l < length qs)%nat ->
  concat (requeue qs l i k tc) ≡ₚ concat qs.
Proof.
  intros Hq Hi Hl. pose proof (delete_Permutation q i k Hi) as Hd.
  assert (Hdel : k :: concat (alter (delete i) l qs) ≡ₚ concat qs).
  { apply (Permutation_app_inv_l (delete i q)).
    rewrite <- (concat_alter_perm qs l q (delete i) Hq).
    etransitivity; [|apply Permutation_app_tail; symmetry; exact Hd]. simpl.
    by rewrite <- Permutation_middle. }
  unfold requeue. destruct (used_up l tc) eqn:Eu.
  - apply andb_prop in Eu as [El _]. apply Nat.ltb_lt in El.
    destruct (lookup_lt_is_Some_2 qs (l - 1)) as [u Hu]; [lia|].
    assert (Hu' : alter (delete i) l qs !! (l - 1)%nat = Some u)
      by (by rewrite list_lookup_alter_ne by lia).
    apply (Permutation_app_inv_l u).
    rewrite (concat_alter_perm _ _ u (fun u => u ++ [k]) Hu').
    rewrite <- app_assoc. simpl. by rewrite Hdel.
  - destruct (_ =? 0); [|done]. apply (Permutation_app_inv_l q).
    rewrite (concat_alter_perm qs l q (fun q => delete i q ++ [k]) Hq).
    apply Permutation_app_tail. rewrite Permutation_app_comm. simpl. by symmetry.
Qed.

Lemma promoted_perm st q0 q1 q2 q3 :
  concat (promoted st [q0; q1; q2; q3]) ≡ₚ concat [q0; q1; q2; q3].
Proof.
  simpl. rewrite !app_nil_r.
  etransitivity; [|apply Permutation_app; [apply (promo_perm st q0)|]; apply Permutation_app;
    [apply (promo_perm st q1)|]; apply Permutation_app_tail, (promo_perm st q2)].
  rewrite <- !app_assoc. apply Permutation_app_head.
  rewrite (Permutation_app_swap_app (promo st q1).1). apply Permutation_app_head, Permutation_app_head.
  rewrite (Permutation_app_swap_app (promo st q2).1). apply Permutation_app_head, Permutation_app_head.
  apply Permutation_app_comm.
Qed.

(** ** What the scheduler guarantees *)

Lemma qrep_counted t qs : qrep t qs -> counted (qtotal t) t.
Proof.
  intros [H1 H2 H3 H4 H5]. constructor; [done| |].
  - rewrite H2, length_fmap. split; [done|]. apply Forall_fmap. eapply Forall_impl; [exact H4|].
    intros q Hq. cbn beta delta [compose] in *. cbn beta in *. lia.
  - eapply Forall2_Forall_l; [done|]. apply Forall_true. by intros q r [].
Qed.

Lemma qrep_four t qs : qrep t qs -> exists q0 q1 q2 q3, qs = [q0; q1; q2; q3] /\
  qtotal t = Z.of_nat (length q0 + length q1 + length q2 + length q3).
Proof.
  intros H. pose proof (qr_levels _ _ H) as Hl. pose proof (qr_sizes _ _ H) as Hs.
  destruct qs as [|q0 [|q1 [|q2 [|q3 [|]]]]]; try done. exists q0, q1, q2, q3.
  split; [done|]. unfold qtotal. rewrite Hs. simpl. lia.
Qed.

(** The top queue after requeueing holds nobody new but [k]. *)
Lemma requeue_top qs l q i k tc x q3 q3' :
  qs !! l = Some q -> q !! i = Some k -> qs !! 3%nat = Some q3 ->
  requeue qs l i k tc !! 3%nat = Some q3' -> x ∈ q3' -> x = k \/ x ∈ q3.
Proof.
  intros Hq Hi H3 H3' Hx.
  assert (Hd : forall y, y ∈ delete i q -> y ∈ q).
  { intros y Hy. rewrite (delete_Permutation q i k Hi). set_solver. }
  assert (Hl : (l < length qs)%nat) by (by eapply lookup_lt_Some).
  unfold requeue in H3'. destruct (used_up l tc).
  - destruct (decide ((l - 1)%nat = 3%nat)) as [E|E].
    + rewrite E, list_lookup_alter_eq in H3'.
      rewrite list_lookup_alter_ne in H3' by lia. rewrite H3 in H3'. simplify_eq/=. set_solver.
    + rewrite list_lookup_alter_ne in H3' by done. destruct (decide (l = 3%nat)) as [->|].
      * rewrite list_lookup_alter_eq, Hq in H3'. simplify_eq/=. auto.
      * rewrite list_lookup_alter_ne, H3 in H3' by done. simplify_eq. auto.
  - destruct (_ =? 0); [|simplify_eq; auto]. destruct (decide (l = 3%nat)) as [->|].
    + rewrite list_lookup_alter_eq, Hq in H3'. simplify_eq/=. set_solver.
    + rewrite list_lookup_alter_ne, H3 in H3' by done. simplify_eq. auto.
Qed.

(** The scheduler runs the highest level first: on queues that hold
    valid processes [sched_pick] always returns, gives the first runnable
    process of the highest level that has one, and gives nobody only when no
    queued process is runnable. *)
Theorem sched_pick_priority t qs :
  qrep t qs ->
  match sched_pick t with
  | Ret (Some (l, i, k)) => chosen t qs (Z.to_nat l) (Z.to_nat i) k /\ 0 <= l /\ 0 <= i
  | Ret None => forall l q k, qs !! l = Some q -> k ∈ q -> ~ runnable t k
  | _ => False
  end.
Proof.
  intros H. apply (pick_levels_rep t qs 4 H); [done|]. intros l q x Hl Hq.
  pose proof (lookup_lt_Some _ _ _ Hq). rewrite (qr_levels _ _ H) in *. unfold NLAYER in *. lia.
Qed.


(** A table with given descriptors and queues. *)
Definition mk_row (q : list nat) : list (option nat) :=
  (Some <$> q) ++ replicate (MLFQLEN - length q) None.
Definition mk_table (ps : list proc) (qs : list (list nat)) : ptable :=
  Ptable ps 10 (Some 0%nat) (mk_row <$> qs) ((fun q => Z.of_nat (length q)) <$> qs) None.
Definition mk_proc (st : procstate) (n lvl tc wc : Z) : proc :=
  p_state st (p_pid n (p_pgdir 0x200000 (p_sched
    (Mq lvl (replicate NLAYER 0) (replicate NLAYER 0) tc wc) proc_zero))).

Lemma mk_table_rep ps qs :
  length qs = NLAYER -> Forall (fun q => (length q <= MLFQLEN)%nat) qs ->
  Forall (Forall (fun k => (k < length ps)%nat)) qs -> qrep (mk_table ps qs) qs.
Proof.
  intros H1 H2 H3. constructor; auto. simpl. apply Forall2_fmap_l, Forall_Forall2_diag.
  eapply Forall_impl; [exact H2|]. intros q Hq. cbn beta in Hq. unfold mk_row. split.
  - rewrite length_app, length_fmap, length_replicate. lia.
  - by rewrite take_app_length' by (by rewrite length_fmap).
Qed.

(** Two runnable processes at level 2, one sleeping at level 3, and one at
    level 1 that has waited long enough to be promoted. *)
Definition demo_procs : list proc :=
  [mk_proc RUNNABLE 1 2 16 0; mk_proc RUNNABLE 2 2 0 0; mk_proc SLEEPING 3 3 0 0;
   mk_proc RUNNABLE 4 1 0 320].
Definition demo_queues : list (list nat) := [[]; [3]; [0; 1]; [2]]%nat.
Definition demo_ptable : ptable := mk_table demo_procs demo_queues.

Lemma demo_qrep : qrep demo_ptable demo_queues.
Proof.
  apply mk_table_rep; [done| |].
  - unfold MLFQLEN. by repeat constructor; simpl; lia.
  - repeat constructor.
Qed.

Lemma sched_pick_priority_witness :
  sched_pick demo_ptable = Ret (Some (2, 0, 0%nat)) /\ chosen demo_ptable demo_queues 2 0 0.
Proof.
  pose proof (sched_pick_priority demo_ptable demo_queues demo_qrep) as H.
  assert (E : sched_pick demo_ptable = Ret (Some (2, 0, 0%nat))) by (vm_compute; reflexivity).
  rewrite E in H. split; [exact E|apply H].
Defined.


(** The queues only grow: in every reachable state the entries of the four
    queues are exactly as many as the processes created since boot, exited
    ones included, because no code removes the entry of a process that has
    exited.  So at most 2048 processes can be created, and after that
    [allocproc] always writes outside [mlfq]. *)
Theorem mlfq_leak n t :
  mreach n t ->
  qtotal t = n /\ n <= 2048 /\
  (n = 2048 -> forall i t', alloc_queue i t <> Ret t').
Proof.
  intros H. pose proof (mreach_counted n t H) as Hc. split_and!.
  - apply Hc.
  - apply (counted_bound n t Hc).
  - intros -> i t' E.
    pose proof (counted_bound _ _ (mstep_counted _ _ _ _ Hc (m_alloc i t t' E))) as Hb.
    unfold NLAYER, MLFQLEN in Hb. lia.
Qed.

(** Two processes are created; the second one has exited and been reaped. *)
Definition demo_two : ptable :=
  match (t ← alloc_queue 0 ptable_boot; alloc_queue 1 t) with
  | Ret t => updp 1 (p_state UNUSED) t
  | _ => ptable_boot
  end.

Lemma mlfq_leak_witness : mreach (0 + 1 + 1 + 0) demo_two /\ qtotal demo_two = 2.
Proof.
  assert (H : mreach (0 + 1 + 1 + 0) demo_two).
  { unfold demo_two.
    destruct (alloc_queue 0 ptable_boot) as [t1| |] eqn:E1; [|vm_compute in E1; discriminate..].
    cbn [mbind outcome_bind].
    destruct (alloc_queue 1 t1) as [t2| |] eqn:E2.
    - eapply mreach_step; [|by apply (m_other t2)].
      eapply mreach_step; [|by apply (m_alloc 1)].
      eapply mreach_step; [apply mreach_boot|by apply (m_alloc 0)].
    - exfalso. vm_compute in E1. simplify_eq.
    - exfalso. vm_compute in E1. simplify_eq. }
  split; [exact H|]. apply (mlfq_leak _ _ H).
Defined.

(** The processes of each queue. *)
Definition queues (t : ptable) : list (list (option nat)) :=
  zip_with (fun n r => take (Z.to_nat n) r) (mlfq_size t) (mlfq t).

(** Two runnable processes at level 2. *)
Definition demo_pair : ptable :=
  mk_table [mk_proc RUNNABLE 1 2 0 0; mk_proc RUNNABLE 2 2 0 0] [[]; []; [0; 1]; []]%nat.

(** A process that calls [boostproc] makes the scheduler lose another one.
    The scheduler picks process 0 at index 0 of level 2; while it runs it
    moves itself to level 3, so index 0 of level 2 is now process 1; when
    process 0 yields the scheduler removes the entry at index 0 and queues
    process 0 again.  Afterwards process 0 is in two queues, and process 1 is
    runnable but in none, so it never runs again. *)
Theorem boostproc_loses_process :
  exists t',
    (t ← sched_dispatch 2 0 demo_pair;
     '(_, t) ← boostproc t;
     t ← yield t;
     sched_return 0 2 0 0 t) = Ret t' /\
    sched_pick demo_pair = Ret (Some (2, 0, 0%nat)) /\
    queues t' = [[]; []; [Some 0%nat]; [Some 0%nat]] /\ runnable t' 1.
Proof.
  eexists. split; [vm_compute; reflexivity|]. split_and!; [vm_compute; reflexivity..|].
  eexists. split; reflexivity.
Qed.

(** ** [getprocinfo] *)

(** Row [i] of a report. *)
Definition st_row (a : pstat) (i : nat) :=
  (st_inuse a !! i, st_pid a !! i, st_priority a !! i, st_state a !! i,
   st_ticks a !! i, st_wait_ticks a !! i).

(** The row that describes a process. *)
Definition row_of (p : proc) :=
  (Some 1, Some (pid p), Some (level (sched_info p)), Some (state p),
   Some (ticks (sched_info p)), Some (wait_ticks (sched_info p))).

Record wfstat (a : pstat) : Prop := {
  ws_inuse : length (st_inuse a) = NPROC;
  ws_pid : length (st_pid a) = NPROC;
  ws_priority : length (st_priority a) = NPROC;
  ws_state : length (st_state a) = NPROC;
  ws_ticks : length (st_ticks a) = NPROC;
  ws_wait : length (st_wait_ticks a) = NPROC
}.

Lemma stat_one_rep t qs l q i k p a :
  qrep t qs -> qs !! l = Some q -> q !! i = Some k -> procs t !! k = Some p ->
  wfstat a -> (i < NPROC)%nat ->
  exists a', stat_one (Z.of_nat l) (Z.of_nat i) t a = Ret a' /\ wfstat a' /\
    forall j, st_row a' j = if decide (j = i) then row_of p else st_row a j.
Proof.
  intros H Hq Hi Hp [W1 W2 W3 W4 W5 W6] Hlt. unfold stat_one.
  rewrite (qrep_get _ _ _ _ _ _ H Hq Hi). simpl. unfold getp. rewrite Hp. simpl.
  repeat (rewrite aset_Ret by lia; simpl). rewrite Nat2Z.id.
  eexists; split; [reflexivity|]. split; [constructor; simpl; by rewrite length_insert|].
  intros j. unfold st_row, row_of. simpl. rewrite !list_lookup_insert.
  rewrite W1, W2, W3, W4, W5, W6.
  destruct (decide (j = i)) as [->|Hne].
  - by rewrite !decide_True by (split; [done|lia]).
  - by rewrite !decide_False by naive_solver.
Qed.

(** What the loop over one level leaves in row [j]. *)
Definition level_row (t : ptable) (q : list nat) (j : nat) (old : _) :=
  match (q !! j) ≫= (procs t !!.) with Some p => row_of p | None => old end.

Lemma stat_level_rep t qs l q b : forall c a,
  qrep t qs -> qs !! l = Some q -> q = c ++ b -> (length q <= NPROC)%nat -> wfstat a ->
  exists a', iterM (fun i a => stat_one (Z.of_nat l) i t a)
      (seqZ (Z.of_nat (length c)) (Z.of_nat (length b))) a = Ret a' /\ wfstat a' /\
    forall j, st_row a' j = if decide (length c <= j)%nat then level_row t q j (st_row a j) else st_row a j.
Proof.
  induction b as [|k b IH]; intros c a H Hq E Hlen Hw.
  - exists a. split_and!; auto. intros j. case_decide; [|done]. unfold level_row.
    rewrite lookup_ge_None_2; [done|]. rewrite E, app_nil_r. lia.
  - cbn [length]. rewrite Nat2Z.inj_succ, seqZ_cons, Z.pred_succ by lia. cbn [iterM].
    assert (Hk : q !! length c = Some k) by (rewrite E; by apply list_lookup_middle).
    destruct (qrep_deref _ _ _ _ _ _ H Hq Hk) as (p & Hp & _).
    assert (Hlt : (length c < NPROC)%nat) by (apply lookup_lt_Some in Hk; lia).
    destruct (stat_one_rep t qs l q (length c) k p a) as (a1 & -> & W1 & R1); auto. simpl.
    destruct (IH (c ++ [k]) a1 H Hq) as (a' & E' & W' & R'); auto.
    { by rewrite <- app_assoc. }
    rewrite length_app in E', R'. simpl in E', R'.
    replace (Z.of_nat (length c + 1)) with (Z.succ (Z.of_nat (length c))) in E' by lia.
    exists a'. split_and!; auto. intros j. rewrite R', R1. unfold level_row.
    destruct (decide (j = length c)) as [->|Hne].
    + rewrite decide_False, decide_True, Hk by lia. simpl. by rewrite Hp.
    + repeat case_decide; try lia; done.
Qed.

Lemma stat_level_full t qs l q a :
  qrep t qs -> qs !! l = Some q -> (length q <= NPROC)%nat -> wfstat a ->
  exists a', (n ← aget (mlfq_size t) (Z.of_nat l);
              iterM (fun i a => stat_one (Z.of_nat l) i t a) (seqZ 0 n) a) = Ret a' /\ wfstat a' /\
    forall j, st_row a' j = level_row t q j (st_row a j).
Proof.
  intros H Hq Hl Hw. rewrite (qrep_size _ _ _ _ H Hq). simpl.
  destruct (stat_level_rep t qs l q q [] a H Hq eq_refl Hl Hw) as (a' & E & W & R).
  exists a'. split_and!; [exact E|done|]. intros j. by rewrite R, decide_True by (simpl; lia).
Qed.

(** [getprocinfo] reports by position within a level, and the lower levels
    overwrite the higher ones: on queues of at most 64 processes it returns 0
    with row [j] describing the process at index [j] of the lowest level that
    has more than [j] entries; rows beyond all queues keep their old
    contents.  A null pointer gives -1. *)
Theorem getprocinfo_report t q0 q1 q2 q3 a :
  qrep t [q0; q1; q2; q3] -> Forall (fun q => (length q <= NPROC)%nat) [q0; q1; q2; q3] ->
  wfstat a ->
  getprocinfo None t = Ret (-1, None) /\
  exists a', getprocinfo (Some a) t = Ret (0, Some a') /\
    forall j, st_row a' j =
      level_row t q0 j (level_row t q1 j (level_row t q2 j (level_row t q3 j (st_row a j)))).
Proof.
  intros H Hlen Hw. split; [done|]. rewrite !Forall_cons in Hlen.
  destruct Hlen as (N0 & N1 & N2 & N3 & _).
  destruct (stat_level_full t _ 3 q3 a H eq_refl N3 Hw) as (a3 & E3 & W3 & R3).
  destruct (stat_level_full t _ 2 q2 a3 H eq_refl N2 W3) as (a2 & E2 & W2 & R2).
  destruct (stat_level_full t _ 1 q1 a2 H eq_refl N1 W2) as (a1 & E1 & W1 & R1).
  destruct (stat_level_full t _ 0 q0 a1 H eq_refl N0 W1) as (a0 & E0 & W0 & R0).
  exists a0. split; [|intros j; by rewrite R0, R1, R2, R3].
  unfold getprocinfo. cbn [iterM].
  change (Z.of_nat 3) with 3 in E3. change (Z.of_nat 2) with 2 in E2.
  change (Z.of_nat 1) with 1 in E1. change (Z.of_nat 0) with 0 in E0.
  rewrite E3. cbn [mbind outcome_bind]. rewrite E2. cbn [mbind outcome_bind].
  rewrite E1. cbn [mbind outcome_bind]. rewrite E0. done.
Qed.

Definition demo_stat : pstat :=
  Pstat (replicate NPROC 0) (replicate NPROC 0) (replicate NPROC 0) (replicate NPROC UNUSED)
    (replicate NPROC (replicate NLAYER 0)) (replicate NPROC (replicate NLAYER 0)).

(** Process 3 of level 3 is missing from the report of [demo_ptable]. *)
Lemma getprocinfo_report_witness :
  exists a', getprocinfo (Some demo_stat) demo_ptable = Ret (0, Some a') /\
    take 3 (st_pid a') = [4; 2; 0].
Proof.
  destruct (getprocinfo_report demo_ptable [] [3]%nat [0; 1]%nat [2]%nat demo_stat demo_qrep)
    as (_ & a' & E & R).
  - unfold NPROC. repeat constructor; simpl; lia.
  - by constructor.
  - exists a'. split; [exact E|]. vm_compute in E. simplify_eq. reflexivity.
Defined.
