(* ===== verification/Sem.v ===== *)
(** * Semaphores

    Models [sem_init], [sem_wait], [sem_post], [sem_destroy] and [wakeup2] of
    [kernel/proc.c].  A thread that waits sleeps on the address of its local
    variable [sem], whose contents are the address of the semaphore;
    [wakeup2] looks through the channels of all sleepers.  The part of
    [sem_wait] between two sleeps runs with the semaphore's lock held and is
    one step; [sstep] is what a system of threads can do to a semaphore. *)

From S2P Require Import Prelude Memory Proc.

Definition NUM_SEMAPHORES : nat := 32.

Record semaphore := Sem { id : Z; value : Z; used : Z }.

(** [sem_list] and [num_sem]. *)
Record semst := Semst { sem_list : list semaphore; num_sem : Z }.
Definition semst_boot : semst := Semst (replicate NUM_SEMAPHORES (Sem 0 0 0)) 0.

(** The semaphores, the process table, and the words channels point to. *)
Record semw := Semw { sst : semst; tbl : ptable; words : gmap Z Z }.
Definition rdw (w : gmap Z Z) (a : Z) : Z := default 0 (w !! a).

(** ** [sem_init] and [sem_destroy] *)

(** The id stored through the pointer, the return value and the new state. *)
Definition sem_init (count : Z) (s : semst) : option Z * Z * semst :=
  if Z.of_nat NUM_SEMAPHORES <=? num_sem s then (None, -1, s)
  else match list_find (fun x => used x = 0) (sem_list s) with
       | Some (i, _) =>
         (Some (Z.of_nat i), 0,
          Semst (<[i := Sem (Z.of_nat i) count 1]> (sem_list s)) (i32 (num_sem s + 1)))
       | None => (None, -1, s)
       end.

Definition sem_destroy (k : Z) (s : semst) : outcome (Z * semst) :=
  x ← aget (sem_list s) k;
  if id x =? k then
    l ← aset (sem_list s) k (Sem (id x) (value x) 0);
    Ret (0, Semst l (num_sem s))
  else Ret (-1, s).

(** ** [sem_wait] and [sem_post] *)

Section Waiting.

(** The address of [sem_list[k]], and of the variable [sem] in the frame of
    thread [i]. *)
Variable sem_addr : Z -> Z.
Variable local : nat -> Z.

(** [wakeup2(chan)] where [chan] points to the word [v]. *)
Definition wakeup2_one (ws : gmap Z Z) (v : Z) (p : proc) : proc :=
  if bool_decide (state p = SLEEPING) && (rdw ws (chan p) =? v) then p_state RUNNABLE p else p.
Definition wakeup2 (ws : gmap Z Z) (v : Z) (t : ptable) : ptable := mapp (wakeup2_one ws v) t.

(** [None]: the thread sleeps; [Some r]: the call returns [r]. *)
Definition wait_result : Type := option Z.

(** From the test of the loop in [sem_wait] to the next sleep or the end. *)
Definition sem_wait_try (k : Z) (w : semw) : outcome (wait_result * semw) :=
  '(i, _) ← curp (tbl w);
  x ← aget (sem_list (sst w)) k;
  if value x <=? 0 then
    t ← sleep (local i) false (tbl w);
    Ret (None, Semw (sst w) t (words w))
  else
    l ← aset (sem_list (sst w)) k (Sem (id x) (i32 (value x - 1)) (used x));
    Ret (Some 0, Semw (Semst l (num_sem (sst w))) (tbl w) (words w)).

Definition sem_wait (k : Z) (w : semw) : outcome (wait_result * semw) :=
  '(i, _) ← curp (tbl w);
  let w := Semw (sst w) (tbl w) (<[local i := sem_addr k]> (words w)) in
  x ← aget (sem_list (sst w)) k;
  if (id x =? k) && (used x =? 1) then sem_wait_try k w
  else Ret (Some (-1), w).

(** A thread that was woken up runs again. *)
Definition sem_wait_resume (k : Z) (w : semw) : outcome (wait_result * semw) :=
  t ← sleep_return (tbl w);
  sem_wait_try k (Semw (sst w) t (words w)).

Definition sem_post (k : Z) (w : semw) : outcome (Z * semw) :=
  x ← aget (sem_list (sst w)) k;
  if (id x =? k) && (used x =? 1) then
    l ← aset (sem_list (sst w)) k (Sem (id x) (i32 (value x + 1)) (used x));
    Ret (0, Semw (Semst l (num_sem (sst w))) (wakeup2 (words w) (sem_addr k) (tbl w)) (words w))
  else Ret (-1, w).

(** ** A system of threads *)

(** Thread [i] is asleep in [sem_wait(k)]. *)
Definition asleep (w : semw) (k : Z) (i : nat) : Prop :=
  exists p, procs (tbl w) !! i = Some p /\ state p = SLEEPING /\ chan p = local i /\
    rdw (words w) (local i) = sem_addr k.

(** [value] of semaphore [k]. *)
Definition val (w : semw) (k : Z) : Z :=
  match aget (sem_list (sst w)) k with Ret x => value x | _ => 0 end.

(** The calling thread is running. *)
Definition running (w : semw) : Prop :=
  exists i p, curp (tbl w) = Ret (i, p) /\ state p = RUNNING.

(** Steps that matter to semaphore [k]: a completed wait ([-1]) or post ([1]),
    waits that sleep or fail and everything else ([0]).  [s_other] is any code
    that does not change this semaphore and puts no thread to sleep in
    [sem_wait(k)]: it may run, wake up or kill threads, and use the other
    semaphores. *)
Inductive sstep (k : Z) : Z -> semw -> semw -> Prop :=
| s_wait w w' : running w -> sem_wait k w = Ret (Some 0, w') -> sstep k (-1) w w'
| s_sleep w w' : running w -> sem_wait k w = Ret (None, w') -> sstep k 0 w w'
| s_resume w w' : sem_wait_resume k w = Ret (Some 0, w') -> sstep k (-1) w w'
| s_resleep w w' : sem_wait_resume k w = Ret (None, w') -> sstep k 0 w w'
| s_post w w' : sem_post k w = Ret (0, w') -> sstep k 1 w w'
| s_other w w' :
    aget (sem_list (sst w')) k = aget (sem_list (sst w)) k ->
    (forall i, asleep w' k i -> asleep w k i) -> sstep k 0 w w'.

(** [sreach k c w posts waits]: from a state in which semaphore [k] has just
    been initialised to [c] and nobody sleeps in it. *)
Inductive sreach (k c : Z) : semw -> Z -> Z -> Prop :=
| sreach_init w :
    aget (sem_list (sst w)) k = Ret (Sem k c 1) -> (forall i, ~ asleep w k i) ->
    sreach k c w 0 0
| sreach_step w w' d posts waits :
    sreach k c w posts waits -> sstep k d w w' ->
    sreach k c w' (posts + Z.max d 0) (waits + Z.max (- d) 0).

End Waiting.

(** ** Correctness of waiting and posting *)

Section WaitingFacts.
Context (sem_addr : Z -> Z) (local : nat -> Z).

Lemma val_aget w k x : aget (sem_list (sst w)) k = Ret x -> val w k = value x.
Proof. unfold val. by intros ->. Qed.

Lemma aget_aset {A} (l l' : list A) k x : aset l k x = Ret l' -> aget l' k = Ret x.
Proof.
  unfold aset. case_decide as H; intros E; simplify_eq. apply aget_Ret. split; [lia|].
  apply list_lookup_insert_eq. lia.
Qed.

Lemma curp_inv t i p : curp t = Ret (i, p) -> cur t = Some i /\ procs t !! i = Some p.
Proof.
  unfold curp, getp. destruct (cur t) as [j|]; [|done]. simpl.
  destruct (procs t !! j) eqn:E; [|done]. intros H. simpl in H. by simplify_eq.
Qed.

(** A try that succeeds takes one from a positive value; one that fails puts
    only the calling thread to sleep, on a value that is not positive. *)
Lemma sem_wait_try_inv k w r w' :
  sem_wait_try local k w = Ret (r, w') ->
  words w' = words w /\
  ((r = Some 0 /\ 0 < val w k /\ val w' k = i32 (val w k - 1) /\ tbl w' = tbl w) \/
   (r = None /\ val w k <= 0 /\ val w' k = val w k)).
Proof.
  intros E. unfold sem_wait_try in E. bind_inv E. destruct a as [i p]. bind_inv E.
  rewrite (val_aget w k a E1). destruct (Z.leb_spec (value a) 0).
  - bind_inv E. simplify_eq. split; [done|]. right. split_and!; auto. by apply val_aget.
  - bind_inv E. simplify_eq. split; [done|]. left. split_and!; auto.
    unfold val. simpl. by rewrite (aget_aset _ _ _ _ E2).
Qed.

Lemma wakeup2_asleep w k i l :
  ~ asleep sem_addr local
      (Semw l (wakeup2 (words w) (sem_addr k) (tbl w)) (words w)) k i.
Proof.
  intros (p & Hp & Hs & Hc & Hw). simpl in *. rewrite list_lookup_fmap in Hp.
  destruct (procs (tbl w) !! i) as [p0|]; simplify_eq/=. unfold wakeup2_one in *.
  destruct (bool_decide (state p0 = SLEEPING) && (rdw (words w) (chan p0) =? sem_addr k)) eqn:E.
  - by destruct p0.
  - rewrite Hc, Hw, Z.eqb_refl, bool_decide_true in E by done. done.
Qed.

(** Fewer threads asleep. *)
Definition fewer (k : Z) (w w' : semw) : Prop :=
  forall i, asleep sem_addr local w' k i -> asleep sem_addr local w k i.

Lemma fewer_same k w w' : tbl w' = tbl w -> words w' = words w -> fewer k w w'.
Proof. unfold fewer, asleep. by intros -> ->. Qed.

(** The write of the local variable does not put anybody to sleep. *)
Lemma fewer_local k w i p v :
  (forall i j, local i = local j -> i = j) ->
  curp (tbl w) = Ret (i, p) -> state p = RUNNING ->
  fewer k w (Semw (sst w) (tbl w) (<[local i := v]> (words w))).
Proof.
  intros Hinj Hc Hr j (q & Hq & Hs & Hch & Hw). apply curp_inv in Hc as [_ Hp]. simpl in *.
  assert (i <> j) by (intros ->; congruence).
  exists q. split_and!; auto. unfold rdw in *. rewrite lookup_insert_ne in Hw; [done|].
  intros E. by apply Hinj in E.
Qed.

Lemma fewer_resume k w t :
  (forall i, local i <> 0) -> sleep_return (tbl w) = Ret t -> fewer k w (Semw (sst w) t (words w)).
Proof.
  intros Hnz E j (q & Hq & Hs & Hch & Hw). unfold sleep_return in E. bind_inv E.
  destruct a as [i p]. simplify_eq. cbn [tbl words] in *. rewrite lookup_updp in Hq. case_decide as Hij.
  - subst j. destruct (procs (tbl w) !! i) as [p0|]; simplify_eq/=. destruct p0; simpl in *.
    by destruct (Hnz i).
  - by exists q.
Qed.

(** What a step does to the value, and to the sleepers when the value it
    leaves is positive. *)
Lemma sstep_effect k d w w' :
  (forall i j, local i = local j -> i = j) -> (forall i, local i <> 0) ->
  sstep sem_addr local k d w w' ->
  (d = 0 /\ val w' k = val w k /\ (0 < val w' k -> fewer k w w')) \/
  (d = -1 /\ 0 < val w k /\ val w' k = i32 (val w k - 1) /\ fewer k w w') \/
  (d = 1 /\ val w' k = i32 (val w k + 1) /\ forall i, ~ asleep sem_addr local w' k i).
Proof.
  intros Hinj Hnz H.
  assert (Wait : forall r, sem_wait sem_addr local k w = Ret (r, w') -> running w -> r <> Some (-1) ->
    exists w1, sem_wait_try local k w1 = Ret (r, w') /\ sst w1 = sst w /\ fewer k w w1).
  { intros r E (i & p & Hc & Hr) Hne. unfold sem_wait in E. rewrite Hc in E. simpl in E. bind_inv E.
    destruct (_ && _); [|by simplify_eq]. eexists; split; [exact E|]. split; [done|].
    by eapply fewer_local. }
  assert (Res : forall r, sem_wait_resume local k w = Ret (r, w') ->
    exists w1, sem_wait_try local k w1 = Ret (r, w') /\ sst w1 = sst w /\ fewer k w w1).
  { intros r E. unfold sem_wait_resume in E. bind_inv E. eexists; split; [exact E|].
    split; [done|]. by apply fewer_resume. }
  assert (Vsame : forall w1, sst w1 = sst w -> val w1 k = val w k) by (intros w1 E; unfold val; by rewrite E).
  assert (Try0 : forall w1, sem_wait_try local k w1 = Ret (Some 0, w') -> sst w1 = sst w -> fewer k w w1 ->
    0 < val w k /\ val w' k = i32 (val w k - 1) /\ fewer k w w').
  { intros w1 E Hs Hf. apply sem_wait_try_inv in E as [Hw [(_ & Hp & Hv & Ht)|(? & _)]]; [|done].
    rewrite (Vsame w1 Hs) in *. split_and!; auto. intros i Hi. apply Hf.
    by apply (fewer_same k w1 w'). }
  assert (TryN : forall w1, sem_wait_try local k w1 = Ret (None, w') -> sst w1 = sst w ->
    val w' k = val w k /\ (0 < val w' k -> fewer k w w')).
  { intros w1 E Hs. apply sem_wait_try_inv in E as [Hw [(? & _)|(_ & Hp & Hv)]]; [done|].
    rewrite (Vsame w1 Hs) in *. split; [done|lia]. }
  destruct H as [w w' Hr E|w w' Hr E|w w' E|w w' E|w w' E|w w' E Hf].
  - destruct (Wait _ E Hr) as (w1 & E1 & Hs & Hf); [done|]. right; left. split; [done|]. eauto.
  - destruct (Wait _ E Hr) as (w1 & E1 & Hs & Hf); [done|]. left. split; [done|]. eauto.
  - destruct (Res _ E) as (w1 & E1 & Hs & Hf). right; left. split; [done|]. eauto.
  - destruct (Res _ E) as (w1 & E1 & Hs & Hf). left. split; [done|]. eauto.
  - right; right. split; [done|]. unfold sem_post in E. bind_inv E.
    destruct (_ && _); [|by simplify_eq]. bind_inv E. simplify_eq. split.
    + unfold val. simpl. rewrite (aget_aset _ _ _ _ E1), E0. done.
    + intros i. apply wakeup2_asleep.
  - left. split_and!; auto. unfold val. by rewrite E.
Qed.
End WaitingFacts.

Lemma sreach_nonneg sem_addr local k c w posts waits :
  sreach sem_addr local k c w posts waits -> 0 <= posts /\ 0 <= waits.
Proof. induction 1; lia. Qed.


(** Thread 0 waits on semaphore 0, which starts at 1, twice; thread 1 posts. *)
Definition demo_threads : ptable :=
  Ptable [p_state RUNNING proc_zero; p_state RUNNING proc_zero] 3 None [] [] (Some 0%nat).
Definition demo_addr (k : Z) : Z := 0x10000 + 64 * k.
Definition demo_local (i : nat) : Z := 0x20000 + 4096 * Z.of_nat i.
Definition demo_w0 : semw :=
  Semw (Semst (Sem 0 1 1 :: replicate 31 (Sem 0 0 0)) 1) demo_threads ∅.
Definition run1 (w : outcome (wait_result * semw)) : semw :=
  match w with Ret (_, w) => w | _ => demo_w0 end.
Definition demo_w1 : semw := run1 (sem_wait demo_addr demo_local 0 demo_w0).
Definition demo_w2 : semw := run1 (sem_wait demo_addr demo_local 0 demo_w1).


(** ** The supply of semaphores *)

(** States after [n] successful calls of [sem_init]; [i_value] is what waits
    and posts do. *)
Inductive ireach : Z -> semst -> Prop :=
| i_boot : ireach 0 semst_boot
| i_init n s count i s' :
    ireach n s -> sem_init count s = (Some i, 0, s') -> ireach (n + 1) s'
| i_destroy n s k r s' : ireach n s -> sem_destroy k s = Ret (r, s') -> ireach n s'
| i_value n s l :
    ireach n s -> Forall2 (fun x y => id x = id y /\ used x = used y) (sem_list s) l ->
    ireach n (Semst l (num_sem s)).

Definition in_use (l : list semaphore) : nat := length (filter (fun x => used x <> 0) l).

Lemma in_use_insert l i x y :
  l !! i = Some y ->
  (in_use (<[i := x]> l) <= in_use l + (if decide (used x = 0%Z) then 0 else 1))%nat.
Proof.
  unfold in_use. revert i. induction l as [|z l IH]; intros [|i] Hi; simplify_eq/=.
  - rewrite !filter_cons. repeat case_decide; simpl; lia.
  - specialize (IH i Hi). rewrite !filter_cons. repeat case_decide; simpl; lia.
Qed.

Lemma in_use_ext l l' :
  Forall2 (fun x y => id x = id y /\ used x = used y) l l' -> in_use l' = in_use l.
Proof.
  unfold in_use. induction 1 as [|x y l l' [_ E] _ IH]; [done|].
  rewrite !filter_cons, E. case_decide; simpl; lia.
Qed.

Lemma in_use_full l : Forall (fun x => used x <> 0) l -> in_use l = length l.
Proof.
  unfold in_use. induction 1 as [|x l Hx _ IH]; [done|].
  rewrite filter_cons, decide_True by done. simpl. lia.
Qed.

Lemma ireach_inv n s :
  ireach n s ->
  num_sem s = n /\ length (sem_list s) = NUM_SEMAPHORES /\
  Z.of_nat (in_use (sem_list s)) <= n <= Z.of_nat NUM_SEMAPHORES.
Proof.
  induction 1 as [|n s count i s' _ (IH1 & IH2 & IH3) E|n s k r s' _ (IH1 & IH2 & IH3) E
                 |n s l _ (IH1 & IH2 & IH3) Hl].
  - vm_compute. repeat split; congruence.
  - unfold sem_init in E. destruct (Z.leb_spec (Z.of_nat NUM_SEMAPHORES) (num_sem s)); [done|].
    destruct (list_find _ _) as [[j y]|] eqn:F; [|done]. simplify_eq. simpl.
    apply list_find_Some in F as (Hj & _). rewrite length_insert, i32_small
      by (unfold is_i32, NUM_SEMAPHORES in *; lia).
    pose proof (in_use_insert (sem_list s) j (Sem (Z.of_nat j) count 1) y Hj) as Hc.
    rewrite decide_False in Hc by done. split_and!; auto; lia.
  - unfold sem_destroy in E. bind_inv E. destruct (_ =? k); [|by simplify_eq]. bind_inv E. simplify_eq.
    unfold aset in E1. case_decide; simplify_eq. simpl. rewrite length_insert.
    apply aget_Ret in E0 as [_ E0].
    pose proof (in_use_insert _ _ (Sem (id a) (value a) 0) a E0) as Hc.
    rewrite decide_True in Hc by done. split_and!; auto; lia.
  - simpl. rewrite (in_use_ext _ _ Hl). split_and!; auto; try lia. by rewrite <- (Forall2_length _ _ _ Hl).
Qed.

(** Destroyed semaphores do not come back: after [n] successful calls of
    [sem_init] since boot, [num_sem] is [n], and the next call succeeds
    exactly when [n] is less than 32, however many semaphores were destroyed
    in between.  A call that succeeds returns the lowest unused id and sets
    up that semaphore only. *)
Theorem sem_init_supply n s count :
  ireach n s ->
  num_sem s = n /\
  if decide (n < Z.of_nat NUM_SEMAPHORES) then
    exists i y s', sem_init count s = (Some (Z.of_nat i), 0, s') /\
      sem_list s !! i = Some y /\ used y = 0 /\
      (forall j x, (j < i)%nat -> sem_list s !! j = Some x -> used x <> 0) /\
      sem_list s' = <[i := Sem (Z.of_nat i) count 1]> (sem_list s)
  else sem_init count s = (None, -1, s).
Proof.
  intros H. destruct (ireach_inv n s H) as (<- & Hlen & Hn). split; [done|].
  unfold sem_init. case_decide as Hlt.
  - rewrite (proj2 (Z.leb_gt _ _)) by lia.
    destruct (list_find (fun x => used x = 0) (sem_list s)) as [[i y]|] eqn:F.
    + apply list_find_Some in F as (Hi & Hy & Hb).
      eexists i, y, _. split_and!; [reflexivity|done|done| |reflexivity].
      intros j x Hj Hx. by apply (Hb j).
    + apply list_find_None in F. apply in_use_full in F. rewrite Hlen in F. lia.
  - by rewrite (proj2 (Z.leb_le _ _)) by lia.
Qed.

(** One semaphore is created and destroyed again. *)
Definition demo_destroyed : semst :=
  match sem_destroy 0 (sem_init 5 semst_boot).2 with Ret (_, s) => s | _ => semst_boot end.

Lemma sem_init_supply_witness :
  ireach 1 demo_destroyed /\ num_sem demo_destroyed = 1 /\ in_use (sem_list demo_destroyed) = 0%nat.
Proof.
  assert (H : ireach 1 demo_destroyed).
  { apply (i_destroy 1 (sem_init 5 semst_boot).2 0 0); [|reflexivity].
    apply (i_init 0 semst_boot 5 0); [apply i_boot|reflexivity]. }
  split; [exact H|]. split; [apply (sem_init_supply 1 demo_destroyed 0 H)|reflexivity].
Defined.
