(* ===== verification/Pipe.v ===== *)
(** * Pipes

    Models the ring buffer of [kernel/pipe.c]: [pipewrite], [piperead] and
    [pipeclose].  The part of a call between two sleeps runs with the pipe's
    lock held and is one step; a call that sleeps is resumed with the bytes or
    the space it has left.  [contents] is the queue a pipe stands for. *)

From S2P Require Import Prelude.

Definition PIPESIZE : Z := 512.

Record pipe := Pipe {
  data : list Z;
  nread : Z;
  nwrite : Z;
  readopen : bool;
  writeopen : bool
}.

(** The part of [pipealloc] that sets up the new page, whose bytes are [d]. *)
Definition pipe_init (d : list Z) : pipe := Pipe d 0 0 true true.

(** Who is woken up when a step ends: sleepers on [&p->nread], on
    [&p->nwrite]. *)
Inductive wake := WakeReaders | WakeWriters | WakeNone.

(** [Sleeps rest]: the call sleeps and has [rest] left. *)
Inductive result (A : Type) := Returns (r : Z) | Sleeps (rest : A).
Arguments Returns {A} r.
Arguments Sleeps {A} rest.

Definition full (p : pipe) : bool := nwrite p =? u32 (nread p + PIPESIZE).
Definition empty (p : pipe) : bool := nread p =? nwrite p.

Definition put (b : Z) (p : pipe) : outcome pipe :=
  d ← aset (data p) (nwrite p mod PIPESIZE) b;
  Ret (Pipe d (nread p) (u32 (nwrite p + 1)) (readopen p) (writeopen p)).

Definition get (p : pipe) : outcome (Z * pipe) :=
  b ← aget (data p) (nread p mod PIPESIZE);
  Ret (b, Pipe (data p) (u32 (nread p + 1)) (nwrite p) (readopen p) (writeopen p)).

(** [pipewrite] of a buffer of [n] bytes of which [bytes] are left, up to its
    next sleep or its return. *)
Fixpoint pipewrite (killed : bool) (n : Z) (bytes : list Z) (p : pipe)
  : outcome (result (list Z) * wake * pipe) :=
  match bytes with
  | [] => Ret (Returns n, WakeReaders, p)
  | b :: rest =>
    if full p then
      if negb (readopen p) || killed then Ret (Returns (-1), WakeNone, p)
      else Ret (Sleeps bytes, WakeReaders, p)
    else p ← put b p; pipewrite killed n rest p
  end.

(** The copy loop of [piperead]: at most [n] bytes. *)
Fixpoint pipe_take (n : nat) (p : pipe) : outcome (list Z * pipe) :=
  match n with
  | O => Ret ([], p)
  | S n =>
    if empty p then Ret ([], p)
    else
      '(b, p) ← get p;
      '(bs, p) ← pipe_take n p;
      Ret (b :: bs, p)
  end.

(** [piperead] of at most [n] bytes up to its next sleep or its return, and
    the bytes it stores. *)
Definition piperead (killed : bool) (n : Z) (p : pipe)
  : outcome (result unit * wake * list Z * pipe) :=
  if empty p && writeopen p then
    if killed then Ret (Returns (-1), WakeNone, [], p)
    else Ret (Sleeps tt, WakeNone, [], p)
  else
    '(bs, p) ← pipe_take (Z.to_nat n) p;
    Ret (Returns (Z.of_nat (length bs)), WakeWriters, bs, p).

(** [pipeclose]; [true] when the page of the pipe is freed. *)
Definition pipeclose (writable : bool) (p : pipe) : wake * bool * pipe :=
  let '(w, p) :=
    if writable then (WakeReaders, Pipe (data p) (nread p) (nwrite p) (readopen p) false)
    else (WakeWriters, Pipe (data p) (nread p) (nwrite p) false (writeopen p)) in
  (w, negb (readopen p) && negb (writeopen p), p).

(** ** The queue *)

Definition count (p : pipe) : nat := Z.to_nat (u32 (nwrite p - nread p)).

(** The byte [j] places after the next one to be read. *)
Definition nth_byte (p : pipe) (j : nat) : Z :=
  nth (Z.to_nat ((nread p + Z.of_nat j) mod PIPESIZE)) (data p) 0.
Definition contents (p : pipe) : list Z := nth_byte p <$> seq 0 (count p).

Record wfpipe (p : pipe) : Prop := {
  wp_data : length (data p) = Z.to_nat PIPESIZE;
  wp_read : is_u32 (nread p);
  wp_write : is_u32 (nwrite p);
  wp_count : (count p <= Z.to_nat PIPESIZE)%nat
}.

Lemma contents_length p : length (contents p) = count p.
Proof. unfold contents. by rewrite length_fmap, length_seq. Qed.

Lemma full_count p : wfpipe p -> full p = bool_decide (count p = Z.to_nat PIPESIZE).
Proof.
  intros [_ Hr Hw Hc]. unfold full, count, u32, is_u32, PIPESIZE in *.
  case_bool_decide; [apply Z.eqb_eq|apply Z.eqb_neq]; dm.
Qed.

Lemma empty_count p : wfpipe p -> empty p = bool_decide (count p = 0%nat).
Proof.
  intros [_ Hr Hw Hc]. unfold empty, count, u32, is_u32, PIPESIZE in *.
  case_bool_decide; [apply Z.eqb_eq|apply Z.eqb_neq]; dm.
Qed.

(** The counters wrap at 2^32, which the ring's size divides. *)
Lemma write_index p :
  wfpipe p -> nwrite p mod PIPESIZE = (nread p + Z.of_nat (count p)) mod PIPESIZE.
Proof. intros [_ Hr Hw _]. unfold count, u32, is_u32, PIPESIZE in *. dm. Qed.

Definition same_ends (p p' : pipe) : Prop :=
  readopen p' = readopen p /\ writeopen p' = writeopen p.

Lemma put_spec p b :
  wfpipe p -> full p = false ->
  exists p', put b p = Ret p' /\ wfpipe p' /\ contents p' = contents p ++ [b] /\
    same_ends p p' /\ nread p' = nread p.
Proof.
  intros Hp Hf. rewrite full_count in Hf by done. apply bool_decide_eq_false in Hf.
  pose proof (write_index p Hp) as Hi. pose proof Hp as [Hd Hr Hw Hc].
  assert (Hlt : (count p < Z.to_nat PIPESIZE)%nat) by lia.
  pose proof (Z.mod_pos_bound (nwrite p) PIPESIZE ltac:(done)) as Hb.
  unfold put. rewrite aset_Ret by (rewrite Hd; unfold PIPESIZE in *; lia). simpl.
  set (p' := Pipe _ _ _ _ _).
  assert (Hcount : count p' = S (count p)).
  { unfold p', count, u32, is_u32, PIPESIZE in *. simpl. dm. }
  exists p'. split; [done|]. split_and!; [| |done|done].
  - constructor; [by unfold p'; simpl; rewrite length_insert|done|apply u32_range|lia].
  - unfold contents. rewrite Hcount, seq_S, fmap_app. simpl. f_equal.
    + apply list_fmap_ext. intros i j Hj. apply lookup_seq in Hj as [-> Hj].
      unfold nth_byte, p'. simpl. rewrite !nth_lookup, list_lookup_insert_ne; [done|].
      rewrite Hi. unfold PIPESIZE in *. dm.
    + f_equal. unfold nth_byte, p'. simpl. rewrite <- Hi, nth_lookup, list_lookup_insert_eq; [done|].
      rewrite Hd. unfold PIPESIZE in *. lia.
Qed.

Lemma get_spec p :
  wfpipe p -> empty p = false ->
  exists b p', get p = Ret (b, p') /\ wfpipe p' /\ contents p = b :: contents p' /\ same_ends p p'.
Proof.
  intros Hp He. rewrite empty_count in He by done. apply bool_decide_eq_false in He.
  pose proof Hp as [Hd Hr Hw Hc].
  pose proof (Z.mod_pos_bound (nread p) PIPESIZE ltac:(done)) as Hb.
  destruct (lookup_lt_is_Some_2 (data p) (Z.to_nat (nread p mod PIPESIZE))) as [b Hlook].
  { rewrite Hd. unfold PIPESIZE in *. lia. }
  unfold get. rewrite (proj2 (aget_Ret (data p) (nread p mod PIPESIZE) b)) by (split; [lia|done]). simpl.
  set (p' := Pipe _ _ _ _ _).
  assert (Hcount : count p = S (count p')).
  { unfold p', count, u32, is_u32, PIPESIZE in *. simpl. dm. }
  exists b, p'. split; [done|]. split_and!; [| |done].
  - constructor; [done|apply u32_range|done|lia].
  - unfold contents. rewrite Hcount. simpl. f_equal.
    + unfold nth_byte. rewrite Z.add_0_r, nth_lookup, Hlook. done.
    + rewrite <- fmap_S_seq, <- list_fmap_compose. apply list_fmap_ext. intros i j Hj.
      unfold nth_byte, p', compose. simpl. do 2 f_equal. unfold u32, PIPESIZE. dm.
Qed.

Lemma pipewrite_spec killed n bytes : forall p,
  wfpipe p ->
  exists r w p' sent rest,
    pipewrite killed n bytes p = Ret (r, w, p') /\ wfpipe p' /\ same_ends p p' /\
    nread p' = nread p /\ bytes = sent ++ rest /\ contents p' = contents p ++ sent /\
    ((r = Returns n /\ w = WakeReaders /\ rest = []) \/
     (full p' = true /\ rest <> [] /\
      if negb (readopen p) || killed then r = Returns (-1) /\ w = WakeNone
      else r = Sleeps rest /\ w = WakeReaders)).
Proof.
  induction bytes as [|b bytes IH]; intros p Hp; cbn [pipewrite].
  { eexists _, _, p, [], []. split_and!; eauto; [done|by rewrite app_nil_r]. }
  destruct (full p) eqn:Hf.
  - destruct (negb (readopen p) || killed) eqn:Hk.
    all: eexists _, _, p, [], (b :: bytes); split_and!; [reflexivity|done..| |].
    1,3: by rewrite app_nil_r.
    all: right; split_and!; auto.
  - destruct (put_spec p b Hp Hf) as (p1 & -> & Hp1 & Hc & Hs & Hn). simpl.
    destruct (IH p1 Hp1) as (r & w & p' & sent & rest & -> & Hp' & [Hs1 Hs2] & Hn' & -> & Hc' & Hr).
    destruct Hs as [H1 H2].
    eexists r, w, p', (b :: sent), rest. split_and!; auto.
    + unfold same_ends. split; congruence.
    + congruence.
    + rewrite Hc', Hc, <- app_assoc. done.
    + by rewrite H1 in Hr.
Qed.

Lemma pipe_take_spec n : forall p,
  wfpipe p ->
  exists bs p', pipe_take n p = Ret (bs, p') /\ wfpipe p' /\ same_ends p p' /\
    contents p = bs ++ contents p' /\ length bs = Nat.min n (count p).
Proof.
  induction n as [|n IH]; intros p Hp; cbn [pipe_take].
  { eexists [], p. split_and!; auto. done. }
  pose proof (empty_count p Hp) as Hc. destruct (empty p) eqn:He.
  - eexists [], p. split_and!; auto; [done|]. symmetry in Hc. apply bool_decide_eq_true in Hc.
    rewrite Hc. simpl. lia.
  - destruct (get_spec p Hp He) as (b & p1 & -> & Hp1 & Hb & [H1 H2]). simpl.
    destruct (IH p1 Hp1) as (bs & p' & -> & Hp' & [H3 H4] & Hbs & Hl). simpl.
    eexists (b :: bs), p'. split_and!; auto.
    + unfold same_ends. split; congruence.
    + rewrite Hb, Hbs. done.
    + assert (Hn : count p = S (count p1)) by (by rewrite <- !contents_length, Hb).
      rewrite Hn. simpl. lia.
Qed.

(** ** Runs of readers and writers *)

(** [preach p ws rs]: a pipe after any sequence of steps of writers and
    readers, in which the bytes [ws] were put in and [rs] were taken out.  A
    step of a writer puts in as many bytes of its buffer as [nwrite] advances. *)
Inductive preach : pipe -> list Z -> list Z -> Prop :=
| pr_init d : length d = Z.to_nat PIPESIZE -> preach (pipe_init d) [] []
| pr_write p ws rs killed n bytes r w p' :
    preach p ws rs -> pipewrite killed n bytes p = Ret (r, w, p') ->
    preach p' (ws ++ take (Z.to_nat (u32 (nwrite p' - nwrite p))) bytes) rs
| pr_read p ws rs killed n r w bs p' :
    preach p ws rs -> piperead killed n p = Ret (r, w, bs, p') -> preach p' ws (rs ++ bs)
| pr_close p ws rs writable w freed p' :
    preach p ws rs -> pipeclose writable p = (w, freed, p') -> preach p' ws rs.

Lemma pipewrite_advance killed n bytes p r w p' sent rest :
  wfpipe p -> wfpipe p' -> nread p' = nread p -> bytes = sent ++ rest ->
  contents p' = contents p ++ sent -> pipewrite killed n bytes p = Ret (r, w, p') ->
  take (Z.to_nat (u32 (nwrite p' - nwrite p))) bytes = sent.
Proof.
  intros [_ R1 W1 C1] [_ R2 W2 C2] Hr -> Hc _.
  assert (Hn : count p' = (count p + length sent)%nat)
    by (by rewrite <- !contents_length, Hc, length_app).
  apply take_app_length'. unfold count, u32, is_u32, PIPESIZE in *. rewrite Hr in *. dm.
Qed.

Lemma preach_fifo p ws rs : preach p ws rs -> wfpipe p /\ ws = rs ++ contents p.
Proof.
  induction 1 as [d Hd|p ws rs killed n bytes r w p' _ [Hp IH] E|
    p ws rs killed n r w bs p' _ [Hp IH] E|p ws rs writable w freed p' _ [Hp IH] E].
  - split; [|done]. constructor; simpl; [done|done|done|]. vm_compute. lia.
  - destruct (pipewrite_spec killed n bytes p Hp)
      as (r' & w' & q & sent & rest & E' & Hq & _ & Hn & Hb & Hc & _).
    rewrite E in E'. simplify_eq. split; [done|].
    erewrite pipewrite_advance by eauto. by rewrite Hc, app_assoc.
  - unfold piperead in E. destruct (empty p && writeopen p).
    + destruct killed; simplify_eq; by rewrite app_nil_r.
    + destruct (pipe_take_spec (Z.to_nat n) p Hp) as (bs' & q & E' & Hq & _ & Hc & _).
      rewrite E' in E. simpl in E. simplify_eq. split; [done|]. by rewrite <- app_assoc, <- Hc.
  - unfold pipeclose in E. destruct writable; simplify_eq; (split; [by destruct Hp|done]).
Qed.

(** C16. A pipe is a queue of at most 512 bytes: after any sequence of steps of
    writers and readers, with the counters wrapping around at 2^32, the bytes
    read so far followed by the bytes in the ring are exactly the bytes
    written so far; a writer sleeps only on a full ring with a reader, a
    reader sleeps only on an empty ring with a writer, and a read that returns
    bytes returns as many as it can. *)
Theorem pipe_fifo p ws rs :
  preach p ws rs ->
  ws = rs ++ contents p /\ (length (contents p) <= 512)%nat /\
  (forall killed n bytes, exists r w p', pipewrite killed n bytes p = Ret (r, w, p') /\
     forall rest, r = Sleeps rest ->
       length (contents p') = 512%nat /\ readopen p' = true /\ w = WakeReaders) /\
  (forall killed n, exists r w bs p', piperead killed n p = Ret (r, w, bs, p') /\
     (r = Sleeps tt -> contents p = [] /\ writeopen p = true) /\
     (contents p <> [] -> bs = take (Z.to_nat n) (contents p) /\ w = WakeWriters)).
Proof.
  intros H. destruct (preach_fifo p ws rs H) as [Hp ->]. split_and!; [done| | |].
  - rewrite contents_length. apply Hp.
  - intros killed n bytes. destruct (pipewrite_spec killed n bytes p Hp)
      as (r & w & q & sent & rest & E & Hq & [Hs _] & _ & _ & _ & Hr).
    exists r, w, q. split; [done|]. intros rest' ->.
    destruct Hr as [(? & _)|(Hf & _ & Hr)]; [done|].
    rewrite full_count in Hf by done. apply bool_decide_eq_true in Hf.
    rewrite contents_length, Hf, Hs. destruct (readopen p), killed; by destruct Hr.
  - intros killed n. pose proof (empty_count p Hp) as He. unfold piperead.
    assert (Hnil : contents p = [] <-> count p = 0%nat) by (by rewrite <- contents_length, length_zero_iff_nil).
    destruct (empty p && writeopen p) eqn:Ee.
    + apply andb_prop in Ee as [E1 E2]. rewrite E1 in He. symmetry in He.
      apply bool_decide_eq_true, Hnil in He.
      destruct killed; eexists _, _, _, _; (split; [reflexivity|]); done.
    + destruct (pipe_take_spec (Z.to_nat n) p Hp) as (bs & q & E' & _ & _ & Hc & Hl).
      rewrite E'. simpl. eexists _, _, bs, q. split; [reflexivity|]. split; [done|].
      intros _. split; [|done]. pose proof (f_equal length Hc) as Hlen. rewrite length_app in Hlen.
      rewrite <- contents_length in Hl. rewrite Hc at 1. symmetry.
      destruct (decide (Z.to_nat n <= length (contents p))%nat).
      * apply take_app_length'. lia.
      * assert (Hq : length (contents q) = 0%nat) by lia.
        apply length_zero_iff_nil in Hq. rewrite Hq, app_nil_r. apply take_ge. lia.
Qed.

Lemma pipe_fifo_witness :
  exists p, preach p [1; 2; 3] [1] /\ [1; 2; 3] = [1] ++ contents p /\ contents p = [2; 3].
Proof.
  set (d := replicate 512 0).
  destruct (pipewrite false 3 [1; 2; 3] (pipe_init d)) as [[[r w] p1]| |] eqn:E1;
    [|vm_compute in E1; discriminate..].
  assert (H1 : preach p1 [1; 2; 3] []).
  { replace [1; 2; 3] with ([] ++ take (Z.to_nat (u32 (nwrite p1 - nwrite (pipe_init d)))) [1; 2; 3]).
    - eapply pr_write; [apply pr_init; reflexivity|exact E1].
    - vm_compute in E1. simplify_eq. reflexivity. }
  destruct (piperead false 1 p1) as [[[[r' w'] bs] p2]| |] eqn:E2;
    [|exfalso; vm_compute in E1; simplify_eq; vm_compute in E2; discriminate..].
  assert (H2 : preach p2 [1; 2; 3] [1]).
  { replace [1] with ([] ++ bs); [by eapply pr_read|].
    vm_compute in E1. simplify_eq. vm_compute in E2. simplify_eq. reflexivity. }
  exists p2. split; [exact H2|]. split; [apply (pipe_fifo p2 _ _ H2)|].
  vm_compute in E1. simplify_eq. vm_compute in E2. simplify_eq. vm_compute. reflexivity.
Defined.
