(* ===== verification/Xfsck.v ===== *)
(** * The file system checker (tools/xfsck.c)

    [main] of xfsck maps an image of a file system and walks it with nested
    loops, one group of loops per check; the first check that fails prints a
    message and exits with status 1.  The definitions follow the loops of the
    program, with their bounds, their [break]s and the reads they perform, in
    a monad with three results: the code goes on, exits with a message, or
    reads outside the mapping or writes outside an array.

    The theorem [xfsck_decides] relates the loops to a declarative
    description of the file system ([consistent]): the checker accepts only
    images that satisfy it and exits with an error only on images that do
    not. *)

From S2P Require Import Prelude.

(** ** The monad *)

Inductive ex (A : Type) : Type :=
| Done (a : A)
| Exit1 (msg : string)
| Fault.
Arguments Done {A} a.
Arguments Exit1 {A} msg.
Arguments Fault {A}.

#[export] Instance ex_ret : MRet ex := fun A a => Done a.
#[export] Instance ex_bind : MBind ex := fun A B f c =>
  match c with Done a => f a | Exit1 msg => Exit1 msg | Fault => Fault end.

(** A [for] loop over [l] that threads a state. *)
Fixpoint foldX {A S : Type} (f : A -> S -> ex S) (l : list A) (s : S) : ex S :=
  match l with
  | [] => Done s
  | x :: l => s ← f x s; foldX f l s
  end.

(** A [for] loop without a state. *)
Fixpoint forX {A : Type} (f : A -> ex unit) (l : list A) : ex unit :=
  match l with
  | [] => Done tt
  | x :: l => f x ;; forX f l
  end.

(** A [for] loop that sets a flag and breaks at the first hit; the flag may be
    set before it, in which case the loop breaks after its first iteration. *)
Fixpoint anyX {A : Type} (f : A -> ex bool) (l : list A) (flag : bool) : ex bool :=
  match l with
  | [] => Done flag
  | x :: l => b ← f x; if flag || b then Done true else anyX f l false
  end.

Definition fail_if (b : bool) (msg : string) : ex unit :=
  if b then Exit1 msg else Done tt.

(** [upto a b] are the values of [i] in [for (i = a; i < b; i++)]. *)
Definition upto (a b : Z) : list Z := seqZ a (b - a).
Arguments upto : simpl never.

(** ** The image *)

Definition BSIZE : Z := 512.
Definition NDIRECT : Z := 12.
Definition NINDIRECT : Z := 128.
Definition IPB : Z := 8.
Definition BPB : Z := 4096.

(** A file of [isize] bytes, mapped: the last page of the mapping is filled up
    with zeros, an access after it is a fault. *)
Record image := Image { isize : Z; byte : Z -> Z }.

Definition rd8 (img : image) (a : Z) : ex Z :=
  if decide (0 <= a < isize img) then Done (u8 (byte img a))
  else if decide (0 <= a < 4096 * ((isize img + 4095) / 4096)) then Done 0
  else Fault.

Definition rd16 (img : image) (a : Z) : ex Z :=
  b0 ← rd8 img a; b1 ← rd8 img (a + 1); Done (b0 + 2 ^ 8 * b1).

Definition rd32 (img : image) (a : Z) : ex Z :=
  w0 ← rd16 img a; w1 ← rd16 img (a + 2); Done (w0 + 2 ^ 16 * w1).

(** [struct superblock] at block 1. *)
Definition sb_size (img : image) : ex Z := rd32 img BSIZE.
Definition sb_nblocks (img : image) : ex Z := rd32 img (BSIZE + 4).
Definition sb_ninodes (img : image) : ex Z := rd32 img (BSIZE + 8).

(** [struct dinode] number [i] of the table at block 2. *)
Definition dip (i : Z) : Z := 2 * BSIZE + 64 * i.
Definition dip_type (img : image) (i : Z) : ex Z := w ← rd16 img (dip i); Done (i16 w).
Definition dip_nlink (img : image) (i : Z) : ex Z := w ← rd16 img (dip i + 6); Done (i16 w).
Definition dip_size (img : image) (i : Z) : ex Z := rd32 img (dip i + 8).
Definition dip_addrs (img : image) (i j : Z) : ex Z := rd32 img (dip i + 12 + 4 * j).

(** [BSIZE * b] in 32 bits: where block [b] is mapped. *)
Definition blk (b : Z) : Z := u32 (BSIZE * b).
(** Word [j] of the indirect block [b]. *)
Definition indirect (img : image) (b j : Z) : ex Z := rd32 img (blk b + 4 * j).
(** [struct dirent] number [h] of block [b]. *)
Definition inum (img : image) (b h : Z) : ex Z := rd16 img (blk b + 16 * h).

(** [strcmp] of the string at [a] with a literal, for equality. *)
Fixpoint streq (img : image) (a : Z) (lit : list Z) : ex bool :=
  match lit with
  | [] => c ← rd8 img a; Done (c =? 0)
  | x :: lit => c ← rd8 img a; if c =? x then streq img (a + 1) lit else Done false
  end.
Definition dot : Z := 46.
Definition name_is (img : image) (b h : Z) (lit : list Z) : ex bool :=
  streq img (blk b + 16 * h + 2) lit.

(** ** Layout *)

(** [(int) (n / d + 0.99)] in double precision, for [d] a power of two up to
    4096 and a 32-bit [n]: the quotient is exact, the sum stays more than its
    rounding error away from an integer, so the result is the floor of the
    exact sum. *)
Definition roundUp (n d : Z) : Z := (100 * n + 99 * d) / (100 * d).

Record layout := Layout {
  size : Z; nblocks : Z; ninodes : Z;
  nb_inodes : Z; nb_bitmap : Z; nb_total : Z;
  ib_data : Z; ib_end : Z; num_inodes : Z; bitmap : Z
}.

Definition layout_of (img : image) : ex layout :=
  size ← sb_size img; nblocks ← sb_nblocks img; ninodes ← sb_ninodes img;
  let nb_inodes := roundUp ninodes IPB in
  let nb_bitmap := roundUp nblocks BPB in
  let ib_bitmap := i32 (2 + nb_inodes + 1) in
  let ib_data := i32 (ib_bitmap + nb_bitmap) in
  Done (Layout size nblocks ninodes nb_inodes nb_bitmap
         (u32 (nblocks + nb_inodes + nb_bitmap + 3))
         ib_data (i32 (ib_data + nblocks - 1)) (i32 (nb_inodes * IPB))
         ((ninodes / IPB + 3) * BSIZE)).

(** ** The checks *)

(** 1. Superblock. *)
Definition check1 (L : layout) : ex unit :=
  fail_if (size L <? nb_total L) "ERROR: superblock is corrupted.".

(** 2. Inode types. *)
Definition check2 (img : image) (L : layout) : ex unit :=
  forX (fun i =>
    t ← dip_type img i;
    fail_if (negb (t =? 0) && negb (t =? 1) && negb (t =? 2) && negb (t =? 3))
      "ERROR: bad inode.") (upto 0 (num_inodes L)).

(** 3. Addresses. *)
Definition bad_addr (L : layout) (a : Z) : bool :=
  negb (a =? 0) && ((a <? u32 (ib_data L)) || (u32 (ib_end L) <? a)).

Definition check3 (img : image) (L : layout) : ex unit :=
  forX (fun i =>
    t ← dip_type img i;
    if t =? 0 then Done tt
    else
      forX (fun j =>
        a ← dip_addrs img i j;
        fail_if (bad_addr L a) "ERROR: bad direct address in inode.")
        (upto 0 NDIRECT) ;;
      ind ← dip_addrs img i NDIRECT;
      if ind =? 0 then Done tt
      else
        fail_if (bad_addr L ind) "ERROR: bad indirect address in inode." ;;
        forX (fun j =>
          a ← indirect img ind j;
          fail_if (bad_addr L a) "ERROR: bad indirect address in inode.")
          (upto 0 NINDIRECT))
    (upto 0 (num_inodes L)).

(** 4. Directory format: one entry of the first block, with the two flags. *)
Definition check4_entry (img : image) (i b j : Z) (s : bool * bool) : ex (bool * bool) :=
  self ← name_is img b j [dot];
  if (self : bool) then
    n ← inum img b j;
    fail_if (negb (n =? i)) "ERROR: directory not properly formatted." ;;
    Done (true, s.2)
  else
    parent ← name_is img b j [dot; dot];
    Done (if (parent : bool) then (s.1, true) else s).

Definition check4 (img : image) (L : layout) : ex unit :=
  forX (fun i =>
    t ← dip_type img i;
    if t =? 1 then
      b ← dip_addrs img i 0;
      s ← foldX (check4_entry img i b) (upto 0 32) (false, false);
      fail_if (negb s.1 || negb s.2) "ERROR: directory not properly formatted."
    else Done tt) (upto 0 (num_inodes L)).

(** The bit of block [a] in the bitmap. *)
Definition bit (img : image) (L : layout) (a : Z) : ex Z :=
  c ← rd8 img (bitmap L + a / 8);
  Done (Z.shiftr (Z.land c (Z.shiftl 1 (a mod 8))) (a mod 8)).

(** 5. Blocks in use are marked.  The indirect block is read even when the
    inode has none: then it is block 0. *)
Definition check5 (img : image) (L : layout) : ex unit :=
  forX (fun i =>
    t ← dip_type img i;
    if t =? 0 then Done tt
    else
      forX (fun j =>
        a ← dip_addrs img i j;
        if a =? 0 then Done tt
        else
          v ← bit img L a;
          fail_if (v =? 0) "ERROR: address used by inode but marked free in bitmap.")
        (upto 0 (NDIRECT + 1)) ;;
      ind ← dip_addrs img i NDIRECT;
      forX (fun j =>
        a ← indirect img ind j;
        v ← bit img L a;
        fail_if (v =? 0) "ERROR: address used by inode but marked free in bitmap.")
        (upto 0 NINDIRECT))
    (upto 0 (num_inodes L)).

(** 6. Marked blocks are in use: does inode [j] name block [i]? *)
Definition check6_inode (img : image) (i j : Z) : ex bool :=
  used ← anyX (fun k => a ← dip_addrs img j k; Done (a =? i)) (upto 0 (NDIRECT + 1)) false;
  ind ← dip_addrs img j NDIRECT;
  used' ← anyX (fun k => a ← indirect img ind k; Done (a =? i)) (upto 0 NINDIRECT) false;
  Done (used || used').

(** [i] is an [int]: the increment of [2^31 - 1] is undefined. *)
Definition int_index (i : Z) : ex unit := if i <? 2 ^ 31 then Done tt else Fault.

Definition check6 (img : image) (L : layout) : ex unit :=
  forX (fun i =>
    int_index i ;;
    v ← bit img L i;
    if v =? 1 then
      used ← anyX (check6_inode img i) (upto 0 (num_inodes L)) false;
      fail_if (negb used) "ERROR: bitmap marks block in use but it is not in use."
    else Done tt) (upto 29 (nblocks L)).

(** 7. Direct addresses are used once; the inner loop ends at [nb_inodes]. *)
Definition check7 (img : image) (L : layout) : ex unit :=
  forX (fun i =>
    t ← dip_type img i;
    if t =? 0 then Done tt
    else
      forX (fun j =>
        a ← dip_addrs img i j;
        if a =? 0 then Done tt
        else
          forX (fun k =>
            forX (fun h =>
              if negb (k =? i) || negb (h =? j) then
                a' ← dip_addrs img k h;
                fail_if (a =? a') "ERROR: direct address used more than once."
              else Done tt) (upto 0 NDIRECT)) (upto i (nb_inodes L)))
        (upto 0 NDIRECT))
    (upto 0 (num_inodes L)).

(** 8. File sizes: the blocks inode [i] uses, without its indirect block. *)
Definition num_db (img : image) (i : Z) : ex Z :=
  n ← foldX (fun j n => a ← dip_addrs img i j; Done (if a =? 0 then n else n + 1))
        (upto 0 NDIRECT) 0;
  ind ← dip_addrs img i NDIRECT;
  if ind =? 0 then Done n
  else
    foldX (fun j n => a ← indirect img ind j; Done (if a =? 0 then n else n + 1))
      (upto 0 NINDIRECT) n.

Definition check8 (img : image) (L : layout) : ex unit :=
  forX (fun i =>
    t ← dip_type img i;
    if t =? 0 then Done tt
    else
      sz ← dip_size img i;
      if sz =? 0 then Done tt
      else
        n ← num_db img i;
        fail_if ((u32 (n * BSIZE) <? sz) || (sz <? u32 ((n - 1) * BSIZE)))
          "ERROR: incorrect file size in inode.")
    (upto 0 (num_inodes L)).

(** The array of the directories' inode numbers, of [ninodes] elements. *)
Definition dir_inodes (img : image) (L : layout) : ex (list Z) :=
  foldX (fun i dirs =>
    t ← dip_type img i;
    if t =? 1 then
      if Z.of_nat (length dirs) <? ninodes L then Done (dirs ++ [i]) else Fault
    else Done dirs) (upto 0 (num_inodes L)) [].

(** The loops of checks 10 to 12 over the entries of directory [d], from entry
    [h0] of every block on. *)
Definition fold_block {S} (img : image) (h0 b : Z) (f : Z -> S -> ex S) (s : S) : ex S :=
  foldX (fun h s => n ← inum img b h; f n s) (upto h0 32) s.

Definition fold_dir {S} (img : image) (h0 : Z) (f : Z -> S -> ex S) (d : Z) (s : S) : ex S :=
  s ← foldX (fun k s => b ← dip_addrs img d k; fold_block img h0 b f s) (upto 0 NDIRECT) s;
  ind ← dip_addrs img d NDIRECT;
  foldX (fun k s => b ← indirect img ind k; fold_block img h0 b f s) (upto 0 NINDIRECT) s.

(** 9. Inodes in use are referred to: the search for inode [i] in directory
    [d].  The loop over the indirect block also runs when the direct blocks
    had a hit, up to its first [break]. *)
Definition any_block (img : image) (i b : Z) : ex bool :=
  anyX (fun h => n ← inum img b h; Done (n =? u16 i)) (upto 0 32) false.

Definition any_dir (img : image) (i d : Z) : ex bool :=
  r ← anyX (fun k => b ← dip_addrs img d k; any_block img i b) (upto 0 NDIRECT) false;
  ind ← dip_addrs img d NDIRECT;
  anyX (fun k => b ← indirect img ind k; any_block img i b) (upto 0 NINDIRECT) r.

Definition check9 (img : image) (L : layout) (dirs : list Z) : ex unit :=
  forX (fun i =>
    t ← dip_type img i;
    if t =? 0 then Done tt
    else
      r ← anyX (any_dir img i) dirs false;
      fail_if (negb r) "ERROR: inode marked used but not found in a directory.")
    (upto 0 (num_inodes L)).

(** 10. Inodes referred to are in use. *)
Definition check10 (img : image) (dirs : list Z) : ex unit :=
  foldX (fold_dir img 0 (fun n _ =>
    if 0 <? n then
      t ← dip_type img n;
      fail_if (t =? 0) "ERROR: inode referred to in directory but marked free."
    else Done tt)) dirs tt.

(** The reference counters of checks 11 and 12. *)
Definition count_link (img : image) (h0 i : Z) (dirs : list Z) : ex Z :=
  foldX (fold_dir img h0 (fun n c => Done (if n =? i then c + 1 else c))) dirs 0.

(** 11. Reference counts of files. *)
Definition check11 (img : image) (L : layout) (dirs : list Z) : ex unit :=
  forX (fun i =>
    t ← dip_type img i;
    if t =? 2 then
      c ← count_link img 0 i dirs;
      nlink ← dip_nlink img i;
      fail_if (negb (c =? nlink)) "ERROR: bad reference count for file."
    else Done tt) (upto 0 (num_inodes L)).

(** 12. Directories appear once; the first one counts as referred to. *)
Definition check12 (img : image) (dirs : list Z) : ex unit :=
  forX (fun '(i, d) =>
    c ← count_link img 2 d dirs;
    let c := if (i =? 0)%nat then c + 1 else c in
    t ← dip_type img d;
    fail_if (negb (c =? 1) || negb (c =? t))
      "ERROR: directory appears more than once in file system.")
    (imap pair dirs).

(** Extra 1. Parents: does a direct block of inode [p] have an entry for [d]? *)
Definition has_child (img : image) (d p : Z) : ex bool :=
  anyX (fun j =>
    b ← dip_addrs img p j;
    anyX (fun g => n ← inum img b g; Done (n =? d)) (upto 0 32) false)
    (upto 0 NDIRECT) false.

Definition found_parent (img : image) (d : Z) : ex bool :=
  anyX (fun k =>
    b ← dip_addrs img d k;
    anyX (fun h =>
      dd ← name_is img b h [dot; dot];
      if (dd : bool) then n ← inum img b h; has_child img d n
      else Done false) (upto 0 32) false)
    (upto 0 NDIRECT) false.

Definition extra1 (img : image) (dirs : list Z) : ex unit :=
  forX (fun d =>
    r ← found_parent img d;
    fail_if (negb r) "ERROR: parent directory mismatch") dirs.

(** [main]: [file] is the image, when it can be opened. *)
Definition main (argc : Z) (file : option image) : ex Z :=
  match file with
  | Some img =>
    if argc =? 2 then
      L ← layout_of img;
      check1 L ;; check2 img L ;; check3 img L ;; check4 img L ;;
      check5 img L ;; check6 img L ;; check7 img L ;; check8 img L ;;
      dirs ← dir_inodes img L;
      check9 img L dirs ;; check10 img dirs ;; check11 img L dirs ;;
      check12 img dirs ;; extra1 img dirs ;;
      Done 0
    else Exit1 "image not found."
  | None => Exit1 "image not found."
  end.

(** ** What the checks mean *)

(** The sequence of the results of [f] over [l]. *)
Fixpoint mapX {A B} (f : A -> ex B) (l : list A) : ex (list B) :=
  match l with
  | [] => Done []
  | x :: l => y ← f x; ys ← mapX f l; Done (y :: ys)
  end.

(** The inode numbers in the entries of a block, of the blocks in the table of
    directory [d], direct ones first, and of all directories. *)
Definition block_entries (img : image) (h0 b : Z) : ex (list Z) :=
  mapX (inum img b) (upto h0 32).
Definition dir_entries (img : image) (h0 d : Z) : ex (list Z) :=
  ls ← mapX (fun k => b ← dip_addrs img d k; block_entries img h0 b) (upto 0 NDIRECT);
  ind ← dip_addrs img d NDIRECT;
  ls' ← mapX (fun k => b ← indirect img ind k; block_entries img h0 b) (upto 0 NINDIRECT);
  Done (concat ls ++ concat ls').
Definition dirents (img : image) (h0 : Z) (dirs : list Z) : ex (list Z) :=
  ls ← mapX (dir_entries img h0) dirs; Done (concat ls).

(** The data blocks of inode [i]. *)
Definition data_blocks (img : image) (i : Z) : ex (list Z) :=
  bs ← mapX (dip_addrs img i) (upto 0 NDIRECT);
  ind ← dip_addrs img i NDIRECT;
  if ind =? 0 then Done bs
  else bs' ← mapX (indirect img ind) (upto 0 NINDIRECT); Done (bs ++ bs').

Section Meaning.
Context (img : image) (L : layout).

Definition inode (i : Z) : Prop := 0 <= i < num_inodes L.
Definition in_use (i : Z) : Prop :=
  inode i /\ exists t, dip_type img i = Done t /\ t <> 0.

(** Block [a] is in the address table of inode [i], or in the block that the
    last slot of the table names. *)
Definition names (i a : Z) : Prop :=
  (exists j, 0 <= j < NDIRECT + 1 /\ dip_addrs img i j = Done a) \/
  (exists ind j, dip_addrs img i NDIRECT = Done ind /\ 0 <= j < NINDIRECT /\
     indirect img ind j = Done a).

(** Block [a] belongs to inode [i]. *)
Definition uses (i a : Z) : Prop :=
  a <> 0 /\
  ((exists j, 0 <= j < NDIRECT + 1 /\ dip_addrs img i j = Done a) \/
   (exists ind j, dip_addrs img i NDIRECT = Done ind /\ ind <> 0 /\
      0 <= j < NINDIRECT /\ indirect img ind j = Done a)).

Definition marked (a : Z) : Prop :=
  exists c, rd8 img (bitmap L + a / 8) = Done c /\ Z.testbit c (a mod 8) = true.

(** Directory [d] has an entry called [..] for an inode that has an entry
    for [d]. *)
Definition has_parent (d : Z) : Prop :=
  exists k b h p j b' g,
    0 <= k < NDIRECT /\ dip_addrs img d k = Done b /\ 0 <= h < 32 /\
    name_is img b h [dot; dot] = Done true /\ inum img b h = Done p /\
    0 <= j < NDIRECT /\ dip_addrs img p j = Done b' /\ 0 <= g < 32 /\
    inum img b' g = Done d.

(** The first block [b] of directory [d] has entries [.] and [..], and every
    entry [.] is for [d] itself. *)
Definition formatted (d b : Z) : Prop :=
  (exists h, 0 <= h < 32 /\ name_is img b h [dot] = Done true) /\
  (exists h, 0 <= h < 32 /\ name_is img b h [dot; dot] = Done true) /\
  forall h, 0 <= h < 32 -> name_is img b h [dot] = Done true -> inum img b h = Done d.

Definition occurrences (l : list Z) (x : Z) : Z := Z.of_nat (length (filter (x =.) l)).

Record consistent_with (dirs refs refs2 : list Z) : Prop := {
  c_super : nb_total L <= size L;
  c_types : forall i t, inode i -> dip_type img i = Done t -> 0 <= t <= 3;
  c_range : forall i a, in_use i -> uses i a -> u32 (ib_data L) <= a <= u32 (ib_end L);
  c_format : forall i b, inode i -> dip_type img i = Done 1 ->
    dip_addrs img i 0 = Done b -> formatted i b;
  c_marked : forall i a, in_use i -> uses i a -> marked a;
  (** the words of the block the indirect slot names, block 0 if it is empty *)
  c_marked0 : forall i ind j a, in_use i -> dip_addrs img i NDIRECT = Done ind ->
    0 <= j < NINDIRECT -> indirect img ind j = Done a -> marked a;
  c_owned : forall a, 29 <= a < nblocks L -> marked a -> exists i, inode i /\ names i a;
  (** the second inode is below the number of inode blocks *)
  c_unique : forall i j k h a, in_use i -> i <= k < nb_inodes L ->
    0 <= j < NDIRECT -> 0 <= h < NDIRECT -> (i, j) <> (k, h) -> a <> 0 ->
    dip_addrs img i j = Done a -> dip_addrs img k h <> Done a;
  c_size : forall i sz bs, in_use i -> dip_size img i = Done sz -> sz <> 0 ->
    data_blocks img i = Done bs ->
    let n := Z.of_nat (length (filter (fun b => b <> 0) bs)) in
    1 <= n /\ (n - 1) * BSIZE <= sz <= n * BSIZE;
  c_listed : forall i, in_use i -> u16 i ∈ refs;
  c_live : forall n, n ∈ refs -> 0 < n -> dip_type img n <> Done 0;
  c_nlink : forall i c, inode i -> dip_type img i = Done 2 ->
    dip_nlink img i = Done c -> c = occurrences refs i;
  c_tree : forall k d, dirs !! k = Some d ->
    occurrences refs2 d = if decide (k = 0%nat) then 0 else 1;
  c_parent : forall d, d ∈ dirs -> has_parent d
}.
End Meaning.

(** An image is consistent when its layout, its directories and their entries
    can be read and satisfy the conditions above; [refs2] are the entries
    without the first two of every block. *)
Definition consistent (img : image) : Prop :=
  exists L dirs refs refs2,
    layout_of img = Done L /\ dir_inodes img L = Done dirs /\
    dirents img 0 dirs = Done refs /\ dirents img 2 dirs = Done refs2 /\
    consistent_with img L dirs refs refs2.

(** ** Loops that decide *)

Definition decides {A} (c : ex A) (P : Prop) : Prop :=
  match c with Done _ => P | Exit1 _ => ~ P | Fault => True end.

Definition quiet {A} (c : ex A) : Prop := forall msg, c <> Exit1 msg.

Lemma decides_iff {A} (c : ex A) P Q : (P <-> Q) -> decides c P -> decides c Q.
Proof. intros H. unfold decides. destruct c; tauto. Qed.

Lemma decides_done {A} (c : ex A) a P : decides c P -> c = Done a -> P.
Proof. intros H ->. exact H. Qed.

Lemma decides_exit {A} (c : ex A) msg P : decides c P -> c = Exit1 msg -> ~ P.
Proof. intros H ->. exact H. Qed.

Lemma decides_fail b msg : decides (fail_if b msg) (b = false).
Proof. destruct b; simpl; auto. Qed.

Lemma decides_read {A B} (c : ex A) (f : A -> ex B) (Q : A -> Prop) :
  quiet c -> (forall a, c = Done a -> decides (f a) (Q a)) ->
  decides (c ≫= f) (forall a, c = Done a -> Q a).
Proof.
  intros Hq H. destruct c as [a|msg|]; simpl; [|by destruct (Hq msg)|done].
  refine (decides_iff _ _ _ _ (H a eq_refl)). split; [|auto].
  intros x b E. by injection E as <-.
Qed.

Lemma decides_seq {A B} (c : ex A) (f : ex B) P Q :
  decides c P -> decides f Q -> decides (c ;; f) (P /\ Q).
Proof. destruct c; simpl; [|tauto|done]. destruct f; simpl; tauto. Qed.

Lemma decides_if {A} (b : bool) (c d : ex A) P Q :
  (b = true -> decides c P) -> (b = false -> decides d Q) ->
  decides (if b then c else d) (if b then P else Q).
Proof. destruct b; auto. Qed.

Lemma decides_for {A} (f : A -> ex unit) l (P : A -> Prop) :
  (forall x, x ∈ l -> decides (f x) (P x)) -> decides (forX f l) (forall x, x ∈ l -> P x).
Proof.
  induction l as [|x l IH]; intros H; simpl.
  { intros x Hx. by apply not_elem_of_nil in Hx. }
  eapply decides_iff; [|apply decides_seq; [apply (H x); left|apply IH; intros; apply H; by right]].
  split.
  - intros [Hx Hl] y Hy. apply elem_of_cons in Hy as [->|Hy]; auto.
  - intros Hy. split; [apply Hy; left|intros y Hyl; apply Hy; by right].
Qed.

(** *** Code that never exits *)

Create HintDb quiet.

Lemma quiet_Done {A} (a : A) : quiet (Done a).
Proof. intros msg; discriminate. Qed.

Lemma quiet_Fault {A} : quiet (@Fault A).
Proof. intros msg; discriminate. Qed.

Lemma quiet_bind {A B} (c : ex A) (f : A -> ex B) :
  quiet c -> (forall a, quiet (f a)) -> quiet (c ≫= f).
Proof. intros Hc Hf. destruct c; simpl; auto; [by destruct (Hc msg)|apply quiet_Fault]. Qed.

Lemma quiet_if {A} (b : bool) (c d : ex A) : quiet c -> quiet d -> quiet (if b then c else d).
Proof. by destruct b. Qed.

Lemma quiet_any {A} (f : A -> ex bool) l b : (forall x, quiet (f x)) -> quiet (anyX f l b).
Proof.
  intros Hf. revert b. induction l as [|x l IH]; intros b; simpl; [apply quiet_Done|].
  apply quiet_bind; [auto|]. intros []; destruct b; simpl; auto using quiet_Done.
Qed.

Lemma quiet_fold {A S} (f : A -> S -> ex S) l s :
  (forall x s, quiet (f x s)) -> quiet (foldX f l s).
Proof.
  intros Hf. revert s. induction l as [|x l IH]; intros s; simpl; [apply quiet_Done|].
  apply quiet_bind; auto.
Qed.

Lemma quiet_rd8 img a : quiet (rd8 img a).
Proof. unfold rd8. repeat case_decide; auto using quiet_Done, quiet_Fault. Qed.

#[export] Hint Resolve quiet_Done quiet_Fault quiet_bind quiet_if quiet_any quiet_fold quiet_rd8 : quiet.

Lemma quiet_rd32 img a : quiet (rd32 img a).
Proof. unfold rd32, rd16; auto 10 with quiet. Qed.

Lemma quiet_dip_addrs img i j : quiet (dip_addrs img i j).
Proof. apply quiet_rd32. Qed.

Lemma quiet_indirect img b j : quiet (indirect img b j).
Proof. apply quiet_rd32. Qed.

Lemma quiet_dip_type img i : quiet (dip_type img i).
Proof. unfold dip_type, rd16; auto 10 with quiet. Qed.

Lemma quiet_dip_nlink img i : quiet (dip_nlink img i).
Proof. unfold dip_nlink, rd16; auto 10 with quiet. Qed.

Lemma quiet_dip_size img i : quiet (dip_size img i).
Proof. apply quiet_rd32. Qed.

Lemma quiet_inum img b h : quiet (inum img b h).
Proof. unfold inum, rd16; auto 10 with quiet. Qed.

Lemma quiet_streq img lit : forall a, quiet (streq img a lit).
Proof. induction lit; intros a'; simpl; auto with quiet. Qed.

Lemma quiet_name_is img b h lit : quiet (name_is img b h lit).
Proof. apply quiet_streq. Qed.

Lemma quiet_bit img L a : quiet (bit img L a).
Proof. unfold bit; auto with quiet. Qed.

#[export] Hint Resolve quiet_rd32 quiet_dip_addrs quiet_indirect quiet_dip_type quiet_dip_nlink
  quiet_dip_size quiet_inum quiet_name_is quiet_bit : quiet.

(** The bounds of a loop. *)
Lemma elem_of_upto a b x : x ∈ upto a b <-> a <= x < b.
Proof. unfold upto. rewrite elem_of_seqZ. lia. Qed.

Lemma length_upto a b : length (upto a b) = Z.to_nat (b - a).
Proof. apply length_seqZ. Qed.

#[local] Opaque upto.

Lemma ex_bind_inv {A B} (c : ex A) (f : A -> ex B) b :
  c ≫= f = Done b -> exists a, c = Done a /\ f a = Done b.
Proof. destruct c; simpl; [eauto|discriminate..]. Qed.

(** A search loop that ran to its end. *)
Lemma anyX_Done {A} (f : A -> ex bool) l r :
  anyX f l false = Done r ->
  if r then exists x, x ∈ l /\ f x = Done true else forall x, x ∈ l -> f x = Done false.
Proof.
  induction l as [|x l IH]; simpl; intros E.
  { injection E as <-. intros x Hx. by apply not_elem_of_nil in Hx. }
  destruct (f x) as [[]| |] eqn:F; simpl in E; try discriminate.
  - injection E as <-. exists x. split; [left|done].
  - specialize (IH E). destruct r.
    + destruct IH as (y & Hy & Fy). exists y. split; [by right|done].
    + intros y Hy. apply elem_of_cons in Hy as [->|Hy]; auto.
Qed.

Lemma anyX_true {A} (f : A -> ex bool) l r :
  anyX f l false = Done r -> (r = true <-> exists x, x ∈ l /\ f x = Done true).
Proof.
  intros E%anyX_Done. destruct r; [done|]. split; [done|].
  intros (x & Hx & F). rewrite (E x Hx) in F. discriminate.
Qed.

(** Code that computes whether [P] holds. *)
Definition reads (c : ex bool) (P : Prop) : Prop := forall r, c = Done r -> (r = true <-> P).

Lemma reads_any {A} (f : A -> ex bool) l (P : A -> Prop) :
  (forall x, x ∈ l -> reads (f x) (P x)) -> reads (anyX f l false) (exists x, x ∈ l /\ P x).
Proof.
  intros H r E. apply anyX_Done in E. destruct r.
  - destruct E as (x & Hx & F). split; [|done]. intros _. exists x. split; [done|]. by apply (H x Hx true).
  - split; [done|]. intros (x & Hx & Px). by apply (H x Hx false (E x Hx)).
Qed.

Lemma reads_bind {A} (c : ex A) (f : A -> ex bool) (P : A -> Prop) :
  (forall a, c = Done a -> reads (f a) (P a)) ->
  reads (c ≫= f) (exists a, c = Done a /\ P a).
Proof.
  intros H r E. destruct c as [a| |]; simpl in E; [|discriminate..].
  rewrite (H a eq_refl r E). split; [eauto|]. by intros (b & [= <-] & Pb).
Qed.

Lemma reads_eqb x i : reads (Done (x =? i)) (x = i).
Proof. intros r [= <-]. apply Z.eqb_eq. Qed.

Lemma reads_iff c P Q : (P <-> Q) -> reads c P -> reads c Q.
Proof. intros H Hr r E. rewrite <- H. by apply Hr. Qed.

Lemma reads_false : reads (Done false) False.
Proof. by intros r [= <-]. Qed.

Lemma reads_if (b : bool) c d P Q : reads c P -> reads d Q -> reads (if b then c else d) (if b then P else Q).
Proof. by destruct b. Qed.

Ltac reads_code :=
  repeat match goal with
    | |- reads (anyX _ _ false) _ => apply reads_any; intros ? ?
    | |- reads (Done (_ =? _)) _ => apply reads_eqb
    | |- reads (Done false) _ => apply reads_false
    | |- reads (if _ then _ else _) _ => apply reads_if
    | |- reads (_ ≫= _) _ => apply reads_bind; intros ? ?
    end.

(** A search that must succeed. *)
Lemma decides_found (c : ex bool) (P : Prop) msg :
  quiet c -> reads c P -> decides (r ← c; fail_if (negb r) msg) P.
Proof.
  intros Hq H. destruct c as [r|m|]; simpl; [|by destruct (Hq m)|done].
  specialize (H r eq_refl). destruct r; simpl; intuition congruence.
Qed.

Lemma land_bit c k : 0 <= k -> Z.shiftr (Z.land c (Z.shiftl 1 k)) k = Z.b2z (Z.testbit c k).
Proof.
  intros Hk. apply Z.bits_inj'; intros n Hn.
  rewrite Z.shiftr_spec, Z.land_spec, Z.shiftl_spec by lia.
  replace (n + k - k) with n by lia.
  destruct (decide (n = 0)) as [->|Hn0].
  - rewrite Z.add_0_l, Z.b2z_bit0. by rewrite andb_true_r.
  - replace (Z.testbit 1 n) with false; [|symmetry; apply (Z.bits_above_log2 1); simpl; lia].
    rewrite andb_false_r. destruct (Z.testbit c k); simpl; [|by rewrite Z.bits_0].
    symmetry. apply (Z.bits_above_log2 1); simpl; lia.
Qed.

Lemma bit_marked img L a v :
  bit img L a = Done v -> ((v =? 0) = false <-> marked img L a) /\ (v = 1 <-> marked img L a).
Proof.
  unfold bit, marked. destruct (rd8 _ _) as [c| |]; simpl; [|discriminate..].
  rewrite land_bit by dm. intros [= <-].
  destruct (Z.testbit c (a mod 8)) eqn:E; simpl; split; split; try done; eauto.
  all: intros (c' & [= <-] & F); congruence.
Qed.

Lemma marked_bit img L a : marked img L a <-> bit img L a = Done 1.
Proof.
  split; [|intros E; by apply (bit_marked img L a 1 E)].
  intros Hm. pose proof Hm as (c & E & _).
  destruct (bit img L a) as [v| |] eqn:B; unfold bit in B; rewrite E in B; try discriminate.
  f_equal. apply (bit_marked img L a v); [|done]. unfold bit. by rewrite E.
Qed.

Lemma decides_int_index {A} i (c : ex A) P : decides c P -> decides (int_index i ;; c) P.
Proof. unfold int_index. by destruct (i <? 2 ^ 31). Qed.

Lemma decides_marked img L a msg :
  decides (v ← bit img L a; fail_if (v =? 0) msg) (marked img L a).
Proof.
  pose proof (quiet_bit img L a) as Hq.
  destruct (bit img L a) as [v|m|] eqn:E; simpl; [|by destruct (Hq m)|done].
  apply bit_marked in E as [E _]. destruct (v =? 0); simpl; intuition congruence.
Qed.

(** Take a check apart into the proposition its loops decide. *)
Ltac decide_code :=
  repeat match goal with
    | |- decides (Done _) _ => exact I
    | |- decides (fail_if _ _) _ => apply decides_fail
    | |- decides (forX _ _) _ => apply decides_for; intros ? ?
    | |- decides (if _ then _ else _) _ => apply decides_if; intros ?
    | |- decides (mbind _ (fail_if _ _)) _ => apply decides_seq
    | |- decides (mbind _ (forX _ _)) _ => apply decides_seq
    | |- decides (mbind (fun v => fail_if (v =? 0) _) (bit _ _ _)) _ => apply decides_marked
    | |- decides (_ ≫= _) _ => apply decides_read; [solve [auto 10 with quiet]|intros ? ?]
    end.

Lemma if_eqb (a b : Z) (P : Prop) : (if a =? b then True else P) <-> (a <> b -> P).
Proof. destruct (Z.eqb_spec a b); tauto. Qed.

Lemma if_eqb' (a b : Z) (P : Prop) : (if a =? b then P else True) <-> (a = b -> P).
Proof. destruct (Z.eqb_spec a b); tauto. Qed.

(** The proposition a check decides, in the terms of the description. *)
Ltac check_spec c :=
  eapply decides_iff; [|unfold c; decide_code]; simpl;
  repeat setoid_rewrite if_eqb; repeat setoid_rewrite if_eqb'.

Section Checks.
Context (img : image) (L : layout).

Lemma uses_inodes (P : Z -> Prop) :
  (forall i, i ∈ upto 0 (num_inodes L) -> forall t, dip_type img i = Done t -> t <> 0 -> P i) <->
  (forall i, in_use img L i -> P i).
Proof.
  split.
  - intros H i (Hi & t & Ht & Hnz). by apply (H i (proj2 (elem_of_upto _ _ _) Hi) t).
  - intros H i Hi%elem_of_upto t Ht Hnz. apply H. split; [done|eauto].
Qed.

Lemma check2_decides :
  decides (check2 img L) (forall i t, inode L i -> dip_type img i = Done t -> 0 <= t <= 3).
Proof.
  eapply decides_iff; [|unfold check2; decide_code]. simpl. split.
  - intros H i t Hi Ht. specialize (H i (proj2 (elem_of_upto _ _ _) Hi) t Ht). lia.
  - intros H i Hi t Ht. apply elem_of_upto in Hi. specialize (H i t Hi Ht). lia.
Qed.

Lemma bad_addr_false a :
  bad_addr L a = false <-> (a <> 0 -> u32 (ib_data L) <= a <= u32 (ib_end L)).
Proof. unfold bad_addr. lia. Qed.

(** What the loops over the addresses of an inode establish. *)
Lemma uses_loops i (P : Z -> Prop) :
  ((forall j, j ∈ upto 0 NDIRECT -> forall a, dip_addrs img i j = Done a -> a <> 0 -> P a) /\
   forall ind, dip_addrs img i NDIRECT = Done ind -> ind <> 0 -> P ind /\
     forall j, j ∈ upto 0 NINDIRECT -> forall a, indirect img ind j = Done a -> a <> 0 -> P a) <->
  (forall a, uses img i a -> P a).
Proof.
  split.
  - intros [Hd Hi] a (Hnz & [(j & Hj & E)|(ind & j & Hind & Hn & Hj & E)]).
    + destruct (decide (j = NDIRECT)) as [->|]; [by apply Hi|].
      apply (Hd j); [apply elem_of_upto; lia|done|done].
    + apply (proj2 (Hi ind Hind Hn) j); [by apply elem_of_upto|done|done].
  - intros H. split.
    + intros j Hj%elem_of_upto a E Ha. apply H. split; [done|left; exists j; split; [lia|done]].
    + intros ind E Hn. split.
      * apply H. split; [done|left; exists NDIRECT; split; [unfold NDIRECT; lia|done]].
      * intros j Hj%elem_of_upto a Ea Ha. apply H. split; [done|right; exists ind, j; done].
Qed.

Lemma check3_decides :
  decides (check3 img L)
    (forall i, in_use img L i -> forall a, uses img i a -> u32 (ib_data L) <= a <= u32 (ib_end L)).
Proof.
  check_spec check3. setoid_rewrite bad_addr_false. rewrite uses_inodes.
  setoid_rewrite <- uses_loops.
  split; intros H i Hi; destruct (H i Hi) as [H1 H2]; (split; [exact H1|]).
  all: intros a Ea Ha; destruct (H2 a Ea Ha); auto.
Qed.

Lemma check5_decides :
  decides (check5 img L)
    (forall i, in_use img L i -> (forall a, uses img i a -> marked img L a) /\
       forall ind, dip_addrs img i NDIRECT = Done ind -> forall j, 0 <= j < NINDIRECT ->
       forall a, indirect img ind j = Done a -> marked img L a).
Proof.
  check_spec check5. rewrite uses_inodes. setoid_rewrite <- uses_loops.
  setoid_rewrite elem_of_upto. split.
  - intros H i Hi. destruct (H i Hi) as [Hd Hn]. split; [split|exact Hn].
    + intros j Hj. apply Hd. lia.
    + intros ind E Hz. split; [|intros; by apply (Hn ind E j)].
      apply (Hd NDIRECT); [unfold NDIRECT; lia|done|done].
  - intros H i Hi. destruct (H i Hi) as [[Hd Hz] Hn]. split; [|exact Hn].
    intros j Hj a E Ha. destruct (decide (j = NDIRECT)) as [->|]; [by apply Hz|].
    by apply (Hd j ltac:(lia)).
Qed.

Lemma check6_reads i j : reads (check6_inode img i j) (names img j i).
Proof.
  unfold check6_inode, names. intros r E.
  apply ex_bind_inv in E as (u & E1 & E). apply ex_bind_inv in E as (ind & E2 & E).
  apply ex_bind_inv in E as (u' & E3 & E). injection E as <-.
  rewrite E2, orb_true_iff. f_equiv.
  - revert E1. apply reads_iff with (2 := reads_any _ _ _ (fun k _ => reads_bind _ _ _ (fun a _ => reads_eqb a i))).
    setoid_rewrite elem_of_upto. naive_solver.
  - revert E3. apply reads_iff with (2 := reads_any _ _ _ (fun k _ => reads_bind _ _ _ (fun a _ => reads_eqb a i))).
    setoid_rewrite elem_of_upto. naive_solver.
Qed.

Lemma check6_quiet i j : quiet (check6_inode img i j).
Proof. unfold check6_inode. auto 10 with quiet. Qed.

Lemma check6_decides :
  decides (check6 img L)
    (forall a, 29 <= a < nblocks L -> marked img L a -> exists i, inode L i /\ names img i a).
Proof.
  eapply decides_iff; [|unfold check6; apply decides_for; intros a Ha;
    apply decides_int_index, decides_read; [auto with quiet|intros v Hv];
    apply decides_if; intros _; [apply decides_found|exact I];
    [apply quiet_any, check6_quiet|apply reads_any; intros; apply check6_reads]].
  setoid_rewrite if_eqb'. setoid_rewrite elem_of_upto. setoid_rewrite marked_bit.
  unfold inode. naive_solver.
Qed.

Lemma check7_decides :
  decides (check7 img L)
    (forall i, in_use img L i -> forall j k h a, i <= k < nb_inodes L ->
      0 <= j < NDIRECT -> 0 <= h < NDIRECT -> (i, j) <> (k, h) -> a <> 0 ->
      dip_addrs img i j = Done a -> dip_addrs img k h <> Done a).
Proof.
  check_spec check7. rewrite uses_inodes. setoid_rewrite elem_of_upto. split.
  - intros H i Hi j k h a Hk Hj Hh Hne Ha Ei Ek.
    specialize (H i Hi j Hj a Ei Ha k Hk h Hh).
    destruct (Z.eqb_spec k i) as [->|]; [destruct (Z.eqb_spec h j) as [->|]; [done|]|];
      simpl in H; specialize (H a Ek); lia.
  - intros H i Hi j Hj a Ei Ha k Hk h Hh.
    destruct (negb (k =? i) || negb (h =? j)) eqn:B; [|done].
    intros a' Ek. apply Z.eqb_neq. intros <-.
    apply (H i Hi j k h a); try done. intros [= <- <-]. lia.
Qed.

(** *** Sizes *)

Lemma count_fold (g : Z -> ex Z) l n :
  foldX (fun j n => a ← g j; Done (if a =? 0 then n else n + 1)) l n =
  bs ← mapX g l; Done (n + Z.of_nat (length (filter (fun b => b <> 0) bs))).
Proof.
  revert n. induction l as [|j l IH]; intros n; simpl; [by rewrite Z.add_0_r|].
  destruct (g j) as [a| |]; simpl; [|done..]. rewrite IH.
  destruct (mapX g l) as [bs| |]; simpl; [|done..].
  rewrite filter_cons. f_equal. destruct (Z.eqb_spec a 0); case_decide; simpl; lia.
Qed.

Lemma num_db_blocks i :
  num_db img i =
  bs ← data_blocks img i; Done (Z.of_nat (length (filter (fun b => b <> 0) bs))).
Proof.
  unfold num_db, data_blocks. rewrite count_fold.
  destruct (mapX _ (upto 0 NDIRECT)) as [bs| |]; simpl; [|done..].
  destruct (dip_addrs img i NDIRECT) as [ind| |]; simpl; [|done..].
  destruct (ind =? 0); [done|]. rewrite count_fold.
  destruct (mapX _ (upto 0 NINDIRECT)) as [bs'| |]; simpl; [|done..].
  f_equal. rewrite filter_app, length_app. lia.
Qed.

Lemma mapX_length {A B} (g : A -> ex B) l r : mapX g l = Done r -> length r = length l.
Proof.
  revert r. induction l as [|x l IH]; intros r E; simpl in E; [by injection E as <-|].
  apply ex_bind_inv in E as (y & _ & E). apply ex_bind_inv in E as (ys & E' & E).
  injection E as <-. simpl. f_equal. auto.
Qed.

Lemma quiet_mapX {A B} (g : A -> ex B) l : (forall x, quiet (g x)) -> quiet (mapX g l).
Proof. intros H. induction l; simpl; auto with quiet. Qed.

Lemma quiet_data_blocks i : quiet (data_blocks img i).
Proof.
  apply quiet_bind; [auto using quiet_mapX with quiet|intros bs].
  apply quiet_bind; [auto with quiet|intros ind].
  apply quiet_if; auto using quiet_mapX with quiet.
Qed.

Lemma data_blocks_length i bs : data_blocks img i = Done bs -> (length bs <= 140)%nat.
Proof.
  unfold data_blocks. intros E. apply ex_bind_inv in E as (b1 & E1 & E).
  apply ex_bind_inv in E as (ind & _ & E). apply mapX_length in E1.
  destruct (ind =? 0).
  - injection E as <-. rewrite E1, length_upto. unfold NDIRECT. lia.
  - apply ex_bind_inv in E as (b2 & E2 & E). apply mapX_length in E2.
    injection E as <-. rewrite length_app, E1, E2, !length_upto. unfold NDIRECT, NINDIRECT. lia.
Qed.

Lemma img_rd8_range a c : rd8 img a = Done c -> 0 <= c < 256.
Proof.
  unfold rd8. repeat case_decide; intros [= <-]; [|lia]. apply (u8_range (byte img a)).
Qed.

Lemma img_rd16_range a c : rd16 img a = Done c -> 0 <= c < 65536.
Proof.
  unfold rd16. intros E. apply ex_bind_inv in E as (x & Ex & E). apply ex_bind_inv in E as (y & Ey & E).
  injection E as <-. apply img_rd8_range in Ex. apply img_rd8_range in Ey. lia.
Qed.

Lemma img_rd32_range a c : rd32 img a = Done c -> 0 <= c < 2 ^ 32.
Proof.
  unfold rd32. intros E. apply ex_bind_inv in E as (x & Ex & E). apply ex_bind_inv in E as (y & Ey & E).
  injection E as <-. apply img_rd16_range in Ex. apply img_rd16_range in Ey. lia.
Qed.

Lemma size_fits n sz :
  0 <= n <= 140 -> 0 < sz < 2 ^ 32 ->
  (u32 (n * BSIZE) <? sz) || (sz <? u32 ((n - 1) * BSIZE)) = false <->
  1 <= n /\ (n - 1) * BSIZE <= sz <= n * BSIZE.
Proof.
  intros Hn Hsz. rewrite (u32_small (n * BSIZE)) by (unfold is_u32, BSIZE; lia).
  destruct (decide (n = 0)) as [->|]; [unfold BSIZE; lia|].
  rewrite u32_small by (unfold is_u32, BSIZE; lia). unfold BSIZE. lia.
Qed.

Lemma size_decides i sz msg :
  dip_size img i = Done sz -> sz <> 0 ->
  decides (n ← num_db img i;
           fail_if ((u32 (n * BSIZE) <? sz) || (sz <? u32 ((n - 1) * BSIZE))) msg)
    (forall bs, data_blocks img i = Done bs ->
       let n := Z.of_nat (length (filter (fun b => b <> 0) bs)) in
       1 <= n /\ (n - 1) * BSIZE <= sz <= n * BSIZE).
Proof.
  intros Esz Hsz. rewrite num_db_blocks. pose proof (quiet_data_blocks i) as Hq.
  destruct (data_blocks img i) as [bs|m|] eqn:E; simpl; [|by destruct (Hq m)|done].
  apply img_rd32_range in Esz. apply data_blocks_length in E.
  pose proof (length_filter (fun b : Z => b <> 0) bs).
  eapply decides_iff; [|apply decides_fail]. rewrite size_fits by lia.
  split; [by intros ? ? [= <-]|auto].
Qed.

Lemma check8_decides :
  decides (check8 img L)
    (forall i, in_use img L i -> forall sz, dip_size img i = Done sz -> sz <> 0 -> forall bs,
       data_blocks img i = Done bs ->
       let n := Z.of_nat (length (filter (fun b => b <> 0) bs)) in
       1 <= n /\ (n - 1) * BSIZE <= sz <= n * BSIZE).
Proof.
  eapply decides_iff; [|unfold check8; apply decides_for; intros i Hi;
    apply decides_read; [auto with quiet|intros t Ht]; apply decides_if; intros _; [exact I|];
    apply decides_read; [auto with quiet|intros sz Hsz]; apply decides_if; intros E; [exact I|];
    apply size_decides; [exact Hsz|lia]].
  repeat setoid_rewrite if_eqb. by rewrite uses_inodes.
Qed.

(** *** Directory format *)

(** A name is not both [.] and [..]. *)
Lemma dot_not_dotdot b h :
  name_is img b h [dot] = Done true -> name_is img b h [dot; dot] = Done false.
Proof.
  unfold name_is. cbn [streq]. intros E.
  apply ex_bind_inv in E as (c & -> & E). simpl.
  destruct (c =? dot); [|discriminate].
  apply ex_bind_inv in E as (c' & -> & E). simpl.
  injection E as ->%Z.eqb_eq. done.
Qed.

Lemma exists_cons {A} (x : A) l (P : A -> Prop) :
  (exists y, y ∈ x :: l /\ P y) <-> P x \/ exists y, y ∈ l /\ P y.
Proof. setoid_rewrite elem_of_cons. naive_solver. Qed.

Lemma forall_cons {A} (x : A) l (P : A -> Prop) :
  (forall y, y ∈ x :: l -> P y) <-> P x /\ forall y, y ∈ l -> P y.
Proof. setoid_rewrite elem_of_cons. naive_solver. Qed.

Lemma check4_fold i b l s :
  match foldX (check4_entry img i b) l s with
  | Done s' =>
    (s'.1 = true <-> s.1 = true \/ exists h, h ∈ l /\ name_is img b h [dot] = Done true) /\
    (s'.2 = true <-> s.2 = true \/ exists h, h ∈ l /\ name_is img b h [dot; dot] = Done true) /\
    (forall h, h ∈ l -> name_is img b h [dot] = Done true -> inum img b h = Done i)
  | Exit1 _ => exists h, h ∈ l /\ name_is img b h [dot] = Done true /\ inum img b h <> Done i
  | Fault => True
  end.
Proof.
  revert s. induction l as [|h l IH]; intros s; simpl.
  { split_and!; [..|intros h Hh; by apply not_elem_of_nil in Hh].
    all: split; [by left|intros [?|(h & Hh & _)]; [done|by apply not_elem_of_nil in Hh]]. }
  revert IH. generalize (foldX (check4_entry img i b) l). intros F IH. unfold check4_entry.
  pose proof (quiet_name_is img b h [dot]) as Hq1.
  pose proof (quiet_name_is img b h [dot; dot]) as Hq2.
  pose proof (quiet_inum img b h) as Hq3.
  destruct (name_is img b h [dot]) as [[]|m|] eqn:E1; simpl; [| |by destruct (Hq1 m eq_refl)|exact I].
  - destruct (inum img b h) as [n|m|] eqn:E3; simpl; [|by destruct (Hq3 m eq_refl)|exact I].
    destruct (Z.eqb_spec n i) as [->|Hn]; simpl;
      [|exists h; split_and!; [left|done|rewrite E3; congruence]].
    specialize (IH (true, s.2)). apply dot_not_dotdot in E1 as E2.
    destruct (F _) as [s'| |]; simpl in *; [|rewrite exists_cons; by right|done].
    rewrite !exists_cons, forall_cons, E1, E2, E3. intuition congruence.
  - destruct (name_is img b h [dot; dot]) as [p|m|] eqn:E2; simpl; [|by destruct (Hq2 m eq_refl)|exact I].
    specialize (IH (if p then (s.1, true) else s)).
    destruct (F _) as [s'| |]; simpl in *; [|rewrite exists_cons; by right|done].
    rewrite !exists_cons, forall_cons, E1, E2. destruct p; intuition congruence.
Qed.

Lemma format_decides i b msg :
  decides (s ← foldX (check4_entry img i b) (upto 0 32) (false, false);
           fail_if (negb s.1 || negb s.2) msg) (formatted img i b).
Proof.
  unfold formatted.
  pose proof (check4_fold i b (upto 0 32) (false, false)) as H.
  destruct (foldX _ _ _) as [[s1 s2]|m|]; simpl in *;
    try setoid_rewrite elem_of_upto in H;
    [|destruct H as (h & Hh & Hn & Hi); intros (_ & _ & Hf); exact (Hi (Hf h Hh Hn))|done].
  destruct s1, s2; simpl; intuition congruence.
Qed.

Lemma check4_decides :
  decides (check4 img L)
    (forall i, inode L i -> dip_type img i = Done 1 -> forall b,
       dip_addrs img i 0 = Done b -> formatted img i b).
Proof.
  eapply decides_iff; [|unfold check4; apply decides_for; intros i Hi;
    apply decides_read; [auto with quiet|intros t Ht]; apply decides_if; intros _; [|exact I];
    apply decides_read; [auto with quiet|intros b Hb]; apply format_decides].
  repeat setoid_rewrite if_eqb'. setoid_rewrite elem_of_upto. unfold inode. split.
  - intros H i Hi Ht b Hb. by apply (H i Hi 1).
  - intros H i Hi t Ht -> b Hb. by apply H.
Qed.
End Checks.

(** *** Loops over directory entries *)

Section Entries.
Context {A B S : Type}.

Lemma foldX_app (f : B -> S -> ex S) l1 l2 s :
  foldX f (l1 ++ l2) s = s ← foldX f l1 s; foldX f l2 s.
Proof.
  revert s. induction l1 as [|x l1 IH]; intros s; simpl; [done|].
  destruct (f x s); simpl; auto.
Qed.

(** A loop whose body is a loop over the list [e x] is a loop over all the
    lists one after the other. *)
Lemma foldX_nest (F : A -> S -> ex S) (e : A -> ex (list B)) (f : B -> S -> ex S) l ls s :
  (forall x r, e x = Done r -> forall s, F x s = foldX f r s) ->
  mapX e l = Done ls -> foldX F l s = foldX f (concat ls) s.
Proof.
  intros H. revert ls s. induction l as [|x l IH]; intros ls s E; simpl in E.
  { by injection E as <-. }
  apply ex_bind_inv in E as (r & Er & E). apply ex_bind_inv in E as (rs & Ers & E).
  injection E as <-. simpl. rewrite foldX_app, (H x r Er s).
  destruct (foldX f r s); simpl; auto.
Qed.

(** A loop that ends has read everything. *)
Lemma foldX_reads (F : A -> S -> ex S) (e : A -> ex B) l s s' :
  (forall x s s', F x s = Done s' -> exists r, e x = Done r) ->
  foldX F l s = Done s' -> exists ls, mapX e l = Done ls.
Proof.
  intros H. revert s. induction l as [|x l IH]; intros s E; simpl in *; [eauto|].
  apply ex_bind_inv in E as (s1 & E1 & E). apply H in E1 as (r & ->). simpl.
  apply IH in E as (ls & ->). simpl. eauto.
Qed.

Lemma foldX_mapX (g : A -> ex B) (f : B -> S -> ex S) l r s :
  mapX g l = Done r -> foldX (fun x s => y ← g x; f y s) l s = foldX f r s.
Proof.
  revert r s. induction l as [|x l IH]; intros r s E; simpl in E.
  { by injection E as <-. }
  apply ex_bind_inv in E as (y & Ey & E). apply ex_bind_inv in E as (ys & Eys & E).
  injection E as <-. simpl. rewrite Ey. simpl. destruct (f y s); simpl; auto.
Qed.
End Entries.

Section Dirs.
Context (img : image).

Lemma fold_block_entries {S} h0 b (f : Z -> S -> ex S) r s :
  block_entries img h0 b = Done r -> fold_block img h0 b f s = foldX f r s.
Proof. apply foldX_mapX. Qed.

Lemma fold_block_reads {S} h0 b (f : Z -> S -> ex S) s s' :
  fold_block img h0 b f s = Done s' -> exists r, block_entries img h0 b = Done r.
Proof.
  apply foldX_reads. intros h t t' E. apply ex_bind_inv in E as (n & -> & _). eauto.
Qed.

(** A block named by a table, and its entries. *)
Lemma fold_named_entries {S} h0 (c : ex Z) (f : Z -> S -> ex S) r s :
  (b ← c; block_entries img h0 b) = Done r -> (b ← c; fold_block img h0 b f s) = foldX f r s.
Proof.
  intros E. apply ex_bind_inv in E as (b & -> & E). simpl. by apply fold_block_entries.
Qed.

Lemma fold_named_reads {S} h0 (c : ex Z) (f : Z -> S -> ex S) s s' :
  (b ← c; fold_block img h0 b f s) = Done s' -> exists r, (b ← c; block_entries img h0 b) = Done r.
Proof.
  intros E. apply ex_bind_inv in E as (b & -> & E). simpl. by eapply fold_block_reads.
Qed.

Lemma fold_dir_entries {S} h0 (f : Z -> S -> ex S) d r s :
  dir_entries img h0 d = Done r -> fold_dir img h0 f d s = foldX f r s.
Proof.
  unfold dir_entries, fold_dir. intros E. apply ex_bind_inv in E as (ls & E1 & E).
  apply ex_bind_inv in E as (ind & -> & E). apply ex_bind_inv in E as (ls' & E2 & E).
  injection E as <-. rewrite foldX_app.
  rewrite (foldX_nest _ _ f _ _ s (fun k r E s => fold_named_entries h0 _ f r s E) E1).
  destruct (foldX f (concat ls) s) as [s1| |]; simpl; [|done..].
  apply (foldX_nest _ _ f _ _ s1 (fun k r E s => fold_named_entries h0 _ f r s E) E2).
Qed.

Lemma fold_dir_reads {S} h0 (f : Z -> S -> ex S) d s s' :
  fold_dir img h0 f d s = Done s' -> exists r, dir_entries img h0 d = Done r.
Proof.
  unfold dir_entries, fold_dir. intros E. apply ex_bind_inv in E as (s1 & E1 & E).
  apply ex_bind_inv in E as (ind & E2 & E).
  apply (foldX_reads _ _ _ _ _ (fun k t t' H => fold_named_reads h0 _ f t t' H)) in E1 as (ls & ->).
  rewrite E2. simpl.
  apply (foldX_reads _ _ _ _ _ (fun k t t' H => fold_named_reads h0 _ f t t' H)) in E as (ls' & ->).
  simpl. eauto.
Qed.

Lemma fold_dirents {S} h0 (f : Z -> S -> ex S) dirs r s :
  dirents img h0 dirs = Done r -> foldX (fold_dir img h0 f) dirs s = foldX f r s.
Proof.
  unfold dirents. intros E. apply ex_bind_inv in E as (ls & E1 & E). injection E as <-.
  by apply (foldX_nest _ (dir_entries img h0)); [intros; apply fold_dir_entries|].
Qed.

Lemma fold_dirents_reads {S} h0 (f : Z -> S -> ex S) dirs s s' :
  foldX (fold_dir img h0 f) dirs s = Done s' -> exists r, dirents img h0 dirs = Done r.
Proof.
  intros E. apply (foldX_reads _ _ _ _ _ (fun d t t' => fold_dir_reads h0 f d t t')) in E as (ls & E).
  unfold dirents. rewrite E. simpl. eauto.
Qed.

(** The counters. *)
Lemma count_link_occurrences h0 i dirs r :
  dirents img h0 dirs = Done r -> count_link img h0 i dirs = Done (occurrences r i).
Proof.
  intros E. unfold count_link. rewrite (fold_dirents _ _ _ _ _ E).
  enough (forall c, foldX (fun n c => Done (if n =? i then c + 1 else c)) r c = Done (c + occurrences r i))
    as -> by (f_equal; lia).
  clear E. unfold occurrences. induction r as [|n r IH]; intros c; simpl.
  { f_equal. lia. }
  rewrite IH, filter_cons. f_equal.
  destruct (Z.eqb_spec n i); case_decide; simpl in *; try congruence; lia.
Qed.

Lemma foldX_unit {A} (f : A -> ex unit) l : foldX (fun x _ => f x) l tt = forX f l.
Proof. induction l as [|x l IH]; simpl; [done|]. by destruct (f x) as [[]| |]. Qed.

Lemma check10_decides dirs r :
  dirents img 0 dirs = Done r ->
  decides (check10 img dirs) (forall n, n ∈ r -> 0 < n -> dip_type img n <> Done 0).
Proof.
  intros E. unfold check10. rewrite (fold_dirents _ _ _ _ _ E), foldX_unit.
  apply decides_for. intros n _. destruct (Z.ltb_spec 0 n) as [Hn|]; [|simpl; lia].
  pose proof (quiet_dip_type img n) as Hq.
  destruct (dip_type img n) as [t|m|]; simpl; [|by destruct (Hq m)|done].
  eapply decides_iff; [|apply decides_fail]. rewrite Z.eqb_neq. naive_solver congruence.
Qed.

Lemma check11_decides L dirs r :
  dirents img 0 dirs = Done r ->
  decides (check11 img L dirs)
    (forall i, inode L i -> dip_type img i = Done 2 ->
       forall c, dip_nlink img i = Done c -> c = occurrences r i).
Proof.
  intros E. eapply decides_iff; [|unfold check11; apply decides_for; intros i Hi;
    apply decides_read; [auto with quiet|intros t Ht]; apply decides_if; intros _; [|exact I];
    rewrite (count_link_occurrences _ _ _ _ E); cbn [mbind ex_bind]; apply decides_read; [auto with quiet|intros c Hc];
    apply decides_fail].
  setoid_rewrite if_eqb'. setoid_rewrite elem_of_upto. unfold inode. split.
  - intros H i Hi Ht c Hc. specialize (H i Hi 2 Ht eq_refl c Hc). simpl in H. lia.
  - intros H i Hi t Ht -> c Hc. specialize (H i Hi Ht c Hc). lia.
Qed.

(** *** Searches in directories *)

Lemma anyX_nest {A B} `{EqDecision B} (F : A -> ex bool) (e : A -> ex (list B)) (v : B) l ls flag :
  (forall x r, e x = Done r -> F x = Done (bool_decide (v ∈ r))) ->
  mapX e l = Done ls -> anyX F l flag = Done (flag || bool_decide (v ∈ concat ls)).
Proof.
  intros H. revert ls flag. induction l as [|x l IH]; intros ls flag E; simpl in E.
  { injection E as <-. rewrite bool_decide_false by apply not_elem_of_nil. by rewrite orb_false_r. }
  apply ex_bind_inv in E as (r & Er & E). apply ex_bind_inv in E as (rs & Ers & E).
  injection E as <-. cbn [anyX concat]. rewrite (H x r Er). cbn [mbind ex_bind].
  destruct flag; [done|]. cbn [orb].
  rewrite (bool_decide_ext _ _ (elem_of_app r (concat rs) v)), bool_decide_or.
  destruct (bool_decide (v ∈ r)); [done|]. by rewrite (IH rs false Ers).
Qed.

Lemma any_block_entries i b r :
  block_entries img 0 b = Done r -> any_block img i b = Done (bool_decide (u16 i ∈ r)).
Proof.
  unfold any_block, block_entries. generalize (upto 0 32). intros l.
  revert r. induction l as [|h l IH]; intros r E; simpl in E.
  { injection E as <-. by rewrite bool_decide_false by apply not_elem_of_nil. }
  apply ex_bind_inv in E as (n & En & E). apply ex_bind_inv in E as (ns & Ens & E).
  injection E as <-. cbn [anyX]. rewrite En. cbn [mbind ex_bind orb].
  rewrite (bool_decide_ext _ _ (elem_of_cons ns (u16 i) n)), bool_decide_or.
  destruct (Z.eqb_spec n (u16 i)) as [->|Hn]; [by rewrite (bool_decide_true (u16 i = u16 i))|].
  rewrite (IH ns Ens). by rewrite (bool_decide_false (u16 i = n)) by congruence.
Qed.

Lemma any_named_entries i (c : ex Z) r :
  (b ← c; block_entries img 0 b) = Done r ->
  (b ← c; any_block img i b) = Done (bool_decide (u16 i ∈ r)).
Proof.
  intros E. apply ex_bind_inv in E as (b & -> & E). simpl. by apply any_block_entries.
Qed.

Lemma any_dir_entries i d r :
  dir_entries img 0 d = Done r -> any_dir img i d = Done (bool_decide (u16 i ∈ r)).
Proof.
  unfold dir_entries, any_dir. intros E. apply ex_bind_inv in E as (ls & E1 & E).
  apply ex_bind_inv in E as (ind & -> & E). apply ex_bind_inv in E as (ls' & E2 & E).
  injection E as <-.
  rewrite (anyX_nest _ _ (u16 i) _ _ false (fun k r => any_named_entries i _ r) E1). cbn [mbind ex_bind orb].
  rewrite (anyX_nest _ _ (u16 i) _ _ _ (fun k r => any_named_entries i _ r) E2).
  by rewrite (bool_decide_ext _ _ (elem_of_app _ _ (u16 i))), bool_decide_or.
Qed.

Lemma check9_decides L dirs r :
  dirents img 0 dirs = Done r ->
  decides (check9 img L dirs) (forall i, in_use img L i -> u16 i ∈ r).
Proof.
  unfold dirents. intros E. apply ex_bind_inv in E as (ls & E & [= <-]).
  eapply decides_iff; [|unfold check9; apply decides_for; intros i Hi;
    apply decides_read; [auto with quiet|intros t Ht]; apply decides_if; intros _; [exact I|];
    rewrite (anyX_nest _ _ (u16 i) _ _ false (any_dir_entries i) E); cbn [mbind ex_bind]; apply decides_fail].
  setoid_rewrite if_eqb. rewrite uses_inodes. cbn [orb].
  setoid_rewrite negb_false_iff. by setoid_rewrite bool_decide_eq_true.
Qed.

Lemma dir_inodes_type L dirs d : dir_inodes img L = Done dirs -> d ∈ dirs -> dip_type img d = Done 1.
Proof.
  unfold dir_inodes. revert dirs. generalize (upto 0 (num_inodes L)). intros l dirs E.
  enough (forall acc, (forall d, d ∈ acc -> dip_type img d = Done 1) -> forall res,
    foldX (fun i dirs => t ← dip_type img i;
      if t =? 1 then if Z.of_nat (length dirs) <? ninodes L then Done (dirs ++ [i]) else Fault
      else Done dirs) l acc = Done res -> forall d, d ∈ res -> dip_type img d = Done 1) as H.
  { revert E d. apply H. intros d Hd. by apply not_elem_of_nil in Hd. }
  clear E dirs. induction l as [|i l IH]; intros acc Ha res E; simpl in E.
  { by injection E as <-. }
  apply ex_bind_inv in E as (acc' & E1 & E). revert E. apply IH.
  apply ex_bind_inv in E1 as (t & Et & E1).
  destruct (Z.eqb_spec t 1) as [->|]; [|by injection E1 as <-].
  destruct (_ <? _); [|discriminate]. injection E1 as <-.
  intros e [He|He%list_elem_of_singleton]%elem_of_app; [auto|by subst].
Qed.

Lemma check12_decides L dirs r :
  dir_inodes img L = Done dirs -> dirents img 2 dirs = Done r ->
  decides (check12 img dirs)
    (forall k d, dirs !! k = Some d -> occurrences r d = if decide (k = 0%nat) then 0 else 1).
Proof.
  intros Ed E.
  apply (decides_iff _ (forall x : nat * Z, x ∈ imap pair dirs ->
    occurrences r x.2 = if decide (x.1 = 0%nat) then 0 else 1)).
  - setoid_rewrite elem_of_lookup_imap. split.
    + intros H k d Hk. apply (H (k, d)). eauto.
    + intros H x (k & d & -> & Hk). by apply H.
  - apply decides_for. intros [k d] (k' & d' & [= -> ->] & Hk)%elem_of_lookup_imap.
    rewrite (count_link_occurrences _ _ _ _ E). cbn [mbind ex_bind].
    apply list_elem_of_lookup_2, (dir_inodes_type _ _ _ Ed) in Hk as ->. cbn [mbind ex_bind].
    eapply decides_iff; [|apply decides_fail]. cbn [fst snd].
    destruct (Nat.eqb_spec k' 0); case_decide; lia.
Qed.

Lemma found_parent_reads d : reads (found_parent img d) (has_parent img d).
Proof.
  unfold found_parent, has_child. eapply reads_iff; [|reads_code]. unfold has_parent. split.
  - intros (k & Hk%elem_of_upto & b & Eb & h & Hh%elem_of_upto & [] & En & H); [|done].
    destruct H as (p & Ep & j & Hj%elem_of_upto & b' & Eb' & g & Hg%elem_of_upto & n & En' & ->).
    by exists k, b, h, p, j, b', g.
  - intros (k & b & h & p & j & b' & g & Hk & Eb & Hh & En & Ep & Hj & Eb' & Hg & Eg).
    exists k. split; [by apply elem_of_upto|]. exists b. split; [done|].
    exists h. split; [by apply elem_of_upto|]. exists true. split; [done|].
    exists p. split; [done|]. exists j. split; [by apply elem_of_upto|].
    exists b'. split; [done|]. exists g. split; [by apply elem_of_upto|]. by exists d.
Qed.

Lemma found_parent_quiet d : quiet (found_parent img d).
Proof.
  unfold found_parent, has_child.
  repeat first [apply quiet_any; intros ?|apply quiet_bind; [|intros ?]|apply quiet_if];
    auto with quiet.
Qed.

Lemma extra1_decides dirs : decides (extra1 img dirs) (forall d, d ∈ dirs -> has_parent img d).
Proof.
  apply decides_for. intros d _. apply decides_found; [apply found_parent_quiet|apply found_parent_reads].
Qed.
End Dirs.

(** ** The checker *)

Lemma decides_quiet {A} (c : ex A) P : decides c P -> P -> quiet c.
Proof. destruct c; simpl; intros H HP m'; [done| |done]. by destruct (H HP). Qed.

Lemma quiet_known {A B} (c : ex A) a (f : A -> ex B) : c = Done a -> quiet (f a) -> quiet (c ≫= f).
Proof. by intros ->. Qed.

Lemma check1_decides L : decides (check1 L) (nb_total L <= size L).
Proof. eapply decides_iff; [|apply decides_fail]. lia. Qed.

Lemma check12_reads img dirs a :
  check12 img dirs = Done a -> exists r, dirents img 2 dirs = Done r.
Proof.
  destruct dirs as [|d dirs]; [by exists []|]. unfold check12. simpl. intros E.
  apply ex_bind_inv in E as (? & E & _). apply ex_bind_inv in E as (? & E & _).
  by apply fold_dirents_reads in E.
Qed.

Lemma consistent_quiet img : consistent img -> quiet (main 2 (Some img)).
Proof.
  intros (L & dirs & refs & refs2 & EL & Ed & E0 & E2 & C). destruct C. simpl.
  apply (quiet_known _ _ _ EL).
  apply quiet_bind; [apply (decides_quiet _ _ (check1_decides L)); auto|intros _].
  apply quiet_bind; [apply (decides_quiet _ _ (check2_decides img L)); eauto|intros _].
  apply quiet_bind; [apply (decides_quiet _ _ (check3_decides img L)); eauto|intros _].
  apply quiet_bind; [apply (decides_quiet _ _ (check4_decides img L)); eauto|intros _].
  apply quiet_bind; [apply (decides_quiet _ _ (check5_decides img L)); eauto 10|intros _].
  apply quiet_bind; [apply (decides_quiet _ _ (check6_decides img L)); eauto|intros _].
  apply quiet_bind; [apply (decides_quiet _ _ (check7_decides img L)); eauto|intros _].
  apply quiet_bind; [apply (decides_quiet _ _ (check8_decides img L)); eauto|intros _].
  apply (quiet_known _ _ _ Ed).
  apply quiet_bind; [apply (decides_quiet _ _ (check9_decides img L _ _ E0)); eauto|intros _].
  apply quiet_bind; [apply (decides_quiet _ _ (check10_decides img _ _ E0)); eauto|intros _].
  apply quiet_bind; [apply (decides_quiet _ _ (check11_decides img L _ _ E0)); eauto|intros _].
  apply quiet_bind; [apply (decides_quiet _ _ (check12_decides img L _ _ Ed E2)); eauto|intros _].
  apply quiet_bind; [apply (decides_quiet _ _ (extra1_decides img dirs)); eauto|intros _].
  apply quiet_Done.
Qed.

Lemma accepted_consistent img n : main 2 (Some img) = Done n -> n = 0 /\ consistent img.
Proof.
  unfold main. simpl. intros E.
  apply ex_bind_inv in E as (L & EL & E).
  do 8 (apply ex_bind_inv in E as (? & ? & E)).
  apply ex_bind_inv in E as (dirs & Ed & E).
  apply ex_bind_inv in E as (? & E9 & E). apply ex_bind_inv in E as (? & E10 & E).
  apply ex_bind_inv in E as (? & E11 & E). apply ex_bind_inv in E as (? & E12 & E).
  apply ex_bind_inv in E as (? & E13 & E). injection E as <-. split; [done|].
  destruct (fold_dirents_reads _ _ _ _ _ _ E10) as (refs & Er).
  destruct (check12_reads _ _ _ E12) as (refs2 & Er2).
  exists L, dirs, refs, refs2. split_and!; [done..|].
  pose proof (decides_done _ _ _ (check5_decides img L) H3) as C5.
  pose proof (decides_done _ _ _ (check7_decides img L) H5) as C7.
  pose proof (decides_done _ _ _ (check8_decides img L) H6) as C8.
  split.
  - exact (decides_done _ _ _ (check1_decides L) H).
  - exact (decides_done _ _ _ (check2_decides img L) H0).
  - intros i a Hi. revert a. revert i Hi. exact (decides_done _ _ _ (check3_decides img L) H1).
  - intros i b Hi Ht. revert b. revert i Hi Ht. exact (decides_done _ _ _ (check4_decides img L) H2).
  - intros i a Hi. apply (C5 i Hi).
  - intros i ind j a Hi. intros. by apply (proj2 (C5 i Hi) ind) with j.
  - exact (decides_done _ _ _ (check6_decides img L) H4).
  - intros i j k h a Hi. by apply C7.
  - intros i sz bs Hi Es Hz. by apply C8.
  - exact (decides_done _ _ _ (check9_decides img L _ _ Er) E9).
  - exact (decides_done _ _ _ (check10_decides img _ _ Er) E10).
  - intros i c Hi Ht. revert c. revert i Hi Ht. exact (decides_done _ _ _ (check11_decides img L _ _ Er) E11).
  - exact (decides_done _ _ _ (check12_decides img L _ _ Ed Er2) E12).
  - exact (decides_done _ _ _ (extra1_decides img dirs) E13).
Qed.


(** [roundUp] rounds up except when the remainder is at most one hundredth of
    the divisor: a file system with 1 to 40 data blocks is taken to have no
    bitmap block. *)
Lemma roundUp_spec n d :
  0 <= n -> 0 < d ->
  roundUp n d = if decide (0 < n mod d /\ 100 * (n mod d) < d) then n / d else (n + d - 1) / d.
Proof.
  intros Hn Hd. unfold roundUp.
  pose proof (Z.div_mod n d ltac:(lia)) as E. pose proof (Z.mod_pos_bound n d Hd) as Hr.
  set (q := n / d) in *. set (r := n mod d) in *.
  case_decide as H; [|destruct (decide (r = 0))]; symmetry.
  - apply Z.div_unique with (100 * r + 99 * d); [left; lia|]. nia.
  - replace ((n + d - 1) / d) with q by (apply Z.div_unique with (d - 1); [left; lia|nia]).
    apply Z.div_unique with (99 * d); [left; lia|]. nia.
  - replace ((n + d - 1) / d) with (q + 1) by (apply Z.div_unique with (r - 1); [left; lia|nia]).
    apply Z.div_unique with (100 * r - d); [left; lia|]. nia.
Qed.

(** ** Images *)

Definition put8 (a v : Z) (m : gmap Z Z) : gmap Z Z := <[a := u8 v]> m.
Definition put16 (a v : Z) (m : gmap Z Z) : gmap Z Z := put8 (a + 1) (Z.shiftr v 8) (put8 a v m).
Definition put32 (a v : Z) (m : gmap Z Z) : gmap Z Z := put16 (a + 2) (Z.shiftr v 16) (put16 a v m).

(** An inode with one data block. *)
Definition put_inode (i type nlink sz b : Z) (m : gmap Z Z) : gmap Z Z :=
  put32 (dip i + 12) b (put32 (dip i + 8) sz (put16 (dip i + 6) nlink (put16 (dip i) type m))).

Definition put_entry (b h i : Z) (name : list Z) (m : gmap Z Z) : gmap Z Z :=
  foldr (fun '(k, c) m => put8 (blk b + 16 * h + 2 + Z.of_nat k) c m)
    (put16 (blk b + 16 * h) i m) (imap pair name).

(** Eight inodes, a bitmap at block 4 and 41 data blocks from block 5 on; the
    root directory lists two files [a] and [b], whose data blocks are [b1]
    and [b2]. *)
Definition two_files (b1 b2 : Z) : image :=
  let m :=
    (put32 512 46 ∘ put32 516 41 ∘ put32 520 8 ∘
     put_inode 1 1 1 512 5 ∘ put_inode 2 2 1 10 b1 ∘ put_inode 3 2 1 10 b2 ∘
     put8 2048 255 ∘
     put_entry 5 0 1 [dot] ∘ put_entry 5 1 1 [dot; dot] ∘
     put_entry 5 2 2 [97] ∘ put_entry 5 3 3 [98]) ∅ in
  Image (512 * 46) (fun a => default 0 (m !! a)).

(** Files with blocks of their own are accepted, a dangling address is not. *)
Lemma two_files_good : main 2 (Some (two_files 6 7)) = Done 0.
Proof. vm_compute. reflexivity. Qed.

Lemma two_files_bad :
  main 2 (Some (two_files 6 46)) = Exit1 "ERROR: bad direct address in inode.".
Proof. vm_compute. reflexivity. Qed.

(** Shared blocks are missed: the inner loop of check 7 ends at the number
    of inode blocks instead of the number of inodes, so an image in which two
    files in use have the same data block is accepted. *)
Theorem xfsck_misses_sharing :
  exists img L i j a, main 2 (Some img) = Done 0 /\ layout_of img = Done L /\
    i <> j /\ in_use img L i /\ in_use img L j /\ uses img i a /\ uses img j a.
Proof.
  set (L := Layout 46 41 8 1 1 46 5 45 8 2048).
  exists (two_files 6 6), L, 2, 3, 6.
  split_and!; [vm_compute; reflexivity|vm_compute; reflexivity|done| | | |].
  1,2: split; [split; vm_compute; congruence|exists 2; split; [vm_compute; reflexivity|done]].
  all: split; [done|left; exists 0; split; [done|vm_compute; reflexivity]].
Qed.
