(* ===== verification/Fs.v ===== *)
(** * The file system (kernel/fs.c): blocks, inodes, directories, names

    The disk is a byte-addressed memory; sector [b] is the 512 bytes from
    [512 * b] on.  [bread], a change of the buffer and [bwrite] are a read and
    a write of the sector; the buffer cache that makes this so is the subject
    of Bio.v.  The functions on file contents take the in-memory inode and the
    disk; the functions that use the inode cache take the whole state and the
    index of the inode in the cache.  [nsect] is the number of sectors of the
    disk; an access beyond them has no defined result.

    The spinlock of the cache makes its critical sections atomic.  A process
    that finds an inode locked sleeps; the functions here cover the runs in
    which the inode lock is free when it is taken. *)

From S2P Require Import Prelude Memory.

Definition BSIZE : Z := 512.
Definition NDIRECT : Z := 12.
Definition NINDIRECT : Z := 128.
Definition MAXFILE : Z := NDIRECT + NINDIRECT.
Definition IPB : Z := 8.
Definition BPB : Z := 4096.
Definition DIRSIZ : nat := 14.
Definition ROOTINO : Z := 1.
Definition ROOTDEV : Z := 1.
Definition NINODE : nat := 50.
Definition NDEV : Z := 10.
Definition T_DIR : Z := 1.
Definition T_FILE : Z := 2.
Definition T_DEV : Z := 3.

Definition IBLOCK (i : Z) : Z := i / IPB + 2.
Definition BBLOCK (b ninodes : Z) : Z := b / BPB + ninodes / IPB + 3.

(** The first byte of sector [b]. *)
Definition blk (b : Z) : Z := BSIZE * b.

Definition load16 (m : memory) (a : Z) : Z := rd8 m a + 2 ^ 8 * rd8 m (a + 1).
Definition store16 (m : memory) (a v : Z) : memory := wr8 (wr8 m a v) (a + 1) (v / 2 ^ 8).

(** [n] bytes from [a] on, and a write of bytes from [a] on. *)
Definition bytes_at (m : memory) (a n : Z) : list Z := (fun i => rd8 m (a + i)) <$> seqZ 0 n.
Fixpoint wr_bytes (m : memory) (a : Z) (l : list Z) : memory :=
  match l with
  | [] => m
  | b :: l => wr_bytes (wr8 m a b) (a + 1) l
  end.

(** ** In-memory inodes *)

Record inode := Inode {
  idev : Z; inum : Z; ref : Z; flags : Z;
  type : Z; major : Z; minor : Z; nlink : Z; size : Z; addrs : list Z
}.

Definition I_BUSY : Z := 1.
Definition I_VALID : Z := 2.

Definition i_ref v ip := Inode (idev ip) (inum ip) v (flags ip) (type ip) (major ip) (minor ip) (nlink ip) (size ip) (addrs ip).
Definition i_flags v ip := Inode (idev ip) (inum ip) (ref ip) v (type ip) (major ip) (minor ip) (nlink ip) (size ip) (addrs ip).
Definition i_type v ip := Inode (idev ip) (inum ip) (ref ip) (flags ip) v (major ip) (minor ip) (nlink ip) (size ip) (addrs ip).
Definition i_nlink v ip := Inode (idev ip) (inum ip) (ref ip) (flags ip) (type ip) (major ip) (minor ip) v (size ip) (addrs ip).
Definition i_size v ip := Inode (idev ip) (inum ip) (ref ip) (flags ip) (type ip) (major ip) (minor ip) (nlink ip) v (addrs ip).
Definition i_addrs v ip := Inode (idev ip) (inum ip) (ref ip) (flags ip) (type ip) (major ip) (minor ip) (nlink ip) (size ip) v.

Definition inode_zero : inode := Inode 0 0 0 0 0 0 0 0 0 (replicate 13 0).

(** The functions on an inode and the disk. *)
Abbreviation istate := (inode * memory)%type.

Section Blocks.
Context (nsect : Z).

Definition sector (b : Z) : outcome unit :=
  if decide (0 <= b < nsect) then Ret tt else Undef "sector outside the disk".

(** ** Blocks *)

(** The super block: [size], [nblocks] and [ninodes]. *)
Definition readsb (d : memory) : outcome (Z * Z * Z) :=
  _ ← sector 1;
  Ret (load32 d (blk 1), load32 d (blk 1 + 4), load32 d (blk 1 + 8)).

Definition bzero (b : Z) (d : memory) : outcome memory :=
  _ ← sector b; Ret (memset d (blk b) 0 BSIZE).

(** The first free bit from [bi] on, of the bitmap block at [bp]. *)
Fixpoint find_bit (n : nat) (bp bi : Z) (d : memory) : option Z :=
  match n with
  | O => None
  | S n =>
    let m := Z.shiftl 1 (bi mod 8) in
    if Z.land (rd8 d (bp + bi / 8)) m =? 0 then Some bi else find_bit n bp (bi + 1) d
  end.

Fixpoint balloc_loop (fuel : nat) (b size ninodes : Z) (d : memory) : outcome (Z * memory) :=
  match fuel with
  | O => Undef "loop bound"
  | S fuel =>
    if b <? size then
      _ ← sector (BBLOCK b ninodes);
      let bp := blk (BBLOCK b ninodes) in
      match find_bit (Z.to_nat BPB) bp 0 d with
      | Some bi =>
        let m := Z.shiftl 1 (bi mod 8) in
        Ret (b + bi, wr8 d (bp + bi / 8) (Z.lor (rd8 d (bp + bi / 8)) m))
      | None => balloc_loop fuel (b + BPB) size ninodes d
      end
    else Panic "balloc: out of blocks"
  end.

Definition balloc (d : memory) : outcome (Z * memory) :=
  '(size, _, ninodes) ← readsb d;
  balloc_loop (Z.to_nat (size / BPB) + 2) 0 size ninodes d.

Definition bfree (b : Z) (d : memory) : outcome memory :=
  d ← bzero b d;
  '(_, _, ninodes) ← readsb d;
  _ ← sector (BBLOCK b ninodes);
  let bp := blk (BBLOCK b ninodes) in
  let bi := b mod BPB in
  let m := Z.shiftl 1 (bi mod 8) in
  if Z.land (rd8 d (bp + bi / 8)) m =? 0 then Panic "freeing free block"
  else Ret (wr8 d (bp + bi / 8) (Z.ldiff (rd8 d (bp + bi / 8)) m)).

(** ** On-disk inodes *)

Definition dip (i : Z) : Z := blk (IBLOCK i) + 64 * (i mod IPB).

Fixpoint store_addrs (d : memory) (a : Z) (l : list Z) : memory :=
  match l with
  | [] => d
  | v :: l => store_addrs (store32 d a v) (a + 4) l
  end.

(** Copy an inode, which has changed, from memory to disk. *)
Definition iupdate (ip : inode) (d : memory) : outcome memory :=
  _ ← sector (IBLOCK (inum ip));
  let a := dip (inum ip) in
  let d := store16 d a (type ip) in
  let d := store16 d (a + 2) (major ip) in
  let d := store16 d (a + 4) (minor ip) in
  let d := store16 d (a + 6) (nlink ip) in
  let d := store32 d (a + 8) (size ip) in
  Ret (store_addrs d (a + 12) (addrs ip)).

(** The fields [ilock] reads from disk. *)
Definition load_inode (ip : inode) (d : memory) : inode :=
  let a := dip (inum ip) in
  Inode (idev ip) (inum ip) (ref ip) (flags ip)
    (i16 (load16 d a)) (i16 (load16 d (a + 2))) (i16 (load16 d (a + 4))) (i16 (load16 d (a + 6)))
    (load32 d (a + 8)) ((fun k => load32 d (a + 12 + 4 * k)) <$> seqZ 0 13).

(** ** Inode contents *)

(** The disk block of the [bn]th block of the file; allocates it when there is
    none. *)
Definition bmap (bn : Z) (s : istate) : outcome (Z * istate) :=
  let '(ip, d) := s in
  if bn <? NDIRECT then
    addr ← aget (addrs ip) bn;
    if addr =? 0 then
      '(addr, d) ← balloc d;
      l ← aset (addrs ip) bn addr;
      Ret (addr, (i_addrs l ip, d))
    else Ret (addr, (ip, d))
  else
    let bn := bn - NDIRECT in
    if bn <? NINDIRECT then
      addr ← aget (addrs ip) NDIRECT;
      '(addr, (ip, d)) ←
        (if addr =? 0 then
          '(addr, d) ← balloc d;
          l ← aset (addrs ip) NDIRECT addr;
          Ret (addr, (i_addrs l ip, d))
        else Ret (addr, (ip, d)));
      _ ← sector addr;
      let a := blk addr in
      let w := load32 d (a + 4 * bn) in
      if w =? 0 then
        '(w, d) ← balloc d;
        Ret (w, (ip, store32 d (a + 4 * bn) w))
      else Ret (w, (ip, d))
    else Panic "bmap: out of range".

(** Free the blocks of a list, skipping the empty slots. *)
Definition free_blocks (l : list Z) (d : memory) : outcome memory :=
  iterM (fun b d => if b =? 0 then Ret d else bfree b d) l d.

Definition itrunc (s : istate) : outcome istate :=
  let '(ip, d) := s in
  d ← free_blocks (take 12 (addrs ip)) d;
  let ip := i_addrs (replicate 12 0 ++ drop 12 (addrs ip)) ip in
  ind ← aget (addrs ip) NDIRECT;
  '(ip, d) ←
    (if ind =? 0 then Ret (ip, d)
    else
      _ ← sector ind;
      d ← free_blocks ((fun j => load32 d (blk ind + 4 * j)) <$> seqZ 0 NINDIRECT) d;
      d ← bfree ind d;
      l ← aset (addrs ip) NDIRECT 0;
      Ret (i_addrs l ip, d));
  let ip := i_size 0 ip in
  d ← iupdate ip d;
  Ret (ip, d).

(** [stati]: device, inode number, type, links, size. *)
Definition stati (ip : inode) : Z * Z * Z * Z * Z :=
  (idev ip, inum ip, type ip, nlink ip, size ip).

(** The loops of [readi] and [writei], with [n - tot] bytes left. *)
Fixpoint readi_loop (fuel : nat) (tot n off : Z) (acc : list Z) (s : istate)
  : outcome (list Z * istate) :=
  match fuel with
  | O => Undef "loop bound"
  | S fuel =>
    if tot <? n then
      '(addr, (ip, d)) ← bmap (off / BSIZE) s;
      _ ← sector addr;
      let m := Z.min (n - tot) (BSIZE - off mod BSIZE) in
      readi_loop fuel (tot + m) n (off + m)
        (acc ++ bytes_at d (blk addr + off mod BSIZE) m) (ip, d)
    else Ret (acc, s)
  end.

Fixpoint writei_loop (fuel : nat) (tot n off : Z) (src : list Z) (s : istate)
  : outcome (Z * istate) :=
  match fuel with
  | O => Undef "loop bound"
  | S fuel =>
    if tot <? n then
      '(addr, (ip, d)) ← bmap (off / BSIZE) s;
      _ ← sector addr;
      let m := Z.min (n - tot) (BSIZE - off mod BSIZE) in
      writei_loop fuel (tot + m) n (off + m) (drop (Z.to_nat m) src)
        (ip, wr_bytes d (blk addr + off mod BSIZE) (take (Z.to_nat m) src))
    else Ret (off, s)
  end.

Definition chunks (n : Z) : nat := Z.to_nat (n / BSIZE) + 3.

(** [readi] of a file or directory: the number of bytes and the bytes. *)
Definition readi_file (off n : Z) (s : istate) : outcome (Z * list Z * istate) :=
  let sz := size s.1 in
  if (sz <? off) || (u32 (off + n) <? off) then Ret (-1, [], s)
  else
    let n := if sz <? u32 (off + n) then sz - off else n in
    '(bs, s) ← readi_loop (chunks n) 0 n off [] s;
    Ret (n, bs, s).

(** [writei] of a file or directory, of the first [n] bytes of [src]. *)
Definition writei_file (src : list Z) (off n : Z) (s : istate) : outcome (Z * istate) :=
  if (size s.1 <? off) || (u32 (off + n) <? off) then Ret (-1, s)
  else
    let n := if MAXFILE * BSIZE <? u32 (off + n) then MAXFILE * BSIZE - off else n in
    '(off, (ip, d)) ← writei_loop (chunks n) 0 n off src s;
    if (0 <? n) && (size ip <? off) then
      let ip := i_size off ip in
      d ← iupdate ip d;
      Ret (n, (ip, d))
    else Ret (n, (ip, d)).
End Blocks.

(** ** The inode cache *)

(** [devs] is the state of the devices behind [devsw]. *)
Record fs (D : Type) := FS { dsk : memory; icache : list inode; devs : D }.
Arguments FS {D}.
Arguments dsk {D}.
Arguments icache {D}.
Arguments devs {D}.

Section Inodes.
Context {D : Type} (nsect : Z).
(** [devsw[major].read] and [.write], when they are set. *)
Context (dev_read : Z -> option (Z -> D -> outcome (Z * list Z * D))).
Context (dev_write : Z -> option (list Z -> Z -> D -> outcome (Z * D))).

Abbreviation fs := (fs D).

Definition set_dsk (d : memory) (s : fs) : fs := FS d (icache s) (devs s).
Definition set_icache (l : list inode) (s : fs) : fs := FS (dsk s) l (devs s).
Definition set_devs (v : D) (s : fs) : fs := FS (dsk s) (icache s) v.

Definition geti (i : nat) (s : fs) : outcome inode := aget (icache s) (Z.of_nat i).
Definition seti (i : nat) (ip : inode) (s : fs) : fs := set_icache (<[i := ip]> (icache s)) s.

(** Run a function on inode [i] and the disk. *)
Definition on_inode {A} (i : nat) (f : istate -> outcome (A * istate)) (s : fs)
  : outcome (A * fs) :=
  ip ← geti i s;
  '(a, (ip, d)) ← f (ip, dsk s);
  Ret (a, set_dsk d (seti i ip s)).

Definition iget_hit (num : Z) (ip : inode) : bool :=
  (0 <? ref ip) && (idev ip =? ROOTDEV) && (inum ip =? num).

(** Find the inode with number [num] and return the in-memory copy. *)
Definition iget (num : Z) (s : fs) : outcome (nat * fs) :=
  match list_find (fun ip => iget_hit num ip = true) (icache s) with
  | Some (i, ip) => Ret (i, seti i (i_ref (i32 (ref ip + 1)) ip) s)
  | None =>
    match list_find (fun ip => ref ip = 0) (icache s) with
    | None => Panic "iget: no inodes"
    | Some (i, ip) =>
      Ret (i, seti i (Inode ROOTDEV num 1 0 (type ip) (major ip) (minor ip) (nlink ip)
                        (size ip) (addrs ip)) s)
    end
  end.

(** Allocate a new inode with the given type. *)
Fixpoint ialloc_loop (fuel : nat) (num ninodes type : Z) (s : fs) : outcome (nat * fs) :=
  match fuel with
  | O => Undef "loop bound"
  | S fuel =>
    if num <? ninodes then
      _ ← sector nsect (IBLOCK num);
      if i16 (load16 (dsk s) (dip num)) =? 0 then
        let d := memset (dsk s) (dip num) 0 64 in
        iget num (set_dsk (store16 d (dip num) type) s)
      else ialloc_loop fuel (num + 1) ninodes type s
    else Panic "ialloc: no inodes"
  end.
Definition ialloc (type : Z) (s : fs) : outcome (nat * fs) :=
  '(_, _, ninodes) ← readsb nsect (dsk s);
  ialloc_loop (S (Z.to_nat ninodes)) 1 ninodes type s.

Definition idup (i : nat) (s : fs) : outcome fs :=
  ip ← geti i s; Ret (seti i (i_ref (i32 (ref ip + 1)) ip) s).

Definition flag (ip : inode) (f : Z) : bool := negb (Z.land (flags ip) f =? 0).

(** Lock the inode; reads it from disk when the copy is not valid. *)
Definition ilock (i : nat) (s : fs) : outcome fs :=
  ip ← geti i s;
  if ref ip <? 1 then Panic "ilock"
  else if flag ip I_BUSY then Undef "sleeps until the inode is unlocked"
  else
    let ip := i_flags (Z.lor (flags ip) I_BUSY) ip in
    if flag ip I_VALID then Ret (seti i ip s)
    else
      _ ← sector nsect (IBLOCK (inum ip));
      let ip := load_inode ip (dsk s) in
      let ip := i_flags (Z.lor (flags ip) I_VALID) ip in
      if type ip =? 0 then Panic "ilock: no type" else Ret (seti i ip s).

Definition iunlock (i : nat) (s : fs) : outcome fs :=
  ip ← geti i s;
  if negb (flag ip I_BUSY) || (ref ip <? 1) then Panic "iunlock"
  else Ret (seti i (i_flags (Z.ldiff (flags ip) I_BUSY) ip) s).

(** Drop a reference; the last one to an unlinked inode frees it. *)
Definition iput (i : nat) (s : fs) : outcome fs :=
  ip ← geti i s;
  s ← (if (ref ip =? 1) && flag ip I_VALID && (nlink ip =? 0) then
         if flag ip I_BUSY then Panic "iput busy"
         else
           '(ip, d) ← itrunc nsect (i_flags (Z.lor (flags ip) I_BUSY) ip, dsk s);
           let ip := i_type 0 ip in
           d ← iupdate nsect ip d;
           Ret (set_dsk d (seti i (i_flags 0 ip) s))
       else Ret s);
  ip ← geti i s;
  Ret (seti i (i_ref (i32 (ref ip - 1)) ip) s).

Definition iunlockput (i : nat) (s : fs) : outcome fs := s ← iunlock i s; iput i s.

(** [readi] and [writei], devices included. *)
Definition readi (i : nat) (off n : Z) (s : fs) : outcome (Z * list Z * fs) :=
  ip ← geti i s;
  if type ip =? T_DEV then
    if (major ip <? 0) || (NDEV <=? major ip) then Ret (-1, [], s)
    else
      match dev_read (major ip) with
      | None => Ret (-1, [], s)
      | Some read => '(r, bs, v) ← read n (devs s); Ret (r, bs, set_devs v s)
      end
  else
    '(r, s) ← on_inode i (fun st => '(r, bs, st) ← readi_file nsect off n st; Ret ((r, bs), st)) s;
    Ret (r.1, r.2, s).

Definition writei (i : nat) (src : list Z) (off n : Z) (s : fs) : outcome (Z * fs) :=
  ip ← geti i s;
  if type ip =? T_DEV then
    if (major ip <? 0) || (NDEV <=? major ip) then Ret (-1, s)
    else
      match dev_write (major ip) with
      | None => Ret (-1, s)
      | Some write => '(r, v) ← write src n (devs s); Ret (r, set_devs v s)
      end
  else on_inode i (writei_file nsect src off n) s.

(** ** Directories *)

Definition namecmp (s t : reader) : Z := strncmp s t DIRSIZ.

(** The entries of the block at [a] from offset [o] on: the offset and the
    inode number of the first one called [name]. *)
Fixpoint find_entry (n : nat) (name : reader) (d : memory) (a o : Z) : option (Z * Z) :=
  match n with
  | O => None
  | S n =>
    if load16 d (a + o) =? 0 then find_entry n name d a (o + 16)
    else if namecmp name (at_mem d (a + o + 2)) =? 0 then Some (o, load16 d (a + o))
    else find_entry n name d a (o + 16)
  end.

Fixpoint dirlookup_loop (fuel : nat) (name : reader) (off : Z) (s : istate)
  : outcome (option (Z * Z) * istate) :=
  match fuel with
  | O => Undef "loop bound"
  | S fuel =>
    if off <? size s.1 then
      '(addr, (ip, d)) ← bmap nsect (off / BSIZE) s;
      _ ← sector nsect addr;
      match find_entry 32 name d (blk addr) 0 with
      | Some (o, num) => Ret (Some (off + o, num), (ip, d))
      | None => dirlookup_loop fuel name (off + BSIZE) (ip, d)
      end
    else Ret (None, s)
  end.

(** Look for a directory entry: the index of its inode and the offset of the
    entry. *)
Definition dirlookup (dp : nat) (name : list Z) (s : fs) : outcome (option (nat * Z) * fs) :=
  ip ← geti dp s;
  if negb (type ip =? T_DIR) then Panic "dirlookup not DIR"
  else
    '(r, s) ← on_inode dp (dirlookup_loop (chunks (size ip)) (at_list name) 0) s;
    match r with
    | None => Ret (None, s)
    | Some (off, num) => '(i, s) ← iget num s; Ret (Some (i, off), s)
    end.

(** The offset of the first empty entry, or the size of the directory. *)
Fixpoint dirlink_loop (fuel : nat) (off : Z) (dp : nat) (s : fs) : outcome (Z * fs) :=
  match fuel with
  | O => Undef "loop bound"
  | S fuel =>
    ip ← geti dp s;
    if off <? size ip then
      '(r, de, s) ← readi dp off 16 s;
      if negb (r =? 16) then Panic "dirlink read"
      else if nth 0 de 0 + 2 ^ 8 * nth 1 de 0 =? 0 then Ret (off, s)
      else dirlink_loop fuel (off + 16) dp s
    else Ret (off, s)
  end.

(** The bytes of a directory entry. *)
Definition dirent (num : Z) (name : list Z) : list Z :=
  u8 num :: u8 (num / 2 ^ 8) :: strncpy (at_list name) DIRSIZ.

(** Write a new directory entry. *)
Definition dirlink (dp : nat) (name : list Z) (num : Z) (s : fs) : outcome (Z * fs) :=
  '(r, s) ← dirlookup dp name s;
  match r with
  | Some (i, _) => s ← iput i s; Ret (-1, s)
  | None =>
    ip ← geti dp s;
    '(off, s) ← dirlink_loop (S (Z.to_nat (size ip / 16)) + 1) 0 dp s;
    '(r, s) ← writei dp (dirent num name) off 16 s;
    if negb (r =? 16) then Panic "dirlink" else Ret (0, s)
  end.

(** ** Paths

    A path is the list of its bytes without the final NUL. *)

Definition SLASH : Z := 47.

Fixpoint skip_slashes (path : list Z) : list Z :=
  match path with
  | c :: p => if c =? SLASH then skip_slashes p else path
  | [] => []
  end.

(** The bytes up to the next slash, and the rest. *)
Fixpoint span_elem (path : list Z) : list Z * list Z :=
  match path with
  | c :: p => if c =? SLASH then ([], path) else let '(e, r) := span_elem p in (c :: e, r)
  | [] => ([], [])
  end.

(** The rest of the path and the name copied; [None] when there is no name. *)
Definition skipelem (path : list Z) : option (list Z * list Z) :=
  match skip_slashes path with
  | [] => None
  | p => let '(e, r) := span_elem p in Some (skip_slashes r, take DIRSIZ e)
  end.

Fixpoint namex_loop (fuel : nat) (path : list Z) (nameiparent : bool) (name : list Z) (ip : nat) (s : fs)
  : outcome (option nat * list Z * fs) :=
  match fuel with
  | O => Undef "loop bound"
  | S fuel =>
    match skipelem path with
    | None =>
      if nameiparent then s ← iput ip s; Ret (None, name, s)
      else Ret (Some ip, name, s)
    | Some (path, name) =>
      s ← ilock ip s;
      i ← geti ip s;
      if negb (type i =? T_DIR) then s ← iunlockput ip s; Ret (None, name, s)
      else if nameiparent && (length path =? 0)%nat then
        s ← iunlock ip s; Ret (Some ip, name, s)
      else
        '(r, s) ← dirlookup ip name s;
        s ← iunlockput ip s;
        match r with
        | None => Ret (None, name, s)
        | Some (next, _) => namex_loop fuel path nameiparent name next s
        end
    end
  end.

(** The inode of a path, or the inode of its parent and the last name. *)
Definition namex (path : list Z) (nameiparent : bool) (cwd : nat) (s : fs)
  : outcome (option nat * list Z * fs) :=
  '(ip, s) ←
    (match path with
     | c :: _ => if c =? SLASH then iget ROOTINO s else s ← idup cwd s; Ret (cwd, s)
     | [] => s ← idup cwd s; Ret (cwd, s)
     end);
  namex_loop (S (length path)) path nameiparent [] ip s.

Definition namei (path : list Z) (cwd : nat) (s : fs) : outcome (option nat * fs) :=
  '(r, _, s) ← namex path false cwd s; Ret (r, s).

Definition nameiparent (path : list Z) (cwd : nat) (s : fs) : outcome (option nat * list Z * fs) :=
  namex path true cwd s.
End Inodes.
