(* ===== verification/FsData.v ===== *)
(** * Correctness of blocks and file contents (kernel/fs.c)

    The bitmap and the free blocks, the block map of an inode, and what
    [readi], [writei] and [itrunc] do to the contents of a file.  A disk is in
    order ([meta]) when the super block is the expected one, the blocks before
    the data area are marked, and free blocks are zero; an inode is in order
    ([wfi]) when its blocks are marked data blocks, all different, and cover
    its size. *)

From S2P Require Import Prelude Memory Fs.

(** Addresses of sectors. *)
Lemma blk_sep b c o p :
  b <> c -> 0 <= o < BSIZE -> 0 <= p < BSIZE -> blk b + o <> blk c + p.
Proof. unfold blk, BSIZE. lia. Qed.

Lemma rd8_wr_bytes m a l x :
  Forall is_u8 l ->
  rd8 (wr_bytes m a l) x =
  if decide (a <= x < a + Z.of_nat (length l)) then nth (Z.to_nat (x - a)) l 0 else rd8 m x.
Proof.
  intros H. revert m a. induction H as [|b l Hb H IH]; intros m a; simpl wr_bytes.
  { case_decide; [simpl in *; lia|done]. }
  rewrite IH, rd8_wr8. cbn [length]. repeat case_decide; try lia; try done.
  - replace (Z.to_nat (x - a)) with (S (Z.to_nat (x - (a + 1)))) by lia. done.
  - subst. replace (x - x) with 0 by lia. simpl. by apply u8_small.
Qed.

(** ** On-disk inodes *)

(** Directory entries are 16 bytes. *)
Lemma dirent_length num name : length (dirent num name) = 16%nat.
Proof. unfold dirent. cbn [length]. by rewrite strncpy_length. Qed.

Lemma strncpy_u8 name n : Forall is_u8 name -> Forall is_u8 (strncpy (at_list name) n).
Proof.
  revert name. induction n as [|n IH]; intros name H; [constructor|]. cbn [strncpy].
  assert (Forall is_u8 (0 :: replicate n 0)) as H0
    by (apply Forall_cons; split; [|apply Forall_replicate]; unfold is_u8; lia).
  destruct name as [|c name]; [done|]. cbn [at_list nth]. destruct (_ =? 0); [done|].
  apply Forall_cons in H as [Hc H]. constructor; [done|]. by apply IH.
Qed.

Lemma dirent_u8 num name : Forall is_u8 name -> Forall is_u8 (dirent num name).
Proof. intros H. repeat constructor; try apply u8_range. by apply strncpy_u8. Qed.

Lemma rd8_store16_ne m a v b : ~ (a <= b < a + 2) -> rd8 (store16 m a v) b = rd8 m b.
Proof. intros. unfold store16. by rewrite !rd8_wr8_ne by lia. Qed.

Lemma load16_store16_eq m a v : load16 (store16 m a v) a = u16 v.
Proof.
  unfold load16, store16. rewrite rd8_wr8_eq, rd8_wr8_ne, rd8_wr8_eq by lia. unfold u8, u16. dm.
Qed.

Lemma load16_ext m m' a : (forall b, a <= b < a + 2 -> rd8 m' b = rd8 m b) -> load16 m' a = load16 m a.
Proof. intros H. unfold load16. by rewrite !H by lia. Qed.

Lemma rd8_store_addrs_ne l m a b :
  ~ (a <= b < a + 4 * Z.of_nat (length l)) -> rd8 (store_addrs m a l) b = rd8 m b.
Proof.
  revert m a. induction l as [|v l IH]; intros m a H; simpl; [done|]. cbn [length] in H.
  rewrite IH by lia. apply rd8_store32_ne. lia.
Qed.

Lemma load32_store_addrs l m a k :
  0 <= k < Z.of_nat (length l) ->
  load32 (store_addrs m a l) (a + 4 * k) = u32 (nth (Z.to_nat k) l 0).
Proof.
  revert m a k. induction l as [|v l IH]; intros m a k Hk; cbn [length] in Hk; [lia|].
  cbn [store_addrs]. destruct (decide (k = 0)) as [->|Hne].
  - rewrite Z.add_0_r. rewrite <- load32_store32_eq with (m := m) (a := a). apply load32_ext.
    intros b Hb. apply rd8_store_addrs_ne. lia.
  - replace (a + 4 * k) with (a + 4 + 4 * (k - 1)) by lia. rewrite IH by lia.
    replace (Z.to_nat k) with (S (Z.to_nat (k - 1))) by lia. done.
Qed.

Section Disk.
Context (nsect fsize fninodes : Z).

(** The first block of the bitmap and of the data area. *)
Definition bmstart : Z := fninodes / IPB + 3.
Definition dstart : Z := bmstart + (fsize + BPB - 1) / BPB.

Record geometry : Prop := {
  g_inodes : 0 < fninodes < 2 ^ 30;
  g_data : dstart < fsize;
  g_disk : fsize <= nsect;
  g_width : fsize < 2 ^ 30
}.
Context (G : geometry).

(** ** The bitmap *)

Definition bit (d : memory) (b : Z) : bool :=
  Z.testbit (rd8 d (blk bmstart + b / 8)) (b mod 8).
Definition setbit (d : memory) (b : Z) : memory :=
  wr8 d (blk bmstart + b / 8) (Z.lor (rd8 d (blk bmstart + b / 8)) (Z.shiftl 1 (b mod 8))).
Definition clearbit (d : memory) (b : Z) : memory :=
  wr8 d (blk bmstart + b / 8) (Z.ldiff (rd8 d (blk bmstart + b / 8)) (Z.shiftl 1 (b mod 8))).

Lemma byte_bit_u8 d a k : 0 <= k -> Z.testbit (rd8 d a) k = (k <? 8) && Z.testbit (rd8 d a) k.
Proof.
  intros Hk. rewrite <- (u8_small (rd8 d a)) by auto with xv6. rewrite u8_testbit by done.
  by destruct (k <? 8).
Qed.

Lemma bit_setbit d b c :
  bit (setbit d b) c = if decide (b = c) then true else bit d c.
Proof.
  unfold bit, setbit. rewrite rd8_wr8.
  case_decide as E; [|rewrite decide_False by congruence; done].
  assert (b / 8 = c / 8) as Ed by lia. rewrite u8_testbit by dm.
  rewrite Z.lor_spec, Z.shiftl_1_l, Z.pow2_bits_eqb by dm.
  rewrite (proj2 (Z.ltb_lt (c mod 8) 8)) by dm. rewrite Ed. simpl.
  destruct (decide (b = c)) as [->|F]; [rewrite Z.eqb_refl; apply orb_true_r|].
  rewrite (proj2 (Z.eqb_neq _ _)) by dm. by rewrite orb_false_r.
Qed.

Lemma bit_clearbit d b c :
  bit (clearbit d b) c = if decide (b = c) then false else bit d c.
Proof.
  unfold bit, clearbit. rewrite rd8_wr8.
  case_decide as E; [|rewrite decide_False by congruence; done].
  assert (b / 8 = c / 8) as Ed by lia. rewrite u8_testbit by dm.
  rewrite Z.ldiff_spec, Z.shiftl_1_l, Z.pow2_bits_eqb by dm.
  rewrite (proj2 (Z.ltb_lt (c mod 8) 8)) by dm. rewrite Ed. simpl.
  destruct (decide (b = c)) as [->|F]; [rewrite Z.eqb_refl; apply andb_false_r|].
  rewrite (proj2 (Z.eqb_neq _ _)) by dm. by rewrite andb_true_r.
Qed.

(** Changes of the bitmap stay in the bitmap. *)
Lemma bitmap_byte b : 0 <= b < fsize -> blk bmstart <= blk bmstart + b / 8 < blk dstart.
Proof. intros H. unfold blk, dstart, BSIZE, BPB. dm. Qed.

Definition outside_bitmap (a : Z) : Prop := a < blk bmstart \/ blk dstart <= a.

Lemma rd8_setbit d b a : 0 <= b < fsize -> outside_bitmap a -> rd8 (setbit d b) a = rd8 d a.
Proof.
  intros Hb Ha. pose proof (bitmap_byte b Hb). unfold outside_bitmap in Ha.
  apply rd8_wr8_ne. lia.
Qed.

Lemma rd8_clearbit d b a : 0 <= b < fsize -> outside_bitmap a -> rd8 (clearbit d b) a = rd8 d a.
Proof.
  intros Hb Ha. pose proof (bitmap_byte b Hb). unfold outside_bitmap in Ha.
  apply rd8_wr8_ne. lia.
Qed.

(** ** Allocation *)

Lemma find_bit_spec n bp bi d :
  0 <= bi ->
  match find_bit n bp bi d with
  | Some r => bi <= r < bi + Z.of_nat n /\ Z.testbit (rd8 d (bp + r / 8)) (r mod 8) = false /\
      forall j, bi <= j < r -> Z.testbit (rd8 d (bp + j / 8)) (j mod 8) = true
  | None => forall j, bi <= j < bi + Z.of_nat n -> Z.testbit (rd8 d (bp + j / 8)) (j mod 8) = true
  end.
Proof.
  revert bi. induction n as [|n IH]; intros bi Hbi; cbn [find_bit]; [intros; lia|].
  rewrite land_shiftl_1 by dm.
  destruct (Z.testbit (rd8 d (bp + bi / 8)) (bi mod 8)) eqn:E; simpl.
  - specialize (IH (bi + 1) ltac:(lia)). destruct (find_bit n bp (bi + 1) d) as [r|].
    + destruct IH as (Hr & Hb & Hj). split_and!; [lia..|done|].
      intros j Hjr. destruct (decide (j = bi)) as [->|]; [done|]. apply Hj. lia.
    + intros j Hj. destruct (decide (j = bi)) as [->|]; [done|]. apply IH. lia.
  - split_and!; [lia..|done|]. intros; lia.
Qed.

Record meta (d : memory) : Prop := {
  m_size : load32 d (blk 1) = fsize;
  m_ninodes : load32 d (blk 1 + 8) = fninodes;
  m_bits : forall b, 0 <= b < dstart -> bit d b = true;
  m_zero : forall b o, dstart <= b < fsize -> bit d b = false -> 0 <= o < BSIZE ->
    rd8 d (blk b + o) = 0
}.

Lemma BBLOCK_addr b : 0 <= b -> blk (BBLOCK b fninodes) + b mod BPB / 8 = blk bmstart + b / 8.
Proof. intros Hb. unfold BBLOCK, blk, bmstart, BSIZE, BPB, IPB. dm. Qed.

Lemma BBLOCK_sector b : 0 <= b < fsize -> sector nsect (BBLOCK b fninodes) = Ret tt.
Proof.
  intros Hb. destruct G. unfold sector. rewrite decide_True; [done|].
  unfold dstart, bmstart, BBLOCK, BPB, IPB in *. dm.
Qed.

Lemma balloc_loop_spec d f fuel : forall b,
  0 <= b -> b mod BPB = 0 -> b <= f -> BPB * (f / BPB) < fsize -> bit d f = false ->
  (forall c, 0 <= c < b -> bit d c = true) -> f / BPB - b / BPB < Z.of_nat fuel ->
  exists r, balloc_loop nsect fuel b fsize fninodes d = Ret (r, setbit d r) /\
    b <= r <= f /\ bit d r = false /\ forall c, 0 <= c < r -> bit d c = true.
Proof.
  induction fuel as [|fuel IH]; intros b Hb Hm Hf Hfs Hbit Hlow Hfuel.
  { unfold BPB in *. dm. }
  assert (Hbs : b < fsize) by (unfold BPB in *; dm).
  cbn [balloc_loop]. rewrite (proj2 (Z.ltb_lt b fsize)) by lia.
  rewrite BBLOCK_sector by lia. cbn [mbind outcome_bind].
  assert (Haddr : forall j, 0 <= j < BPB ->
    blk (BBLOCK b fninodes) + j / 8 = blk bmstart + (b + j) / 8 /\ j mod 8 = (b + j) mod 8).
  { intros j Hj. unfold BBLOCK, blk, bmstart, BSIZE, BPB, IPB in *. dm. }
  pose proof (find_bit_spec (Z.to_nat BPB) (blk (BBLOCK b fninodes)) 0 d ltac:(lia)) as H.
  destruct (find_bit _ _ 0 d) as [r|].
  - destruct H as (Hr & Hc & Hj). rewrite Z2Nat.id in Hr by (unfold BPB; lia).
    exists (b + r). destruct (Haddr r ltac:(lia)) as [E1 E2]. split_and!.
    + unfold setbit. by rewrite E1, E2.
    + lia.
    + destruct (decide (b + r <= f)) as [|Hlt]; [done|].
      specialize (Hj (f - b) ltac:(lia)).
      destruct (Haddr (f - b) ltac:(lia)) as [F1 F2]. rewrite F1, F2 in Hj.
      replace (b + (f - b)) with f in Hj by lia. unfold bit in Hbit. congruence.
    + unfold bit. by rewrite <- E1, <- E2.
    + intros c Hcr. destruct (decide (c < b)); [apply Hlow; lia|].
      specialize (Hj (c - b) ltac:(lia)). destruct (Haddr (c - b) ltac:(lia)) as [F1 F2].
      rewrite F1, F2 in Hj. by replace (b + (c - b)) with c in Hj by lia.
  - assert (Hset : forall c, 0 <= c < b + BPB -> bit d c = true).
    { intros c Hc. destruct (decide (c < b)); [apply Hlow; lia|].
      specialize (H (c - b)). rewrite Z2Nat.id in H by (unfold BPB; lia).
      destruct (Haddr (c - b) ltac:(lia)) as [F1 F2]. rewrite F1, F2 in H.
      replace (b + (c - b)) with c in H by lia. apply H. lia. }
    assert (b + BPB <= f).
    { destruct (decide (f < b + BPB)); [|lia]. rewrite Hset in Hbit by lia. discriminate. }
    assert (Hb' : (b + BPB) mod BPB = 0) by (unfold BPB in *; dm).
    assert (Hf' : f / BPB - (b + BPB) / BPB < Z.of_nat fuel) by (unfold BPB in *; dm).
    destruct (IH (b + BPB) ltac:(unfold BPB in *; lia) Hb' ltac:(lia) Hfs Hbit Hset Hf')
      as (r & E & Hr & H1 & H2).
    exists r. split_and!; try done; unfold BPB in *; lia.
Qed.

Lemma sector_ok b : 0 <= b < nsect -> sector nsect b = Ret tt.
Proof. intros. unfold sector. by rewrite decide_True. Qed.

Lemma readsb_meta d : meta d -> exists n, readsb nsect d = Ret (fsize, n, fninodes).
Proof.
  intros [E1 E2 _ _]. exists (load32 d (blk 1 + 4)). unfold readsb.
  rewrite sector_ok, E1, E2; [done|]. destruct G. unfold dstart, bmstart, IPB, BPB in *. dm.
Qed.

Lemma dstart_pos : 3 <= bmstart < dstart.
Proof. destruct G. unfold dstart, bmstart, IPB, BPB in *. dm. Qed.

(** [balloc] takes the lowest free block. *)
Lemma balloc_spec d f :
  meta d -> dstart <= f < fsize -> bit d f = false ->
  exists r, balloc nsect d = Ret (r, setbit d r) /\ dstart <= r <= f /\ bit d r = false /\
    forall c, 0 <= c < r -> bit d c = true.
Proof.
  intros M Hf Hbit. destruct (readsb_meta d M) as (n & E). unfold balloc. rewrite E.
  cbn [mbind outcome_bind]. pose proof dstart_pos.
  destruct (balloc_loop_spec d f (Z.to_nat (fsize / BPB) + 2) 0) as (r & Er & Hr & Hb & Hc); try lia; try done.
  { unfold BPB. dm. }
  { unfold BPB. dm. }
  exists r. split_and!; try done; [|lia].
  destruct (decide (dstart <= r)); [done|]. rewrite (m_bits d M) in Hb by lia. discriminate.
Qed.

(** ** Free blocks *)

Definition nfree (d : memory) : Z :=
  Z.of_nat (length (filter (fun b => bit d b = false) (seqZ dstart (fsize - dstart)))).

Lemma nfree_pos d : 0 < nfree d -> exists f, dstart <= f < fsize /\ bit d f = false.
Proof.
  unfold nfree. destruct (filter _ _) as [|f l] eqn:E; [simpl; lia|]. intros _.
  assert (f ∈ filter (fun b => bit d b = false) (seqZ dstart (fsize - dstart))) as Hf
    by (rewrite E; left).
  apply list_elem_of_filter in Hf as [Hf Hr]. apply elem_of_seqZ in Hr. exists f. split; [lia|done].
Qed.

Lemma nfree_zero d r : nfree d = 0 -> dstart <= r < fsize -> bit d r <> false.
Proof.
  unfold nfree. intros H Hr Hb.
  assert (r ∈ filter (fun b => bit d b = false) (seqZ dstart (fsize - dstart))) as Hin
    by (apply list_elem_of_filter; split; [done|apply elem_of_seqZ; lia]).
  destruct (filter _ _); [by apply not_elem_of_nil in Hin|simpl in H; lia].
Qed.

Lemma nfree_setbit d r : dstart <= r < fsize -> bit d r = false -> nfree (setbit d r) = nfree d - 1.
Proof.
  intros Hr Hb. pose proof dstart_pos. unfold nfree.
  rewrite (length_filter_remove (fun b => bit d b = false) (fun b => bit (setbit d r) b = false) _ r).
  - lia.
  - apply NoDup_seqZ.
  - apply elem_of_seqZ. lia.
  - done.
  - by rewrite bit_setbit, decide_True by lia.
  - intros x Hx. by rewrite bit_setbit, decide_False by congruence.
Qed.

Lemma nfree_clearbit d r : dstart <= r < fsize -> bit d r = true -> nfree (clearbit d r) = nfree d + 1.
Proof.
  intros Hr Hb. unfold nfree.
  rewrite (length_filter_remove (fun b => bit (clearbit d r) b = false) (fun b => bit d b = false) _ r).
  - lia.
  - apply NoDup_seqZ.
  - apply elem_of_seqZ. lia.
  - by rewrite bit_clearbit, decide_True by lia.
  - congruence.
  - intros x Hx. by rewrite bit_clearbit, decide_False by congruence.
Qed.

(** The number of free blocks depends only on the bitmap. *)
Lemma nfree_ext d d' : (forall b, dstart <= b < fsize -> bit d' b = bit d b) -> nfree d' = nfree d.
Proof.
  intros H. unfold nfree. f_equal. f_equal. apply filter_agree.
  intros x Hx%elem_of_seqZ. rewrite H by lia. done.
Qed.

(** [meta] after a change outside the metadata and the free blocks. *)
Lemma meta_ext d d' :
  meta d -> (forall a, 0 <= a < blk 2 -> rd8 d' a = rd8 d a) ->
  (forall b, 0 <= b < fsize -> bit d' b = bit d b) ->
  (forall b o, dstart <= b < fsize -> bit d b = false -> 0 <= o < BSIZE ->
     rd8 d' (blk b + o) = rd8 d (blk b + o)) -> meta d'.
Proof.
  intros [E1 E2 Hb Hz] Hs Hbit Hfree. pose proof dstart_pos. destruct G. split.
  - rewrite <- E1. apply load32_ext. intros a Ha. apply Hs. unfold blk, BSIZE in *. lia.
  - rewrite <- E2. apply load32_ext. intros a Ha. apply Hs. unfold blk, BSIZE in *. lia.
  - intros b Hr. rewrite Hbit by lia. auto.
  - intros b o Hr Hf Ho. rewrite Hbit in Hf by lia. rewrite Hfree by done. auto.
Qed.

Lemma meta_setbit d r : meta d -> dstart <= r < fsize -> meta (setbit d r).
Proof.
  intros [E1 E2 Hb Hz] Hr. pose proof dstart_pos. split.
  - rewrite <- E1. apply load32_ext. intros a Ha. apply rd8_setbit; [lia|].
    left. unfold blk, BSIZE in *. lia.
  - rewrite <- E2. apply load32_ext. intros a Ha. apply rd8_setbit; [lia|].
    left. unfold blk, BSIZE in *. lia.
  - intros b Hbr. rewrite bit_setbit, decide_False by lia. auto.
  - intros b o Hbr Hf Ho. rewrite bit_setbit in Hf.
    destruct (decide (r = b)); [discriminate|]. rewrite rd8_setbit; [auto|lia|].
    right. unfold blk, BSIZE in *. lia.
Qed.

(** ** The block map of an inode

    The slots of an inode are its 12 direct addresses, the address of the
    indirect block (slot 12), and the words of the indirect block. *)

Definition ind (ip : inode) : Z := nth 12 (addrs ip) 0.
Definition slot (d : memory) (ip : inode) (s : Z) : Z :=
  if s <? 13 then nth (Z.to_nat s) (addrs ip) 0
  else if ind ip =? 0 then 0 else load32 d (blk (ind ip) + 4 * (s - 13)).

(** The slot of the [k]th block of the file, its address, and the bytes of the
    file; blocks that are not there read as zeros. *)
Definition dslot (k : Z) : Z := if k <? 12 then k else k + 1.
Definition dblk (d : memory) (ip : inode) (k : Z) : Z := slot d ip (dslot k).
Definition fbyte (d : memory) (ip : inode) (x : Z) : Z :=
  let b := dblk d ip (x / BSIZE) in if b =? 0 then 0 else rd8 d (blk b + x mod BSIZE).

Record wfi (d : memory) (ip : inode) : Prop := {
  w_len : length (addrs ip) = 13%nat;
  w_slot : forall s, 0 <= s < 141 -> slot d ip s <> 0 ->
    dstart <= slot d ip s < fsize /\ bit d (slot d ip s) = true;
  w_inj : forall s t, 0 <= s < 141 -> 0 <= t < 141 -> slot d ip s <> 0 ->
    slot d ip s = slot d ip t -> s = t;
  w_size : 0 <= size ip <= MAXFILE * BSIZE;
  w_alloc : forall k, 0 <= k -> BSIZE * k < size ip -> dblk d ip k <> 0;
  w_inum : 0 <= inum ip < fninodes
}.

(** Block [b] belongs to the file. *)
Definition owns (d : memory) (ip : inode) (b : Z) : Prop :=
  b <> 0 /\ exists s, 0 <= s < 141 /\ slot d ip s = b.

(** What allocating blocks for [ip] does: the file keeps its bytes and its
    blocks, the bytes of marked blocks other than the indirect block stay,
    marked blocks stay marked, and new marks are new blocks of the file. *)
Record grows (d : memory) (ip : inode) (d' : memory) (ip' : inode) : Prop := {
  gr_fields : ip' = i_addrs (addrs ip') ip;
  gr_meta : meta d';
  gr_wf : wfi d' ip';
  gr_bytes : forall x, 0 <= x < MAXFILE * BSIZE -> fbyte d' ip' x = fbyte d ip x;
  gr_slots : forall s, 0 <= s < 141 -> slot d ip s <> 0 -> slot d' ip' s = slot d ip s;
  gr_frame : forall b o, dstart <= b < fsize -> bit d b = true -> b <> ind ip -> 0 <= o < BSIZE ->
    rd8 d' (blk b + o) = rd8 d (blk b + o);
  gr_low : forall a, 0 <= a < blk bmstart -> rd8 d' a = rd8 d a;
  gr_marks : forall b, 0 <= b < fsize -> bit d b = true -> bit d' b = true;
  gr_new : forall b, 0 <= b < fsize -> bit d' b = true -> bit d b = true \/ owns d' ip' b;
  gr_fresh : forall s, 0 <= s < 141 -> slot d ip s = 0 -> slot d' ip' s <> 0 ->
    bit d (slot d' ip' s) = false
}.

Lemma grows_refl d ip : meta d -> wfi d ip -> grows d ip d ip.
Proof. intros M W. split; auto; try congruence. by destruct ip. Qed.

Lemma slot_ind d ip : slot d ip 12 = ind ip.
Proof. done. Qed.

Lemma grows_trans d ip d1 ip1 d2 ip2 :
  grows d ip d1 ip1 -> grows d1 ip1 d2 ip2 -> grows d ip d2 ip2.
Proof.
  intros [F1 M1 W1 B1 S1 R1 L1 K1 N1 H1] [F2 M2 W2 B2 S2 R2 L2 K2 N2 H2]. split; auto.
  - rewrite F2, F1. done.
  - intros x Hx. rewrite B2, B1 by done. done.
  - intros s Hs Hn. rewrite S2, S1; auto. rewrite S1; auto.
  - intros b o Hb Hbit Hi Ho. pose proof dstart_pos. rewrite R2, R1; auto; [apply K1; auto; lia|].
    intros ->. rewrite <- slot_ind with (d := d1) in *.
    destruct (decide (slot d ip 12 = 0)) as [E|E].
    + rewrite H1 in Hbit by (auto; lia). discriminate.
    + apply Hi. rewrite <- (slot_ind d ip). symmetry. rewrite (slot_ind d1 ip1).
      rewrite <- (slot_ind d1 ip1). symmetry. apply S1; [lia|done].
  - intros a Ha. rewrite L2, L1 by done. done.
  - intros b Hb Hbit. destruct (N2 b Hb Hbit) as [Hb1|]; [|by right].
    destruct (N1 b Hb Hb1) as [|(Hn & s & Hs & E)]; [by left|right].
    split; [done|]. exists s. split; [done|]. rewrite S2; congruence.
  - intros s Hs E0 E2. destruct (decide (slot d1 ip1 s = 0)) as [E|E].
    + pose proof (H2 s Hs E E2) as Hf. pose proof dstart_pos.
      destruct (w_slot _ _ W2 s Hs E2) as [Hr _].
      destruct (bit d (slot d2 ip2 s)) eqn:Eb; [|done].
      rewrite K1 in Hf by (auto; lia). discriminate.
    + rewrite S2 by done. by apply H1.
Qed.

(** Storing the fresh block [r] in the empty slot [s]. *)
Section Grow.
Context (d : memory) (ip : inode) (d' : memory) (ip' : inode) (s r : Z).
Context (M : meta d) (W : wfi d ip) (Hs : 0 <= s < 141) (E0 : slot d ip s = 0).
Context (Hr : dstart <= r < fsize) (Hbit : bit d r = false).
Context (Hf : ip' = i_addrs (addrs ip') ip) (Hlen : length (addrs ip') = 13%nat).
Context (Es : slot d' ip' s = r).
Context (Et : forall t, 0 <= t < 141 -> t <> s -> slot d' ip' t = slot d ip t).
Context (Hind : ind ip = 0 -> s < 13).
Context (Hd : forall a, s < 13 \/ ~ (blk (ind ip) <= a < blk (ind ip) + BSIZE) ->
  rd8 d' a = rd8 (setbit d r) a).

Lemma grow_ind_marked : 13 <= s -> dstart <= ind ip < fsize /\ bit d (ind ip) = true.
Proof.
  intros H. rewrite <- (slot_ind d ip). apply (w_slot _ _ W); [lia|].
  rewrite slot_ind. intros E. specialize (Hind E). lia.
Qed.

Lemma grow_byte b o :
  dstart <= b < fsize -> 0 <= o < BSIZE -> s < 13 \/ b <> ind ip ->
  rd8 d' (blk b + o) = rd8 d (blk b + o).
Proof.
  intros Hb Ho Hi. pose proof dstart_pos. rewrite Hd.
  - apply rd8_setbit; [lia|]. right. unfold blk, BSIZE in *. lia.
  - destruct Hi as [|Hi]; [by left|right]. unfold blk, BSIZE in *. lia.
Qed.

Lemma grow_low a : a < blk bmstart -> rd8 d' a = rd8 d a.
Proof.
  intros Ha. pose proof dstart_pos. rewrite Hd.
  - apply rd8_setbit; [lia|by left].
  - destruct (decide (s < 13)); [by left|right].
    destruct grow_ind_marked as [Hi _]; [lia|]. unfold blk, BSIZE in *. lia.
Qed.

Lemma grow_bit b : 0 <= b < fsize -> bit d' b = if decide (r = b) then true else bit d b.
Proof.
  intros Hb. rewrite <- bit_setbit. unfold bit. rewrite Hd; [done|].
  pose proof (bitmap_byte b Hb). destruct (decide (s < 13)); [by left|right].
  destruct grow_ind_marked as [Hi _]; [lia|]. unfold blk, BSIZE in *. lia.
Qed.

Lemma grow_meta : meta d'.
Proof.
  pose proof dstart_pos. destruct M as [E1 E2 Hb Hz]. split.
  - rewrite <- E1. apply load32_ext. intros a Ha. apply grow_low. unfold blk, BSIZE in *. lia.
  - rewrite <- E2. apply load32_ext. intros a Ha. apply grow_low. unfold blk, BSIZE in *. lia.
  - intros b Hbr. rewrite grow_bit, decide_False by lia. auto.
  - intros b o Hbr Hfr Ho. rewrite grow_bit in Hfr by lia.
    destruct (decide (r = b)); [discriminate|]. rewrite grow_byte; auto.
    destruct (decide (s < 13)); [by left|right]. intros ->.
    destruct grow_ind_marked as [_ Hm]; [lia|]. congruence.
Qed.

Lemma slot_dec t : t = s \/ t <> s.
Proof. lia. Qed.

Lemma grow_wfi : wfi d' ip'.
Proof.
  pose proof dstart_pos. destruct W as [_ Hw Hi Hsz Ha Hn]. split; auto.
  - intros t Ht Hnz. destruct (slot_dec t) as [->|Hts].
    + rewrite Es. split; [done|]. by rewrite grow_bit, decide_True by lia.
    + rewrite Et in * by done. destruct (Hw t Ht Hnz) as [Hrg Hm]. split; [done|].
      rewrite grow_bit by lia. by destruct (decide (r = slot d ip t)).
  - intros t u Ht Hu Hnz E.
    destruct (slot_dec t) as [->|Hts], (slot_dec u) as [->|Hus]; auto.
    + rewrite Es, Et in E by done. destruct (Hw u Hu) as [_ Hm]; [congruence|]. congruence.
    + rewrite Es, Et in E by done. destruct (Hw t Ht) as [_ Hm]; [rewrite E; lia|]. congruence.
    + rewrite !Et in * by done. by apply Hi.
  - rewrite Hf. done.
  - intros k Hk Hsize. unfold dblk. destruct (slot_dec (dslot k)) as [->|Hks]; [rewrite Es; lia|].
    rewrite Hf in Hsize. simpl in Hsize.
    rewrite Et; [by apply Ha| |done]. unfold dslot, MAXFILE, NDIRECT, NINDIRECT, BSIZE in *.
    destruct (k <? 12) eqn:E; lia.
  - rewrite Hf. done.
Qed.

Lemma grow_fbyte x : 0 <= x < MAXFILE * BSIZE -> fbyte d' ip' x = fbyte d ip x.
Proof.
  intros Hx. pose proof dstart_pos. unfold fbyte, dblk. set (k := dslot (x / BSIZE)).
  assert (0 <= k < 141 /\ k <> 12) as [Hk Hk12].
  { unfold k, dslot, MAXFILE, NDIRECT, NINDIRECT, BSIZE in *.
    destruct (Z.ltb_spec (x / 512) 12); dm. }
  assert (0 <= x mod BSIZE < BSIZE) as Ho by (unfold BSIZE; dm).
  destruct (slot_dec k) as [->|Hne].
  - rewrite Es, E0. simpl. rewrite (proj2 (Z.eqb_neq r 0)) by lia.
    rewrite grow_byte; auto; [by apply (m_zero d M)|].
    destruct (decide (s < 13)); [by left|right]. intros ->.
    destruct grow_ind_marked as [_ Hm]; [lia|]. congruence.
  - rewrite Et by done. destruct (Z.eqb_spec (slot d ip k) 0) as [|Hnz]; [done|].
    destruct (w_slot _ _ W k Hk Hnz) as [Hrg _]. apply grow_byte; auto. right.
    intros E. rewrite <- (slot_ind d ip) in E. apply (w_inj _ _ W) in E; auto; lia.
Qed.

Lemma grow_slot : grows d ip d' ip'.
Proof.
  pose proof dstart_pos. split; auto using grow_meta, grow_wfi, grow_fbyte.
  - intros t Ht Hnz. apply Et; [done|]. congruence.
  - intros b o Hb Hm Hi Ho. apply grow_byte; auto.
  - intros a Ha. apply grow_low. lia.
  - intros b Hb Hm. rewrite grow_bit by done. by destruct (decide (r = b)).
  - intros b Hb Hm. rewrite grow_bit in Hm by done. destruct (decide (r = b)) as [<-|]; [right|by left].
    split; [lia|]. exists s. done.
  - intros t Ht Hz Hnz. destruct (slot_dec t) as [->|Hts]; [by rewrite Es|].
    rewrite Et in Hnz by done. done.
Qed.
End Grow.

(** ** [bmap] *)

Lemma addrs_get ip s : length (addrs ip) = 13%nat -> 0 <= s < 13 ->
  aget (addrs ip) s = Ret (nth (Z.to_nat s) (addrs ip) 0).
Proof.
  intros Hl Hs. apply aget_Ret. split; [lia|].
  rewrite nth_lookup. destruct (lookup_lt_is_Some_2 (addrs ip) (Z.to_nat s)) as [x E]; [lia|].
  by rewrite E.
Qed.

Lemma slot_low d ip s : s < 13 -> slot d ip s = nth (Z.to_nat s) (addrs ip) 0.
Proof. intros H. unfold slot. by rewrite (proj2 (Z.ltb_lt _ _)) by lia. Qed.

Lemma slot_high d ip s :
  13 <= s -> slot d ip s = if ind ip =? 0 then 0 else load32 d (blk (ind ip) + 4 * (s - 13)).
Proof. intros H. unfold slot. by rewrite (proj2 (Z.ltb_ge _ _)) by lia. Qed.

(** A block in an address slot of the inode. *)
Lemma alloc_addr d ip s :
  meta d -> wfi d ip -> 0 <= s < 13 -> slot d ip s = 0 -> 0 < nfree d ->
  exists r l, balloc nsect d = Ret (r, setbit d r) /\ aset (addrs ip) s r = Ret l /\ r <> 0 /\
    grows d ip (setbit d r) (i_addrs l ip) /\ slot (setbit d r) (i_addrs l ip) s = r /\
    (forall t, 0 <= t < 141 -> t <> s -> slot (setbit d r) (i_addrs l ip) t = slot d ip t) /\
    nfree (setbit d r) = nfree d - 1.
Proof.
  intros M W Hs E0 Hf. pose proof dstart_pos. destruct (nfree_pos d Hf) as (f & Hfr & Hfb).
  destruct (balloc_spec d f M Hfr Hfb) as (r & Er & Hr & Hb & _).
  pose proof (w_len _ _ W) as Hlen.
  exists r, (<[Z.to_nat s := r]> (addrs ip)).
  assert (Es : slot (setbit d r) (i_addrs (<[Z.to_nat s := r]> (addrs ip)) ip) s = r).
  { rewrite slot_low by lia. simpl. rewrite nth_lookup, list_lookup_insert_eq by lia. done. }
  assert (Et : forall t, 0 <= t < 141 -> t <> s ->
    slot (setbit d r) (i_addrs (<[Z.to_nat s := r]> (addrs ip)) ip) t = slot d ip t).
  { intros t Ht Hts. destruct (decide (t < 13)).
    - rewrite !slot_low by lia. simpl. rewrite !nth_lookup, list_lookup_insert_ne by lia. done.
    - rewrite !slot_high by lia. unfold ind. simpl. rewrite !nth_lookup.
      destruct (decide (s = 12)) as [->|].
      + rewrite list_lookup_insert_eq by lia. simpl. rewrite (proj2 (Z.eqb_neq r 0)) by lia.
        rewrite slot_low, nth_lookup in E0 by lia. change (Z.to_nat 12) with 12%nat in E0.
        rewrite E0. simpl. rewrite (load32_ext d) by (intros; apply rd8_setbit; [lia|];
          right; unfold blk, BSIZE in *; lia).
        unfold load32. pose proof (m_zero d M r) as Hz.
        rewrite <- !Z.add_assoc, !Hz by (unfold BSIZE; lia || done). lia.
      + rewrite list_lookup_insert_ne by lia. destruct (_ =? 0) eqn:Ei; [done|].
        apply load32_ext. intros a Ha. apply rd8_setbit; [lia|]. right.
        assert (dstart <= ind ip) as Hi.
        { rewrite <- (slot_ind d ip). apply (w_slot _ _ W); [lia|]. rewrite slot_ind. unfold ind.
          rewrite nth_lookup. lia. }
        unfold ind in Hi. rewrite nth_lookup in Hi. unfold blk, BSIZE in *. lia. }
  split_and!; [done|apply aset_Ret; lia|lia| |done|done|apply nfree_setbit; [lia|done]].
  apply grow_slot with s r; auto; try lia. simpl. by rewrite length_insert.
Qed.

(** A block in a word of the indirect block. *)
Lemma alloc_entry d ip j :
  meta d -> wfi d ip -> 0 <= j < 128 -> ind ip <> 0 -> slot d ip (j + 13) = 0 -> 0 < nfree d ->
  exists r d', balloc nsect d = Ret (r, setbit d r) /\ r <> 0 /\
    d' = store32 (setbit d r) (blk (ind ip) + 4 * j) r /\ grows d ip d' ip /\
    slot d' ip (j + 13) = r /\ nfree d' = nfree d - 1.
Proof.
  intros M W Hj Hi E0 Hf. pose proof dstart_pos. destruct (nfree_pos d Hf) as (f & Hfr & Hfb).
  destruct (balloc_spec d f M Hfr Hfb) as (r & Er & Hr & Hb & _). destruct G.
  assert (Hir : dstart <= ind ip < fsize) by (rewrite <- (slot_ind d ip); apply (w_slot _ _ W); auto; lia).
  exists r. eexists. split_and!; [done|lia|reflexivity| | |].
  3: { rewrite <- (nfree_setbit d r) by (done || lia). apply nfree_ext. intros b Hbr. unfold bit.
       rewrite rd8_store32_ne; [done|]. pose proof (bitmap_byte b ltac:(lia)). unfold blk, BSIZE in *. lia. }
  2: { rewrite slot_high, (proj2 (Z.eqb_neq _ _) Hi) by lia. replace (j + 13 - 13) with j by lia.
       rewrite load32_store32_eq. apply u32_small. unfold is_u32. lia. }
  apply grow_slot with (j + 13) r; auto; try lia.
  - by destruct ip.
  - apply (w_len _ _ W).
  - rewrite slot_high, (proj2 (Z.eqb_neq _ _) Hi) by lia. replace (j + 13 - 13) with j by lia.
    rewrite load32_store32_eq. apply u32_small. unfold is_u32. lia.
  - intros t Ht Hts. destruct (decide (t < 13)); [by rewrite !slot_low by lia|].
    rewrite !slot_high, (proj2 (Z.eqb_neq _ _) Hi) by lia.
    rewrite load32_store32_ne by lia. apply load32_ext. intros a Ha. apply rd8_setbit; [lia|].
    right. unfold blk, BSIZE in *. lia.
  - intros a [|Ha]; [lia|]. apply rd8_store32_ne. unfold blk, BSIZE in *. lia.
Qed.

(** The free blocks left when the indirect block is paid for. *)
Definition budget (d : memory) (ip : inode) : Z :=
  nfree d - (if ind ip =? 0 then 1 else 0).

Lemma data_sector d ip s :
  wfi d ip -> 0 <= s < 141 -> slot d ip s <> 0 -> sector nsect (slot d ip s) = Ret tt.
Proof.
  intros W Hs Hn. destruct G. pose proof dstart_pos.
  destruct (w_slot _ _ W s Hs Hn). apply sector_ok. lia.
Qed.

(** A block that is there is found, and nothing changes. *)
Lemma bmap_hit d ip k :
  wfi d ip -> 0 <= k < 140 -> dblk d ip k <> 0 ->
  bmap nsect k (ip, d) = Ret (dblk d ip k, (ip, d)).
Proof.
  intros W Hk. unfold dblk, dslot, bmap, NDIRECT, NINDIRECT. pose proof (w_len _ _ W) as Hlen.
  destruct (Z.ltb_spec k 12) as [Hd|Hd]; intros Hn.
  - rewrite addrs_get, slot_low in * by lia. cbn [mbind outcome_bind].
    by rewrite (proj2 (Z.eqb_neq _ _) Hn).
  - rewrite (proj2 (Z.ltb_lt (k - 12) 128)) by lia. rewrite addrs_get by lia.
    cbn [mbind outcome_bind]. change (nth (Z.to_nat 12) (addrs ip) 0) with (ind ip).
    rewrite slot_high in * by lia. replace (k + 1 - 13) with (k - 12) in * by lia.
    destruct (ind ip =? 0) eqn:Ei; [done|]. cbn [mbind outcome_bind].
    rewrite <- (slot_ind d ip). rewrite (data_sector d ip 12 W) by (rewrite ?slot_ind; lia).
    cbn [mbind outcome_bind]. rewrite slot_ind. by rewrite (proj2 (Z.eqb_neq _ _) Hn).
Qed.

(** The indirect block is there, or is allocated. *)
Lemma bmap_indirect d ip s :
  meta d -> wfi d ip -> 13 <= s < 141 -> slot d ip s = 0 -> 1 <= budget d ip ->
  exists ip1 d1,
    (if ind ip =? 0 then
       '(addr, d0) ← balloc nsect d; l ← aset (addrs ip) 12 addr; Ret (addr, (i_addrs l ip, d0))
     else Ret (ind ip, (ip, d))) = Ret (ind ip1, (ip1, d1)) /\
    grows d ip d1 ip1 /\ ind ip1 <> 0 /\ slot d1 ip1 s = 0 /\ nfree d1 = budget d ip.
Proof.
  intros M W Hs E0 Hb. unfold budget in *. destruct (Z.eqb_spec (ind ip) 0) as [Ei|Ei].
  - destruct (alloc_addr d ip 12 M W ltac:(lia)) as (r & l & Er & El & Hr & Gr & Es & Et & Hf).
    { by rewrite slot_ind. }
    { lia. }
    rewrite slot_ind in Es. exists (i_addrs l ip), (setbit d r). rewrite Er. cbn [mbind outcome_bind].
    rewrite El, Es. cbn [mbind outcome_bind]. split_and!; try done. rewrite Et by lia. done.
  - exists ip, d. split_and!; auto using grows_refl; lia.
Qed.

Lemma bmap_spec d ip k :
  meta d -> wfi d ip -> 0 <= k < 140 -> 1 <= budget d ip ->
  exists a ip' d', bmap nsect k (ip, d) = Ret (a, (ip', d')) /\ grows d ip d' ip' /\
    a = dblk d' ip' k /\ a <> 0 /\ budget d ip - 1 <= budget d' ip'.
Proof.
  intros M W Hk Hb. destruct (decide (dblk d ip k = 0)) as [E0|Hn].
  2: { exists (dblk d ip k), ip, d. rewrite bmap_hit by done.
       split_and!; [done|by apply grows_refl|done|done|lia]. }
  unfold dblk, dslot, bmap, NDIRECT, NINDIRECT, budget in *. pose proof (w_len _ _ W) as Hlen.
  destruct (Z.ltb_spec k 12) as [Hd|Hd].
  - destruct (alloc_addr d ip k M W ltac:(lia) E0) as (r & l & Er & El & Hr & Gr & Es & _ & Hf).
    { destruct (ind ip =? 0); lia. }
    rewrite slot_low in E0 by lia. rewrite addrs_get, E0 by lia. cbn [mbind outcome_bind].
    change (0 =? 0) with true. cbv iota. rewrite Er. cbn [mbind outcome_bind]. rewrite El.
    cbn [mbind outcome_bind]. eexists _, _, _. split_and!; [reflexivity|done| |done|].
    + done.
    + pose proof (gr_slots _ _ _ _ Gr 12 ltac:(lia)) as H12. rewrite !slot_ind in H12.
      destruct (Z.eqb_spec (ind ip) 0) as [|Hi]; [destruct (_ =? 0); lia|].
      rewrite H12, (proj2 (Z.eqb_neq (ind ip) 0)) by done. lia.
  - rewrite (proj2 (Z.ltb_lt (k - 12) 128)) by lia. rewrite addrs_get by lia.
    cbn [mbind outcome_bind]. change (nth (Z.to_nat 12) (addrs ip) 0) with (ind ip).
    destruct (bmap_indirect d ip (k + 1) M W ltac:(lia) E0 Hb) as (ip1 & d1 & -> & G1 & Hi1 & E1 & Hf1).
    cbn [mbind outcome_bind]. pose proof (gr_wf _ _ _ _ G1) as W1. pose proof (gr_meta _ _ _ _ G1) as M1.
    rewrite (data_sector d1 ip1 12 W1 ltac:(lia) Hi1 : sector nsect (ind ip1) = Ret tt).
    cbn [mbind outcome_bind]. pose proof E1 as E1'.
    rewrite slot_high, (proj2 (Z.eqb_neq _ _) Hi1) in E1' by lia.
    replace (k + 1 - 13) with (k - 12) in E1' by lia. rewrite E1'. change (0 =? 0) with true. cbv iota.
    replace (k + 1) with (k - 12 + 13) in * by lia. unfold budget in *.
    destruct (alloc_entry d1 ip1 (k - 12) M1 W1 ltac:(lia) Hi1 E1 ltac:(lia))
      as (r & d2 & Er & Hr & -> & G2 & Es & Hf2).
    rewrite Er. cbn [mbind outcome_bind]. eexists _, _, _. split_and!; [reflexivity| |done|done|].
    + by eapply grows_trans.
    + rewrite (proj2 (Z.eqb_neq _ _) Hi1). lia.
Qed.

(** ** Reading *)

Definition contents (d : memory) (ip : inode) : list Z := fbyte d ip <$> seqZ 0 (size ip).

(** The blocks that the bytes from [off] to [off + n] span. *)
Definition span (off n : Z) : Z := if n <=? 0 then 0 else (off + n - 1) / BSIZE - off / BSIZE + 1.

Lemma span_step off n m :
  0 <= off -> 0 < n -> m = Z.min n (BSIZE - off mod BSIZE) ->
  0 < m <= n /\ m <= BSIZE - off mod BSIZE /\ span (off + m) (n - m) = span off n - 1.
Proof.
  intros Ho Hn ->. unfold span, BSIZE.
  destruct (Z.leb_spec n 0); [lia|].
  destruct (Z.leb_spec (n - Z.min n (512 - off mod 512)) 0); split_and!; dm.
Qed.

Lemma seqZ_split a n m : 0 <= m <= n -> seqZ a n = seqZ a m ++ seqZ (a + m) (n - m).
Proof. intros H. replace n with (m + (n - m)) at 1 by lia. apply seqZ_app; lia. Qed.

(** The bytes of one block of the file. *)
Lemma bytes_at_block d ip off m :
  0 <= off -> 0 <= m <= BSIZE - off mod BSIZE -> dblk d ip (off / BSIZE) <> 0 ->
  bytes_at d (blk (dblk d ip (off / BSIZE)) + off mod BSIZE) m = fbyte d ip <$> seqZ off m.
Proof.
  intros Ho Hm Hn. unfold bytes_at. replace (seqZ off m) with (Z.add off <$> seqZ 0 m)
    by (rewrite fmap_add_seqZ; f_equal; lia).
  rewrite <- list_fmap_compose. apply list_fmap_ext. intros i x Hx.
  apply list_elem_of_lookup_2, elem_of_seqZ in Hx. unfold fbyte. simpl.
  replace ((off + x) / BSIZE) with (off / BSIZE) by (unfold BSIZE in *; dm).
  replace ((off + x) mod BSIZE) with (off mod BSIZE + x) by (unfold BSIZE in *; dm).
  rewrite (proj2 (Z.eqb_neq _ _) Hn). f_equal. lia.
Qed.

Lemma block_index x : 0 <= x < MAXFILE * BSIZE -> 0 <= x / BSIZE < 140.
Proof. unfold MAXFILE, NDIRECT, NINDIRECT, BSIZE. dm. Qed.

Lemma dslot_range k : 0 <= k < 140 -> 0 <= dslot k < 141 /\ dslot k <> 12.
Proof. unfold dslot. destruct (Z.ltb_spec k 12); lia. Qed.

Lemma readi_loop_spec d ip n fuel : forall tot off acc,
  wfi d ip -> 0 <= off -> 0 <= tot <= n -> off + (n - tot) <= size ip ->
  span off (n - tot) < Z.of_nat fuel ->
  readi_loop nsect fuel tot n off acc (ip, d) =
  Ret (acc ++ (fbyte d ip <$> seqZ off (n - tot)), (ip, d)).
Proof.
  induction fuel as [|fuel IH]; intros tot off acc W Ho Ht Hs Hf.
  { unfold span in Hf. destruct (_ <=? 0) eqn:E; [lia|]. unfold BSIZE in *. dm. }
  cbn [readi_loop]. destruct (Z.ltb_spec tot n) as [Hlt|Hge].
  2: { replace (n - tot) with 0 by lia. by rewrite app_nil_r. }
  pose proof (w_size _ _ W) as Hsz.
  assert (Hk : 0 <= off / BSIZE < 140) by (apply block_index; lia).
  assert (Hn : dblk d ip (off / BSIZE) <> 0).
  { apply (w_alloc _ _ W); [lia|]. unfold BSIZE in *. dm. }
  rewrite bmap_hit by done. cbn [mbind outcome_bind].
  destruct (dslot_range _ Hk) as [Hds _]. rewrite (data_sector d ip _ W Hds Hn : sector nsect (dblk d ip (off / BSIZE)) = Ret tt). cbn [mbind outcome_bind].
  set (m := Z.min (n - tot) (BSIZE - off mod BSIZE)).
  destruct (span_step off (n - tot) m Ho ltac:(lia) eq_refl) as (Hm & Hm' & Hsp).
  replace (n - tot - m) with (n - (tot + m)) in Hsp by lia.
  rewrite IH by (done || lia). rewrite bytes_at_block by (done || lia).
  rewrite (seqZ_split off (n - tot) m), fmap_app, app_assoc by lia.
  by replace (n - tot - m) with (n - (tot + m)) by lia.
Qed.

Lemma length_contents d ip : 0 <= size ip -> length (contents d ip) = Z.to_nat (size ip).
Proof. intros H. unfold contents. by rewrite length_fmap, length_seqZ. Qed.

Lemma contents_slice d ip off n :
  0 <= off -> 0 <= n -> off + n <= size ip ->
  fbyte d ip <$> seqZ off n = take (Z.to_nat n) (drop (Z.to_nat off) (contents d ip)).
Proof.
  intros Ho Hn Hs. unfold contents.
  rewrite (seqZ_split 0 (size ip) off), fmap_app by lia.
  rewrite drop_app_length' by (rewrite length_fmap, length_seqZ; lia).
  rewrite (seqZ_split (0 + off) (size ip - off) n), fmap_app by lia.
  rewrite take_app_length' by (rewrite length_fmap, length_seqZ; lia). done.
Qed.

Lemma readi_file_spec d ip off n :
  wfi d ip -> is_u32 off -> is_u32 n ->
  readi_file nsect off n (ip, d) =
  if decide (size ip < off \/ 2 ^ 32 <= off + n) then Ret (-1, [], (ip, d))
  else let n' := Z.min n (size ip - off) in
    Ret (n', take (Z.to_nat n') (drop (Z.to_nat off) (contents d ip)), (ip, d)).
Proof.
  intros W Ho Hn. pose proof (w_size _ _ W) as Hsz. unfold is_u32 in *. unfold readi_file. cbn [fst].
  destruct (Z.ltb_spec (size ip) off) as [Hlt|Hle]; simpl orb; [by rewrite decide_True by lia|].
  destruct (decide (2 ^ 32 <= off + n)) as [Hov|Hok].
  - rewrite decide_True by lia. replace (u32 (off + n)) with (off + n - 2 ^ 32)
      by (unfold u32; apply Z.mod_unique with 1; lia).
    by rewrite (proj2 (Z.ltb_lt _ _)) by lia.
  - rewrite (decide_False (P := _ \/ _)) by lia. rewrite u32_small by (unfold is_u32; lia).
    rewrite (proj2 (Z.ltb_ge (off + n) off)) by lia.
    set (n' := if size ip <? off + n then size ip - off else n).
    assert (n' = Z.min n (size ip - off)) as En by (unfold n'; destruct (Z.ltb_spec (size ip) (off + n)); lia).
    rewrite readi_loop_spec; [|done|lia..|].
    2: { unfold chunks, span. rewrite Z.sub_0_r. destruct (_ <=? 0) eqn:E; unfold BSIZE in *; [lia|dm]. }
    cbn [mbind outcome_bind]. rewrite Z.sub_0_r, En. simpl app. rewrite contents_slice by lia. done.
Qed.

(** ** Writing *)

(** [l] is written at offset [off] of the file: its bytes change there and
    nowhere else, marked blocks of other files keep their bytes and their
    marks, and no metadata changes but the bitmap and the inode on disk. *)
Record updates (d : memory) (ip : inode) (d' : memory) (ip' : inode) (off : Z) (l : list Z) : Prop := {
  up_meta : meta d';
  up_wf : wfi d' ip';
  up_bytes : forall x, 0 <= x < MAXFILE * BSIZE ->
    fbyte d' ip' x = if decide (off <= x < off + Z.of_nat (length l))
                     then nth (Z.to_nat (x - off)) l 0 else fbyte d ip x;
  up_slots : forall s, 0 <= s < 141 -> slot d ip s <> 0 -> slot d' ip' s = slot d ip s;
  up_frame : forall b o, dstart <= b < fsize -> bit d b = true -> ~ owns d ip b -> 0 <= o < BSIZE ->
    rd8 d' (blk b + o) = rd8 d (blk b + o);
  up_low : forall a, 0 <= a < blk bmstart -> ~ (dip (inum ip) <= a < dip (inum ip) + 64) ->
    rd8 d' a = rd8 d a;
  up_marks : forall b, 0 <= b < fsize -> bit d b = true -> bit d' b = true;
  up_new : forall b, 0 <= b < fsize -> bit d' b = true -> bit d b = true \/ owns d' ip' b;
  up_fresh : forall s, 0 <= s < 141 -> slot d ip s = 0 -> slot d' ip' s <> 0 ->
    bit d (slot d' ip' s) = false
}.

Lemma grows_updates d ip d' ip' off : grows d ip d' ip' -> updates d ip d' ip' off [].
Proof.
  intros [F M W B S R L K N H]. split; auto.
  - intros x Hx. rewrite decide_False by (simpl; lia). auto.
  - intros b o Hb Hm Ho Hor. pose proof dstart_pos. apply R; auto. intros ->. apply Ho.
    split; [lia|]. exists 12. split; [lia|]. apply slot_ind.
Qed.

(** A block that was marked and not owned is not owned later. *)
Lemma updates_not_owned d ip d' ip' off l b :
  updates d ip d' ip' off l -> 0 <= b < fsize -> bit d b = true -> ~ owns d ip b -> ~ owns d' ip' b.
Proof.
  intros U Hb Hm Hn (Hz & s & Hs & E). destruct (decide (slot d ip s = 0)) as [E0|E0].
  - pose proof (up_fresh _ _ _ _ _ _ U s Hs E0 ltac:(congruence)). congruence.
  - apply Hn. split; [done|]. exists s. split; [done|]. by rewrite <- (up_slots _ _ _ _ _ _ U).
Qed.

Lemma updates_trans d ip d1 ip1 d2 ip2 off l1 l2 :
  updates d ip d1 ip1 off l1 -> updates d1 ip1 d2 ip2 (off + Z.of_nat (length l1)) l2 ->
  inum ip1 = inum ip -> updates d ip d2 ip2 off (l1 ++ l2).
Proof.
  intros U1 U2 Hi. pose proof (fun b => updates_not_owned _ _ _ _ _ _ b U1) as Hno.
  destruct U1 as [M1 W1 B1 S1 R1 L1 K1 N1 H1], U2 as [M2 W2 B2 S2 R2 L2 K2 N2 H2].
  pose proof dstart_pos. split; auto.
  - intros x Hx. rewrite B2, B1 by done. rewrite length_app, Nat2Z.inj_add.
    repeat case_decide; try lia; try done.
    + rewrite app_nth2 by lia. f_equal. lia.
    + rewrite app_nth1 by lia. done.
  - intros s Hs Hn. rewrite S2, S1; auto. rewrite S1; auto.
  - intros b o Hb Hm Ho Hor. rewrite R2, R1; auto; [apply K1|apply Hno]; auto; lia.
  - intros a Ha Hd. rewrite L2, L1; auto. by rewrite Hi.
  - intros b Hb Hm. destruct (N2 b Hb Hm) as [Hb1|]; [|by right].
    destruct (N1 b Hb Hb1) as [|(Hn & s & Hs & E)]; [by left|right].
    split; [done|]. exists s. split; [done|]. rewrite S2; congruence.
  - intros s Hs E0 E2. destruct (decide (slot d1 ip1 s = 0)) as [E|E].
    + pose proof (H2 s Hs E E2) as Hf. destruct (w_slot _ _ W2 s Hs E2) as [Hr _].
      destruct (bit d (slot d2 ip2 s)) eqn:Eb; [|done].
      rewrite K1 in Hf by (auto; lia). discriminate.
    + rewrite S2 by done. by apply H1.
Qed.

(** Writing into one block of the file. *)
Section WriteBlock.
Context (d : memory) (ip : inode) (off : Z) (l : list Z).
Context (M : meta d) (W : wfi d ip) (Hb : Forall is_u8 l).
Context (Ho : 0 <= off) (Hl : Z.of_nat (length l) <= BSIZE - off mod BSIZE).
Context (Hk : off / BSIZE < 140) (Hn : dblk d ip (off / BSIZE) <> 0).

Let b0 := dblk d ip (off / BSIZE).
Let d' := wr_bytes d (blk b0 + off mod BSIZE) l.

Lemma write_range : dstart <= b0 < fsize /\ bit d b0 = true.
Proof.
  apply (w_slot _ _ W); [|done]. apply dslot_range. unfold BSIZE in *. dm.
Qed.

Lemma write_other a : ~ (blk b0 <= a < blk b0 + BSIZE) -> rd8 d' a = rd8 d a.
Proof.
  intros Ha. unfold d'. rewrite rd8_wr_bytes by done. rewrite decide_False; [done|].
  unfold BSIZE in *. dm.
Qed.

Lemma write_block_byte b o : b <> b0 -> 0 <= o < BSIZE -> rd8 d' (blk b + o) = rd8 d (blk b + o).
Proof. intros Hne Hor. apply write_other. unfold blk, BSIZE in *. lia. Qed.

Lemma write_low a : a < blk dstart -> rd8 d' a = rd8 d a.
Proof. intros Ha. destruct write_range as [Hr _]. apply write_other. unfold blk, BSIZE in *. lia. Qed.

Lemma write_bit b : 0 <= b < fsize -> bit d' b = bit d b.
Proof. intros Hr. unfold bit. rewrite write_low; [done|]. apply bitmap_byte. done. Qed.

Lemma write_slot s : 0 <= s < 141 -> slot d' ip s = slot d ip s.
Proof.
  intros Hs. destruct (decide (s < 13)); [by rewrite !slot_low by lia|].
  rewrite !slot_high by lia. destruct (Z.eqb_spec (ind ip) 0) as [|Hi]; [done|].
  apply load32_ext. intros a Ha. apply write_other.
  assert (ind ip <> b0) as Hne.
  { rewrite <- (slot_ind d ip). intros E. assert (0 <= off / BSIZE) by (unfold BSIZE; dm).
    destruct (dslot_range (off / BSIZE) ltac:(lia)) as [Hd Hd12].
    apply (w_inj _ _ W) in E; [lia|lia|done|by rewrite slot_ind]. }
  unfold blk, BSIZE in *. lia.
Qed.

Lemma write_fbyte x : 0 <= x < MAXFILE * BSIZE ->
  fbyte d' ip x = if decide (off <= x < off + Z.of_nat (length l))
                  then nth (Z.to_nat (x - off)) l 0 else fbyte d ip x.
Proof.
  intros Hx. pose proof (block_index x Hx) as Hxk. destruct (dslot_range _ Hxk) as [Hd Hd12].
  unfold fbyte, dblk. rewrite write_slot by done.
  destruct (decide (x / BSIZE = off / BSIZE)) as [Ek|Ek].
  - rewrite Ek. fold (dblk d ip (off / BSIZE)). rewrite (proj2 (Z.eqb_neq _ _) Hn).
    unfold d'. rewrite rd8_wr_bytes by done. fold b0.
    assert (x = BSIZE * (off / BSIZE) + x mod BSIZE) by (unfold BSIZE in *; dm).
    assert (off = BSIZE * (off / BSIZE) + off mod BSIZE) by (unfold BSIZE in *; dm).
    repeat case_decide; try lia; try done. f_equal. lia.
  - rewrite decide_False by (unfold BSIZE in *; dm).
    destruct (Z.eqb_spec (slot d ip (dslot (x / BSIZE))) 0) as [|Hz]; [done|].
    apply write_block_byte; [|unfold BSIZE; dm]. intros E.
    apply (w_inj _ _ W) in E; auto.
    + unfold dslot in E. destruct (Z.ltb_spec (x / BSIZE) 12), (Z.ltb_spec (off / BSIZE) 12); lia.
    + apply dslot_range. unfold BSIZE in *. dm.
Qed.

Lemma write_updates : updates d ip d' ip off l.
Proof.
  pose proof dstart_pos. destruct write_range as [Hr Hm].
  assert (M' : meta d').
  { apply (meta_ext d); auto.
    - intros a Ha. apply write_low. unfold blk, BSIZE in *. lia.
    - apply write_bit.
    - intros b o Hbr Hf Hor. apply write_block_byte; [congruence|done]. }
  split; auto using write_fbyte, write_slot.
  - destruct W as [Hlen Hw Hi Hsz Ha Hin]. split; auto.
    + intros s Hs. rewrite write_slot by done. intros Hz. destruct (Hw s Hs Hz).
      split; [done|]. rewrite write_bit by lia. done.
    + intros s t Hs Ht. rewrite !write_slot by done. auto.
    + intros k Hk0 Hks. unfold dblk. rewrite write_slot; [by apply Ha|]. apply dslot_range.
      unfold MAXFILE, NDIRECT, NINDIRECT, BSIZE in *. lia.
  - intros b o Hbr Hm' Ho' Hor. apply write_block_byte; [|done]. intros ->. apply Ho'.
    split; [lia|]. eexists. split; [|reflexivity]. apply dslot_range. unfold BSIZE in *. dm.
  - intros a Ha _. apply write_low. unfold blk, BSIZE in *. lia.
  - intros b Hbr. by rewrite write_bit.
  - intros b Hbr. rewrite write_bit by done. by left.
  - intros s Hs E0. by rewrite write_slot.
Qed.
End WriteBlock.

Lemma take_split {A} (n m : nat) (l : list A) : take (m + n) l = take m l ++ take n (drop m l).
Proof. symmetry. apply take_take_drop. Qed.

Lemma updates_dblk d ip d' ip' off l k :
  updates d ip d' ip' off l -> 0 <= k < 140 -> dblk d ip k <> 0 -> dblk d' ip' k = dblk d ip k.
Proof. intros U Hk Hn. apply (up_slots _ _ _ _ _ _ U); [|done]. by apply dslot_range. Qed.

(** Changes of data blocks and inode fields do not change the budget. *)
Lemma budget_write d ip off l :
  meta d -> wfi d ip -> Forall is_u8 l -> 0 <= off -> Z.of_nat (length l) <= BSIZE - off mod BSIZE ->
  off / BSIZE < 140 -> dblk d ip (off / BSIZE) <> 0 ->
  budget (wr_bytes d (blk (dblk d ip (off / BSIZE)) + off mod BSIZE) l) ip = budget d ip.
Proof.
  intros. unfold budget. f_equal. pose proof dstart_pos. apply nfree_ext. intros b Hb.
  apply write_bit; auto; lia.
Qed.

Lemma writei_loop_spec n fuel : forall tot off src d ip,
  meta d -> wfi d ip -> 0 <= off -> 0 <= tot <= n -> off + (n - tot) <= MAXFILE * BSIZE ->
  n - tot <= Z.of_nat (length src) -> Forall is_u8 src ->
  span off (n - tot) <= budget d ip -> span off (n - tot) < Z.of_nat fuel ->
  exists ip' d', writei_loop nsect fuel tot n off src (ip, d) = Ret (off + (n - tot), (ip', d')) /\
    updates d ip d' ip' off (take (Z.to_nat (n - tot)) src) /\ ip' = i_addrs (addrs ip') ip /\
    (0 < n - tot -> forall k, off / BSIZE <= k -> BSIZE * k < off + (n - tot) -> dblk d' ip' k <> 0).
Proof.
  induction fuel as [|fuel IH]; intros tot off src d ip M W Ho Ht Hmax Hsrc Hu Hb Hf.
  { unfold span in Hf. destruct (_ <=? 0) eqn:E; [lia|]. unfold BSIZE in *. dm. }
  cbn [writei_loop]. destruct (Z.ltb_spec tot n) as [Hlt|Hge].
  2: { replace (n - tot) with 0 by lia. rewrite Z.add_0_r. exists ip, d. split_and!; auto.
       - by apply grows_updates, grows_refl.
       - by destruct ip. }
  assert (Hk : 0 <= off / BSIZE < 140) by (apply block_index; lia).
  set (m := Z.min (n - tot) (BSIZE - off mod BSIZE)).
  destruct (span_step off (n - tot) m Ho ltac:(lia) eq_refl) as (Hm & Hm' & Hsp).
  replace (n - tot - m) with (n - (tot + m)) in Hsp by lia.
  assert (Hsp0 : 0 <= span (off + m) (n - (tot + m)))
    by (unfold span; destruct (_ <=? 0) eqn:E; [lia|unfold BSIZE in *; dm]).
  destruct (bmap_spec d ip (off / BSIZE) M W Hk ltac:(lia)) as (a & ip1 & d1 & -> & G1 & -> & Hn & Hb1).
  cbn [mbind outcome_bind]. pose proof (gr_wf _ _ _ _ G1) as W1. pose proof (gr_meta _ _ _ _ G1) as M1.
  destruct (dslot_range _ Hk) as [Hds _].
  rewrite (data_sector d1 ip1 _ W1 Hds Hn : sector nsect (dblk d1 ip1 (off / BSIZE)) = Ret tt).
  cbn [mbind outcome_bind]. set (l := take (Z.to_nat m) src).
  assert (Hl : Z.of_nat (length l) = m) by (unfold l; rewrite length_take; lia).
  assert (Hul : Forall is_u8 l) by by apply Forall_take.
  pose proof (write_updates d1 ip1 off l M1 W1 Hul Ho ltac:(lia) ltac:(lia) Hn) as U2.
  set (d2 := wr_bytes d1 _ l) in *.
  destruct (IH (tot + m) (off + m) (drop (Z.to_nat m) src) d2 ip1) as (ip3 & d3 & -> & U3 & F3 & K3);
    try lia; try apply U2.
  { rewrite length_drop. lia. }
  { by apply Forall_drop. }
  { unfold d2. rewrite budget_write by (auto; lia). lia. }
  assert (F : ip3 = i_addrs (addrs ip3) ip).
  { rewrite F3, (gr_fields _ _ _ _ G1). done. }
  exists ip3, d3. split_and!; [do 2 f_equal; lia| |done|].
  - replace (Z.to_nat (n - tot)) with (Z.to_nat m + Z.to_nat (n - (tot + m)))%nat by lia.
    rewrite take_split. fold l. replace (off + m) with (off + Z.of_nat (length l)) in U3 by lia.
    apply (updates_trans _ _ d2 ip1); [|done|by rewrite (gr_fields _ _ _ _ G1)].
    apply (updates_trans _ _ d1 ip1 _ _ off [] l); [by apply grows_updates| |by rewrite (gr_fields _ _ _ _ G1)].
    simpl. by rewrite Z.add_0_r.
  - intros _ k Hk1 Hk2. destruct (decide (k = off / BSIZE)) as [->|Hne].
    + rewrite (updates_dblk _ _ _ _ _ _ _ U3) by (done || by rewrite (updates_dblk _ _ _ _ _ _ _ U2)).
      by rewrite (updates_dblk _ _ _ _ _ _ _ U2).
    + assert (off + m <= BSIZE * k) by (unfold m, BSIZE in *; dm).
      apply K3; [lia| |lia]. unfold m, BSIZE in *. dm.
Qed.

(** ** Inodes on disk *)

Lemma dip_range i : 0 <= i < fninodes -> blk 2 <= dip i /\ dip i + 64 <= blk bmstart.
Proof. intros H. unfold dip, bmstart, blk, IBLOCK, IPB, BSIZE. dm. Qed.

Lemma dip_sep i j : 0 <= i -> 0 <= j -> i <> j -> dip i + 64 <= dip j \/ dip j + 64 <= dip i.
Proof. intros Hi Hj Hne. unfold dip, blk, IBLOCK, IPB, BSIZE. dm. Qed.

Lemma inode_sector i : 0 <= i < fninodes -> sector nsect (IBLOCK i) = Ret tt.
Proof.
  intros Hi. apply sector_ok. destruct G. unfold dstart, bmstart, IBLOCK, IPB, BPB in *. dm.
Qed.

(** The fields of an inode fit their types. *)
Record fits (ip : inode) : Prop := {
  f_short : forall v, v ∈ [type ip; major ip; minor ip; nlink ip] -> i16 v = v;
  f_size : is_u32 (size ip);
  f_addrs : Forall is_u32 (addrs ip);
  f_len : length (addrs ip) = 13%nat
}.

Lemma i16_u16 v : i16 (u16 v) = i16 v.
Proof. unfold i16, u16. dm. Qed.

(** [iupdate] changes only the inode on disk, and [ilock] reads it back. *)
Lemma iupdate_spec ip d :
  length (addrs ip) = 13%nat -> 0 <= inum ip < fninodes ->
  exists d', iupdate nsect ip d = Ret d' /\
    (forall a, ~ (dip (inum ip) <= a < dip (inum ip) + 64) -> rd8 d' a = rd8 d a) /\
    (fits ip -> load_inode ip d' = ip).
Proof.
  intros Hlen Hi. unfold iupdate. rewrite inode_sector by done. cbn [mbind outcome_bind].
  eexists. split; [reflexivity|]. split.
  - intros a Ha. rewrite rd8_store_addrs_ne by (rewrite Hlen; lia).
    rewrite rd8_store32_ne by lia. by rewrite !rd8_store16_ne by lia.
  - intros [Hs Hz Hu _]. unfold load_inode. destruct ip as [dv nu rf fl ty ma mi nl sz ad].
    cbn [idev inum ref flags type major minor nlink size addrs] in *.
    set (m := store_addrs _ _ ad).
    assert (Ha : forall b, dip nu <= b < dip nu + 12 ->
      rd8 m b = rd8 (store32 (store16 (store16 (store16 (store16 d (dip nu) ty) (dip nu + 2) ma)
        (dip nu + 4) mi) (dip nu + 6) nl) (dip nu + 8) sz) b).
    { intros b Hb. apply rd8_store_addrs_ne. lia. }
    assert (H16 : forall o v, v ∈ [ty; ma; mi; nl] -> load16 m (dip nu + o) = u16 v ->
      i16 (load16 m (dip nu + o)) = v).
    { intros o v Hv ->. rewrite i16_u16. by apply Hs. }
    f_equal.
    + rewrite <- (Z.add_0_r (dip nu)). apply H16; [set_solver|]. rewrite Z.add_0_r.
      rewrite <- load16_store16_eq with (m := d) (a := dip nu). apply load16_ext. intros b Hb.
      rewrite Ha by lia. by rewrite rd8_store32_ne, !rd8_store16_ne by lia.
    + apply H16; [set_solver|]. rewrite <- load16_store16_eq with (m := store16 d (dip nu) ty) (a := dip nu + 2).
      apply load16_ext. intros b Hb. rewrite Ha by lia. by rewrite rd8_store32_ne, !rd8_store16_ne by lia.
    + apply H16; [set_solver|]. erewrite <- load16_store16_eq.
      apply load16_ext. intros b Hb. rewrite Ha by lia. by rewrite rd8_store32_ne, rd8_store16_ne by lia.
    + apply H16; [set_solver|]. erewrite <- load16_store16_eq.
      apply load16_ext. intros b Hb. rewrite Ha by lia. by rewrite rd8_store32_ne by lia.
    + transitivity (u32 sz); [|by apply u32_small]. erewrite <- load32_store32_eq.
      apply load32_ext. intros b Hb. by rewrite Ha by lia.
    + apply list_eq_same_length with 13%nat; [by rewrite ?length_fmap, ?length_seqZ..|].
      intros k x y Hk Hx Hy. rewrite list_lookup_fmap in Hx.
      apply fmap_Some in Hx as (z & Hz' & ->). apply lookup_seqZ in Hz' as [-> _].
      unfold m. rewrite load32_store_addrs by lia.
      replace (Z.to_nat (0 + Z.of_nat k)) with k by lia. rewrite nth_lookup, Hy. simpl.
      apply u32_small. by eapply Forall_lookup_1.
Qed.

(** A change of the inode on disk and of the size in memory. *)
Section Resize.
Context (d1 : memory) (ip1 : inode) (d2 : memory) (ip2 : inode).
Context (M : meta d1) (Hi : 0 <= inum ip1 < fninodes).
Context (Hd : forall a, ~ (dip (inum ip1) <= a < dip (inum ip1) + 64) -> rd8 d2 a = rd8 d1 a).
Context (Ha : addrs ip2 = addrs ip1) (Hi2 : inum ip2 = inum ip1).

Lemma resize_data a : blk bmstart <= a -> rd8 d2 a = rd8 d1 a.
Proof. intros H. apply Hd. pose proof (dip_range _ Hi). lia. Qed.

Lemma resize_slot s : (ind ip1 <> 0 -> dstart <= ind ip1) -> slot d2 ip2 s = slot d1 ip1 s.
Proof.
  intros Hin. unfold slot, ind in *. rewrite Ha. destruct (s <? 13) eqn:E; [done|].
  destruct (Z.eqb_spec (nth 12 (addrs ip1) 0) 0) as [|Hn]; [done|].
  apply load32_ext. intros a Hab. apply resize_data. pose proof dstart_pos.
  specialize (Hin Hn). unfold blk, BSIZE in *. lia.
Qed.

Lemma resize_bit b : 0 <= b < fsize -> bit d2 b = bit d1 b.
Proof. intros Hb. unfold bit. rewrite resize_data; [done|]. apply bitmap_byte. done. Qed.

Lemma resize_updates d ip off l :
  updates d ip d1 ip1 off l -> inum ip = inum ip1 -> 0 <= size ip2 <= MAXFILE * BSIZE ->
  (forall k, 0 <= k -> BSIZE * k < size ip2 -> dblk d1 ip1 k <> 0) ->
  updates d ip d2 ip2 off l.
Proof.
  intros [_ W B S R Lw K N F] Hin Hsz Hal. pose proof dstart_pos.
  assert (Hsl : forall s, slot d2 ip2 s = slot d1 ip1 s).
  { intros s. apply resize_slot. intros Hn. rewrite <- (slot_ind d1 ip1). apply (w_slot _ _ W); [lia|done]. }
  assert (Hbl : forall b o, dstart <= b -> 0 <= o -> rd8 d2 (blk b + o) = rd8 d1 (blk b + o)).
  { intros b o Hb Ho. apply resize_data. unfold blk, BSIZE in *. lia. }
  split.
  - apply (meta_ext d1 d2 M).
    + intros a Hab. apply Hd. pose proof (dip_range _ Hi). unfold blk in *. lia.
    + apply resize_bit.
    + intros b o Hb _ Ho. apply Hbl; lia.
  - destruct W as [Hl Hw Hinj _ _ Hn]. split; auto; try congruence.
    + intros s Hs. rewrite Hsl. intros Hz. destruct (Hw s Hs Hz). split; [done|].
      by rewrite resize_bit by lia.
    + intros s t Hs Ht. rewrite !Hsl. auto.
    + intros k Hk Hks. unfold dblk. rewrite Hsl. by apply Hal.
  - intros x Hx. rewrite <- B by done. unfold fbyte, dblk. rewrite Hsl.
    destruct (Z.eqb_spec (slot d1 ip1 (dslot (x / BSIZE))) 0) as [|Hn]; [done|].
    apply Hbl; [|unfold BSIZE; dm]. apply (w_slot _ _ W); [|done].
    apply dslot_range, block_index. done.
  - intros s Hs. rewrite Hsl. auto.
  - intros b o Hb Hm Ho Hor. rewrite Hbl by lia. auto.
  - intros a Har Hdip. rewrite Hd; [auto|]. by rewrite <- Hin.
  - intros b Hb Hm. rewrite resize_bit by done. auto.
  - intros b Hb. rewrite resize_bit by done. intros Hm. destruct (N b Hb Hm) as [|(Hz & s & Hs & E)]; [by left|right].
    split; [done|]. exists s. by rewrite Hsl.
  - intros s Hs. rewrite Hsl. auto.
Qed.
End Resize.

Lemma updates_contents d ip d' ip' off l :
  updates d ip d' ip' off l -> 0 <= off <= size ip -> 0 <= size ip <= MAXFILE * BSIZE ->
  off + Z.of_nat (length l) <= MAXFILE * BSIZE -> size ip' = Z.max (size ip) (off + Z.of_nat (length l)) ->
  contents d' ip' = take (Z.to_nat off) (contents d ip) ++ l ++
                    drop (Z.to_nat off + length l) (contents d ip).
Proof.
  intros U Ho Hs Hmax Hsz. apply list_eq_same_length with (Z.to_nat (size ip')).
  { rewrite !length_app, length_take, length_drop, length_contents by lia. lia. }
  { apply length_contents. lia. }
  intros i x y Hi Hx Hy. unfold contents in Hx. rewrite list_lookup_fmap, lookup_seqZ_lt in Hx by lia.
  injection Hx as <-. rewrite (up_bytes _ _ _ _ _ _ U) by lia. rewrite Z.add_0_l.
  assert (Hc : forall j, (j < Z.to_nat (size ip))%nat -> contents d ip !! j = Some (fbyte d ip (Z.of_nat j))).
  { intros j Hj. unfold contents. rewrite list_lookup_fmap, lookup_seqZ_lt by lia. simpl. f_equal. }
  case_decide as Hr.
  - rewrite lookup_app_r in Hy by (rewrite length_take, length_contents by lia; lia).
    rewrite length_take, length_contents in Hy by lia. rewrite lookup_app_l in Hy by lia.
    rewrite nth_lookup. replace (Z.to_nat (Z.of_nat i - off)) with (i - Nat.min (Z.to_nat off) (Z.to_nat (size ip)))%nat by lia.
    by rewrite Hy.
  - destruct (decide (Z.of_nat i < off)).
    + rewrite lookup_app_l in Hy by (rewrite length_take, length_contents by lia; lia).
      rewrite lookup_take_lt, Hc in Hy by lia. congruence.
    + rewrite lookup_app_r in Hy by (rewrite length_take, length_contents by lia; lia).
      rewrite lookup_app_r in Hy by (rewrite length_take, length_contents by lia; lia).
      rewrite length_take, length_contents, lookup_drop, Hc in Hy by lia. injection Hy as <-. f_equal. lia.
Qed.

Lemma writei_file_error src d ip off n :
  is_u32 off -> is_u32 n -> 0 <= size ip < 2 ^ 32 -> size ip < off \/ 2 ^ 32 <= off + n ->
  writei_file nsect src off n (ip, d) = Ret (-1, (ip, d)).
Proof.
  intros Ho Hn Hs H. unfold writei_file, is_u32 in *. cbn [fst].
  destruct (Z.ltb_spec (size ip) off) as [|Hle]; [done|]. simpl orb.
  replace (u32 (off + n)) with (off + n - 2 ^ 32) by (unfold u32; apply Z.mod_unique with 1; lia).
  by rewrite (proj2 (Z.ltb_lt _ _)) by lia.
Qed.

Lemma writei_file_spec src d ip off n :
  meta d -> wfi d ip -> Forall is_u8 src -> 0 <= n <= Z.of_nat (length src) ->
  0 <= off <= size ip -> off + n < 2 ^ 32 ->
  let n' := Z.min n (MAXFILE * BSIZE - off) in
  span off n' <= budget d ip ->
  exists ip' d', writei_file nsect src off n (ip, d) = Ret (n', (ip', d')) /\
    updates d ip d' ip' off (take (Z.to_nat n') src) /\
    ip' = i_size (Z.max (size ip) (off + n')) (i_addrs (addrs ip') ip).
Proof.
  intros M W Hu Hn Ho Hov n' Hb. pose proof (w_size _ _ W) as Hsz. unfold writei_file. cbn [fst].
  rewrite (proj2 (Z.ltb_ge (size ip) off)) by lia. rewrite u32_small by (unfold is_u32; lia).
  rewrite (proj2 (Z.ltb_ge (off + n) off)) by lia. cbn [orb].
  assert (En : (if MAXFILE * BSIZE <? off + n then MAXFILE * BSIZE - off else n) = n')
    by (destruct (Z.ltb_spec (MAXFILE * BSIZE) (off + n)); lia).
  rewrite En. assert (Hn' : 0 <= n') by lia.
  destruct (writei_loop_spec n' (chunks n') 0 off src d ip) as (ip1 & d1 & E & U & F & K);
    rewrite ?Z.sub_0_r in *; auto; try lia.
  { unfold chunks, span. destruct (_ <=? 0) eqn:E; unfold BSIZE in *; [lia|dm]. }
  rewrite E. cbn [mbind outcome_bind].
  assert (Hs1 : size ip1 = size ip) by (rewrite F; done).
  destruct ((0 <? n') && (size ip1 <? off + n')) eqn:Eg.
  - apply andb_true_iff in Eg as [Hpos%Z.ltb_lt Hgt%Z.ltb_lt].
    pose proof (up_wf _ _ _ _ _ _ U) as W1.
    destruct (iupdate_spec (i_size (off + n') ip1) d1) as (d2 & E2 & Hd2 & _).
    { apply (w_len _ _ W1). }
    { apply (w_inum _ _ W1). }
    rewrite E2. cbn [mbind outcome_bind]. eexists _, _. split; [reflexivity|]. split.
    + apply (resize_updates d1 ip1 d2); try done; [apply U|apply W1|by rewrite F|simpl; lia|].
      simpl. intros k Hk Hks. destruct (decide (BSIZE * k < size ip)) as [Hold|Hnew].
      * rewrite (updates_dblk _ _ _ _ _ _ _ U); [by apply (w_alloc _ _ W)| |by apply (w_alloc _ _ W)].
        unfold MAXFILE, NDIRECT, NINDIRECT, BSIZE in *. lia.
      * apply K; [done| |done]. unfold BSIZE in *. dm.
    + rewrite F. simpl. rewrite Z.max_r by lia. done.
  - exists ip1, d1. split_and!; [done|done|]. rewrite F. simpl.
    rewrite Z.max_l; [by destruct ip|]. apply andb_false_iff in Eg as [H%Z.ltb_ge|H%Z.ltb_ge]; lia.
Qed.

(** ** Freeing *)

(** The blocks [S] are free and nothing else changed. *)
Record freed (S : list Z) (d d' : memory) : Prop := {
  fr_meta : meta d';
  fr_bits : forall b, 0 <= b < fsize -> bit d' b = if decide (b ∈ S) then false else bit d b;
  fr_low : forall a, 0 <= a < blk bmstart -> rd8 d' a = rd8 d a;
  fr_bytes : forall b o, dstart <= b < fsize -> b ∉ S -> 0 <= o < BSIZE ->
    rd8 d' (blk b + o) = rd8 d (blk b + o)
}.

Lemma freed_nil d : meta d -> freed [] d d.
Proof.
  intros M. by split; auto.
Qed.

Lemma freed_app S1 S2 d d1 d2 : freed S1 d d1 -> freed S2 d1 d2 -> freed (S1 ++ S2) d d2.
Proof.
  intros [M1 B1 L1 Y1] [M2 B2 L2 Y2]. split; auto.
  - intros b Hb. rewrite B2, B1 by done.
    destruct (decide (b ∈ S2)) as [H2|H2], (decide (b ∈ S1)) as [H1|H1];
      destruct (decide (b ∈ S1 ++ S2)) as [H|H]; rewrite elem_of_app in H; tauto.
  - intros a Ha. rewrite L2, L1 by done. done.
  - intros b o Hb Hn Ho. rewrite elem_of_app in Hn. rewrite Y2, Y1 by tauto. done.
Qed.

Lemma bfree_spec d b :
  meta d -> dstart <= b < fsize -> bit d b = true ->
  exists d', bfree nsect b d = Ret d' /\ freed [b] d d'.
Proof.
  intros M Hb Hm. pose proof dstart_pos. pose proof G as [? ? ? ?]. unfold bfree, bzero.
  rewrite sector_ok by lia. cbn [mbind outcome_bind]. set (d1 := memset d (blk b) 0 BSIZE).
  assert (Hd1 : forall a, rd8 d1 a = if decide (blk b <= a < blk b + BSIZE) then 0 else rd8 d a).
  { intros a. unfold d1. by rewrite rd8_memset by (unfold BSIZE; lia). }
  assert (Hlow : forall a, a < blk dstart -> rd8 d1 a = rd8 d a).
  { intros a Ha. rewrite Hd1, decide_False by (unfold blk, BSIZE in *; lia). done. }
  assert (Hbit1 : forall c, 0 <= c < fsize -> bit d1 c = bit d c).
  { intros c Hc. unfold bit. rewrite Hlow; [done|]. apply bitmap_byte. done. }
  assert (M1 : meta d1).
  { apply (meta_ext d); auto.
    - intros a Ha. apply Hlow. unfold blk, BSIZE in *. lia.
    - intros c o Hc Hf Ho. rewrite Hd1, decide_False; [done|].
      assert (c <> b) by congruence. unfold blk, BSIZE in *. lia. }
  destruct (readsb_meta d1 M1) as (n & ->). cbn [mbind outcome_bind].
  rewrite BBLOCK_sector by lia. cbn [mbind outcome_bind].
  rewrite BBLOCK_addr by lia. replace (b mod BPB mod 8) with (b mod 8) by (unfold BPB; dm).
  rewrite land_shiftl_1 by dm. fold (bit d1 b). rewrite Hbit1, Hm by lia. simpl negb. cbv iota.
  eexists. split; [reflexivity|]. fold (clearbit d1 b).
  assert (Hbits : forall c, bit (clearbit d1 b) c = if decide (b = c) then false else bit d1 c)
    by (intros; apply bit_clearbit).
  assert (Hrd : forall a, outside_bitmap a -> rd8 (clearbit d1 b) a = rd8 d1 a)
    by (intros; apply rd8_clearbit; [lia|done]).
  split.
  - destruct M1 as [E1 E2 Hbs Hz]. split.
    + rewrite <- E1. apply load32_ext. intros a Ha. apply Hrd. left. unfold blk, BSIZE in *. lia.
    + rewrite <- E2. apply load32_ext. intros a Ha. apply Hrd. left. unfold blk, BSIZE in *. lia.
    + intros c Hc. rewrite Hbits, decide_False by lia. auto.
    + intros c o Hc Hf Ho. rewrite Hrd by (right; unfold blk, BSIZE in *; lia). rewrite Hbits in Hf.
      destruct (decide (b = c)) as [->|]; [|auto]. rewrite Hd1, decide_True by lia. done.
  - intros c Hc. rewrite Hbits, Hbit1 by done.
    destruct (decide (b = c)) as [->|Hne]; [by rewrite decide_True by left|].
    rewrite decide_False; [done|]. intros ?%list_elem_of_singleton. congruence.
  - intros a Ha. rewrite Hrd by (left; lia). apply Hlow. unfold blk, BSIZE in *. lia.
  - intros c o Hc Hn Ho. rewrite Hrd by (right; unfold blk, BSIZE in *; lia).
    rewrite Hd1, decide_False; [done|]. assert (c <> b) by (intros ->; apply Hn; by left).
    unfold blk, BSIZE in *. lia.
Qed.

Definition nonzero (l : list Z) : list Z := filter (fun b => b <> 0) l.

Lemma free_blocks_spec l : forall d,
  meta d -> NoDup (nonzero l) -> (forall b, b ∈ nonzero l -> dstart <= b < fsize /\ bit d b = true) ->
  exists d', free_blocks nsect l d = Ret d' /\ freed (nonzero l) d d'.
Proof.
  unfold free_blocks. induction l as [|b l IH]; intros d M Hnd Hl; cbn [iterM].
  { exists d. split; [done|]. by apply freed_nil. }
  unfold nonzero in *. rewrite filter_cons in *. destruct (Z.eqb_spec b 0) as [->|Hb].
  - rewrite decide_False in * by lia. cbn [mbind outcome_bind]. by apply IH.
  - rewrite decide_True in * by done. apply NoDup_cons in Hnd as [Hnb Hnd].
    destruct (Hl b ltac:(left)) as [Hr Hm]. destruct (bfree_spec d b M Hr Hm) as (d1 & -> & F1).
    cbn [mbind outcome_bind]. pose proof dstart_pos.
    destruct (IH d1) as (d2 & -> & F2); [apply F1|done| |].
    + intros c Hc. destruct (Hl c ltac:(by right)) as [Hcr Hcm]. split; [done|].
      rewrite (fr_bits _ _ _ F1) by lia. rewrite decide_False; [done|].
      intros ->%list_elem_of_singleton. done.
    + exists d2. split; [done|]. by apply (freed_app [b] _ d d1).
Qed.

Lemma elem_of_nonzero_fmap (f : Z -> Z) l b : b ∈ nonzero (f <$> l) <-> b <> 0 /\ exists x, x ∈ l /\ b = f x.
Proof.
  unfold nonzero. rewrite list_elem_of_filter, list_elem_of_fmap. split.
  - intros (H & x & E & Hx). eauto.
  - intros (H & x & E & Hx). eauto.
Qed.

Lemma NoDup_nonzero (f : Z -> Z) l :
  NoDup l -> (forall x y, x ∈ l -> y ∈ l -> f x <> 0 -> f x = f y -> x = y) -> NoDup (nonzero (f <$> l)).
Proof.
  unfold nonzero. induction 1 as [|x l Hx Hl IH]; intros Hf; [by apply NoDup_nil|].
  rewrite fmap_cons, filter_cons. case_decide as Hz.
  - apply NoDup_cons. split; [|apply IH; intros; apply Hf; auto; by right].
    intros (_ & y & Hy & E)%elem_of_nonzero_fmap.
    apply Hx. rewrite (Hf x y); auto; [by left|by right].
  - apply IH. intros; apply Hf; auto; by right.
Qed.

Lemma nonzero_slots d ip a n :
  wfi d ip -> 0 <= a -> 0 <= n -> a + n <= 141 ->
  NoDup (nonzero (slot d ip <$> seqZ a n)) /\
  forall b, b ∈ nonzero (slot d ip <$> seqZ a n) -> dstart <= b < fsize /\ bit d b = true.
Proof.
  intros W Ha Hn Hm. split.
  - apply NoDup_nonzero; [apply NoDup_seqZ|].
    intros s t Hs%elem_of_seqZ Ht%elem_of_seqZ. apply (w_inj _ _ W); lia.
  - intros b (Hz & s & Hs%elem_of_seqZ & ->)%elem_of_nonzero_fmap. apply (w_slot _ _ W); [lia|done].
Qed.

Lemma direct_slots d ip :
  length (addrs ip) = 13%nat -> take 12 (addrs ip) = slot d ip <$> seqZ 0 12.
Proof.
  intros Hl. apply list_eq_same_length with 12%nat; [by rewrite length_fmap, length_seqZ|rewrite length_take; lia|].
  intros i x y Hi Hx Hy. rewrite lookup_take_lt in Hx by lia.
  rewrite list_lookup_fmap, lookup_seqZ_lt in Hy by lia. injection Hy as <-.
  rewrite slot_low by lia. replace (Z.to_nat (0 + Z.of_nat i)) with i by lia. by rewrite nth_lookup, Hx.
Qed.

Lemma indirect_slots d ip :
  ind ip <> 0 -> (fun j => load32 d (blk (ind ip) + 4 * j)) <$> seqZ 0 128 = slot d ip <$> seqZ 13 128.
Proof.
  intros Hi. change 13 with (13 + 0). rewrite <- fmap_add_seqZ, <- list_fmap_compose.
  apply list_fmap_ext. intros i j Hj. apply list_elem_of_lookup_2, elem_of_seqZ in Hj. simpl.
  rewrite slot_high, (proj2 (Z.eqb_neq _ _) Hi) by lia. do 2 f_equal. lia.
Qed.

(** The part of [itrunc] that frees the indirect block and what it names. *)
Lemma itrunc_indirect d ip d1 :
  meta d -> wfi d ip -> ind ip <> 0 -> freed (nonzero (slot d ip <$> seqZ 0 12)) d d1 ->
  exists d2 d3,
    free_blocks nsect ((fun j => load32 d1 (blk (ind ip) + 4 * j)) <$> seqZ 0 128) d1 = Ret d2 /\
    bfree nsect (ind ip) d2 = Ret d3 /\
    freed (nonzero (slot d ip <$> seqZ 13 128) ++ [ind ip]) d1 d3.
Proof.
  intros M W Ei F1. pose proof dstart_pos.
  destruct (w_slot _ _ W 12 ltac:(lia) Ei) as [Hir Him]. rewrite slot_ind in Hir, Him.
  assert (Hno : forall a n, (forall s, s ∈ seqZ a n -> 0 <= s < 141 /\ s <> 12) ->
    ind ip ∉ nonzero (slot d ip <$> seqZ a n)).
  { intros a n Hs (_ & s & Hsn & E)%elem_of_nonzero_fmap. destruct (Hs s Hsn) as [H1 H2].
    apply (w_inj _ _ W 12 s) in E; [lia|lia|done|exact Ei]. }
  assert (H0 : ind ip ∉ nonzero (slot d ip <$> seqZ 0 12))
    by (apply Hno; intros s Hs%elem_of_seqZ; lia).
  replace ((fun j => load32 d1 (blk (ind ip) + 4 * j)) <$> seqZ 0 128) with (slot d ip <$> seqZ 13 128).
  2: { rewrite <- indirect_slots by done. apply list_fmap_ext. intros i j Hj.
       apply list_elem_of_lookup_2, elem_of_seqZ in Hj. symmetry. apply load32_ext. intros a Ha.
       replace a with (blk (ind ip) + (a - blk (ind ip))) by lia.
       apply (fr_bytes _ _ _ F1); [lia|done|unfold BSIZE; lia]. }
  destruct (nonzero_slots d ip 13 128 W) as [He1 He2]; [lia..|].
  destruct (free_blocks_spec (slot d ip <$> seqZ 13 128) d1) as (d2 & E2 & F2); [apply F1|done| |].
  { intros b Hb. destruct (He2 b Hb) as [Hr Hm]. split; [done|].
    rewrite (fr_bits _ _ _ F1) by lia. rewrite decide_False; [done|].
    apply elem_of_nonzero_fmap in Hb as (Hz & s & Hs%elem_of_seqZ & ->).
    intros (_ & t & Ht%elem_of_seqZ & E)%elem_of_nonzero_fmap.
    apply (w_inj _ _ W) in E; auto; lia. }
  destruct (bfree_spec d2 (ind ip)) as (d3 & E3 & F3); [apply F2|done| |].
  { rewrite (fr_bits _ _ _ F2) by lia. rewrite decide_False by (apply Hno; intros s Hs%elem_of_seqZ; lia).
    rewrite (fr_bits _ _ _ F1) by lia. by rewrite decide_False. }
  exists d2, d3. split_and!; [done|done|]. by eapply freed_app.
Qed.

Lemma itrunc_addrs ip :
  length (addrs ip) = 13%nat ->
  i_size 0 (i_addrs (<[Z.to_nat NDIRECT := 0]> (addrs (i_addrs (replicate 12 0 ++ drop 12 (addrs ip)) ip)))
    (i_addrs (replicate 12 0 ++ drop 12 (addrs ip)) ip)) = i_size 0 (i_addrs (replicate 13 0) ip).
Proof.
  intros Hl. unfold i_size, i_addrs. simpl. f_equal.
  destruct (addrs ip) as [|? l]; [done|]. do 12 (destruct l as [|? l]; [done|]).
  destruct l; [done|]. discriminate.
Qed.

(** Every block of the file is free after the first part of [itrunc]. *)
Lemma itrunc_frees d ip :
  meta d -> wfi d ip ->
  exists S d1, itrunc nsect (ip, d) =
      (d ← iupdate nsect (i_size 0 (i_addrs (replicate 13 0) ip)) d1;
       Ret (i_size 0 (i_addrs (replicate 13 0) ip), d)) /\
    freed S d d1 /\ forall b, b ∈ S <-> owns d ip b.
Proof.
  intros M W. pose proof (w_len _ _ W) as Hlen. pose proof dstart_pos. unfold itrunc.
  destruct (nonzero_slots d ip 0 12 W) as [Hd1 Hd2]; [lia..|].
  rewrite (direct_slots d ip Hlen).
  destruct (free_blocks_spec _ d M Hd1 Hd2) as (d1 & -> & F1). cbn [mbind outcome_bind].
  set (ip0 := i_addrs _ ip).
  assert (Hi0 : aget (addrs ip0) NDIRECT = Ret (ind ip)).
  { apply aget_Ret. split; [unfold NDIRECT; lia|]. unfold ip0, ind. simpl.
    rewrite lookup_drop, nth_lookup. simpl.
    destruct (lookup_lt_is_Some_2 (addrs ip) 12) as [x E]; [lia|]. by rewrite E. }
  rewrite Hi0. cbn [mbind outcome_bind].
  assert (Hrep : ind ip = 0 -> addrs ip0 = replicate 13 0).
  { intros E. unfold ip0. simpl. unfold ind in E.
    destruct (addrs ip) as [|? l] eqn:El; [done|]. do 12 (destruct l as [|? l]; [done|]).
    simpl in *. destruct l; [|done]. by rewrite E. }
  destruct (Z.eqb_spec (ind ip) 0) as [Ei|Ei].
  - exists (nonzero (slot d ip <$> seqZ 0 12)), d1. cbn [mbind outcome_bind].
    replace (i_size 0 ip0) with (i_size 0 (i_addrs (replicate 13 0) ip)); [split_and!; [done|done|]|].
    2: { unfold i_size, i_addrs. simpl. do 1 f_equal. symmetry. by apply Hrep. }
    intros b. rewrite elem_of_nonzero_fmap. unfold owns. split.
    + intros (Hb & s & Hs%elem_of_seqZ & ->). split; [done|]. exists s. split; [lia|done].
    + intros (Hb & s & Hs & E). split; [done|]. exists s. split; [|done]. apply elem_of_seqZ.
      destruct (decide (s < 12)); [lia|]. exfalso. apply Hb. rewrite <- E.
      destruct (decide (s = 12)) as [->|]; [by rewrite slot_ind|].
      rewrite slot_high, Ei by lia. done.
  - assert (Hin : dstart <= ind ip < fsize /\ bit d (ind ip) = true)
      by (rewrite <- (slot_ind d ip); apply (w_slot _ _ W); [lia|done]).
    rewrite (data_sector d ip 12 W ltac:(lia) Ei : sector nsect (ind ip) = Ret tt).
    cbn [mbind outcome_bind].
    destruct (itrunc_indirect d ip d1 M W Ei F1) as (d2 & d3 & E2 & E3 & F3).
    unfold NINDIRECT. rewrite E2. cbn [mbind outcome_bind]. rewrite E3. cbn [mbind outcome_bind].
    rewrite aset_Ret by (unfold NDIRECT, ip0; simpl; rewrite length_drop; lia).
    cbn [mbind outcome_bind]. eexists _, d3. split; [|split; [by eapply freed_app|]].
    + unfold ip0. rewrite (itrunc_addrs ip Hlen). done.
    + intros b. rewrite !elem_of_app, !elem_of_nonzero_fmap, list_elem_of_singleton. unfold owns. split.
      * intros [(Hb & s & Hs%elem_of_seqZ & ->)|[(Hb & s & Hs%elem_of_seqZ & ->)| ->]];
          (split; [lia|]); [exists s|exists s|exists 12]; (split; [lia|done]).
      * intros (Hb & s & Hs & <-). destruct (decide (s < 12)); [left|right].
        { split; [done|]. exists s. split; [apply elem_of_seqZ; lia|done]. }
        destruct (decide (s = 12)) as [->|]; [by right|left].
        split; [done|]. exists s. split; [apply elem_of_seqZ; lia|done].
Qed.
End Disk.

(** ** An example disk

    64 sectors, 8 inodes, the bitmap in block 4, data from block 5 on; inode 1
    is a file of the five bytes [hello] in block 5. *)

Definition hello : list Z := [104; 101; 108; 108; 111].
Definition demo_sb : memory := store32 (store32 ∅ (blk 1) 64) (blk 1 + 8) 8.
Definition demo_disk : memory := wr_bytes (wr8 demo_sb (blk 4) 63) (blk 5) hello.
Definition demo_inode : inode := Inode 1 1 1 3 2 0 0 1 5 (5 :: replicate 12 0).

Lemma demo_geometry : geometry 64 64 8.
Proof. split; try lia; vm_compute; reflexivity. Qed.

Lemma demo_bits b : 0 <= b < 64 -> bit 8 demo_disk b = (b <? 6).
Proof.
  intros Hb. apply Bool.eqb_prop.
  refine (forall_range (fun b => Bool.eqb (bit 8 demo_disk b) (b <? 6)) 0 64 _ b Hb).
  vm_compute. reflexivity.
Qed.

Lemma demo_meta : meta 64 8 demo_disk.
Proof.
  split.
  - vm_compute. reflexivity.
  - vm_compute. reflexivity.
  - intros b Hb. change (dstart 64 8) with 5 in Hb. rewrite demo_bits by lia. apply Z.ltb_lt. lia.
  - intros b o Hb Hf Ho. change (dstart 64 8) with 5 in Hb. rewrite demo_bits in Hf by lia.
    apply Z.ltb_ge in Hf. unfold demo_disk, demo_sb, blk, BSIZE in *.
    rewrite rd8_wr_bytes, decide_False by (try (repeat constructor; unfold is_u8; lia); simpl; lia).
    rewrite rd8_wr8_ne, !rd8_store32_ne by lia. done.
Qed.

Lemma demo_slot s : 0 <= s < 141 -> slot demo_disk demo_inode s = if s =? 0 then 5 else 0.
Proof.
  intros Hs. apply Z.eqb_eq.
  refine (forall_range (fun s => slot demo_disk demo_inode s =? (if s =? 0 then 5 else 0)) 0 141 _ s Hs).
  vm_compute. reflexivity.
Qed.

Lemma demo_wfi : wfi 64 8 demo_disk demo_inode.
Proof.
  split; try done.
  - intros s Hs. rewrite demo_slot by done. destruct (s =? 0); [|done]. intros _.
    split; [done|]. by rewrite demo_bits by lia.
  - intros s t Hs Ht. rewrite !demo_slot by done.
    destruct (Z.eqb_spec s 0), (Z.eqb_spec t 0); lia.
  - intros k Hk Hks. unfold dblk. simpl in Hks. unfold BSIZE in Hks.
    assert (k = 0) as -> by lia. by rewrite demo_slot.
Qed.

(** ** Files *)

(** C33. [readi] returns a slice of the file: for an inode in order, a read of
    [n] bytes at offset [off] fails when [off] is behind the end of the file
    or [off + n] does not fit in 32 bits, and otherwise returns the bytes of
    the file from [off] on, [n] of them or as many as there are, and changes
    nothing. *)
Theorem readi_contents nsect fsize fninodes d ip off n :
  geometry nsect fsize fninodes -> wfi fsize fninodes d ip -> is_u32 off -> is_u32 n ->
  readi_file nsect off n (ip, d) =
  if decide (size ip < off \/ 2 ^ 32 <= off + n) then Ret (-1, [], (ip, d))
  else let n' := Z.min n (size ip - off) in
    Ret (n', take (Z.to_nat n') (drop (Z.to_nat off) (contents d ip)), (ip, d)).
Proof. intros G. by apply (readi_file_spec _ _ _ G). Qed.

Lemma readi_contents_witness :
  readi_file 64 1 3 (demo_inode, demo_disk) = Ret (3, [101; 108; 108], (demo_inode, demo_disk)).
Proof.
  rewrite (readi_contents 64 64 8 demo_disk demo_inode 1 3 demo_geometry demo_wfi).
  - vm_compute. reflexivity.
  - unfold is_u32. lia.
  - unfold is_u32. lia.
Defined.

(** C1. [writei] splices bytes into the file: on a disk in order with enough
    free blocks, a write of [n] bytes at an offset inside the file writes
    [n' = n] bytes, or as many as fit in a file of 140 blocks; the contents
    become the old ones with these bytes at [off], extended when they reach
    behind the end.  The disk and the inode stay in order; the blocks of
    other files keep their contents and stay allocated, blocks that become
    allocated belong to this file, and outside the bitmap and the data blocks
    only the inode itself changes on disk. *)
Theorem writei_contents nsect fsize fninodes d ip src off n :
  geometry nsect fsize fninodes -> meta fsize fninodes d -> wfi fsize fninodes d ip ->
  Forall is_u8 src -> 0 <= n <= Z.of_nat (length src) -> 0 <= off <= size ip -> off + n < 2 ^ 32 ->
  let n' := Z.min n (MAXFILE * BSIZE - off) in
  span off n' <= budget fsize fninodes d ip ->
  exists ip' d', writei_file nsect src off n (ip, d) = Ret (n', (ip', d')) /\
    contents d' ip' = take (Z.to_nat off) (contents d ip) ++ take (Z.to_nat n') src ++
                      drop (Z.to_nat off + Z.to_nat n') (contents d ip) /\
    size ip' = Z.max (size ip) (off + n') /\
    meta fsize fninodes d' /\ wfi fsize fninodes d' ip' /\
    (forall b o, dstart fsize fninodes <= b < fsize -> bit fninodes d b = true -> ~ owns d ip b ->
       0 <= o < BSIZE -> bit fninodes d' b = true /\ rd8 d' (blk b + o) = rd8 d (blk b + o)) /\
    (forall b, 0 <= b < fsize -> bit fninodes d' b = true ->
       bit fninodes d b = true \/ owns d' ip' b) /\
    (forall a, 0 <= a < blk (bmstart fninodes) ->
       ~ (dip (inum ip) <= a < dip (inum ip) + 64) -> rd8 d' a = rd8 d a).
Proof.
  intros G M W Hu Hn Ho Hov n' Hb.
  destruct (writei_file_spec nsect fsize fninodes G src d ip off n M W Hu Hn Ho Hov Hb)
    as (ip' & d' & E & U & F).
  fold n' in E, U, F. pose proof (w_size _ _ _ _ W) as Hsz.
  assert (Hlen : length (take (Z.to_nat n') src) = Z.to_nat n') by (rewrite length_take; lia).
  assert (Hs' : size ip' = Z.max (size ip) (off + n')) by (rewrite F; done).
  exists ip', d'. split_and!; [done| |done|apply U|apply U| |apply U|apply U].
  - rewrite (updates_contents _ _ _ _ _ _ _ _ U) by lia. by rewrite Hlen.
  - intros b o Hbr Hm Hno Hor. pose proof (dstart_pos _ _ _ G).
    split; [apply (up_marks _ _ _ _ _ _ _ _ U); [lia|done]|].
    by apply (up_frame _ _ _ _ _ _ _ _ U).
Qed.

Lemma writei_contents_witness :
  exists ip' d', writei_file 64 [112; 33] 4 2 (demo_inode, demo_disk) = Ret (2, (ip', d')) /\
    contents d' ip' = [104; 101; 108; 108; 112; 33].
Proof.
  destruct (writei_contents 64 64 8 demo_disk demo_inode [112; 33] 4 2 demo_geometry demo_meta demo_wfi)
    as (ip' & d' & E & C & _); try (simpl; lia).
  - repeat constructor; unfold is_u8; lia.
  - vm_compute. congruence.
  - exists ip', d'. split; [exact E|]. rewrite C. vm_compute. reflexivity.
Defined.

(** [itrunc] releases a file: it always returns, the inode is left empty
    with no blocks, exactly the blocks of the file become free, the free
    blocks (also the new ones) are zero as [balloc] expects, and every other
    allocated block keeps its contents. *)
Theorem itrunc_releases nsect fsize fninodes d ip :
  geometry nsect fsize fninodes -> meta fsize fninodes d -> wfi fsize fninodes d ip ->
  exists d', itrunc nsect (ip, d) = Ret (i_size 0 (i_addrs (replicate 13 0) ip), d') /\
    meta fsize fninodes d' /\
    (forall b, dstart fsize fninodes <= b < fsize -> owns d ip b ->
       bit fninodes d' b = false /\ forall o, 0 <= o < BSIZE -> rd8 d' (blk b + o) = 0) /\
    (forall b o, dstart fsize fninodes <= b < fsize -> ~ owns d ip b -> 0 <= o < BSIZE ->
       bit fninodes d' b = bit fninodes d b /\ rd8 d' (blk b + o) = rd8 d (blk b + o)).
Proof.
  intros G M W. destruct (itrunc_frees nsect fsize fninodes G d ip M W) as (S & d1 & -> & F & HS).
  pose proof (dstart_pos _ _ _ G) as Hds. pose proof (w_inum _ _ _ _ W) as Hi.
  set (ip0 := i_size 0 _).
  destruct (iupdate_spec nsect fsize fninodes G ip0 d1) as (d2 & -> & Hd & _); [done|done|].
  cbn [mbind outcome_bind]. exists d2. change (inum ip0) with (inum ip) in Hd.
  assert (Hdat : forall a, blk (bmstart fninodes) <= a -> rd8 d2 a = rd8 d1 a).
  { intros a Ha. apply Hd. pose proof (dip_range fninodes _ Hi). lia. }
  assert (Hblk : forall b o, dstart fsize fninodes <= b -> 0 <= o -> rd8 d2 (blk b + o) = rd8 d1 (blk b + o)).
  { intros b o Hb Ho. apply Hdat. unfold blk, BSIZE in *. lia. }
  assert (Hbit : forall b, 0 <= b < fsize -> bit fninodes d2 b = bit fninodes d1 b).
  { intros b Hb. unfold bit. rewrite Hdat; [done|]. by apply (bitmap_byte fsize fninodes). }
  assert (M2 : meta fsize fninodes d2).
  { apply (meta_ext nsect fsize fninodes G d1); [apply F| |done|].
    - intros a Ha. apply Hd. pose proof (dip_range fninodes _ Hi). lia.
    - intros b o Hb _ Ho. apply Hblk; lia. }
  split_and!; [done|done| |].
  - intros b Hb Ho%HS. assert (bit fninodes d2 b = false) as Hf.
    { rewrite Hbit, (fr_bits _ _ _ _ _ F), decide_True by (lia || done). done. }
    split; [done|]. intros o Hor. by apply (m_zero _ _ _ M2).
  - intros b o Hb Ho Hor. assert (b ∉ S) by (by rewrite HS). rewrite Hbit, Hblk by lia.
    rewrite (fr_bits _ _ _ _ _ F), decide_False by (lia || done). split; [done|].
    by apply (fr_bytes _ _ _ _ _ F).
Qed.

Lemma itrunc_releases_witness :
  exists d', itrunc 64 (demo_inode, demo_disk) =
      Ret (i_size 0 (i_addrs (replicate 13 0) demo_inode), d') /\ bit 8 d' 5 = false.
Proof.
  destruct (itrunc_releases 64 64 8 demo_disk demo_inode demo_geometry demo_meta demo_wfi)
    as (d' & E & _ & H & _).
  exists d'. split; [exact E|]. apply H; [vm_compute; split; congruence|].
  split; [discriminate|]. exists 0. split; [lia|]. reflexivity.
Defined.

(** C34. [balloc] takes the lowest free block, marks it and nothing else; but
    it looks at whole bitmap blocks, so on a disk whose blocks are all in use
    it does not panic and hands out a block behind the end of the file
    system. *)
Theorem balloc_lowest nsect fsize fninodes d :
  geometry nsect fsize fninodes -> meta fsize fninodes d ->
  (0 < nfree fsize fninodes d ->
     exists r, balloc nsect d = Ret (r, setbit fninodes d r) /\
       dstart fsize fninodes <= r < fsize /\ bit fninodes d r = false /\
       (forall c, 0 <= c < r -> bit fninodes d c = true) /\
       nfree fsize fninodes (setbit fninodes d r) = nfree fsize fninodes d - 1) /\
  (nfree fsize fninodes d = 0 -> bit fninodes d fsize = false -> fsize mod BPB <> 0 ->
     balloc nsect d = Ret (fsize, setbit fninodes d fsize)).
Proof.
  intros G M. split.
  - intros Hf. destruct (nfree_pos _ _ _ Hf) as (f & Hfr & Hfb).
    destruct (balloc_spec _ _ _ G d f M Hfr Hfb) as (r & E & Hr & Hb & Hc).
    exists r. split_and!; auto; [lia|lia|]. apply (nfree_setbit nsect); auto; lia.
  - intros Hz Hb Hm. destruct (readsb_meta _ _ _ G d M) as (n & E). unfold balloc. rewrite E.
    cbn [mbind outcome_bind]. pose proof (dstart_pos _ _ _ G). destruct G.
    destruct (balloc_loop_spec nsect fsize fninodes ltac:(by split) d fsize (Z.to_nat (fsize / BPB) + 2) 0)
      as (r & -> & Hr & Hrb & Hc); try done; try lia; try (unfold BPB in *; dm).
    destruct (decide (r = fsize)) as [->|]; [done|]. exfalso.
    destruct (decide (r < dstart fsize fninodes)); [rewrite (m_bits _ _ _ M) in Hrb by lia; discriminate|].
    apply (nfree_zero fsize fninodes d r Hz); [lia|done].
Qed.

(** A disk whose 64 blocks are all marked. *)
Definition full_disk : memory := foldl (fun m k => wr8 m (blk 4 + k) 255) demo_sb (seqZ 0 8).

Lemma full_meta : meta 64 8 full_disk.
Proof.
  assert (H : forall b, 0 <= b < 64 -> bit 8 full_disk b = true)
    by (apply (forall_range (bit 8 full_disk) 0 64); vm_compute; reflexivity).
  split; [vm_compute; reflexivity|vm_compute; reflexivity| |].
  - intros b Hb. change (dstart 64 8) with 5 in Hb. apply H. lia.
  - intros b o Hb Hf. change (dstart 64 8) with 5 in Hb. rewrite H in Hf by lia. discriminate.
Qed.

Lemma balloc_lowest_witness :
  (exists r, balloc 64 demo_disk = Ret (r, setbit 8 demo_disk r)) /\
  balloc 64 full_disk = Ret (64, setbit 8 full_disk 64).
Proof.
  split.
  - destruct (balloc_lowest 64 64 8 demo_disk demo_geometry demo_meta) as [H _].
    destruct H as (r & E & _); [vm_compute; reflexivity|]. exists r. exact E.
  - apply (balloc_lowest 64 64 8 full_disk demo_geometry full_meta); vm_compute; congruence.
Defined.
