(* ===== verification/FsDir.v ===== *)
(** * Directories and paths (kernel/fs.c)

    A directory is a file of 16-byte entries.  [entries] is its abstract
    contents, a list of inode numbers and names; [dirlookup] finds the first
    entry in use with a name, [dirlink] puts a new entry into the first free
    place.  [skipelem], iterated, splits a path at its slashes. *)

From S2P Require Import Prelude Memory Fs FsData.

(** ** Entries *)

(** Entry [h] of a directory: inode number and name, from the bytes of the
    file. *)
Definition ent_inum (d : memory) (ip : inode) (h : Z) : Z :=
  fbyte d ip (16 * h) + 2 ^ 8 * fbyte d ip (16 * h + 1).
Definition ent_name (d : memory) (ip : inode) (h : Z) : list Z :=
  cname (fun i => fbyte d ip (16 * h + 2 + Z.of_nat i)) DIRSIZ.
Definition ents (d : memory) (ip : inode) (h n : Z) : list (Z * list Z) :=
  (fun h => (ent_inum d ip h, ent_name d ip h)) <$> seqZ h n.
Definition entries (d : memory) (ip : inode) : list (Z * list Z) := ents d ip 0 (size ip / 16).

(** An entry in use called [name]; names are compared up to 14 bytes. *)
Definition is_entry (name : list Z) (e : Z * list Z) : Prop :=
  e.1 <> 0 /\ e.2 = cname (at_list name) DIRSIZ.
#[export] Instance is_entry_dec name e : Decision (is_entry name e).
Proof. apply _. Defined.

(** The offset and the inode number of the first one. *)
Definition lookup_entry (name : list Z) (l : list (Z * list Z)) : option (Z * Z) :=
  (fun '(h, e) => (16 * Z.of_nat h, e.1)) <$> list_find (is_entry name) l.

(** A directory in order: whole entries, and zeros behind its end. *)
Record wfdirent (d : memory) (ip : inode) : Prop := {
  wd_type : type ip = T_DIR;
  wd_size : size ip mod 16 = 0;
  wd_tail : forall x, size ip <= x < MAXFILE * BSIZE -> fbyte d ip x = 0
}.

(** ** [dirlookup] *)

Section Lookup.
Context (nsect fsize fninodes : Z) (G : geometry nsect fsize fninodes).

Lemma fbyte_block d ip b o :
  dblk d ip b <> 0 -> 0 <= o < BSIZE -> fbyte d ip (BSIZE * b + o) = rd8 d (blk (dblk d ip b) + o).
Proof.
  intros Hn Ho. unfold fbyte.
  replace ((BSIZE * b + o) / BSIZE) with b by (unfold BSIZE in *; dm).
  replace ((BSIZE * b + o) mod BSIZE) with o by (unfold BSIZE in *; dm).
  by rewrite (proj2 (Z.eqb_neq _ _) Hn).
Qed.

Lemma cname_ext p q n : (forall i, (i < n)%nat -> p i = q i) -> cname p n = cname q n.
Proof.
  revert p q. induction n as [|n IH]; intros p q H; cbn [cname]; [done|].
  rewrite (H 0%nat) by lia. destruct (q 0%nat =? 0); [done|]. f_equal. apply IH.
  intros i Hi. apply (H (S i)). lia.
Qed.

(** Entry [32 * b + j] is at offset [16 * j] of block [b]. *)
Lemma entry_block d ip name b j :
  dblk d ip b <> 0 -> 0 <= j < 32 ->
  load16 d (blk (dblk d ip b) + 16 * j) = ent_inum d ip (32 * b + j) /\
  (namecmp (at_list name) (at_mem d (blk (dblk d ip b) + 16 * j + 2)) = 0 <->
   ent_name d ip (32 * b + j) = cname (at_list name) DIRSIZ).
Proof.
  intros Hn Hj. split.
  - unfold load16, ent_inum. rewrite <- !Z.add_assoc.
    rewrite <- !fbyte_block by (done || unfold BSIZE; lia). unfold BSIZE. f_equal; [f_equal; lia|].
    do 2 f_equal. lia.
  - unfold namecmp. rewrite strncmp_0_iff. unfold ent_name.
    rewrite (cname_ext (at_mem _ _) (fun i => fbyte d ip (16 * (32 * b + j) + 2 + Z.of_nat i))); [done|].
    intros i Hi. unfold at_mem, DIRSIZ in *. rewrite <- !Z.add_assoc.
    rewrite <- fbyte_block by (done || unfold BSIZE; lia). f_equal. unfold BSIZE. lia.
Qed.

Lemma ents_split d ip h n m : 0 <= m <= n -> ents d ip h n = ents d ip h m ++ ents d ip (h + m) (n - m).
Proof. intros Hm. unfold ents. by rewrite (seqZ_split h n m), fmap_app. Qed.

Lemma length_ents d ip h n : length (ents d ip h n) = Z.to_nat n.
Proof. unfold ents. by rewrite length_fmap, length_seqZ. Qed.

(** The entries of one block, as the code reads them. *)
Lemma find_entry_spec d ip name b n : forall j,
  dblk d ip b <> 0 -> 0 <= j -> j + Z.of_nat n <= 32 ->
  find_entry n (at_list name) d (blk (dblk d ip b)) (16 * j) =
  (fun '(h, e) => (16 * j + 16 * Z.of_nat h, e.1)) <$>
    list_find (is_entry name) (ents d ip (32 * b + j) (Z.of_nat n)).
Proof.
  induction n as [|n IH]; intros j Hn Hj Hb; [done|].
  cbn [find_entry]. destruct (entry_block d ip name b j Hn ltac:(lia)) as [E1 E2].
  rewrite E1. replace (16 * j + 16) with (16 * (j + 1)) by lia. rewrite IH by lia.
  unfold ents. rewrite (seqZ_cons _ (Z.of_nat (S n))) by lia. rewrite fmap_cons. cbn [list_find].
  replace (Z.succ (32 * b + j)) with (32 * b + (j + 1)) by lia.
  replace (Z.pred (Z.of_nat (S n))) with (Z.of_nat n) by lia.
  assert (forall X : option (nat * (Z * list Z)),
    (fun '(h, e) => (16 * (j + 1) + 16 * Z.of_nat h, e.1)) <$> X =
    (fun '(h, e) => (16 * j + 16 * Z.of_nat h, e.1)) <$> (prod_map S id <$> X)) as EX.
  { intros [[h e]|]; [|done]. cbn -[Z.mul Z.of_nat]. do 2 f_equal. lia. }
  rewrite EX.
  destruct (Z.eqb_spec (ent_inum d ip (32 * b + j)) 0) as [Ez|Ez].
  - by rewrite decide_False by (unfold is_entry; cbn [fst snd]; tauto).
  - destruct (Z.eqb_spec (namecmp (at_list name) (at_mem d (blk (dblk d ip b) + 16 * j + 2))) 0) as [En|En].
    + rewrite decide_True by (unfold is_entry; cbn [fst snd]; tauto). cbn. do 2 f_equal. lia.
    + by rewrite decide_False by (unfold is_entry; cbn [fst snd]; tauto).
Qed.

Lemma list_find_app' {A} (P : A -> Prop) `{!forall x, Decision (P x)} l1 l2 :
  list_find P (l1 ++ l2) =
  match list_find P l1 with
  | Some x => Some x
  | None => prod_map (Nat.add (length l1)) id <$> list_find P l2
  end.
Proof.
  induction l1 as [|x l1 IH]; simpl.
  { destruct (list_find P l2) as [[]|]; done. }
  case_decide; [done|]. rewrite IH. destruct (list_find P l1) as [[]|]; [done|].
  destruct (list_find P l2) as [[]|]; done.
Qed.

Lemma list_find_none {A} (P : A -> Prop) `{!forall x, Decision (P x)} l :
  (forall x, x ∈ l -> ~ P x) -> list_find P l = None.
Proof. intros Hl. apply list_find_None, Forall_forall. done. Qed.

(** The number of blocks of a directory. *)
Definition nblk (sz : Z) : Z := (sz + BSIZE - 1) / BSIZE.

Lemma dirlookup_loop_spec d ip name fuel : forall b,
  wfi fsize fninodes d ip -> 0 <= b <= nblk (size ip) -> nblk (size ip) - b < Z.of_nat fuel ->
  dirlookup_loop nsect fuel (at_list name) (BSIZE * b) (ip, d) =
  Ret ((fun '(h, e) => (BSIZE * b + 16 * Z.of_nat h, e.1)) <$>
         list_find (is_entry name) (ents d ip (32 * b) (32 * (nblk (size ip) - b))), (ip, d)).
Proof.
  induction fuel as [|fuel IH]; intros b W Hb Hf; [lia|].
  cbn [dirlookup_loop fst]. pose proof (w_size _ _ _ _ W) as Hsz.
  destruct (Z.ltb_spec (BSIZE * b) (size ip)) as [Hlt|Hge].
  2: { assert (nblk (size ip) - b = 0) as -> by (unfold nblk, BSIZE in *; dm). done. }
  assert (Hbn : b < nblk (size ip)) by (unfold nblk, BSIZE in *; dm).
  replace (BSIZE * b / BSIZE) with b by (unfold BSIZE; dm).
  assert (Hbr : 0 <= b < 140) by (unfold MAXFILE, NDIRECT, NINDIRECT, BSIZE in *; lia).
  assert (Hn : dblk d ip b <> 0) by (apply (w_alloc _ _ _ _ W); lia).
  rewrite (bmap_hit nsect fsize fninodes G) by done. cbn [mbind outcome_bind].
  rewrite (data_sector nsect fsize fninodes G d ip _ W (proj1 (dslot_range b Hbr)) Hn
    : sector nsect (dblk d ip b) = Ret tt). cbn [mbind outcome_bind].
  pose proof (find_entry_spec d ip name b 32 0 Hn ltac:(lia) ltac:(lia)) as E.
  change (16 * 0) with 0 in E. rewrite E. clear E.
  replace (32 * b + 0) with (32 * b) by lia. change (Z.of_nat 32) with 32.
  rewrite (ents_split d ip (32 * b) (32 * (nblk (size ip) - b)) 32), list_find_app' by lia.
  destruct (list_find (is_entry name) (ents d ip (32 * b) 32)) as [[h e]|].
  { cbn -[Z.mul Z.of_nat BSIZE]. do 3 f_equal; lia. }
  cbn [fmap option_fmap option_map].
  replace (BSIZE * b + BSIZE) with (BSIZE * (b + 1)) by lia. rewrite IH by (done || lia).
  replace (32 * (b + 1)) with (32 * b + 32) by lia.
  replace (32 * (nblk (size ip) - (b + 1))) with (32 * (nblk (size ip) - b) - 32) by lia.
  destruct (list_find _ _) as [[h e]|]; [|done].
  cbn -[Z.mul Z.of_nat BSIZE Nat.add]. rewrite length_ents. do 3 f_equal. f_equal. unfold BSIZE. lia.
Qed.

Lemma dirlookup_entries d ip name :
  wfi fsize fninodes d ip -> wfdirent d ip ->
  dirlookup_loop nsect (chunks (size ip)) (at_list name) 0 (ip, d) =
  Ret (lookup_entry name (entries d ip), (ip, d)).
Proof.
  intros W [_ Hm Ht]. pose proof (w_size _ _ _ _ W) as Hsz.
  pose proof (dirlookup_loop_spec d ip name (chunks (size ip)) 0 W) as E.
  change (BSIZE * 0) with 0 in E. rewrite E by (unfold chunks, nblk, BSIZE in *; dm). clear E.
  change (32 * 0) with 0. rewrite Z.sub_0_r. unfold lookup_entry. do 2 f_equal.
  unfold entries.
  rewrite (ents_split d ip 0 (32 * nblk (size ip)) (size ip / 16)) by (unfold nblk, BSIZE in *; dm).
  rewrite list_find_app'. destruct (list_find _ _) as [[h e]|]; [done|].
  rewrite list_find_none; [done|]. intros e (h & -> & Hh%elem_of_seqZ)%list_elem_of_fmap [H _].
  apply H. simpl. unfold ent_inum. rewrite !Ht; [done|..];
    unfold nblk, MAXFILE, NDIRECT, NINDIRECT, BSIZE in *; dm.
Qed.
End Lookup.

(** ** New entries *)

(** The place of a new entry: the first free one, or the end. *)
Definition free_entry (l : list (Z * list Z)) : nat :=
  match list_find (fun e => e.1 = 0) l with Some (h, _) => h | None => length l end.
Definition put_entry (e : Z * list Z) (l : list (Z * list Z)) : list (Z * list Z) :=
  let h := free_entry l in take h l ++ e :: drop (S h) l.

Lemma free_entry_le l : (free_entry l <= length l)%nat.
Proof.
  unfold free_entry. destruct (list_find _ l) as [[h e]|] eqn:E; [|lia].
  apply list_find_Some in E as (E & _). apply lookup_lt_Some in E. lia.
Qed.

Lemma free_entry_before l h e : (h < free_entry l)%nat -> l !! h = Some e -> e.1 <> 0.
Proof.
  unfold free_entry. destruct (list_find _ l) as [[h' e']|] eqn:E; intros Hh He Hz.
  - apply list_find_Some in E as (_ & _ & E). by apply (E h e He).
  - apply list_find_None in E. rewrite Forall_lookup in E. by apply (E h e He).
Qed.

Lemma free_entry_free l e : l !! free_entry l = Some e -> e.1 = 0.
Proof.
  unfold free_entry. destruct (list_find _ l) as [[h' e']|] eqn:E; intros He.
  - apply list_find_Some in E as (E & Hz & _). simpl in *. congruence.
  - apply lookup_lt_Some in He. lia.
Qed.

(** The inode number a name stands for. *)
Definition named (name : list Z) (l : list (Z * list Z)) : option Z := snd <$> lookup_entry name l.

Lemma named_spec name l : named name l = (fun e => e.2.1) <$> list_find (is_entry name) l.
Proof. unfold named, lookup_entry. by destruct (list_find _ l) as [[h e]|]. Qed.

Lemma named_app name l1 l2 :
  named name (l1 ++ l2) = match named name l1 with Some n => Some n | None => named name l2 end.
Proof.
  rewrite !named_spec, list_find_app'. destruct (list_find _ l1) as [[]|]; [done|].
  by destruct (list_find _ l2) as [[]|].
Qed.

Lemma named_cons name e l :
  named name (e :: l) = if decide (is_entry name e) then Some e.1 else named name l.
Proof.
  rewrite !named_spec. cbn [list_find]. case_decide; [done|]. by destruct (list_find _ l) as [[]|].
Qed.

(** A new entry is found under its name, and other names stand for what they
    stood for. *)
Lemma named_put num name name' l :
  num <> 0 -> named name l = None ->
  named name' (put_entry (num, cname (at_list name) DIRSIZ) l) =
  if decide (cname (at_list name') DIRSIZ = cname (at_list name) DIRSIZ) then Some num
  else named name' l.
Proof.
  intros Hn H0. unfold put_entry. pose proof (free_entry_le l) as Hle. rewrite named_app, named_cons.
  assert (El : named name' l = match named name' (take (free_entry l) l) with
    Some n => Some n | None => named name' (drop (S (free_entry l)) l) end).
  { rewrite <- (take_drop (free_entry l) l) at 1. rewrite named_app.
    destruct (named name' (take _ l)); [done|].
    destruct (l !! free_entry l) as [e|] eqn:E.
    - rewrite (drop_S _ _ _ E), named_cons, decide_False; [done|].
      intros [Hz _]. by apply free_entry_free in E.
    - apply lookup_ge_None in E. rewrite !drop_ge by lia. done. }
  destruct (decide (cname (at_list name') DIRSIZ = cname (at_list name) DIRSIZ)) as [Ec|Ec].
  - assert (named name' (take (free_entry l) l) = None) as ->.
    { assert (named name' l = named name l) as E'.
      { rewrite !named_spec. f_equal. apply list_find_ext. intros x. unfold is_entry. by rewrite Ec. }
      rewrite H0, El in E'. by destruct (named name' (take _ l)). }
    by rewrite decide_True.
  - rewrite El, decide_False; [done|]. unfold is_entry. cbn [fst snd]. intros [_ E]. congruence.
Qed.

(** ** [dirlink] *)

(** The bytes of an entry written at place [h] of a directory. *)
Section Entry.
Context (fsize fninodes : Z) (d : memory) (ip : inode) (d' : memory) (ip' : inode).
Context (num : Z) (name : list Z) (h : Z).
Context (Hh : 0 <= h <= size ip / 16) (Hfit : 16 * h + 16 <= MAXFILE * BSIZE).
Context (Hm : size ip mod 16 = 0) (Hmax : 0 <= size ip <= MAXFILE * BSIZE).
Context (U : updates fsize fninodes d ip d' ip' (16 * h) (dirent num name)).
Context (Hsz : size ip' = Z.max (size ip) (16 * h + 16)).

Lemma entry_byte x :
  0 <= x < MAXFILE * BSIZE ->
  fbyte d' ip' x = if decide (16 * h <= x < 16 * h + 16)
                   then nth (Z.to_nat (x - 16 * h)) (dirent num name) 0 else fbyte d ip x.
Proof.
  intros Hx. rewrite (up_bytes _ _ _ _ _ _ _ _ U) by done. rewrite dirent_length. done.
Qed.

Lemma entry_other k : 0 <= k -> 16 * k + 16 <= MAXFILE * BSIZE -> k <> h ->
  (ent_inum d' ip' k, ent_name d' ip' k) = (ent_inum d ip k, ent_name d ip k).
Proof.
  intros Hk Hb Hne. unfold ent_inum, ent_name. apply (f_equal2 pair).
  - rewrite !entry_byte, !decide_False by lia. done.
  - apply cname_ext. intros i Hi. unfold DIRSIZ in Hi. rewrite entry_byte, decide_False by lia. done.
Qed.

Lemma entry_new : (ent_inum d' ip' h, ent_name d' ip' h) = (u16 num, cname (at_list name) DIRSIZ).
Proof.
  unfold ent_inum, ent_name. apply (f_equal2 pair).
  - rewrite !entry_byte, !decide_True by lia.
    replace (Z.to_nat (16 * h - 16 * h)) with 0%nat by lia.
    replace (Z.to_nat (16 * h + 1 - 16 * h)) with 1%nat by lia.
    cbn [nth dirent]. unfold u8, u16. dm.
  - rewrite <- (cname_strncpy (at_list name) DIRSIZ). apply cname_ext. intros i Hi.
    unfold DIRSIZ in Hi. rewrite entry_byte, decide_True by lia.
    replace (Z.to_nat (16 * h + 2 + Z.of_nat i - 16 * h)) with (S (S i)) by lia. done.
Qed.

Lemma entries_put :
  Z.to_nat h = free_entry (entries d ip) ->
  entries d' ip' = put_entry (u16 num, cname (at_list name) DIRSIZ) (entries d ip).
Proof.
  intros E. unfold put_entry. rewrite <- E. unfold entries.
  assert (size ip' / 16 = Z.max (size ip / 16) (h + 1)) as -> by dm.
  assert (0 <= Z.max (size ip / 16) (h + 1) - (h + 1)) by lia.
  rewrite (ents_split d' ip' 0 _ h) by lia. rewrite (ents_split d' ip' (0 + h) _ 1) by lia.
  assert (forall a n, 0 <= a -> 16 * (a + n) <= MAXFILE * BSIZE -> (forall k, a <= k < a + n -> k <> h) ->
    ents d' ip' a n = ents d ip a n) as Hsame.
  { intros a n Ha Hn Hk. apply list_fmap_ext. intros i k Hik.
    apply list_elem_of_lookup_2, elem_of_seqZ in Hik. apply entry_other; [lia|lia|auto]. }
  assert (ents d' ip' (0 + h) 1 = [(u16 num, cname (at_list name) DIRSIZ)]) as ->.
  { unfold ents. rewrite (seqZ_cons (0 + h) 1), fmap_cons by lia.
    change (Z.pred 1) with 0. replace (0 + h) with h by lia. by rewrite entry_new. }
  cbn [app]. apply f_equal2; [|apply f_equal].
  - rewrite Hsame by (intros; dm). rewrite (ents_split d ip 0 (size ip / 16) h) by lia.
    rewrite take_app_length'; [done|]. rewrite length_ents. done.
  - replace (0 + h + 1) with (h + 1) by lia. destruct (decide (h < size ip / 16)).
    + rewrite Hsame by (intros; dm). rewrite (ents_split d ip 0 (size ip / 16) (h + 1)) by lia.
      rewrite drop_app_length'; [|rewrite length_ents; lia]. rewrite Z.max_l by lia.
      apply f_equal2; lia.
    + replace (Z.max (size ip / 16) (h + 1) - h - 1) with 0 by lia.
      rewrite drop_ge; [done|]. rewrite length_ents. lia.
Qed.
End Entry.

Section Link.
Context {D : Type} (nsect fsize fninodes : Z) (G : geometry nsect fsize fninodes).
Context (dev_read : Z -> option (Z -> D -> outcome (Z * list Z * D))).
Context (dev_write : Z -> option (list Z -> Z -> D -> outcome (Z * D))).
Context (dp : nat).

Lemma geti_lookup (s : fs D) i ip : geti i s = Ret ip <-> icache s !! i = Some ip.
Proof. unfold geti. rewrite aget_Ret, Nat2Z.id. split; [tauto|]. split; [lia|done]. Qed.

Lemma seti_id (s : fs D) i ip : geti i s = Ret ip -> seti i ip s = s.
Proof.
  rewrite geti_lookup. intros E. unfold seti, set_icache. rewrite list_insert_id by done.
  by destruct s.
Qed.

Lemma on_inode_run {A} (s : fs D) i ip (f : istate -> outcome (A * istate)) a ip' d' :
  geti i s = Ret ip -> f (ip, dsk s) = Ret (a, (ip', d')) ->
  on_inode i f s = Ret (a, set_dsk d' (seti i ip' s)).
Proof. intros E Ef. unfold on_inode. rewrite E. cbn [mbind outcome_bind]. by rewrite Ef. Qed.

Lemma on_inode_pure {A} (s : fs D) i ip (f : istate -> outcome (A * istate)) a :
  geti i s = Ret ip -> f (ip, dsk s) = Ret (a, (ip, dsk s)) -> on_inode i f s = Ret (a, s).
Proof.
  intros E Ef. rewrite (on_inode_run s i ip f a ip (dsk s) E Ef), (seti_id s i ip E).
  by destruct s.
Qed.

(** Reading one entry. *)
Lemma read_entry (s : fs D) ip h :
  geti dp s = Ret ip -> wfi fsize fninodes (dsk s) ip -> wfdirent (dsk s) ip ->
  0 <= h -> 16 * h < size ip ->
  exists de, readi nsect dev_read dp (16 * h) 16 s = Ret (16, de, s) /\
    nth 0 de 0 + 2 ^ 8 * nth 1 de 0 = ent_inum (dsk s) ip h.
Proof.
  intros E W [Ht Hm _] Hh Hs. pose proof (w_size _ _ _ _ W) as Hsz.
  unfold readi. rewrite E. cbn [mbind outcome_bind]. rewrite Ht.
  change (T_DIR =? T_DEV) with false. cbv iota.
  pose proof (readi_file_spec nsect fsize fninodes G (dsk s) ip (16 * h) 16 W) as R.
  unfold is_u32, MAXFILE, NDIRECT, NINDIRECT, BSIZE in *. rewrite decide_False in R by lia.
  cbv zeta in R. replace (Z.min 16 (size ip - 16 * h)) with 16 in R by dm.
  rewrite (on_inode_pure s dp ip _ (16, take (Z.to_nat 16) (drop (Z.to_nat (16 * h)) (contents (dsk s) ip))));
    [|done|rewrite R by lia; done].
  cbn [mbind outcome_bind fst snd]. eexists. split; [reflexivity|].
  rewrite <- contents_slice by dm. unfold ent_inum.
  rewrite seqZ_cons, fmap_cons by lia. rewrite (seqZ_cons _ (Z.pred 16)), fmap_cons by lia.
  cbn [nth]. by replace (Z.succ (16 * h)) with (16 * h + 1) by lia.
Qed.

(** The search for a free entry. *)
Lemma dirlink_loop_spec (s : fs D) ip fuel : forall h,
  geti dp s = Ret ip -> wfi fsize fninodes (dsk s) ip -> wfdirent (dsk s) ip ->
  0 <= h <= Z.of_nat (free_entry (entries (dsk s) ip)) -> size ip / 16 - h < Z.of_nat fuel ->
  dirlink_loop nsect dev_read fuel (16 * h) dp s =
  Ret (16 * Z.of_nat (free_entry (entries (dsk s) ip)), s).
Proof.
  induction fuel as [|fuel IH]; intros h E W Wd Hh Hf; set (l := entries (dsk s) ip) in *;
    pose proof (free_entry_le l) as Hle; assert (Hlen : Z.of_nat (length l) = size ip / 16)
      by (unfold l, entries; rewrite length_ents; pose proof (w_size _ _ _ _ W); dm).
  { lia. }
  cbn [dirlink_loop]. rewrite E. cbn [mbind outcome_bind]. pose proof (wd_size _ _ Wd) as Hm.
  destruct (Z.ltb_spec (16 * h) (size ip)) as [Hlt|Hge].
  2: { do 3 f_equal. dm. }
  destruct (read_entry s ip h E W Wd ltac:(lia) Hlt) as (de & -> & Ede). cbn [mbind outcome_bind].
  change (negb (16 =? 16)) with false. cbv iota. rewrite Ede.
  assert (Hl : l !! Z.to_nat h = Some (ent_inum (dsk s) ip h, ent_name (dsk s) ip h)).
  { unfold l, entries, ents. rewrite list_lookup_fmap, lookup_seqZ_lt by dm. simpl.
    by rewrite Z2Nat.id by lia. }
  destruct (Z.eqb_spec (ent_inum (dsk s) ip h) 0) as [Ez|Ez].
  - assert (Z.to_nat h = free_entry l) as <-; [|by rewrite Z2Nat.id by lia].
    destruct (decide (Z.to_nat h < free_entry l)%nat); [|lia].
    exfalso. by eapply (free_entry_before l (Z.to_nat h)).
  - replace (16 * h + 16) with (16 * (h + 1)) by lia. apply IH; auto; [|lia].
    destruct (decide (Z.to_nat h = free_entry l)) as [Eh|]; [|lia].
    rewrite Eh in Hl. apply free_entry_free in Hl. done.
Qed.

(** The write of the new entry. *)
Lemma write_entry (s : fs D) ip num name :
  geti dp s = Ret ip -> meta fsize fninodes (dsk s) -> wfi fsize fninodes (dsk s) ip ->
  wfdirent (dsk s) ip -> Forall is_u8 name ->
  let h := Z.of_nat (free_entry (entries (dsk s) ip)) in
  16 * h + 16 <= MAXFILE * BSIZE -> 1 <= budget fsize fninodes (dsk s) ip ->
  exists ip' d', writei nsect dev_write dp (dirent num name) (16 * h) 16 s =
      Ret (16, set_dsk d' (seti dp ip' s)) /\
    updates fsize fninodes (dsk s) ip d' ip' (16 * h) (dirent num name) /\
    ip' = i_size (Z.max (size ip) (16 * h + 16)) (i_addrs (addrs ip') ip).
Proof.
  intros E M W [Ht Hm _] Hu h Hfit Hb. pose proof (w_size _ _ _ _ W) as Hsz.
  pose proof (free_entry_le (entries (dsk s) ip)) as Hle.
  assert (Hlen : Z.of_nat (length (entries (dsk s) ip)) = size ip / 16)
    by (unfold entries; rewrite length_ents; dm).
  destruct (writei_file_spec nsect fsize fninodes G (dirent num name) (dsk s) ip (16 * h) 16 M W)
    as (ip' & d' & Ew & U & F).
  { by apply dirent_u8. }
  { rewrite dirent_length. lia. }
  { unfold h. dm. }
  { unfold MAXFILE, NDIRECT, NINDIRECT, BSIZE in *. lia. }
  { replace (Z.min 16 (MAXFILE * BSIZE - 16 * h)) with 16 by lia.
    unfold span, BSIZE. change (16 <=? 0) with false. cbv iota. dm. }
  replace (Z.min 16 (MAXFILE * BSIZE - 16 * h)) with 16 in * by lia.
  rewrite take_ge in U by (rewrite dirent_length; lia).
  exists ip', d'. split_and!; [|done|done].
  unfold writei. rewrite E. cbn [mbind outcome_bind]. rewrite Ht.
  change (T_DIR =? T_DEV) with false. cbv iota. by apply (on_inode_run s dp ip).
Qed.

Lemma dirlink_absent (s : fs D) ip num name :
  geti dp s = Ret ip -> meta fsize fninodes (dsk s) -> wfi fsize fninodes (dsk s) ip ->
  wfdirent (dsk s) ip -> Forall is_u8 name -> named name (entries (dsk s) ip) = None ->
  let h := Z.of_nat (free_entry (entries (dsk s) ip)) in
  16 * h + 16 <= MAXFILE * BSIZE -> 1 <= budget fsize fninodes (dsk s) ip ->
  exists ip' d', dirlink nsect dev_read dev_write dp name num s = Ret (0, set_dsk d' (seti dp ip' s)) /\
    updates fsize fninodes (dsk s) ip d' ip' (16 * h) (dirent num name) /\
    ip' = i_size (Z.max (size ip) (16 * h + 16)) (i_addrs (addrs ip') ip).
Proof.
  intros E M W Wd Hu Hnone h Hfit Hb.
  destruct (write_entry s ip num name E M W Wd Hu Hfit Hb) as (ip' & d' & Ew & U & F).
  exists ip', d'. split_and!; [|done|done]. unfold dirlink, dirlookup. rewrite E.
  cbn [mbind outcome_bind]. rewrite (wd_type _ _ Wd). change (negb (T_DIR =? T_DIR)) with false. cbv iota.
  rewrite (on_inode_pure s dp ip _ None E); cbn [mbind outcome_bind].
  2: { rewrite (dirlookup_entries nsect fsize fninodes G) by done. unfold named in Hnone.
       by apply fmap_None in Hnone as ->. }
  rewrite E. cbn [mbind outcome_bind]. change 0 with (16 * 0) at 1.
  rewrite (dirlink_loop_spec s ip _ 0 E W Wd); [|lia|pose proof (w_size _ _ _ _ W); lia].
  cbn [mbind outcome_bind]. rewrite Ew. done.
Qed.
End Link.

(** ** Paths *)

(** The pieces of a path between slashes, and the names among them. *)
Fixpoint split_path (p : list Z) : list (list Z) :=
  match p with
  | [] => [[]]
  | c :: p =>
    if c =? SLASH then [] :: split_path p
    else match split_path p with e :: es => (c :: e) :: es | [] => [[c]] end
  end.
Definition path_names (p : list Z) : list (list Z) :=
  take DIRSIZ <$> filter (fun e => e <> []) (split_path p).

(** The names [skipelem] yields one after the other. *)
Fixpoint walk_names (fuel : nat) (p : list Z) : list (list Z) :=
  match fuel with
  | O => []
  | S fuel => match skipelem p with None => [] | Some (r, e) => e :: walk_names fuel r end
  end.

Lemma skip_slashes_names p : path_names (skip_slashes p) = path_names p.
Proof.
  induction p as [|c p IH]; [done|]. cbn [skip_slashes]. unfold path_names in *.
  destruct (Z.eqb_spec c SLASH) as [->|Hc]; [|done]. rewrite IH. cbn [split_path].
  rewrite Z.eqb_refl, filter_cons, decide_False by auto. done.
Qed.

Lemma skip_slashes_length p : (length (skip_slashes p) <= length p)%nat.
Proof. induction p as [|c p IH]; [done|]. cbn [skip_slashes length]. destruct (c =? SLASH); cbn [length]; lia. Qed.

Lemma skip_slashes_head p c r : skip_slashes p = c :: r -> c <> SLASH.
Proof.
  induction p as [|a p IH]; [done|]. cbn [skip_slashes].
  destruct (Z.eqb_spec a SLASH); [done|]. by intros [= -> ->].
Qed.

Lemma span_elem_spec p e r :
  span_elem p = (e, r) -> p = e ++ r /\ split_path p = e :: tail (split_path r) /\
    (r = [] \/ exists q, r = SLASH :: q) /\ Forall (fun c => c <> SLASH) e.
Proof.
  revert e r. induction p as [|c p IH]; intros e r; cbn [span_elem].
  { intros [= <- <-]. split_and!; auto. }
  destruct (Z.eqb_spec c SLASH) as [->|Hc].
  { intros [= <- <-]. cbn [split_path]. rewrite Z.eqb_refl. split_and!; eauto. }
  destruct (span_elem p) as [e' r'] eqn:E. intros [= <- <-].
  destruct (IH e' r' eq_refl) as (-> & Es & Hr & He). cbn [split_path app].
  rewrite (proj2 (Z.eqb_neq _ _) Hc), Es. split_and!; auto.
Qed.

(** One step: a path without a name has no pieces; otherwise the name is the
    first piece, cut to 14 bytes, and the rest has the other pieces, does not
    start with a slash, and is shorter. *)
Lemma skipelem_spec p :
  match skipelem p with
  | None => path_names p = []
  | Some (r, e) => path_names p = e :: path_names r /\ (length r < length p)%nat /\ e <> [] /\
      (forall c q, r = c :: q -> c <> SLASH)
  end.
Proof.
  unfold skipelem. rewrite <- skip_slashes_names. pose proof (skip_slashes_length p) as Hl.
  destruct (skip_slashes p) as [|c q] eqn:E; [done|]. apply skip_slashes_head in E.
  destruct (span_elem (c :: q)) as [e r] eqn:Es.
  apply span_elem_spec in Es as (Eq & Esp & Hr & He). rewrite skip_slashes_names.
  assert (e <> []) as Hne.
  { intros ->. cbn [app] in Eq. destruct Hr as [->|[? ->]]; [done|]. injection Eq as -> _. done. }
  split_and!.
  - unfold path_names. rewrite Esp, filter_cons, decide_True, fmap_cons by done. f_equal.
    destruct Hr as [->|[q' ->]]; [done|]. cbn [split_path tail]. rewrite Z.eqb_refl.
    cbn [tail]. by rewrite filter_cons, decide_False by auto.
  - rewrite Eq, length_app in Hl. pose proof (skip_slashes_length r).
    destruct e; [done|]. cbn [length] in *. lia.
  - by destruct e.
  - intros c' q' Hc. by eapply skip_slashes_head.
Qed.

(** [skipelem], called until it returns 0 as [namex] does, splits a path
    at its slashes: the names it copies are the non-empty pieces between
    slashes, each cut to 14 bytes, in order, however many slashes there are;
    every call returns a shorter path without leading slashes, so the loop
    ends after at most as many calls as the path has characters. *)
Theorem skipelem_splits p :
  walk_names (S (length p)) p = path_names p /\
  (skipelem p = None <-> path_names p = []) /\
  (forall r e, skipelem p = Some (r, e) ->
     (length r < length p)%nat /\ e <> [] /\ (length e <= DIRSIZ)%nat /\
     (r = [] <-> path_names r = []) /\ path_names p = e :: path_names r).
Proof.
  split_and!.
  - enough (forall n p, (length p < n)%nat -> walk_names n p = path_names p) as H by (apply H; lia).
    clear p. induction n as [|n IH]; intros p Hp; [lia|]. cbn [walk_names].
    pose proof (skipelem_spec p) as H. destruct (skipelem p) as [[r e]|]; [|done].
    destruct H as (-> & Hr & _). f_equal. apply IH. lia.
  - pose proof (skipelem_spec p) as H. destruct (skipelem p) as [[r e]|]; [|done].
    destruct H as (-> & _). done.
  - intros r e E. pose proof (skipelem_spec p) as H. rewrite E in H.
    destruct H as (Hn & Hl & He & Hs). split_and!; auto.
    + unfold skipelem in E. destruct (skip_slashes p); [done|]. destruct (span_elem _).
      injection E as _ <-. rewrite length_take. lia.
    + split; [by intros ->|]. intros H0. destruct r as [|c q]; [done|exfalso].
      specialize (Hs c q eq_refl). unfold path_names in H0. cbn [split_path] in H0.
      rewrite (proj2 (Z.eqb_neq _ _) Hs) in H0. destruct (split_path q); by rewrite filter_cons, decide_True in H0.
Qed.

(** ** Directories *)


(** The example disk with a directory of two entries, [.] and [..], in
    block 5. *)
Definition demo_dots : list Z := dirent 1 [46] ++ dirent 1 [46; 46].
Definition demo_dirdisk : memory := wr_bytes (wr8 demo_sb (blk 4) 63) (blk 5) demo_dots.
Definition demo_dirinode : inode := Inode 1 1 1 3 T_DIR 0 0 1 32 (5 :: replicate 12 0).
Definition demo_fs : fs unit := FS demo_dirdisk [demo_dirinode] tt.

Lemma demo_dir_bits b : 0 <= b < 64 -> bit 8 demo_dirdisk b = (b <? 6).
Proof.
  intros Hb. apply Bool.eqb_prop.
  refine (forall_range (fun b => Bool.eqb (bit 8 demo_dirdisk b) (b <? 6)) 0 64 _ b Hb).
  vm_compute. reflexivity.
Qed.

Lemma demo_dir_zero a : blk 5 + 32 <= a -> rd8 demo_dirdisk a = 0.
Proof.
  intros Ha. unfold demo_dirdisk, demo_sb.
  rewrite rd8_wr_bytes by (vm_compute; repeat constructor; congruence).
  rewrite decide_False by (change (Z.of_nat (length demo_dots)) with 32; lia).
  unfold blk, BSIZE in *. rewrite rd8_wr8_ne, !rd8_store32_ne by lia. done.
Qed.

Lemma demo_dir_meta : meta 64 8 demo_dirdisk.
Proof.
  split; [vm_compute; reflexivity|vm_compute; reflexivity| |].
  - intros b Hb. change (dstart 64 8) with 5 in Hb. rewrite demo_dir_bits by lia. apply Z.ltb_lt. lia.
  - intros b o Hb Hf Ho. change (dstart 64 8) with 5 in Hb. rewrite demo_dir_bits in Hf by lia.
    apply Z.ltb_ge in Hf. apply demo_dir_zero. unfold blk, BSIZE in *. lia.
Qed.

Lemma demo_dir_slot s : 0 <= s < 141 -> slot demo_dirdisk demo_dirinode s = if s =? 0 then 5 else 0.
Proof.
  intros Hs. apply Z.eqb_eq.
  refine (forall_range (fun s => slot demo_dirdisk demo_dirinode s =? (if s =? 0 then 5 else 0)) 0 141 _ s Hs).
  vm_compute. reflexivity.
Qed.

Lemma demo_dir_wfi : wfi 64 8 demo_dirdisk demo_dirinode.
Proof.
  split; try done.
  - intros s Hs. rewrite demo_dir_slot by done. destruct (s =? 0); [|done]. intros _.
    split; [done|]. by rewrite demo_dir_bits by lia.
  - intros s t Hs Ht. rewrite !demo_dir_slot by done.
    destruct (Z.eqb_spec s 0), (Z.eqb_spec t 0); lia.
  - intros k Hk Hks. unfold dblk. simpl in Hks. unfold BSIZE in Hks.
    assert (k = 0) as -> by lia. by rewrite demo_dir_slot.
Qed.

Lemma demo_wfdirent : wfdirent demo_dirdisk demo_dirinode.
Proof.
  split; [done|done|]. intros x Hx. change (size demo_dirinode) with 32 in Hx. unfold fbyte, dblk.
  pose proof (block_index x ltac:(lia)) as Hk. rewrite demo_dir_slot by (apply dslot_range; lia).
  unfold dslot. destruct (Z.ltb_spec (x / BSIZE) 12).
  - destruct (Z.eqb_spec (x / BSIZE) 0) as [E|]; [|done]. apply demo_dir_zero.
    unfold BSIZE in *. dm.
  - destruct (Z.eqb_spec (x / BSIZE + 1) 0); [lia|done].
Qed.

