(* ===== verification/Mkfs.v ===== *)
(** * Making a file system image (tools/mkfs.c)

    The image file is a byte-addressed memory with its length in sectors.  The
    tool reads a sector, changes some of its bytes and writes it back; this is
    a change of these bytes of the image, and reading a sector after the end
    of the file ends the tool.  [exit] and a failed [assert] are [Panic].

    What the tool sees of the host is an argument: the tree of files below the
    directory it is given, with the entries in the order of [readdir] and the
    bytes that each [read] returns.

    The main theorem composes the tool with the kernel: the image of every
    tree that fits satisfies the invariants of FsData.v, and the kernel reads
    from it exactly the files of the tree. *)

From S2P Require Import Xfsck Prelude Memory Fs FsData.

(** The image, its sectors, and the three counters. *)
Record mkst := Mk { img : memory; nsec : Z; freeblock : Z; usedblocks : Z; freeinode : Z }.
Definition set_img d st := Mk d (nsec st) (freeblock st) (usedblocks st) (freeinode st).

Definition rsect (sec : Z) (st : mkst) : outcome unit :=
  if decide (0 <= sec < nsec st) then Ret tt else Panic "read".

Definition wsect (sec : Z) (buf : list Z) (st : mkst) : mkst :=
  Mk (wr_bytes (img st) (blk sec) buf) (Z.max (nsec st) (sec + 1)) (freeblock st) (usedblocks st) (freeinode st).

Definition zeroes : list Z := replicate 512 0.

(** ** The empty image *)

(** The bytes of a 32-bit word, lowest first. *)
Definition xint (x : Z) : list Z := [u8 x; u8 (x / 2 ^ 8); u8 (x / 2 ^ 16); u8 (x / 2 ^ 24)].

(** [mkfs(nblocks, ninodes, size)] *)
Definition mkfs (nblocks ninodes size : Z) (st : mkst) : outcome mkst :=
  let bitblocks := size / (512 * 8) + 1 in
  let used := ninodes / IPB + 3 + bitblocks in
  let st := Mk (img st) (nsec st) used used (freeinode st) in
  if nblocks + used =? size then
    let st := foldl (fun st i => wsect i zeroes st) st (seqZ 0 (nblocks + used)) in
    Ret (wsect 1 (xint size ++ xint nblocks ++ xint ninodes ++ replicate 500 0) st)
  else Panic "assert".

(** ** Inodes *)

Definition i2b (i : Z) : Z := i / IPB + 2.

Definition rinode (i : Z) (st : mkst) : outcome inode :=
  _ ← rsect (i2b i) st;
  Ret (load_inode (Inode 0 i 0 0 0 0 0 0 0 []) (img st)).

(** [winode(inum, din)]; the number of the inode is a field of the record. *)
Definition winode (din : inode) (st : mkst) : outcome mkst :=
  _ ← rsect (i2b (inum din)) st;
  d ← iupdate (nsec st) din (img st);
  Ret (set_img d st).

Definition ialloc (type : Z) (st : mkst) : outcome (Z * mkst) :=
  let i := freeinode st in
  let st := Mk (img st) (nsec st) (freeblock st) (usedblocks st) (u32 (i + 1)) in
  st ← winode (Inode 0 i 0 0 type 0 0 1 0 (replicate 13 0)) st;
  Ret (i, st).

(** ** The bitmap *)

(** [buf[i/8] = buf[i/8] | (0x1 << (i%8))] *)
Definition mark (buf : list Z) (i : Z) : list Z :=
  let k := Z.to_nat (i / 8) in
  <[k := Z.lor (nth k buf 0) (Z.shiftl 1 (i mod 8))]> buf.

Definition balloc (ninodes used : Z) (st : mkst) : outcome mkst :=
  if used <? 512 * 8 then Ret (wsect (ninodes / IPB + 3) (foldl mark (replicate 512 0) (seqZ 0 used)) st)
  else Panic "assert".

(** ** Appending to a file *)

(** [freeblock++] and [usedblocks++] *)
Definition newblock (st : mkst) : Z * mkst :=
  (freeblock st, Mk (img st) (nsec st) (u32 (freeblock st + 1)) (u32 (usedblocks st + 1)) (freeinode st)).

(** The address in [din.addrs[k]], a new block if there is none. *)
Definition addr_block (k : Z) (din : inode) (st : mkst) : outcome (Z * inode * mkst) :=
  a ← aget (addrs din) k;
  if a =? 0 then
    let '(b, st) := newblock st in
    l ← aset (addrs din) k b;
    Ret (b, i_addrs l din, st)
  else Ret (a, din, st).

Definition file_block (fbn : Z) (din : inode) (st : mkst) : outcome (Z * inode * mkst) :=
  if fbn <? NDIRECT then addr_block fbn din st
  else
    '(a, din, st) ← addr_block NDIRECT din st;
    _ ← rsect a st;
    let w := load32 (img st) (blk a + 4 * (fbn - NDIRECT)) in
    if w =? 0 then
      let '(b, st) := newblock st in
      Ret (b, din, set_img (store32 (img st) (blk a + 4 * (fbn - NDIRECT)) b) st)
    else Ret (w, din, st).

(** The loop; [p] holds the [n] bytes that are left.  Every round takes at
    least one of them, so their number is enough fuel. *)
Fixpoint iappend_loop (fuel : nat) (off : Z) (p : list Z) (din : inode) (st : mkst) : outcome (Z * inode * mkst) :=
  let n := Z.of_nat (length p) in
  if n <=? 0 then Ret (off, din, st)
  else
    match fuel with
    | O => Undef "loop bound"
    | S fuel =>
      let fbn := off / 512 in
      if fbn <? MAXFILE then
        '(x, din, st) ← file_block fbn din st;
        let n1 := Z.min n ((fbn + 1) * 512 - off) in
        _ ← rsect x st;
        let st := set_img (wr_bytes (img st) (blk x + (off - fbn * 512)) (take (Z.to_nat n1) p)) st in
        iappend_loop fuel (off + n1) (drop (Z.to_nat n1) p) din st
      else Panic "assert"
    end.

Definition iappend (i : Z) (p : list Z) (st : mkst) : outcome mkst :=
  din ← rinode i st;
  '(off, din, st) ← iappend_loop (length p) (size din) p din st;
  winode (i_size off din) st.

(** ** Directories *)

(** What the host shows below a name. *)
Inductive host :=
| Unreadable                                  (** [open] or [fstat] fails *)
| RegFile (reads : list (list Z))             (** what each [read] returns *)
| NoStream                                    (** a directory; [fdopendir] gives a null pointer *)
| Barred                                      (** a directory; [fchdir] fails *)
| Dir (entries : list (list Z * host)).

Definition is_dots (name : list Z) : bool := bool_decide (name = [46]) || bool_decide (name = [46; 46]).
Definition is_dir (h : host) : bool := match h with NoStream | Barred | Dir _ => true | _ => false end.

(** [while((bytes_read = read(child_fd, buf, sizeof(buf))) > 0)] *)
Fixpoint copy_reads (i : Z) (reads : list (list Z)) (st : mkst) : outcome mkst :=
  match reads with
  | [] => Ret st
  | chunk :: reads => if (length chunk =? 0)%nat then Ret st else st ← iappend i chunk st; copy_reads i reads st
  end.

(** The loop over the entries of directory [cur]; [add] is [add_dir]. *)
Definition add_entries (add : host -> Z -> Z -> mkst -> outcome (Z * mkst)) (cur : Z) :=
  fix loop (es : list (list Z * host)) (st : mkst) : outcome (Z * mkst) :=
    match es with
    | [] => Ret (0, st)
    | (name, h) :: es =>
      if is_dots name then loop es st
      else
        match h with
        | Unreadable => Ret (-1, st)
        | RegFile reads =>
          '(c, st) ← ialloc T_FILE st;
          st ← copy_reads c reads st;
          st ← iappend cur (dirent c name) st;
          loop es st
        | _ =>
          '(c, st) ← ialloc T_DIR st;
          '(r, st) ← add h c cur st;
          if negb (r =? 0) then Ret (r, st)
          else st ← iappend cur (dirent c name) st; loop es st
        end
    end.

(** [din.size] is rounded to the next multiple of a block. *)
Definition fix_size (cur : Z) (st : mkst) : outcome mkst :=
  din ← rinode cur st;
  winode (i_size (u32 ((Z.quot (i32 (size din)) BSIZE + 1) * BSIZE)) din) st.

Fixpoint add_dir (h : host) (cur parent : Z) (st : mkst) : outcome (Z * mkst) :=
  st ← iappend cur (dirent cur [46]) st;
  st ← iappend cur (dirent parent [46; 46]) st;
  match h with
  | Dir es =>
    '(r, st) ← add_entries add_dir cur es st;
    if negb (r =? 0) then Ret (r, st)
    else st ← fix_size cur st; Ret (0, st)
  | Barred => Ret (-1, st)
  | _ => Ret (0, st)
  end.

(** The body of [main] for an image of [nblocks] data blocks, [ninodes] inodes
    and [size] sectors: the exit status and the image; [root] is what
    [opendir(argv[2])] gives. *)
Definition make_image (nblocks ninodes size : Z) (root : host) (st : mkst) : outcome (Z * mkst) :=
  st ← mkfs nblocks ninodes size st;
  '(r, st) ← ialloc T_DIR st;
  if negb (r =? ROOTINO) then Panic "assert"
  else
    '(q, st) ← add_dir root r r st;
    if negb (q =? 0) then Ret (1, st)
    else st ← balloc ninodes (usedblocks st) st; Ret (0, st).

(** [main]; [opened] tells whether the image file can be created. *)
Definition mkfs_main (argc : Z) (opened : bool) (root : host) : outcome (Z * mkst) :=
  let st := Mk ∅ 0 0 0 1 in
  if (argc <? 2) || negb opened then Ret (1, st) else make_image 995 200 1024 root st.

Definition as_image (st : mkst) : Xfsck.image := Xfsck.Image (512 * nsec st) (fun a => rd8 (img st) a).

(** ** What the image shall hold

    The files in the order of their inodes, which are numbered as the tree is
    walked: a directory before what it contains. *)

Definition pad (data : list Z) : list Z :=
  data ++ replicate (Z.to_nat (- Z.of_nat (length data) mod BSIZE)) 0.

(** The entries of directory [self] and the files below it, from inode [next] on. *)
Definition plan_entries (plan : Z -> Z -> host -> list (Z * list Z)) (self : Z) :=
  fix go (next : Z) (es : list (list Z * host)) : list Z * list (Z * list Z) :=
    match es with
    | [] => ([], [])
    | (name, h) :: es =>
      if is_dots name then go next es
      else
        let sub := plan next self h in
        let '(ents, subs) := go (next + Z.of_nat (length sub)) es in
        (dirent next name ++ ents, sub ++ subs)
    end.

Definition dots (self parent : Z) : list Z := dirent self [46] ++ dirent parent [46; 46].

Fixpoint plan (self parent : Z) (h : host) : list (Z * list Z) :=
  match h with
  | RegFile reads => [(T_FILE, concat reads)]
  | Dir es =>
    let '(ents, subs) := plan_entries plan self (self + 1) es in
    (T_DIR, pad (dots self parent ++ ents)) :: subs
  | NoStream => [(T_DIR, dots self parent)]
  | Unreadable | Barred => []
  end.

(** The blocks of a file of [n] bytes, with the indirect block. *)
Definition nblk (n : Z) : Z := let k := (n + 511) / 512 in if k <=? 12 then k else k + 1.
Definition blocks (F : list (Z * list Z)) : Z := foldr (fun f k => nblk (Z.of_nat (length f.2)) + k) 0 F.

(** The host shows everything, and no directory fills its last block: the
    entries, the two that the tool adds included, are not a multiple of 32. *)
Fixpoint storable (h : host) : Prop :=
  match h with
  | Unreadable | Barred => False
  | NoStream => True
  | RegFile reads => Forall (fun c => c <> [] /\ Forall is_u8 c) reads
  | Dir es =>
    (Z.of_nat (length (filter (fun e => is_dots e.1 = false) es)) + 2) mod 32 <> 0 /\
    (fix all (es : list (list Z * host)) : Prop :=
       match es with
       | [] => True
       | (name, h) :: es => (is_dots name = false -> Forall is_u8 name /\ storable h) /\ all es
       end) es
  end.

(** ** The blocks of the files *)

(** Inode [ip] has its first [u] slots, which are blocks below [fb], and its
    bytes are [data] followed by zeros. *)
Record file_at (d : memory) (fb : Z) (ip : inode) (u : Z) (data : list Z) : Prop := {
  fa_len : length (addrs ip) = 13%nat;
  fa_used : forall s, 0 <= s < 141 -> s < u -> 29 <= slot d ip s < fb;
  fa_none : forall s, 0 <= s < 141 -> u <= s -> slot d ip s = 0;
  fa_byte : forall x, 0 <= x < MAXFILE * BSIZE -> fbyte d ip x = nth (Z.to_nat x) data 0
}.

Abbreviation fview := (inode * Z * list Z)%type.

Record body (d : memory) (fb : Z) (L : list fview) : Prop := {
  b_file : forall k ip u data, L !! k = Some (ip, u, data) -> file_at d fb ip u data;
  b_inj : forall k ip u data s k' ip' u' data' s',
    L !! k = Some (ip, u, data) -> L !! k' = Some (ip', u', data') -> 0 <= s < 141 -> 0 <= s' < 141 ->
    slot d ip s <> 0 -> slot d ip s = slot d ip' s' -> k = k' /\ s = s';
  b_zero : forall a, blk fb <= a < blk 1024 -> rd8 d a = 0;
  b_taken : forall b, 29 <= b < fb -> exists k ip u data s,
    L !! k = Some (ip, u, data) /\ 0 <= s < 141 /\ slot d ip s = b;
  b_free : 29 <= fb <= 1024
}.

(** Slots and bytes depend on the blocks of the file only. *)
Lemma slot_frame d d' ip :
  (ind ip <> 0 -> forall o, 0 <= o < BSIZE -> rd8 d' (blk (ind ip) + o) = rd8 d (blk (ind ip) + o)) ->
  forall s, 0 <= s < 141 -> slot d' ip s = slot d ip s.
Proof.
  intros H s Hs. destruct (decide (s < 13)); [by rewrite !slot_low by lia|].
  rewrite !slot_high by lia. destruct (Z.eqb_spec (ind ip) 0) as [|Hi]; [done|].
  apply load32_ext. intros b Hb. replace b with (blk (ind ip) + (b - blk (ind ip))) by lia.
  apply H; [done|]. unfold BSIZE. lia.
Qed.

Lemma fbyte_frame d d' ip :
  (forall s, 0 <= s < 141 -> slot d ip s <> 0 -> forall o, 0 <= o < BSIZE -> rd8 d' (blk (slot d ip s) + o) = rd8 d (blk (slot d ip s) + o)) ->
  (forall s, 0 <= s < 141 -> slot d' ip s = slot d ip s) /\
  forall x, 0 <= x < MAXFILE * BSIZE -> fbyte d' ip x = fbyte d ip x.
Proof.
  intros H. assert (Hs : forall s, 0 <= s < 141 -> slot d' ip s = slot d ip s).
  { apply slot_frame. intros Hi. rewrite <- (slot_ind d ip) in *. apply H; [lia|done]. }
  split; [done|]. intros x Hx. pose proof (block_index x Hx) as Hk.
  destruct (dslot_range _ Hk) as [Hd _]. unfold fbyte, dblk. rewrite Hs by done.
  destruct (Z.eqb_spec (slot d ip (dslot (x / BSIZE))) 0); [done|]. apply H; [done..|]. unfold BSIZE. dm.
Qed.

Lemma file_frame d d' fb fb' ip u data :
  file_at d fb ip u data -> fb <= fb' ->
  (forall s, 0 <= s < 141 -> slot d ip s <> 0 -> forall o, 0 <= o < BSIZE -> rd8 d' (blk (slot d ip s) + o) = rd8 d (blk (slot d ip s) + o)) ->
  file_at d' fb' ip u data /\ forall s, 0 <= s < 141 -> slot d' ip s = slot d ip s.
Proof.
  intros [Hl Hu Hn Hb] Hf H. destruct (fbyte_frame d d' ip H) as [Hs Hx]. split; [|done]. split; [done|..].
  - intros s Hr Hlt. rewrite Hs by done. specialize (Hu s Hr Hlt). lia.
  - intros s Hr Hge. rewrite Hs by done. auto.
  - intros x Hr. rewrite Hx by done. auto.
Qed.

Lemma slot_used d fb ip u data s :
  file_at d fb ip u data -> 0 <= s < 141 -> slot d ip s <> 0 -> s < u /\ 29 <= slot d ip s < fb.
Proof.
  intros [Hl Hu Hn Hb] Hs Hz. destruct (decide (s < u)); [auto|]. destruct Hz. apply Hn; lia.
Qed.

(** Writes below the data blocks do not matter. *)
Lemma body_low d d' fb L : body d fb L -> (forall a, blk 29 <= a -> rd8 d' a = rd8 d a) -> body d' fb L.
Proof.
  intros [Hf Hi Hz Ht Hr] H.
  assert (Hfr : forall k ip u data, L !! k = Some (ip, u, data) ->
    file_at d' fb ip u data /\ forall s, 0 <= s < 141 -> slot d' ip s = slot d ip s).
  { intros k ip u data E. apply (file_frame d _ fb); [eauto|lia|]. intros s Hs Hn o Ho. apply H.
    destruct (slot_used _ _ _ _ _ s (Hf _ _ _ _ E) Hs Hn). unfold blk, BSIZE in *. lia. }
  split; [|..|done].
  - intros k ip u data E. by apply (Hfr k).
  - intros k ip u data s k' ip' u' data' s' E E' Hs Hs'.
    rewrite (proj2 (Hfr _ _ _ _ E)), (proj2 (Hfr _ _ _ _ E')) by done. eauto.
  - intros a Ha. rewrite H; [auto|]. unfold blk, BSIZE in *. lia.
  - intros b (k & ip & u & data & s & E & Hs & <-)%Ht. exists k, ip, u, data, s. split; [done|]. split; [done|].
    by apply (Hfr k ip u data E).
Qed.

(** ** A new block *)

Section Grow.
Context (d d' : memory) (fb : Z) (L : list fview) (k : nat) (ip ip' : inode) (u : Z) (data : list Z).
Context (B : body d fb L) (E : L !! k = Some (ip, u, data)) (Hu : 0 <= u < 141) (Hfb : fb < 1024)
  (Hlen : length (addrs ip') = 13%nat)
  (Hslot : forall t, 0 <= t < 141 -> slot d' ip' t = if decide (t = u) then fb else slot d ip t)
  (Hd : forall a, blk 29 <= a -> ~ (13 <= u /\ blk (ind ip) <= a < blk (ind ip) + BSIZE) -> rd8 d' a = rd8 d a).

Lemma grow_ind : 13 <= u -> 29 <= ind ip < fb.
Proof. intros H. rewrite <- (slot_ind d ip). apply (fa_used _ _ _ _ _ (b_file _ _ _ B _ _ _ _ E)); lia. Qed.

(** A block other than the indirect block keeps its bytes. *)
Lemma grow_keeps b o : 29 <= b -> b <> ind ip -> 0 <= o < BSIZE -> rd8 d' (blk b + o) = rd8 d (blk b + o).
Proof. intros Hb Hn Ho. apply Hd; unfold blk, BSIZE in *; lia. Qed.

Lemma grow_other k' ip1 u1 data1 :
  L !! k' = Some (ip1, u1, data1) -> k' <> k ->
  file_at d' (fb + 1) ip1 u1 data1 /\ forall s, 0 <= s < 141 -> slot d' ip1 s = slot d ip1 s.
Proof.
  intros E1 Hk. pose proof (b_file _ _ _ B _ _ _ _ E1) as F1. apply (file_frame d _ fb); [done|lia|].
  intros s Hs Hn o Ho. destruct (slot_used _ _ _ _ _ s F1 Hs Hn) as [_ Hr].
  destruct (decide (slot d ip1 s = ind ip)) as [Ei|]; [|apply grow_keeps; [lia|done..]].
  rewrite <- (slot_ind d ip) in Ei. destruct Hk.
  eapply (b_inj _ _ _ B); [exact E1|exact E|exact Hs| |exact Hn|exact Ei]. lia.
Qed.

Lemma grow_self : file_at d' (fb + 1) ip' (u + 1) data.
Proof.
  pose proof (b_file _ _ _ B _ _ _ _ E) as F. pose proof (b_free _ _ _ B). split; [done|..].
  - intros s Hs Hlt. rewrite Hslot by done. case_decide; [lia|].
    pose proof (fa_used _ _ _ _ _ F s Hs ltac:(lia)). lia.
  - intros s Hs Hge. rewrite Hslot, decide_False by lia. apply (fa_none _ _ _ _ _ F); lia.
  - intros x Hx. rewrite <- (fa_byte _ _ _ _ _ F x Hx). pose proof (block_index x Hx) as Hk.
    destruct (dslot_range _ Hk) as [Hr H12]. unfold fbyte, dblk. rewrite Hslot by done. case_decide as Et.
    + rewrite (fa_none _ _ _ _ _ F (dslot (x / BSIZE))) by lia. simpl.
      rewrite (proj2 (Z.eqb_neq fb 0)) by lia. rewrite grow_keeps; [|lia| |unfold BSIZE; dm].
      * apply (b_zero _ _ _ B). unfold blk, BSIZE in *. dm.
      * destruct (decide (13 <= u)) as [H13|H13]; [pose proof (grow_ind H13); lia|].
        rewrite <- (slot_ind d ip). destruct (decide (slot d ip 12 = 0)) as [->|Hn]; [lia|].
        destruct (slot_used _ _ _ _ _ 12 F ltac:(lia) Hn). lia.
    + destruct (Z.eqb_spec (slot d ip (dslot (x / BSIZE))) 0) as [|Hn]; [done|].
      destruct (slot_used _ _ _ _ _ _ F Hr Hn) as [_ Hb]. apply grow_keeps; [lia| |unfold BSIZE; dm].
      rewrite <- (slot_ind d ip). intros Ei. apply H12.
      eapply (b_inj _ _ _ B); [exact E|exact E|exact Hr| |exact Hn|exact Ei]. lia.
Qed.

(** The slots of every file before and after. *)
Lemma grow_slots k1 ip1 u1 data1 :
  <[k := (ip', u + 1, data)]> L !! k1 = Some (ip1, u1, data1) ->
  exists ip0 u0 data0, L !! k1 = Some (ip0, u0, data0) /\
    forall s, 0 <= s < 141 -> slot d' ip1 s = if decide (k1 = k /\ s = u) then fb else slot d ip0 s.
Proof.
  intros [(<- & E1 & _)|[Hk E1]]%list_lookup_insert_Some.
  - injection E1 as <- <- <-. exists ip, u, data. split; [done|]. intros s Hs. rewrite Hslot by done.
    repeat case_decide; tauto.
  - exists ip1, u1, data1. split; [done|]. intros s Hs. rewrite decide_False by (intros [? _]; congruence).
    apply (grow_other k1 _ _ _ E1 ltac:(congruence)). done.
Qed.

Lemma body_grow : body d' (fb + 1) (<[k := (ip', u + 1, data)]> L).
Proof.
  pose proof (b_free _ _ _ B). split; [| | | |lia].
  - intros k1 ip1 u1 data1 [(<- & E1 & _)|[Hk E1]]%list_lookup_insert_Some.
    + injection E1 as <- <- <-. apply grow_self.
    + apply (grow_other k1 _ _ _ E1 ltac:(congruence)).
  - intros k1 ip1 u1 data1 s1 k2 ip2 u2 data2 s2 E1 E2 Hs1 Hs2.
    destruct (grow_slots _ _ _ _ E1) as (i1 & v1 & a1 & F1 & H1). rewrite (H1 s1) by done.
    destruct (grow_slots _ _ _ _ E2) as (i2 & v2 & a2 & F2 & H2). rewrite (H2 s2) by done.
    assert (Hlt : forall j i v a s, L !! j = Some (i, v, a) -> 0 <= s < 141 -> slot d i s <> fb).
    { intros j i v a s Ej Hs Ee. destruct (slot_used _ _ _ _ _ s (b_file _ _ _ B _ _ _ _ Ej) Hs); lia. }
    clear H1 H2. repeat case_decide; intros Hn Es; [intuition congruence|..].
    + symmetry in Es. by apply (Hlt _ _ _ _ _ F2) in Es.
    + by apply (Hlt _ _ _ _ _ F1) in Es.
    + eapply (b_inj _ _ _ B); eauto.
  - intros a Ha. rewrite Hd; [apply (b_zero _ _ _ B)|..]; unfold blk, BSIZE in *; [lia..|].
    intros [H13 Hr]. pose proof (grow_ind H13). lia.
  - intros b Hbr. destruct (decide (b = fb)) as [->|Hne].
    + exists k, ip', (u + 1), data, u. rewrite Hslot, decide_True by done. split; [|done].
      apply list_lookup_insert_eq. by eapply lookup_lt_Some.
    + destruct (b_taken _ _ _ B b ltac:(lia)) as (k1 & ip1 & u1 & data1 & s & E1 & Hs & Es).
      destruct (decide (k1 = k)) as [->|Hk].
      * exists k, ip', (u + 1), data, s. rewrite E in E1. injection E1 as <- <- <-. rewrite Hslot by done.
        rewrite decide_False; [split; [apply list_lookup_insert_eq; by eapply lookup_lt_Some|done]|].
        intros ->. rewrite (fa_none _ _ _ _ _ (b_file _ _ _ B _ _ _ _ E)) in Es by lia. lia.
      * exists k1, ip1, u1, data1, s. rewrite list_lookup_insert_ne by done. split; [done|]. split; [done|].
        rewrite <- Es. by apply (grow_other k1 _ _ _ E1 Hk).
Qed.
End Grow.

(** ** Bytes written at the end *)

Section WriteEnd.
Context (d : memory) (fb : Z) (L : list fview) (k : nat) (ip : inode) (u : Z) (data l : list Z).
Context (B : body d fb L) (E : L !! k = Some (ip, u, data)).
Let off : Z := Z.of_nat (length data).
Let b : Z := dblk d ip (off / BSIZE).
Context (Hoff : off < MAXFILE * BSIZE) (Hb : b <> 0) (Hl : Forall is_u8 l)
  (Hfit : Z.of_nat (length l) <= BSIZE - off mod BSIZE).
Let d' : memory := wr_bytes d (blk b + off mod BSIZE) l.

Lemma end_slot : 0 <= dslot (off / BSIZE) < 141 /\ dslot (off / BSIZE) <> 12 /\ 29 <= b < fb.
Proof.
  clear d' Hl Hfit l. destruct (dslot_range (off / BSIZE)) as [Hr H12]; [unfold MAXFILE, NDIRECT, NINDIRECT, BSIZE in *; dm|].
  split; [done|]. split; [done|]. eapply slot_used; eauto using b_file.
Qed.

Lemma end_keeps c o : c <> b -> 0 <= o < BSIZE -> rd8 d' (blk c + o) = rd8 d (blk c + o).
Proof.
  intros Hc Ho. unfold d'. rewrite rd8_wr_bytes, decide_False; [done| |done]. unfold blk, BSIZE in *. dm.
Qed.

Lemma end_other k' ip1 u1 data1 :
  L !! k' = Some (ip1, u1, data1) -> k' <> k ->
  file_at d' fb ip1 u1 data1 /\ forall s, 0 <= s < 141 -> slot d' ip1 s = slot d ip1 s.
Proof.
  intros E1 Hk. apply (file_frame d _ fb); [eauto using b_file|lia|]. intros s Hs Hn o Ho.
  apply end_keeps; [|done]. intros Ei. destruct end_slot as (Hr & _ & _). destruct Hk.
  eapply (b_inj _ _ _ B); [exact E1|exact E|exact Hs|exact Hr|exact Hn|exact Ei].
Qed.

Lemma end_slots s : 0 <= s < 141 -> slot d' ip s = slot d ip s.
Proof.
  apply slot_frame. intros Hi o Ho. apply end_keeps; [|done]. destruct end_slot as (Hr & H12 & _).
  rewrite <- (slot_ind d ip) in *. intros Ei. destruct H12. symmetry.
  eapply (b_inj _ _ _ B); [exact E|exact E| |exact Hr|exact Hi|exact Ei]. lia.
Qed.

Lemma end_byte x : 0 <= x < MAXFILE * BSIZE -> fbyte d' ip x = nth (Z.to_nat x) (data ++ l) 0.
Proof.
  intros Hx. pose proof (b_file _ _ _ B _ _ _ _ E) as F. pose proof (block_index x Hx) as Hk.
  destruct (dslot_range _ Hk) as [Hr _]. destruct end_slot as (Hr' & _ & _).
  assert (Hold : fbyte d' ip x = if decide (off <= x < off + Z.of_nat (length l)) then nth (Z.to_nat (x - off)) l 0 else fbyte d ip x).
  { unfold fbyte, dblk. rewrite end_slots by done. destruct (decide (x / BSIZE = off / BSIZE)) as [Eb|Eb].
    - rewrite Eb. change (slot d ip (dslot (off / BSIZE))) with b. rewrite (proj2 (Z.eqb_neq b 0) Hb).
      unfold d'. rewrite rd8_wr_bytes by done.
      assert (x mod BSIZE = x - BSIZE * (off / BSIZE)) as -> by (unfold BSIZE in *; dm).
      assert (off mod BSIZE = off - BSIZE * (off / BSIZE)) as -> by (unfold BSIZE in *; dm).
      repeat case_decide; try lia. f_equal. lia.
    - rewrite decide_False by (unfold BSIZE in *; dm). case_match; [done|]. apply end_keeps; [|unfold BSIZE; dm].
      intros Ec. apply Eb. assert (dslot (x / BSIZE) = dslot (off / BSIZE)) as Ed.
      { eapply (b_inj _ _ _ B); [exact E|exact E|exact Hr|exact Hr'| |exact Ec]. rewrite Ec. done. }
      revert Ed. clear. generalize (x / BSIZE), (off / BSIZE). intros m n. unfold dslot. repeat zcase; lia. }
  rewrite Hold, (fa_byte _ _ _ _ _ F x Hx). clear Hold. unfold off. case_decide.
  - rewrite app_nth2 by lia. f_equal. lia.
  - destruct (decide (x < off)); unfold off in *.
    + by rewrite app_nth1 by lia.
    + rewrite !nth_overflow; [done|rewrite length_app; lia|lia].
Qed.

Lemma body_write : body d' fb (<[k := (ip, u, data ++ l)]> L).
Proof.
  pose proof (b_file _ _ _ B _ _ _ _ E) as F. destruct end_slot as (_ & _ & Hbr).
  assert (Hs : forall k1 ip1 u1 data1, <[k := (ip, u, data ++ l)]> L !! k1 = Some (ip1, u1, data1) ->
    exists data0, L !! k1 = Some (ip1, u1, data0) /\ forall s, 0 <= s < 141 -> slot d' ip1 s = slot d ip1 s).
  { intros k1 ip1 u1 data1 [(<- & E1 & _)|[Hk E1]]%list_lookup_insert_Some.
    - injection E1 as <- <- <-. eauto using end_slots.
    - exists data1. split; [done|]. by apply (end_other k1 _ _ _ E1). }
  split; [| | | |apply B].
  - intros k1 ip1 u1 data1 [(<- & E1 & _)|[Hk E1]]%list_lookup_insert_Some.
    + injection E1 as <- <- <-. split; [apply F|..|apply end_byte]; intros s Hr Hlt; rewrite end_slots by done; by apply F.
    + by apply (end_other k1 _ _ _ E1).
  - intros k1 ip1 u1 data1 s1 k2 ip2 u2 data2 s2 E1 E2 Hs1 Hs2.
    destruct (Hs _ _ _ _ E1) as (a1 & F1 & H1). destruct (Hs _ _ _ _ E2) as (a2 & F2 & H2). rewrite (H1 s1), (H2 s2) by done.
    eapply (b_inj _ _ _ B); eauto.
  - intros a Ha. unfold d'. rewrite rd8_wr_bytes, decide_False; [by apply (b_zero _ _ _ B)| |done].
    unfold blk, BSIZE in *. dm.
  - intros c (k1 & ip1 & u1 & data1 & s & E1 & Hsr & <-)%(b_taken _ _ _ B). destruct (decide (k1 = k)) as [->|Hk].
    + rewrite E in E1. injection E1 as <- <- <-. exists k, ip, u, (data ++ l), s.
      split; [apply list_lookup_insert_eq; by eapply lookup_lt_Some|]. eauto using end_slots.
    + exists k1, ip1, u1, data1, s. rewrite list_lookup_insert_ne by done. split; [done|]. split; [done|].
      by apply (end_other k1 _ _ _ E1 Hk).
Qed.
End WriteEnd.

(** ** The block of the next byte *)

Lemma nblk_next off n : 0 <= off -> 1 <= n <= 512 - off mod 512 -> nblk (off + n) = dslot (off / 512) + 1.
Proof.
  intros Ho Hn. unfold nblk, dslot. replace ((off + n + 511) / 512) with (off / 512 + 1) by dm.
  repeat zcase; lia.
Qed.

Lemma nblk_cases off :
  0 <= off -> nblk off = dslot (off / 512) + 1 \/ nblk off = dslot (off / 512) \/ nblk off = 12 /\ off / 512 = 12.
Proof.
  intros Ho. unfold nblk, dslot. destruct (decide (off mod 512 = 0)).
  - replace ((off + 511) / 512) with (off / 512) by dm. repeat zcase; lia.
  - replace ((off + 511) / 512) with (off / 512 + 1) by dm. repeat zcase; lia.
Qed.

Lemma nblk_mono m n : m <= n -> nblk m <= nblk n.
Proof. intros H. unfold nblk. assert ((m + 511) / 512 <= (n + 511) / 512) by dm. repeat zcase; lia. Qed.

Lemma addr_block_spec d fb fi L k ip u data s :
  body d fb L -> L !! k = Some (ip, u, data) -> 0 <= s < 13 -> s <= u -> fb + (Z.max u (s + 1) - u) <= 1024 ->
  exists ip', let u' := Z.max u (s + 1) in let fb' := fb + (u' - u) in
    addr_block s ip (Mk d 1024 fb fb fi) = Ret (slot d ip' s, ip', Mk d 1024 fb' fb' fi) /\
    ip' = i_addrs (addrs ip') ip /\ body d fb' (<[k := (ip', u', data)]> L).
Proof.
  intros B E Hs Hu Hfb. pose proof (b_file _ _ _ B _ _ _ _ E) as F. pose proof (b_free _ _ _ B) as Hr.
  pose proof (fa_len _ _ _ _ _ F) as Hl. unfold addr_block. rewrite addrs_get by done.
  cbn [mbind outcome_bind]. rewrite <- (slot_low d) by lia. destruct (decide (s = u)) as [->|Hne].
  - rewrite (fa_none _ _ _ _ _ F u) by lia. rewrite Z.max_r in * by lia.
    simpl. rewrite aset_Ret by lia. cbn [mbind outcome_bind].
    exists (i_addrs (<[Z.to_nat u := fb]> (addrs ip)) ip). split; [|split; [reflexivity|]].
    + rewrite (slot_low d _ u) by lia. simpl. rewrite nth_lookup, list_lookup_insert_eq by lia. simpl.
      replace (fb + (u + 1 - u)) with (fb + 1) by lia. by rewrite u32_small by (unfold is_u32; lia).
    + replace (fb + (u + 1 - u)) with (fb + 1) by lia.
      eapply (body_grow d d fb L k ip); [done..|lia|lia|simpl; by rewrite length_insert| |done].
      intros t Ht. destruct (decide (t < 13)).
      * rewrite !slot_low by lia. simpl. rewrite !nth_lookup. case_decide as Et.
        -- subst t. by rewrite list_lookup_insert_eq by lia.
        -- by rewrite list_lookup_insert_ne by lia.
      * rewrite decide_False by lia. rewrite (fa_none _ _ _ _ _ F t) by lia. rewrite slot_high by lia.
        assert (Hi : ind ip = 0) by (rewrite <- (slot_ind d ip); apply (fa_none _ _ _ _ _ F); lia).
        unfold ind. simpl. rewrite nth_lookup. destruct (decide (u = 12)) as [->|].
        -- rewrite list_lookup_insert_eq by lia. simpl. rewrite (proj2 (Z.eqb_neq fb 0)) by lia.
           unfold load32. rewrite !(b_zero _ _ _ B) by (unfold blk, BSIZE; lia). done.
        -- rewrite list_lookup_insert_ne, <- nth_lookup by lia. unfold ind in Hi. by rewrite Hi.
  - pose proof (fa_used _ _ _ _ _ F s ltac:(lia) ltac:(lia)). rewrite Z.max_l by lia.
    rewrite (proj2 (Z.eqb_neq _ _)) by lia. exists ip. replace (fb + (u - u)) with fb by lia.
    split; [done|]. split; [by destruct ip|]. by rewrite list_insert_id.
Qed.

Lemma data_rsect d fb fi L k ip u data s :
  body d fb L -> L !! k = Some (ip, u, data) -> 0 <= s < 141 -> s < u ->
  slot d ip s <> 0 /\ rsect (slot d ip s) (Mk d 1024 fb fb fi) = Ret tt.
Proof.
  intros B E Hs Hu. pose proof (fa_used _ _ _ _ _ (b_file _ _ _ B _ _ _ _ E) s Hs Hu).
  pose proof (b_free _ _ _ B). split; [lia|]. unfold rsect. rewrite decide_True; [done|]. simpl. lia.
Qed.

(** A new entry of the indirect block. *)
Lemma entry_grow d fb L k ip u data :
  body d fb L -> L !! k = Some (ip, u, data) -> 13 <= u < 141 -> fb < 1024 ->
  let d' := store32 d (blk (ind ip) + 4 * (u - 13)) fb in
  slot d' ip u = fb /\ body d' (fb + 1) (<[k := (ip, u + 1, data)]> L) /\ forall a, a < blk 29 -> rd8 d' a = rd8 d a.
Proof.
  intros B E Hu Hfb. pose proof (b_file _ _ _ B _ _ _ _ E) as F. pose proof (b_free _ _ _ B).
  pose proof (fa_used _ _ _ _ _ F 12 ltac:(lia) ltac:(lia)) as Hi. rewrite slot_ind in Hi.
  assert (Hs : forall t, 0 <= t < 141 -> slot (store32 d (blk (ind ip) + 4 * (u - 13)) fb) ip t = if decide (t = u) then fb else slot d ip t).
  { intros t Ht. destruct (decide (t < 13)); [rewrite decide_False, !slot_low by lia; done|].
    rewrite !slot_high, (proj2 (Z.eqb_neq _ _)) by lia. case_decide as Et.
    - subst t. rewrite load32_store32_eq. apply u32_small. unfold is_u32. lia.
    - apply load32_store32_ne. lia. }
  split; [rewrite Hs, decide_True by lia; done|]. split.
  - eapply (body_grow d _ fb L k ip); [done..|lia|lia|by apply F|done|].
    intros a Ha Hn. apply rd8_store32_ne. unfold BSIZE in *. lia.
  - intros a Ha. apply rd8_store32_ne. unfold blk, BSIZE in *. lia.
Qed.

Lemma file_block_spec d fb fi L k ip data :
  let off := Z.of_nat (length data) in let u' := nblk (off + 1) in let fb' := fb + (u' - nblk off) in
  body d fb L -> L !! k = Some (ip, nblk off, data) -> off < MAXFILE * BSIZE -> fb' <= 1024 ->
  exists d' ip', file_block (off / 512) ip (Mk d 1024 fb fb fi) = Ret (dblk d' ip' (off / 512), ip', Mk d' 1024 fb' fb' fi) /\
    ip' = i_addrs (addrs ip') ip /\ body d' fb' (<[k := (ip', u', data)]> L) /\
    forall a, a < blk 29 -> rd8 d' a = rd8 d a.
Proof.
  intros off u' fb' B E Hoff. unfold fb', u'. clear fb' u'. rewrite nblk_next by dm. intros Hfb.
  assert (0 <= off / 512 < 140) as Hk by (unfold MAXFILE, NDIRECT, NINDIRECT, BSIZE in *; dm).
  pose proof (nblk_cases off ltac:(lia)) as Hc. unfold file_block, dblk. unfold dslot in *. unfold NDIRECT.
  destruct (Z.ltb_spec (off / 512) 12) as [Hlt|Hge].
  - destruct (addr_block_spec d fb fi L k ip (nblk off) data (off / 512) B E ltac:(lia) ltac:(lia) ltac:(lia))
      as (ip' & Eb & Ei & B'). replace (Z.max _ _) with (off / 512 + 1) in * by lia. eauto 10.
  - destruct (addr_block_spec d fb fi L k ip (nblk off) data 12 B E ltac:(lia) ltac:(lia) ltac:(lia))
      as (ip' & Eb & Ei & B'). rewrite Eb. clear Eb. cbn [mbind outcome_bind]. rewrite slot_ind.
    set (u := Z.max (nblk off) (12 + 1)) in *. set (fb1 := fb + (u - nblk off)) in *.
    assert (E' : <[k := (ip', u, data)]> L !! k = Some (ip', u, data)) by (apply list_lookup_insert_eq; by eapply lookup_lt_Some).
    destruct (data_rsect _ _ fi _ _ _ _ _ 12 B' E' ltac:(lia) ltac:(lia)) as [Hi Er].
    rewrite slot_ind in Hi, Er. rewrite Er. cbn [mbind outcome_bind img].
    assert (Es : load32 d (blk (ind ip') + 4 * (off / 512 - 12)) = slot d ip' (off / 512 + 1)).
    { rewrite slot_high, (proj2 (Z.eqb_neq _ _) Hi) by lia. f_equal. lia. }
    destruct (decide (off / 512 + 1 < u)) as [Hlt|Hge'].
    + destruct (data_rsect _ _ fi _ _ _ _ _ (off / 512 + 1) B' E' ltac:(lia) ltac:(lia)) as [Hn _].
      rewrite Es, (proj2 (Z.eqb_neq _ _) Hn). exists d, ip'. replace (off / 512 + 1 + 1) with u in * by lia.
      split; [done|]. done.
    + assert (u = off / 512 + 1) as Hu by lia. rewrite Es, <- Hu.
      rewrite (fa_none _ _ _ _ _ (b_file _ _ _ B' _ _ _ _ E') u) by lia. simpl.
      destruct (entry_grow d fb1 _ k ip' u data B' E' ltac:(lia) ltac:(lia)) as (Ex & B2 & Hlow).
      rewrite list_insert_insert_eq in B2. replace (off / 512 - 12) with (u - 13) by lia.
      eexists _, ip'. rewrite Ex. replace (fb + (u + 1 - nblk off)) with (fb1 + 1) by lia.
      rewrite u32_small by (unfold is_u32; pose proof (b_free _ _ _ B2); lia). done.
Qed.

(** ** [iappend] *)

(** One round of the loop. *)
Lemma iappend_round fi k fuel p data d fb ip L :
  let off := Z.of_nat (length data) in let n := Z.of_nat (length p) in
  let n1 := Z.min n ((off / 512 + 1) * 512 - off) in let fb' := fb + (nblk (off + n1) - nblk off) in
  body d fb L -> L !! k = Some (ip, nblk off, data) -> Forall is_u8 p -> 0 < n -> off + n <= MAXFILE * BSIZE ->
  fb' <= 1024 ->
  exists d' ip', iappend_loop (S fuel) off p ip (Mk d 1024 fb fb fi) =
      iappend_loop fuel (off + n1) (drop (Z.to_nat n1) p) ip' (Mk d' 1024 fb' fb' fi) /\
    ip' = i_addrs (addrs ip') ip /\ body d' fb' (<[k := (ip', nblk (off + n1), data ++ take (Z.to_nat n1) p)]> L) /\
    forall a, a < blk 29 -> rd8 d' a = rd8 d a.
Proof.
  intros off n n1 fb' B E Hp Hn Hoff. unfold fb'. clear fb'.
  assert (1 <= n1 <= n /\ n1 <= 512 - off mod 512) as [Hn1 Hn1'] by (unfold n1; dm).
  rewrite nblk_next by dm. rewrite <- (nblk_next off 1) by dm. intros Hfb.
  cbn [iappend_loop]. fold n. fold n1. rewrite (proj2 (Z.leb_gt n 0) Hn).
  assert (off / 512 < MAXFILE) as Hm by (unfold MAXFILE, NDIRECT, NINDIRECT, BSIZE in *; dm).
  rewrite (proj2 (Z.ltb_lt _ _) Hm).
  destruct (file_block_spec d fb fi L k ip data B E ltac:(lia) ltac:(unfold off in *; lia)) as (d1 & ip1 & Eb & Ei & B1 & Hlow).
  fold off in Eb, B1. rewrite Eb. clear Eb. cbn [mbind outcome_bind].
  set (fb1 := fb + (nblk (off + 1) - nblk off)) in *.
  assert (E1 : <[k := (ip1, nblk (off + 1), data)]> L !! k = Some (ip1, nblk (off + 1), data))
    by (apply list_lookup_insert_eq; by eapply lookup_lt_Some).
  destruct (dslot_range (off / 512)) as [Hr _]; [unfold MAXFILE, NDIRECT, NINDIRECT in Hm; dm|].
  destruct (data_rsect _ _ fi _ _ _ _ _ (dslot (off / 512)) B1 E1 Hr ltac:(rewrite nblk_next; dm)) as [Hn0 Er].
  unfold dblk. rewrite Er. cbn [mbind outcome_bind]. unfold set_img. cbn [img nsec freeblock usedblocks freeinode].
  pose proof (Forall_take is_u8 (Z.to_nat n1) _ Hp) as Hp1.
  assert (Hlen : Z.of_nat (length (take (Z.to_nat n1) p)) = n1) by (rewrite length_take; unfold n in *; lia).
  pose proof (body_write d1 fb1 _ k ip1 _ data (take (Z.to_nat n1) p) B1 E1 ltac:(fold off; lia) Hn0 Hp1
    ltac:(rewrite Hlen; fold off; unfold BSIZE; lia)) as B2.
  pose proof (end_slot d1 fb1 _ k ip1 _ data B1 E1 ltac:(fold off; lia) Hn0) as (_ & _ & Hb).
  fold off in B2, Hb. unfold BSIZE in B2, Hb. rewrite list_insert_insert_eq in B2.
  replace (off - off / 512 * 512) with (off mod 512) by dm. unfold dblk in B2, Hb.
  eexists _, ip1. split; [reflexivity|]. split; [done|]. split; [exact B2|]. intros a Ha.
  rewrite <- Hlow by done. rewrite rd8_wr_bytes by done. rewrite decide_False; [done|]. unfold blk, BSIZE in *. dm.
Qed.

Lemma iappend_loop_spec fi k fuel : forall p data d fb ip L,
  let off := Z.of_nat (length data) in let n := Z.of_nat (length p) in let fb' := fb + (nblk (off + n) - nblk off) in
  body d fb L -> L !! k = Some (ip, nblk off, data) -> Forall is_u8 p -> off + n <= MAXFILE * BSIZE ->
  fb' <= 1024 -> (length p <= fuel)%nat ->
  exists d' ip', iappend_loop fuel off p ip (Mk d 1024 fb fb fi) = Ret (off + n, ip', Mk d' 1024 fb' fb' fi) /\
    ip' = i_addrs (addrs ip') ip /\ body d' fb' (<[k := (ip', nblk (off + n), data ++ p)]> L) /\
    forall a, a < blk 29 -> rd8 d' a = rd8 d a.
Proof.
  induction fuel as [|fuel IH]; intros p data d fb ip L off n fb' B E Hp Hoff Hfb Hfuel; unfold fb' in *; clear fb'.
  all: destruct (decide (p = [])) as [->|Hne].
  1, 3: unfold n in *; simpl; rewrite !Z.add_0_r, app_nil_r, Z.sub_diag, Z.add_0_r; exists d, ip;
    split; [done|]; split; [by destruct ip|]; by rewrite list_insert_id.
  { destruct p; [done|simpl in Hfuel; lia]. }
  assert (0 < n) as Hn by (unfold n; destruct p; [done|simpl; lia]).
  pose proof (iappend_round fi k fuel p data d fb ip L B E Hp Hn Hoff) as R. cbv zeta in R. fold off n in R.
  set (n1 := Z.min n ((off / 512 + 1) * 512 - off)) in R.
  assert (1 <= n1 <= n) as Hn1 by (unfold n1; dm). pose proof (nblk_mono (off + n1) (off + n) ltac:(lia)).
  destruct R as (d1 & ip1 & -> & Ei & B1 & Hlow); [lia|].
  assert (Ed : Z.of_nat (length (data ++ take (Z.to_nat n1) p)) = off + n1)
    by (rewrite length_app, length_take; unfold off, n in *; lia).
  specialize (IH (drop (Z.to_nat n1) p) (data ++ take (Z.to_nat n1) p) d1 _ ip1 _ B1). cbv zeta in IH. rewrite Ed, length_drop in IH.
  replace (off + n1 + Z.of_nat (length p - Z.to_nat n1)) with (off + n) in IH by (unfold n in *; lia).
  replace (_ + (nblk (off + n) - nblk (off + n1))) with (fb + (nblk (off + n) - nblk off)) in IH by lia.
  destruct IH as (d' & ip' & E' & Ei' & B' & Hlow'); [|by apply Forall_drop|lia..|].
  { apply list_lookup_insert_eq. by eapply lookup_lt_Some. }
  exists d', ip'. rewrite list_insert_insert_eq, <- app_assoc, take_drop in B'. split; [exact E'|].
  split; [rewrite Ei', Ei; done|]. split; [done|]. intros a Ha. by rewrite Hlow', Hlow.
Qed.

(** ** The state of the tool *)

(** Bodies see only the addresses of an inode and the bytes of a file. *)
Lemma body_ext d fb L L' :
  body d fb L -> length L' = length L ->
  (forall k ip u data, L' !! k = Some (ip, u, data) -> exists ip0 data0,
    L !! k = Some (ip0, u, data0) /\ addrs ip = addrs ip0 /\ forall x, nth x data 0 = nth x data0 0) ->
  body d fb L'.
Proof.
  intros B Hlen H. assert (Hs : forall ip ip0 s, addrs ip = addrs ip0 -> slot d ip s = slot d ip0 s)
    by (intros ip ip0 s Ea; unfold slot, ind; by rewrite Ea). split; [| |apply B| |apply B].
  - intros k ip u data (ip0 & data0 & E0 & Ea & Ex)%H. destruct (b_file _ _ _ B _ _ _ _ E0) as [Hl Hu Hn Hb].
    split; [congruence|..].
    + intros s. rewrite (Hs ip ip0) by done. auto.
    + intros s. rewrite (Hs ip ip0) by done. auto.
    + intros x Hx. rewrite Ex, <- Hb by done. unfold fbyte, dblk. by rewrite (Hs ip ip0).
  - intros k ip u data s k' ip' u' data' s' (i0 & a0 & E0 & Ea & _)%H (i1 & a1 & E1 & Ea' & _)%H.
    rewrite (Hs ip i0), (Hs ip' i1) by done. eapply (b_inj _ _ _ B); eauto.
  - intros b (k & ip & u & data & s & E & Hr & <-)%(b_taken _ _ _ B).
    destruct (lookup_lt_is_Some_2 L' k) as [[[ip' u'] data'] E']; [rewrite Hlen; by eapply lookup_lt_Some|].
    destruct (H _ _ _ _ E') as (ip0 & data0 & E0 & Ea & _). exists k, ip', u', data', s. split; [done|]. split; [done|].
    rewrite E in E0. injection E0 as <- <- <-. by apply Hs.
Qed.

Lemma slot_empty d ip s : addrs ip = replicate 13 0 -> 0 <= s < 141 -> slot d ip s = 0.
Proof.
  intros Ea Hs. unfold slot, ind. rewrite Ea. destruct (Z.ltb_spec s 13); [|done].
  rewrite nth_lookup. destruct (replicate 13 0 !! Z.to_nat s) eqn:E; [|done].
  by apply lookup_replicate in E as [-> _].
Qed.

Lemma body_new d fb L ip : body d fb L -> addrs ip = replicate 13 0 -> body d fb (L ++ [(ip, 0, [])]).
Proof.
  intros B Ea. split; [| |apply B| |apply B].
  - intros k i u data [E|[_ E]]%lookup_app_Some; [by apply (b_file _ _ _ B k)|].
    apply list_lookup_singleton_Some in E as [Hk E]; injection E as <- <- <-. split; [by rewrite Ea|lia|auto using slot_empty|].
    intros x Hx. unfold fbyte, dblk. rewrite slot_empty; [by destruct (Z.to_nat x)|done|].
    by apply dslot_range, block_index.
  - intros k i u data s k' i' u' data' s' [E|[_ E]]%lookup_app_Some [E'|[_ E']]%lookup_app_Some Hs Hs' Hn.
    + eapply (b_inj _ _ _ B); eauto.
    + apply list_lookup_singleton_Some in E' as [Hk E']; injection E' as <- <- <-. rewrite (slot_empty _ ip s') by done. done.
    + apply list_lookup_singleton_Some in E as [Hk E]; injection E as <- <- <-. by rewrite slot_empty in Hn.
    + apply list_lookup_singleton_Some in E as [Hk E]; injection E as <- <- <-. by rewrite slot_empty in Hn.
  - intros b (k & i & u & data & s & E & Hs & Es)%(b_taken _ _ _ B). exists k, i, u, data, s.
    split; [|done]. apply lookup_app_l_Some. done.
Qed.

(** Inode [i] of the image. *)
Definition node (d : memory) (i : Z) : inode := load_inode (Inode 0 i 0 0 0 0 0 0 0 []) d.

Definition views (d : memory) (F : list (Z * list Z)) : list fview :=
  imap (fun k f => (node d (Z.of_nat k + 1), nblk (Z.of_nat (length f.2)), f.2)) F.

(** The image holds the files [F], from inode 1 on. *)
Record holds (st : mkst) (F : list (Z * list Z)) : Prop := {
  h_nsec : nsec st = 1024;
  h_used : usedblocks st = freeblock st;
  h_inode : freeinode st = Z.of_nat (length F) + 1;
  h_max : Z.of_nat (length F) <= 199;
  h_blocks : freeblock st = 29 + blocks F;
  h_super : load32 (img st) (blk 1) = 1024 /\ load32 (img st) (blk 1 + 4) = 995 /\ load32 (img st) (blk 1 + 8) = 200;
  h_node : forall k ty data, F !! k = Some (ty, data) -> let ip := node (img st) (Z.of_nat k + 1) in
    type ip = ty /\ nlink ip = 1 /\ size ip = Z.of_nat (length data) /\ size ip <= MAXFILE * BSIZE;
  h_rest : forall a, dip (freeinode st) <= a < blk 28 -> rd8 (img st) a = 0;
  h_body : body (img st) (freeblock st) (views (img st) F)
}.

Lemma geo : geometry 1024 1024 200.
Proof. by split. Qed.

Lemma lookup_views d F k :
  views d F !! k = (fun f => (node d (Z.of_nat k + 1), nblk (Z.of_nat (length f.2)), f.2)) <$> F !! k.
Proof. apply list_lookup_imap. Qed.

Lemma node_ext d d' i : (forall a, dip i <= a < dip i + 64 -> rd8 d' a = rd8 d a) -> node d' i = node d i.
Proof.
  intros H. unfold node, load_inode. cbn [inum idev ref flags].
  rewrite !(load16_ext d d'), (load32_ext d d') by (intros; apply H; lia). f_equal.
  apply list_fmap_ext. intros j x Hx%lookup_seqZ. apply load32_ext. intros. apply H. lia.
Qed.

Lemma node_sector i st : 0 <= i < 200 -> nsec st = 1024 -> rsect (i2b i) st = Ret tt.
Proof. intros Hi E. unfold rsect. rewrite E, decide_True; [done|]. unfold i2b, IPB. dm. Qed.

Lemma winode_spec ip st :
  nsec st = 1024 -> 0 <= inum ip < 200 -> fits ip ->
  exists d, winode ip st = Ret (set_img d st) /\ load_inode ip d = ip /\
    forall a, ~ (dip (inum ip) <= a < dip (inum ip) + 64) -> rd8 d a = rd8 (img st) a.
Proof.
  intros Es Hi Hf. unfold winode. rewrite node_sector by done. cbn [mbind outcome_bind]. rewrite Es.
  destruct (iupdate_spec 1024 1024 200 geo ip (img st) ltac:(apply Hf) Hi) as (d & -> & Hd & Hl). eauto.
Qed.

Lemma blocks_insert F k f g :
  F !! k = Some f ->
  blocks (<[k := g]> F) = blocks F + (nblk (Z.of_nat (length g.2)) - nblk (Z.of_nat (length f.2))).
Proof.
  revert k. induction F as [|h F IH]; intros [|k] E; simplify_eq/=; [lia|]. rewrite (IH k E). lia.
Qed.

Lemma i16_i16 v : i16 (i16 v) = i16 v.
Proof. unfold i16. dm. Qed.

(** The fields of an inode of the image fit, with other addresses and size. *)
Lemma node_fits d fb L k u data i sz l ip :
  body d fb L -> L !! k = Some (ip, u, data) -> ip = i_addrs l (node d i) -> is_u32 sz -> fits (i_size sz ip).
Proof.
  intros B E -> Hz. destruct (b_file _ _ _ B _ _ _ _ E) as [Hl Hu Hn _]. simpl in Hl. split; simpl; [|done| |done].
  - intros v Hv. repeat (apply elem_of_cons in Hv as [->|Hv]; [apply i16_i16|]). by apply not_elem_of_nil in Hv.
  - apply Forall_lookup_2. intros j a Ea. pose proof (lookup_lt_Some _ _ _ Ea). pose proof (b_free _ _ _ B).
    assert (slot d (i_addrs l (node d i)) (Z.of_nat j) = a) as <-.
    { rewrite slot_low by lia. simpl. by rewrite Nat2Z.id, nth_lookup, Ea. }
    destruct (decide (Z.of_nat j < u)).
    + specialize (Hu (Z.of_nat j)). unfold is_u32. lia.
    + rewrite Hn by lia. done.
Qed.

Lemma dip_linear i : dip i = 1024 + 64 * i.
Proof. unfold dip, blk, IBLOCK, BSIZE, IPB. dm. Qed.

Section Update.
Context (st : mkst) (F : list (Z * list Z)) (k : nat) (ty : Z) (data : list Z).
Context (H : holds st F) (E : F !! k = Some (ty, data)).
Context (d1 : memory) (fb1 : Z) (ip1 : inode) (data1 data2 : list Z).
Let n : Z := Z.of_nat (length data2).
Context (B : body d1 fb1 (<[k := (ip1, nblk n, data1)]> (views (img st) F)))
  (Hlow : forall a, a < blk 29 -> rd8 d1 a = rd8 (img st) a)
  (Hip : ip1 = i_addrs (addrs ip1) (node (img st) (Z.of_nat k + 1)))
  (Hdata : forall x, nth x data2 0 = nth x data1 0) (Hn : n <= MAXFILE * BSIZE)
  (Hfb : fb1 = freeblock st + (nblk n - nblk (Z.of_nat (length data)))).

Lemma update_node d i :
  (forall a, ~ (dip (Z.of_nat k + 1) <= a < dip (Z.of_nat k + 1) + 64) -> rd8 d a = rd8 d1 a) ->
  0 < i < 200 -> i <> Z.of_nat k + 1 -> node d i = node (img st) i.
Proof.
  intros Hd Hi Hne. apply node_ext. intros a Ha. rewrite !dip_linear in *.
  rewrite Hd by lia. apply Hlow. unfold blk, BSIZE. lia.
Qed.

Lemma holds_update :
  exists st', winode (i_size n ip1) (Mk d1 1024 fb1 fb1 (freeinode st)) = Ret st' /\
    holds st' (<[k := (ty, data2)]> F).
Proof.
  pose proof (lookup_lt_Some _ _ _ E) as Hk. pose proof (h_max _ _ H) as Hmax.
  assert (E1 : <[k := (ip1, nblk n, data1)]> (views (img st) F) !! k = Some (ip1, nblk n, data1)).
  { apply list_lookup_insert_eq. unfold views. by rewrite length_imap. }
  destruct (winode_spec (i_size n ip1) (Mk d1 1024 fb1 fb1 (freeinode st))) as (d & -> & El & Hd); [done|..].
  { rewrite Hip. simpl. lia. }
  { assert (Hn' : node d1 (Z.of_nat k + 1) = node (img st) (Z.of_nat k + 1)).
    { apply node_ext. intros a Ha. apply Hlow. rewrite dip_linear in Ha. unfold blk, BSIZE. lia. }
    eapply node_fits; [exact B|exact E1|rewrite Hn'; exact Hip|]. unfold is_u32, MAXFILE, NDIRECT, NINDIRECT, BSIZE in *. lia. }
  assert (Hin : inum (i_size n ip1) = Z.of_nat k + 1) by (rewrite Hip; done). rewrite Hin in Hd. simpl in Hd.
  assert (Hself : node d (Z.of_nat k + 1) = i_size n ip1).
  { rewrite <- El at 1. unfold node, load_inode. cbn [idev inum ref flags]. by rewrite Hip. }
  eexists. split; [reflexivity|]. destruct H as [Hs Hu Hi _ Hb Hsb Hnode Hrest _]. unfold set_img.
  split; cbn [img nsec freeblock usedblocks freeinode]; rewrite ?length_insert; [done|done|done|done|..].
  - rewrite (blocks_insert _ _ _ _ E). simpl. fold n. lia.
  - rewrite !(load32_ext (img st) d); [done|..]; intros a Ha; rewrite Hd by (rewrite dip_linear; unfold blk, BSIZE in Ha; lia);
      apply Hlow; unfold blk, BSIZE in *; lia.
  - intros j ty' data' [(<- & [= <- <-] & _)|[Hj Ej]]%list_lookup_insert_Some.
    + rewrite Hself. destruct (Hnode _ _ _ E) as (Ht & Hl & _). rewrite Hip. simpl. done.
    + pose proof (lookup_lt_Some _ _ _ Ej). rewrite update_node by (done || lia). by apply Hnode.
  - intros a Ha. pose proof (dip_linear (freeinode st)). rewrite Hd by (rewrite dip_linear; lia).
    rewrite Hlow by (unfold blk, BSIZE in *; lia). by apply Hrest.
  - eapply body_ext; [eapply (body_low d1); [exact B|]|by rewrite length_insert; unfold views; rewrite !length_imap, length_insert|].
    + intros a Ha. apply Hd. rewrite dip_linear. unfold blk, BSIZE in Ha. lia.
    + intros j ip u dt. rewrite lookup_views. intros (f & Ef & [= -> -> ->])%fmap_Some.
      apply list_lookup_insert_Some in Ef as [(<- & <- & _)|[Hj Ej]].
      * rewrite Hself. exists ip1, data1. split_and!; done.
      * pose proof (lookup_lt_Some _ _ _ Ej). exists (node (img st) (Z.of_nat j + 1)), f.2.
        rewrite list_lookup_insert_ne, lookup_views, Ej by done. rewrite (update_node d) by (done || lia). done.
Qed.
End Update.

Lemma holds_eta st F :
  holds st F -> st = Mk (img st) 1024 (freeblock st) (freeblock st) (freeinode st).
Proof. intros [E1 E2 _ _ _ _ _ _ _]. destruct st. simpl in *. congruence. Qed.

(** [iappend] appends to the file, and takes the blocks this needs. *)
Lemma iappend_spec st F k ty data p :
  holds st F -> F !! k = Some (ty, data) -> Forall is_u8 p ->
  Z.of_nat (length (data ++ p)) <= MAXFILE * BSIZE -> 29 + blocks (<[k := (ty, data ++ p)]> F) <= 1024 ->
  exists st', iappend (Z.of_nat k + 1) p st = Ret st' /\ holds st' (<[k := (ty, data ++ p)]> F).
Proof.
  intros H E Hp Hl Hb. pose proof (lookup_lt_Some _ _ _ E). pose proof (h_max _ _ H).
  rewrite (blocks_insert _ _ _ _ E) in Hb. cbn [snd] in Hb. pose proof (h_blocks _ _ H) as Hfb.
  unfold iappend, rinode. rewrite node_sector by (apply H || lia). cbn [mbind outcome_bind].
  fold (node (img st) (Z.of_nat k + 1)). destruct (h_node _ _ H _ _ _ E) as (_ & _ & Es & _). rewrite Es.
  rewrite (holds_eta _ _ H). cbn [img].
  rewrite length_app, Nat2Z.inj_add in *.
  destruct (iappend_loop_spec (freeinode st) k (length p) p data (img st) (freeblock st) (node (img st) (Z.of_nat k + 1))
    (views (img st) F) (h_body _ _ H)) as (d1 & ip1 & -> & Hip & B & Hlow); [by rewrite lookup_views, E|done|lia..|].
  cbn [mbind outcome_bind]. rewrite <- Nat2Z.inj_add, <- length_app in *.
  eapply holds_update; eauto.
Qed.

Lemma pad_length data :
  Z.of_nat (length data) mod BSIZE <> 0 ->
  Z.of_nat (length (pad data)) = (Z.of_nat (length data) / BSIZE + 1) * BSIZE.
Proof. intros H. unfold pad. rewrite length_app, length_replicate. unfold BSIZE in *. dm. Qed.

Lemma nth_pad data x : nth x (pad data) 0 = nth x data 0.
Proof.
  unfold pad. destruct (decide (x < length data)%nat); [by rewrite app_nth1|].
  rewrite app_nth2, (nth_overflow data) by lia. generalize (Z.to_nat (- Z.of_nat (length data) mod BSIZE)). intros m.
  rewrite nth_lookup. destruct (replicate m 0 !! (x - length data)%nat) eqn:E; [|done].
  by apply lookup_replicate in E as [-> _].
Qed.

Lemma nblk_pad data :
  Z.of_nat (length data) mod BSIZE <> 0 -> nblk (Z.of_nat (length (pad data))) = nblk (Z.of_nat (length data)).
Proof.
  intros Hm. rewrite pad_length by done. unfold nblk, BSIZE in *.
  by replace (((Z.of_nat (length data) / 512 + 1) * 512 + 511) / 512) with ((Z.of_nat (length data) + 511) / 512) by dm.
Qed.

(** [fix_size] fills the last block of a directory with empty entries. *)
Lemma fix_size_spec st F k ty data :
  holds st F -> F !! k = Some (ty, data) -> Z.of_nat (length data) mod BSIZE <> 0 ->
  exists st', fix_size (Z.of_nat k + 1) st = Ret st' /\ holds st' (<[k := (ty, pad data)]> F).
Proof.
  intros H E Hm. pose proof (lookup_lt_Some _ _ _ E). pose proof (h_max _ _ H).
  pose proof (pad_length data Hm) as Hp. destruct (h_node _ _ H _ _ _ E) as (_ & _ & Es & Hl).
  pose proof (nblk_pad data Hm) as Hu.
  unfold fix_size, rinode. rewrite node_sector by (apply H || lia). cbn [mbind outcome_bind].
  fold (node (img st) (Z.of_nat k + 1)). rewrite Es.
  assert (Z.of_nat (length data) <= MAXFILE * BSIZE) as Hmax by lia. unfold MAXFILE, NDIRECT, NINDIRECT in Hmax.
  rewrite i32_small by (unfold is_i32, BSIZE in *; lia). rewrite Z.quot_div_nonneg by (unfold BSIZE; lia).
  rewrite <- Hp. rewrite u32_small by (unfold is_u32, BSIZE in *; dm).
  rewrite (holds_eta _ _ H). cbn [img].
  eapply (holds_update st F k ty data H E _ _ _ data).
  - rewrite Hu, list_insert_id; [apply H|]. by rewrite lookup_views, E.
  - done.
  - done.
  - apply nth_pad.
  - unfold MAXFILE, NDIRECT, NINDIRECT, BSIZE in *. dm.
  - rewrite Hu. lia.
Qed.

(** A directory whose entries fill its last block gets the size of one block
    more than it has. *)
Lemma fix_size_overshoots st F k ty data :
  holds st F -> F !! k = Some (ty, data) -> let n := Z.of_nat (length data) in
  n mod BSIZE = 0 -> n < MAXFILE * BSIZE ->
  exists st', fix_size (Z.of_nat k + 1) st = Ret st' /\ let ip := node (img st') (Z.of_nat k + 1) in
    size ip = n + BSIZE /\ dblk (img st') ip (n / BSIZE) = 0.
Proof.
  intros H E n Hm Hlt. pose proof (lookup_lt_Some _ _ _ E). pose proof (h_max _ _ H). pose proof (h_body _ _ H) as B.
  destruct (h_node _ _ H _ _ _ E) as (_ & _ & Es & _). fold n in Es.
  assert (Ev : views (img st) F !! k = Some (node (img st) (Z.of_nat k + 1), nblk n, data)) by (by rewrite lookup_views, E).
  pose proof (b_file _ _ _ B _ _ _ _ Ev) as Ff. unfold MAXFILE, NDIRECT, NINDIRECT, BSIZE in Hlt, Hm.
  unfold fix_size, rinode. rewrite node_sector by (apply H || lia). cbn [mbind outcome_bind].
  fold (node (img st) (Z.of_nat k + 1)). set (ip := node (img st) (Z.of_nat k + 1)) in *. rewrite Es.
  rewrite i32_small by (unfold is_i32; lia). rewrite Z.quot_div_nonneg by (unfold BSIZE; lia).
  replace ((n / BSIZE + 1) * BSIZE) with (n + BSIZE) by (unfold BSIZE; dm).
  rewrite u32_small by (unfold is_u32, BSIZE; lia).
  destruct (winode_spec (i_size (n + BSIZE) ip) st) as (d & -> & El & Hd); [apply H|simpl; lia| |].
  { eapply (node_fits (img st) _ _ _ _ _ (Z.of_nat k + 1) _ (addrs ip)); [exact B|exact Ev|done|unfold is_u32, BSIZE; lia]. }
  eexists. split; [reflexivity|]. cbn [img set_img]. change (node d (Z.of_nat k + 1)) with (load_inode (i_size (n + BSIZE) ip) d).
  rewrite El. split; [done|]. destruct (dslot_range (n / BSIZE)) as [Hr _]; [unfold BSIZE; dm|].
  unfold dblk. change (slot d (i_size (n + BSIZE) ip) (dslot (n / BSIZE))) with (slot d ip (dslot (n / BSIZE))).
  rewrite (slot_frame (img st)); [|intros Hi o Ho|done].
  - apply (fa_none _ _ _ _ _ Ff); [done|]. destruct (nblk_cases n ltac:(lia)) as [Hc|Hc].
    + revert Hc. unfold nblk, dslot, BSIZE. replace ((n + 511) / 512) with (n / 512) by dm. repeat zcase; lia.
    + unfold BSIZE, dslot in *. zcase; lia.
  - apply Hd. rewrite <- (slot_ind (img st) ip) in *. destruct (slot_used _ _ _ _ _ 12 Ff ltac:(lia) Hi) as [_ Hb].
    change (inum (i_size (n + BSIZE) ip)) with (Z.of_nat k + 1). rewrite dip_linear. unfold blk, BSIZE in *. lia.
Qed.

Lemma blocks_app F G : blocks (F ++ G) = blocks F + blocks G.
Proof. induction F as [|f F IH]; simpl; [done|]. rewrite IH. lia. Qed.

Lemma nblk_nonneg n : 0 <= n -> 0 <= nblk n.
Proof. intros H. change 0 with (nblk 0) at 1. by apply nblk_mono. Qed.

Lemma blocks_nonneg F : 0 <= blocks F.
Proof. induction F as [|f F IH]; simpl; [done|]. pose proof (nblk_nonneg (Z.of_nat (length f.2))). lia. Qed.

Lemma ialloc_spec st F ty :
  holds st F -> Z.of_nat (length F) < 199 -> i16 ty = ty ->
  exists st', ialloc ty st = Ret (Z.of_nat (length F) + 1, st') /\ holds st' (F ++ [(ty, [])]).
Proof.
  intros H Hl Ht. unfold ialloc. rewrite (h_inode _ _ H), u32_small by (unfold is_u32; lia).
  set (ip := Inode 0 _ 0 0 ty 0 0 1 0 _).
  destruct (winode_spec ip (Mk (img st) (nsec st) (freeblock st) (usedblocks st) (Z.of_nat (length F) + 1 + 1)))
    as (d & -> & El & Hd); [apply H|simpl; lia| |].
  { split; [|done|by apply (Forall_replicate is_u32 13 0)|done]. intros v Hv.
    repeat (apply elem_of_cons in Hv as [->|Hv]; [done|]). by apply not_elem_of_nil in Hv. }
  cbn [mbind outcome_bind]. eexists. split; [reflexivity|]. cbn [inum ip img] in Hd.
  assert (Hold : forall i, 0 < i <= Z.of_nat (length F) -> node d i = node (img st) i).
  { intros i Hi. apply node_ext. intros a Ha. apply Hd. rewrite !dip_linear in *. lia. }
  destruct H as [Hs Hu Hi Hm Hb Hsb Hnode Hrest B]. unfold set_img. rewrite Hi in Hrest.
  assert (Hdat : forall a, blk 28 <= a -> rd8 d a = rd8 (img st) a).
  { intros a Ha. apply Hd. rewrite dip_linear. unfold blk, BSIZE in Ha. lia. }
  split; cbn [img nsec freeblock usedblocks freeinode]; rewrite ?length_app; [done|done|simpl; lia|simpl; lia|..].
  - rewrite blocks_app. change (blocks [(ty, [])]) with 0. lia.
  - rewrite !(load32_ext (img st) d); [done|..]; intros a Ha; apply Hd; rewrite dip_linear; unfold blk, BSIZE in Ha; lia.
  - intros j ty' data' [Ej|[Hge Ej]]%lookup_app_Some.
    + pose proof (lookup_lt_Some _ _ _ Ej). rewrite Hold by lia. by apply Hnode.
    + apply list_lookup_singleton_Some in Ej as [Hj Ej]. injection Ej as <- <-.
      assert (j = length F) as -> by lia.
      change (node d (Z.of_nat (length F) + 1)) with (load_inode ip d). by rewrite El.
  - intros a Ha. rewrite Hd by (rewrite dip_linear in *; lia). apply Hrest. rewrite dip_linear in *. lia.
  - eapply body_ext; [apply (body_new _ _ (views (img st) F) ip); [|done]|by unfold views; rewrite length_app, !length_imap, length_app|].
    + eapply body_low; [exact B|]. intros a Ha. apply Hdat. unfold blk, BSIZE in *. lia.
    + intros j i u dt. rewrite lookup_views. intros (f & Ef & [= -> -> ->])%fmap_Some.
      apply lookup_app_Some in Ef as [Ej|[Hj Ej]].
      * pose proof (lookup_lt_Some _ _ _ Ej). rewrite lookup_app_l by (unfold views; rewrite length_imap; lia).
        rewrite Hold by lia. rewrite lookup_views, Ej. eauto.
      * apply list_lookup_singleton_Some in Ej as [Hj' <-]. exists ip, []. assert (j = length F) as -> by lia.
        split_and!; [|change (node d (Z.of_nat (length F) + 1)) with (load_inode ip d); by rewrite El|done].
        rewrite lookup_app_r by (unfold views; by rewrite length_imap). unfold views.
        by rewrite length_imap, Nat.sub_diag.
Qed.

(** ** Files and directories *)

(** Files that are not too long. *)
Definition small (F : list (Z * list Z)) : Prop := Forall (fun f => Z.of_nat (length f.2) <= MAXFILE * BSIZE) F.

Lemma copy_reads_spec k ty reads : forall st F data,
  holds st F -> F !! k = Some (ty, data) -> Forall (fun c => c <> [] /\ Forall is_u8 c) reads ->
  Z.of_nat (length (data ++ concat reads)) <= MAXFILE * BSIZE ->
  29 + blocks (<[k := (ty, data ++ concat reads)]> F) <= 1024 ->
  exists st', copy_reads (Z.of_nat k + 1) reads st = Ret st' /\ holds st' (<[k := (ty, data ++ concat reads)]> F).
Proof.
  induction reads as [|c reads IH]; intros st F data H E Hr Hl Hb; simpl in *.
  - rewrite app_nil_r in *. rewrite list_insert_id by done. eauto.
  - apply Forall_cons in Hr as [[Hne Hc] Hr]. destruct c as [|x c]; [done|]. set (p := x :: c) in *. simpl.
    rewrite app_assoc in Hl, Hb. rewrite length_app in Hl.
    destruct (iappend_spec st F k ty data p H E Hc) as (st1 & -> & H1); [lia| |].
    { rewrite (blocks_insert _ _ _ _ E). rewrite (blocks_insert _ _ _ _ E) in Hb. cbn [snd] in *.
      pose proof (nblk_mono (Z.of_nat (length (data ++ p))) (Z.of_nat (length ((data ++ p) ++ concat reads)))
        ltac:(rewrite (length_app (data ++ p)); lia)). lia. }
    cbn [mbind outcome_bind]. destruct (IH st1 (<[k := (ty, data ++ p)]> F) (data ++ p)) as (st2 & E2 & H2); try done.
    + apply list_lookup_insert_eq. by eapply lookup_lt_Some.
    + rewrite length_app. lia.
    + by rewrite list_insert_insert_eq.
    + rewrite list_insert_insert_eq, <- app_assoc in H2. eauto.
Qed.

Lemma dots_u8 : Forall is_u8 [46] /\ Forall is_u8 [46; 46].
Proof. split; repeat constructor; unfold is_u8; lia. Qed.

(** An entry added to directory [k] while the files [S] stand behind it. *)
Lemma add_entry_spec st F k data S c name :
  holds st (F ++ S) -> F !! k = Some (T_DIR, data) -> Forall is_u8 name ->
  Z.of_nat (length (data ++ dirent c name)) <= MAXFILE * BSIZE ->
  29 + blocks (<[k := (T_DIR, data ++ dirent c name)]> F ++ S) <= 1024 ->
  exists st', iappend (Z.of_nat k + 1) (dirent c name) st = Ret st' /\
    holds st' (<[k := (T_DIR, data ++ dirent c name)]> F ++ S).
Proof.
  intros H E Hn Hl Hb. pose proof (lookup_lt_Some _ _ _ E). rewrite <- insert_app_l in * by done.
  apply (iappend_spec st (F ++ S) k T_DIR data); auto using dirent_u8. by rewrite lookup_app_l.
Qed.

(** ** Trees *)

Lemma host_tree_ind (P : host -> Prop) :
  P Unreadable -> (forall reads, P (RegFile reads)) -> P NoStream -> P Barred ->
  (forall es, Forall (fun e => P e.2) es -> P (Dir es)) -> forall h, P h.
Proof.
  intros H1 H2 H3 H4 H5. fix IH 1. intros [|reads| | |es]; [done|done|done|done|].
  apply H5. induction es as [|[name h] es IHes]; constructor; [apply IH|apply IHes].
Qed.

Lemma storable_entries es :
  storable (Dir es) ->
  (Z.of_nat (length (filter (fun e => is_dots e.1 = false) es)) + 2) mod 32 <> 0 /\
  Forall (fun e => is_dots e.1 = false -> Forall is_u8 e.1 /\ storable e.2) es.
Proof.
  intros [Hm Ha]. split; [done|]. clear Hm. induction es as [|[name h] es IH]; constructor; [apply Ha|].
  apply IH, Ha.
Qed.

(** What [add_dir] does with a new directory, which is the last file. *)
Definition adds (h : host) : Prop :=
  forall st G parent, let self := Z.of_nat (length G) + 1 in
  storable h -> is_dir h = true -> holds st (G ++ [(T_DIR, [])]) -> small (plan self parent h) ->
  Z.of_nat (length (G ++ plan self parent h)) <= 199 -> 29 + blocks (G ++ plan self parent h) <= 1024 ->
  exists st', add_dir h self parent st = Ret (0, st') /\ holds st' (G ++ plan self parent h).

Lemma plan_entries_cons self next name h es :
  plan_entries plan self next ((name, h) :: es) =
  if is_dots name then plan_entries plan self next es
  else let sub := plan next self h in
    let '(ents, subs) := plan_entries plan self (next + Z.of_nat (length sub)) es in
    (dirent next name ++ ents, sub ++ subs).
Proof. done. Qed.

(** A child: its inode, its contents and everything below it. *)
Lemma add_child_spec h st F self :
  adds h -> storable h -> holds st F -> let next := Z.of_nat (length F) + 1 in
  small (plan next self h) -> Z.of_nat (length (F ++ plan next self h)) <= 199 ->
  29 + blocks (F ++ plan next self h) <= 1024 ->
  exists st', holds st' (F ++ plan next self h) /\
    match h with
    | Unreadable => False
    | RegFile reads => exists st1, ialloc T_FILE st = Ret (next, st1) /\ copy_reads next reads st1 = Ret st'
    | _ => exists st1, ialloc T_DIR st = Ret (next, st1) /\ add_dir h next self st1 = Ret (0, st')
    end.
Proof.
  intros Ha Hs H next Hsm Hl Hb. unfold next in *.
  assert (Hlt : 0 < Z.of_nat (length (plan (Z.of_nat (length F) + 1) self h))).
  { destruct h; simpl in Hs |- *; try done. case_match. simpl. lia. }
  rewrite length_app in Hl. destruct h as [|reads| | |es]; [done| |..].
  - destruct (ialloc_spec st F T_FILE H ltac:(lia) eq_refl) as (st1 & E1 & H1).
    cbn [plan] in *. unfold small in Hsm. rewrite Forall_singleton in Hsm. cbn [snd] in Hsm.
    assert (E : (F ++ [(T_FILE, [])]) !! length F = Some (T_FILE, [])) by (rewrite lookup_app_r, Nat.sub_diag by lia; done).
    assert (Ei : <[length F := (T_FILE, concat reads)]> (F ++ [(T_FILE, [])]) = F ++ [(T_FILE, concat reads)]).
    { rewrite <- (Nat.add_0_r (length F)) at 1. by rewrite insert_app_r. }
    destruct (copy_reads_spec (length F) T_FILE reads st1 _ [] H1 E Hs Hsm) as (st' & E' & H').
    { cbn [app]. by rewrite Ei. }
    cbn [app] in H'. rewrite Ei in H'. eauto.
  - destruct (ialloc_spec st F T_DIR H ltac:(lia) eq_refl) as (st1 & E1 & H1).
    destruct (Ha st1 F self) as (st' & E' & H'); rewrite ?length_app; eauto.
  - done.
  - destruct (ialloc_spec st F T_DIR H ltac:(lia) eq_refl) as (st1 & E1 & H1).
    destruct (Ha st1 F self) as (st' & E' & H'); rewrite ?length_app; eauto.
Qed.

Lemma add_entries_cons cur name h es st st1 st' c :
  is_dots name = false ->
  match h with
  | Unreadable => False
  | RegFile reads => exists st0, ialloc T_FILE st = Ret (c, st0) /\ copy_reads c reads st0 = Ret st1
  | _ => exists st0, ialloc T_DIR st = Ret (c, st0) /\ add_dir h c cur st0 = Ret (0, st1)
  end ->
  iappend cur (dirent c name) st1 = Ret st' ->
  add_entries add_dir cur ((name, h) :: es) st = add_entries add_dir cur es st'.
Proof.
  intros Hd Hh E. cbn [add_entries]. rewrite Hd.
  destruct h; [done|..]; destruct Hh as (st0 & -> & Eh); cbn [mbind outcome_bind]; rewrite Eh; cbn [mbind outcome_bind];
    simpl; by rewrite E.
Qed.

Lemma add_entries_spec k es : forall st F data ents subs,
  let self := Z.of_nat k + 1 in
  plan_entries plan self (Z.of_nat (length F) + 1) es = (ents, subs) ->
  Forall (fun e => adds e.2) es -> Forall (fun e => is_dots e.1 = false -> Forall is_u8 e.1 /\ storable e.2) es ->
  holds st F -> F !! k = Some (T_DIR, data) ->
  Z.of_nat (length (data ++ ents)) <= MAXFILE * BSIZE -> small subs ->
  Z.of_nat (length (F ++ subs)) <= 199 -> 29 + blocks (<[k := (T_DIR, data ++ ents)]> F ++ subs) <= 1024 ->
  exists st', add_entries add_dir self es st = Ret (0, st') /\ holds st' (<[k := (T_DIR, data ++ ents)]> F ++ subs).
Proof.
  induction es as [|[name h] es IH]; intros st F data ents subs self Ep Ha Hs H E Hl Hsm Hn Hb.
  { injection Ep as <- <-. rewrite !app_nil_r, list_insert_id by done. eauto. }
  apply Forall_cons in Ha as [Ha Has]. apply Forall_cons in Hs as [Hs Hss]. cbn [fst snd] in *.
  rewrite plan_entries_cons in Ep. destruct (is_dots name) eqn:Hd.
  { destruct (IH st F data ents subs Ep) as (st' & E' & H'); auto. exists st'. split; [|done].
    cbn [add_entries]. by rewrite Hd. }
  destruct (Hs eq_refl) as [Hname Hst]. cbv zeta in Ep. set (next := Z.of_nat (length F) + 1) in *.
  set (sub := plan next self h) in *. destruct (plan_entries plan self _ es) as [ents1 subs1] eqn:Ep1.
  apply pair_equal_spec in Ep as [<- <-]. apply Forall_app in Hsm as [Hsm1 Hsm2].
  pose proof (lookup_lt_Some _ _ _ E) as Hk. set (data1 := data ++ dirent next name).
  assert (Hm1 : Z.of_nat (length data1) <= Z.of_nat (length (data ++ dirent next name ++ ents1)))
    by (unfold data1; rewrite app_assoc, (length_app (_ ++ _)); lia).
  pose proof (nblk_mono _ _ Hm1) as Hm2. pose proof (nblk_mono (Z.of_nat (length data)) (Z.of_nat (length data1))
    ltac:(unfold data1; rewrite length_app; lia)) as Hm3.
  rewrite blocks_app, (blocks_insert _ _ _ _ E), blocks_app in Hb. cbn [snd] in Hb.
  pose proof (blocks_nonneg subs1). rewrite !length_app in Hn.
  destruct (add_child_spec h st F self Ha Hst H) as (st1 & H1 & Hch); fold next sub; [done|rewrite length_app; lia|rewrite blocks_app; lia|].
  destruct (add_entry_spec st1 F k data sub next name H1 E Hname) as (st2 & E2 & H2); [fold data1; lia| |].
  { rewrite blocks_app, (blocks_insert _ _ _ _ E). cbn [snd]. fold data1. lia. }
  fold self in E2. fold data1 in H2. fold next in Hch. rewrite (add_entries_cons _ _ _ _ _ _ _ _ Hd Hch E2).
  destruct (IH st2 (<[k := (T_DIR, data1)]> F ++ sub) data1 ents1 subs1) as (st' & E' & H').
  - fold self. rewrite length_app, length_insert. rewrite <- Ep1. f_equal. lia.
  - done.
  - done.
  - done.
  - rewrite lookup_app_l by (by rewrite length_insert). by apply list_lookup_insert_eq.
  - unfold data1. by rewrite <- app_assoc.
  - done.
  - rewrite !length_app, length_insert. lia.
  - rewrite insert_app_l, list_insert_insert_eq, <- app_assoc by (by rewrite length_insert).
    rewrite !blocks_app, (blocks_insert _ _ _ _ E). cbn [snd]. unfold data1. rewrite <- app_assoc. lia.
  - exists st'. split; [done|]. rewrite insert_app_l, list_insert_insert_eq, <- app_assoc in H' by (by rewrite length_insert).
    unfold data1 in H'. by rewrite <- app_assoc in H'.
Qed.

Lemma plan_entries_length self es : forall next,
  length (plan_entries plan self next es).1 = (16 * length (filter (fun e => is_dots e.1 = false) es))%nat.
Proof.
  induction es as [|[name h] es IH]; intros next; [done|]. rewrite plan_entries_cons, filter_cons. cbn [fst].
  destruct (is_dots name) eqn:Hd; [by rewrite decide_False; [apply IH|]|]. rewrite decide_True by done. cbv zeta.
  specialize (IH (next + Z.of_nat (length (plan next self h)))). destruct (plan_entries _ _ _ _) as [ents subs].
  cbn [fst] in *. rewrite length_app, dirent_length, IH. simpl. lia.
Qed.

Lemma insert_last {A} (G : list A) x y S : <[length G := y]> ((G ++ [x]) ++ S) = G ++ y :: S.
Proof. rewrite <- app_assoc. rewrite <- (Nat.add_0_r (length G)) at 1. by rewrite insert_app_r. Qed.

Lemma insert_last0 {A} (G : list A) x y : <[length G := y]> (G ++ [x]) = G ++ [y].
Proof. rewrite <- (app_nil_r (G ++ [x])). by rewrite insert_last. Qed.

Lemma lookup_last {A} (G : list A) x : (G ++ [x]) !! length G = Some x.
Proof. by rewrite lookup_app_r, Nat.sub_diag by lia. Qed.

Lemma dots_length self parent : length (dots self parent) = 32%nat.
Proof. unfold dots. by rewrite length_app, !dirent_length. Qed.

(** The two entries of a new directory. *)
Lemma add_dots_spec st G parent :
  holds st (G ++ [(T_DIR, [])]) -> 29 + blocks G + 1 <= 1024 -> let self := Z.of_nat (length G) + 1 in
  exists st1 st2, iappend self (dirent self [46]) st = Ret st1 /\ iappend self (dirent parent [46; 46]) st1 = Ret st2 /\
    holds st2 (G ++ [(T_DIR, dots self parent)]).
Proof.
  intros H Hb self. destruct dots_u8 as [D1 D2].
  destruct (iappend_spec st _ (length G) T_DIR [] (dirent self [46]) H) as (st1 & E1 & H1).
  { apply lookup_last. }
  { by apply dirent_u8. }
  { cbn [app]. by rewrite dirent_length. }
  { rewrite insert_last0, blocks_app. cbn [app blocks foldr snd]. rewrite dirent_length. change (nblk _) with 1. lia. }
  rewrite insert_last0 in H1. cbn [app] in H1.
  destruct (iappend_spec st1 _ (length G) T_DIR (dirent self [46]) (dirent parent [46; 46]) H1) as (st2 & E2 & H2).
  { apply lookup_last. }
  { by apply dirent_u8. }
  { rewrite length_app, !dirent_length. done. }
  { rewrite insert_last0, blocks_app. cbn [app blocks foldr snd]. rewrite length_app, !dirent_length. change (nblk _) with 1. lia. }
  rewrite insert_last0 in H2. exists st1, st2. split; [exact E1|]. split; [exact E2|exact H2].
Qed.

Lemma dir_blocks self parent ents G S :
  blocks (G ++ (T_DIR, dots self parent ++ ents) :: S) =
  blocks G + nblk (32 + Z.of_nat (length ents)) + blocks S /\ 1 <= nblk (32 + Z.of_nat (length ents)).
Proof.
  rewrite blocks_app. cbn [blocks foldr snd]. rewrite length_app, dots_length, Nat2Z.inj_add.
  split; [change (Z.of_nat 32) with 32; unfold blocks; lia|]. change 1 with (nblk 32). apply nblk_mono. lia.
Qed.

Lemma add_dir_spec h : adds h.
Proof.
  induction h as [|reads| | |es IH] using host_tree_ind; intros st G parent self Hst Hdir H Hsm Hl Hb; try done.
  - destruct (dir_blocks self parent [] G []) as [Eb Hge]. rewrite app_nil_r in Eb. cbn [plan] in *.
    rewrite Eb in Hb. change (blocks []) with 0 in Hb.
    destruct (add_dots_spec st G parent H) as (st1 & st2 & E1 & E2 & H2); [lia|]. fold self in E1, E2.
    exists st2. cbn [add_dir]. rewrite E1. cbn [mbind outcome_bind]. by rewrite E2.
  - destruct (storable_entries es Hst) as [Hm Hes]. cbn [plan] in *.
    destruct (plan_entries plan self (self + 1) es) as [ents subs] eqn:Ep.
    pose proof (plan_entries_length self es (self + 1)) as Hlen. rewrite Ep in Hlen. cbn [fst] in Hlen.
    assert (Hmod : Z.of_nat (length (dots self parent ++ ents)) mod BSIZE <> 0).
    { rewrite length_app, dots_length. unfold BSIZE. dm. }
    apply Forall_cons in Hsm as [Hs1 Hs2]. cbn [snd] in Hs1. rewrite length_app in Hl. cbn [length] in Hl.
    assert (Hb' : 29 + blocks (G ++ (T_DIR, dots self parent ++ ents) :: subs) <= 1024).
    { revert Hb. rewrite !blocks_app. cbn [blocks foldr snd]. by rewrite nblk_pad. }
    destruct (dir_blocks self parent ents G subs) as [Eb Hge]. rewrite Eb in Hb'. pose proof (blocks_nonneg subs).
    destruct (add_dots_spec st G parent H) as (st1 & st2 & E1 & E2 & H2); [lia|]. fold self in E1, E2, H2.
    destruct (add_entries_spec (length G) es st2 (G ++ [(T_DIR, dots self parent)]) (dots self parent) ents subs)
      as (st3 & E3 & H3).
    + rewrite <- Ep. f_equal. rewrite length_app. simpl. unfold self. lia.
    + done.
    + done.
    + done.
    + apply lookup_last.
    + etransitivity; [|exact Hs1]. unfold pad. rewrite (length_app (_ ++ _)). lia.
    + done.
    + rewrite !length_app. simpl. lia.
    + rewrite insert_last0, <- app_assoc. cbn [app]. rewrite Eb. lia.
    + rewrite insert_last0, <- app_assoc in H3. cbn [app] in H3.
      destruct (fix_size_spec st3 _ (length G) T_DIR (dots self parent ++ ents) H3) as (st4 & E4 & H4); [|done|].
      { by rewrite lookup_app_r, Nat.sub_diag by lia. }
      exists st4. cbn [add_dir]. rewrite E1. cbn [mbind outcome_bind]. rewrite E2. cbn [mbind outcome_bind].
      fold self in E3, E4. rewrite E3. cbn [mbind outcome_bind]. simpl. rewrite E4. cbn [mbind outcome_bind].
      split; [done|]. rewrite <- (Nat.add_0_r (length G)) in H4 at 1. by rewrite insert_app_r in H4.
Qed.

(** ** The empty image *)

Lemma zeroed l : forall st,
  (forall a, rd8 (img st) a = 0) ->
  let st' := foldl (fun st i => wsect i zeroes st) st l in
  (forall a, rd8 (img st') a = 0) /\
  st' = Mk (img st') (foldl (fun n i => Z.max n (i + 1)) (nsec st) l) (freeblock st) (usedblocks st) (freeinode st).
Proof.
  induction l as [|i l IH]; intros st H; cbn [foldl]; [by destruct st|].
  destruct (IH (wsect i zeroes st)) as [H1 H2]; [|split; [exact H1|exact H2]].
  intros a. unfold wsect. cbn [img]. rewrite rd8_wr_bytes by by apply (Forall_replicate is_u8 512 0).
  case_decide; [|done]. rewrite nth_lookup. destruct (zeroes !! Z.to_nat (a - blk i)) eqn:E; [|done].
  by apply lookup_replicate in E as [-> _].
Qed.

(** Bytes of the super block. *)
Definition super : list Z := xint 1024 ++ xint 995 ++ xint 200 ++ replicate 500 0.

Lemma super_u8 : Forall is_u8 super.
Proof.
  unfold super, xint. repeat (apply Forall_cons; split; [apply u8_range|]). by apply Forall_replicate.
Qed.

Lemma super_words d :
  load32 (wr_bytes d (blk 1) super) (blk 1) = 1024 /\ load32 (wr_bytes d (blk 1) super) (blk 1 + 4) = 995 /\
  load32 (wr_bytes d (blk 1) super) (blk 1 + 8) = 200.
Proof.
  unfold load32. rewrite !rd8_wr_bytes by apply super_u8.
  change (length super) with 512%nat. unfold blk, BSIZE. rewrite !decide_True by lia. done.
Qed.

Lemma body_empty d : (forall a, blk 29 <= a -> rd8 d a = 0) -> body d 29 [].
Proof. intros H. split; [done|done| |lia|lia]. intros a Ha. apply H. lia. Qed.

Lemma all_sectors : foldl (fun n i => Z.max n (i + 1)) 0 (seqZ 0 1024) = 1024.
Proof. vm_compute. reflexivity. Qed.

Lemma mkfs_spec : exists st, mkfs 995 200 1024 (Mk ∅ 0 0 0 1) = Ret st /\ holds st [].
Proof.
  unfold mkfs. change (200 / IPB + 3 + (1024 / (512 * 8) + 1)) with 29. change (995 + 29 =? 1024) with true.
  cbv iota. cbn [img nsec freeinode]. change (995 + 29) with 1024.
  destruct (zeroed (seqZ 0 1024) (Mk ∅ 0 29 29 1)) as [Hz E]; [done|]. cbn [nsec freeblock usedblocks freeinode] in E.
  rewrite all_sectors in E. rewrite E. eexists. split; [reflexivity|]. fold super. unfold wsect. cbn [img nsec freeblock usedblocks freeinode] in *.
  set (d := img _) in *. clearbody d. clear E.
  assert (Hd : forall a, ~ (512 <= a < 1024) -> rd8 (wr_bytes d (blk 1) super) a = 0).
  { intros a Ha. rewrite rd8_wr_bytes by apply super_u8. change (length super) with 512%nat.
    unfold blk, BSIZE. by rewrite decide_False by lia. }
  split; cbn [img nsec freeblock usedblocks freeinode]; try done.
  - apply super_words.
  - intros a Ha. apply Hd. rewrite dip_linear in Ha. lia.
  - apply body_empty. intros a Ha. apply Hd. unfold blk, BSIZE in Ha. lia.
Qed.

(** ** The bitmap *)

Lemma mark_bits n :
  (n <= 4096)%nat -> let buf := foldl mark (replicate 512 0) (seqZ 0 (Z.of_nat n)) in
  length buf = 512%nat /\ Forall is_u8 buf /\
  forall b, 0 <= b < 4096 -> Z.testbit (nth (Z.to_nat (b / 8)) buf 0) (b mod 8) = (b <? Z.of_nat n).
Proof.
  induction n as [|n IH]; intros Hn.
  { split; [done|]. split; [by apply (Forall_replicate is_u8 512 0)|]. intros b Hb.
    change (foldl mark _ _) with (replicate 512 0). rewrite (proj2 (Z.ltb_ge b _)) by lia.
    rewrite nth_lookup. destruct (replicate 512 0 !! _) eqn:E; [|apply Z.testbit_0_l].
    apply lookup_replicate in E as [-> _]. apply Z.testbit_0_l. }
  destruct IH as (Hl & Hu & Hb); [lia|]. rewrite seqZ_S, foldl_app, Nat2Z.inj_succ. cbn [foldl].
  set (buf := foldl mark _ _) in *. unfold mark. rewrite !Z.add_0_l. set (k := Z.to_nat (Z.of_nat n / 8)).
  assert (Hk : (k < 512)%nat) by (unfold k; dm). rewrite length_insert. split; [done|].
  assert (Hnth : is_u8 (nth k buf 0)) by (apply Forall_nth; [done|lia]). split.
  - apply Forall_insert; [done|]. apply is_u8_lor; [done|]. rewrite Z.shiftl_1_l. unfold is_u8. split; [apply Z.pow_nonneg; lia|].
    apply Z.pow_lt_mono_r; dm.
  - intros b Hbr. destruct (decide (b / 8 = Z.of_nat n / 8)) as [Eb|Eb].
    + rewrite Eb. fold k. rewrite nth_lookup, list_lookup_insert_eq by lia. cbn [default from_option id].
      rewrite Z.lor_spec, Z.shiftl_1_l, Z.pow2_bits_eqb by dm. specialize (Hb b Hbr). rewrite Eb in Hb. fold k in Hb.
      unfold id. rewrite Hb. destruct (Z.ltb_spec b (Z.of_nat n)), (Z.ltb_spec b (Z.succ (Z.of_nat n))), (Z.eqb_spec (Z.of_nat n mod 8) (b mod 8)); try done; dm.
    + rewrite nth_lookup, list_lookup_insert_ne, <- nth_lookup by (unfold k; dm). rewrite Hb by done.
      destruct (Z.ltb_spec b (Z.of_nat n)), (Z.ltb_spec b (Z.succ (Z.of_nat n))); try done; try lia.
      exfalso. apply Eb. f_equal. lia.
Qed.

(** [balloc] marks the blocks that were taken, and nothing else changes. *)
Lemma mkfs_balloc_spec st F :
  holds st F -> exists st', balloc 200 (usedblocks st) st = Ret st' /\ holds st' F /\
    forall b, 0 <= b < 4096 -> bit 200 (img st') b = (b <? freeblock st').
Proof.
  intros H. pose proof (b_free _ _ _ (h_body _ _ H)) as Hfb. unfold balloc. rewrite (h_used _ _ H).
  rewrite (proj2 (Z.ltb_lt (freeblock st) (512 * 8))) by lia. eexists. split; [reflexivity|].
  destruct (mark_bits (Z.to_nat (freeblock st)) ltac:(lia)) as (Hl & Hu & Hb). rewrite Z2Nat.id in Hl, Hu, Hb by lia.
  set (buf := foldl mark _ _) in *. clearbody buf. change (200 / IPB + 3) with 28. unfold wsect.
  assert (Hd : forall a, rd8 (wr_bytes (img st) (blk 28) buf) a =
    if decide (blk 28 <= a < blk 29) then nth (Z.to_nat (a - blk 28)) buf 0 else rd8 (img st) a).
  { intros a. rewrite rd8_wr_bytes, Hl by done.
    by replace (blk 28 + Z.of_nat 512) with (blk 29) by (unfold blk, BSIZE; lia). }
  assert (Hn : forall i, 0 < i < 200 -> node (wr_bytes (img st) (blk 28) buf) i = node (img st) i).
  { intros i Hi. apply node_ext. intros a Ha. rewrite Hd, decide_False; [done|]. rewrite dip_linear in Ha. unfold blk, BSIZE. lia. }
  split.
  - destruct H as [Hs Hus Hi Hm Hbl Hsb Hnode Hrest B]. split; cbn [img nsec freeblock usedblocks freeinode]; try done.
    + by rewrite Hs.
    + rewrite !(load32_ext (img st) (wr_bytes _ _ _)); [done|..]; intros a Ha; rewrite Hd, decide_False; try done; unfold blk, BSIZE in *; lia.
    + intros k ty data E. pose proof (lookup_lt_Some _ _ _ E). rewrite Hn by lia. by apply Hnode.
    + intros a Ha. rewrite Hd, decide_False by lia. by apply Hrest.
    + replace (views _ F) with (views (img st) F).
      * eapply body_low; [exact B|]. intros a Ha. rewrite Hd, decide_False by lia. done.
      * apply imap_ext. intros k f E. pose proof (lookup_lt_Some _ _ _ E). by rewrite Hn by lia.
  - intros b Hbr. cbn [img freeblock]. unfold bit. change (bmstart 200) with 28. rewrite Hd, decide_True by (unfold blk, BSIZE; dm).
    rewrite <- Hb by done. do 2 f_equal. dm.
Qed.

(** ** The image and the kernel *)

(** Blocks as the kernel sees them. *)
Lemma holds_wfi st F k ty data :
  holds st F -> (forall b, 0 <= b < 4096 -> bit 200 (img st) b = (b <? freeblock st)) -> F !! k = Some (ty, data) ->
  wfi 1024 200 (img st) (node (img st) (Z.of_nat k + 1)).
Proof.
  intros H Hb E. pose proof (h_body _ _ H) as B. pose proof (b_free _ _ _ B). pose proof (h_max _ _ H).
  pose proof (lookup_lt_Some _ _ _ E). destruct (h_node _ _ H _ _ _ E) as (_ & _ & Es & Hm).
  assert (Ev : views (img st) F !! k = Some (node (img st) (Z.of_nat k + 1), nblk (Z.of_nat (length data)), data))
    by (by rewrite lookup_views, E).
  pose proof (b_file _ _ _ B _ _ _ _ Ev) as Ff. split.
  - apply Ff.
  - intros s Hs Hn. destruct (slot_used _ _ _ _ _ s Ff Hs Hn) as [_ Hr]. rewrite Hb by lia.
    change (dstart 1024 200) with 29. rewrite (proj2 (Z.ltb_lt _ _)) by lia. split; [lia|done].
  - intros s t Hs Ht Hn Est. by eapply (b_inj _ _ _ B k _ _ _ s k _ _ _ t Ev Ev).
  - lia.
  - intros j Hj Hlt. rewrite Es in *. unfold dblk.
    assert (0 <= j < 140) as Hj' by (unfold MAXFILE, NDIRECT, NINDIRECT, BSIZE in *; lia).
    destruct (dslot_range j Hj') as [Hr _]. assert (dslot j < nblk (Z.of_nat (length data))) as Hu.
    { pose proof (nblk_next (j * 512) 1 ltac:(lia) ltac:(dm)) as En. rewrite Z.div_mul in En by lia.
      pose proof (nblk_mono (j * 512 + 1) (Z.of_nat (length data))). unfold BSIZE in *. lia. }
    pose proof (fa_used _ _ _ _ _ Ff _ Hr Hu). lia.
  - simpl. lia.
Qed.

Lemma holds_contents st F k ty data :
  holds st F -> F !! k = Some (ty, data) -> contents (img st) (node (img st) (Z.of_nat k + 1)) = data.
Proof.
  intros H E. destruct (h_node _ _ H _ _ _ E) as (_ & _ & Es & Hm). unfold contents. rewrite Es.
  assert (Ev : views (img st) F !! k = Some (node (img st) (Z.of_nat k + 1), nblk (Z.of_nat (length data)), data))
    by (by rewrite lookup_views, E).
  apply list_eq_same_length with (length data); [done|by rewrite length_fmap, length_seqZ, Nat2Z.id|].
  intros j x y Hj Hx Hy. rewrite list_lookup_fmap in Hx. apply fmap_Some in Hx as (z & Hz & ->).
  apply lookup_seqZ in Hz as [-> Hz]. rewrite (fa_byte _ _ _ _ _ (b_file _ _ _ (h_body _ _ H) _ _ _ _ Ev)) by lia.
  by rewrite Z.add_0_l, Nat2Z.id, nth_lookup, Hy.
Qed.

Lemma holds_meta st F :
  holds st F -> (forall b, 0 <= b < 4096 -> bit 200 (img st) b = (b <? freeblock st)) -> meta 1024 200 (img st).
Proof.
  intros H Hb. pose proof (b_free _ _ _ (h_body _ _ H)). destruct (h_super _ _ H) as (E1 & _ & E3). split; [done|done|..].
  - intros b Hr. change (dstart 1024 200) with 29 in Hr. rewrite Hb by lia. apply Z.ltb_lt. lia.
  - intros b o Hr Hf Ho. change (dstart 1024 200) with 29 in Hr. rewrite Hb in Hf by lia. apply Z.ltb_ge in Hf.
    apply (b_zero _ _ _ (h_body _ _ H)). unfold blk, BSIZE in *. lia.
Qed.

(** The kernel reads the whole file. *)
Lemma holds_readi st F k ty data :
  holds st F -> (forall b, 0 <= b < 4096 -> bit 200 (img st) b = (b <? freeblock st)) -> F !! k = Some (ty, data) ->
  let ip := node (img st) (Z.of_nat k + 1) in let n := Z.of_nat (length data) in
  readi_file 1024 0 n (ip, img st) = Ret (n, data, (ip, img st)).
Proof.
  intros H Hb E ip n. destruct (h_node _ _ H _ _ _ E) as (_ & _ & Es & Hm). fold ip n in Es, Hm.
  assert (n <= 71680) as Hn by (rewrite <- Es; exact Hm).
  rewrite (readi_file_spec 1024 1024 200 geo); [|by eapply holds_wfi|done|unfold is_u32; lia].
  rewrite decide_False by lia. rewrite Es, Z.sub_0_r, Z.min_id. cbv zeta. unfold ip.
  by rewrite (holds_contents st F k ty data H E), drop_0, take_ge by lia.
Qed.

Lemma free_node st F i : holds st F -> Z.of_nat (length F) < i < 200 -> type (node (img st) i) = 0.
Proof.
  intros H Hi. simpl. pose proof (h_inode _ _ H) as Hf.
  assert (E : forall a, dip i <= a < dip i + 2 -> rd8 (img st) a = 0).
  { intros a Ha. apply (h_rest _ _ H). rewrite !dip_linear in *. unfold blk, BSIZE. lia. }
  unfold load16. rewrite !E by lia. done.
Qed.

(** A block is taken when it belongs to a file, and to one file only. *)
Lemma holds_owner st F b :
  holds st F -> 29 <= b < freeblock st <-> exists k, (k < length F)%nat /\ owns (img st) (node (img st) (Z.of_nat k + 1)) b.
Proof.
  intros H. pose proof (h_body _ _ H) as B. split.
  - intros Hb. destruct (b_taken _ _ _ B b Hb) as (k & ip & u & data & s & E & Hs & Es).
    rewrite lookup_views in E. apply fmap_Some in E as (f & Ef & [= -> _ _]). exists k.
    split; [by eapply lookup_lt_Some|]. split; [lia|by exists s].
  - intros (k & Hk & Hn & s & Hs & <-). destruct (lookup_lt_is_Some_2 F k Hk) as [f Ef].
    eapply slot_used; [|done|done]. apply (b_file _ _ _ B k _ _ f.2). by rewrite lookup_views, Ef.
Qed.

Lemma owner_unique st F j k b :
  holds st F -> (j < length F)%nat -> (k < length F)%nat ->
  owns (img st) (node (img st) (Z.of_nat j + 1)) b -> owns (img st) (node (img st) (Z.of_nat k + 1)) b -> j = k.
Proof.
  intros H Hj Hk (Hn & s & Hs & Es) (_ & t & Ht & Et).
  destruct (lookup_lt_is_Some_2 F j Hj) as [f Ef]. destruct (lookup_lt_is_Some_2 F k Hk) as [g Eg].
  eapply (b_inj _ _ _ (h_body _ _ H) j _ _ _ s k _ _ _ t); [by rewrite lookup_views, Ef|by rewrite lookup_views, Eg|done|done|congruence..].
Qed.

(** The whole tool. *)
Lemma mkfs_main_holds root :
  let F := plan ROOTINO ROOTINO root in
  storable root -> is_dir root = true -> small F -> Z.of_nat (length F) <= 199 -> blocks F <= 995 ->
  exists st, mkfs_main 3 true root = Ret (0, st) /\ holds st F /\
    forall b, 0 <= b < 4096 -> bit 200 (img st) b = (b <? freeblock st).
Proof.
  intros F Hst Hdir Hsm Hl Hb. unfold mkfs_main. change ((3 <? 2) || negb true) with false. cbv iota. unfold make_image.
  destruct mkfs_spec as (st0 & -> & H0). cbn [mbind outcome_bind].
  destruct (ialloc_spec st0 [] T_DIR H0) as (st1 & E1 & H1); [done|done|].
  change (ialloc T_DIR st0 = Ret (1, st1)) in E1. rewrite E1. cbn [mbind outcome_bind]. change (negb (1 =? ROOTINO)) with false. cbv iota.
  destruct (add_dir_spec root st1 [] ROOTINO Hst Hdir H1 Hsm) as (st2 & E2 & H2); [done|change (29 + blocks F <= 1024); lia|].
  change (add_dir root 1 1 st1 = Ret (0, st2)) in E2. change (holds st2 F) in H2. rewrite E2.
  cbn [mbind outcome_bind]. change (negb (0 =? 0)) with false. cbv iota.
  destruct (mkfs_balloc_spec st2 F H2) as (st3 & -> & H3 & Hbit). cbn [mbind outcome_bind]. eauto.
Qed.

(** C2. The image that mkfs makes holds the tree that it was given: for every
    host directory that can be read and fits (at most 199 files and
    directories, 995 blocks, files of at most 140 blocks, no directory with a
    multiple of 32 entries) the tool exits with 0; the image has the 1024
    sectors, the super block and the bitmap that the kernel relies on; the
    [k]th file of the tree is inode [k + 1], with its type, one link, a block
    map that is well formed for the kernel, and the kernel's [readi] returns
    exactly its bytes, which for a directory are its entries with the inode
    numbers of its files; the other inodes are free; a block is marked exactly
    when it precedes the data blocks or belongs to a file; and no block
    belongs to two files. *)
Theorem mkfs_stores root :
  let F := plan ROOTINO ROOTINO root in
  storable root -> is_dir root = true -> small F -> Z.of_nat (length F) <= 199 -> blocks F <= 995 ->
  exists st, mkfs_main 3 true root = Ret (0, st) /\ nsec st = 1024 /\ meta 1024 200 (img st) /\
    (forall k ty data, F !! k = Some (ty, data) ->
       let ip := node (img st) (Z.of_nat k + 1) in let n := Z.of_nat (length data) in
       type ip = ty /\ nlink ip = 1 /\ wfi 1024 200 (img st) ip /\
       readi_file 1024 0 n (ip, img st) = Ret (n, data, (ip, img st))) /\
    (forall i, Z.of_nat (length F) < i < 200 -> type (node (img st) i) = 0) /\
    (forall b, 0 <= b < 1024 -> bit 200 (img st) b = true <->
       b < 29 \/ exists k, (k < length F)%nat /\ owns (img st) (node (img st) (Z.of_nat k + 1)) b) /\
    (forall j k b, (j < length F)%nat -> (k < length F)%nat ->
       owns (img st) (node (img st) (Z.of_nat j + 1)) b -> owns (img st) (node (img st) (Z.of_nat k + 1)) b -> j = k).
Proof.
  intros F Hst Hdir Hsm Hl Hb. destruct (mkfs_main_holds root Hst Hdir Hsm Hl Hb) as (st & E & H & Hbit). fold F in H.
  exists st. split; [done|]. split; [apply H|]. split; [by eapply holds_meta|].
  split; [intros k ty data Ek; destruct (h_node _ _ H _ _ _ Ek) as (Ht & Hn & _); split_and!; eauto using holds_wfi, holds_readi|].
  split; [intros i Hi; by eapply free_node|]. split; [|intros j k b; by apply owner_unique].
  intros b Hr. rewrite <- (holds_owner st F b H), Hbit, Z.ltb_lt by lia. pose proof (b_free _ _ _ (h_body _ _ H)). lia.
Qed.

(** ** Examples *)

(** A file of three bytes, and a directory with a file of 514 bytes. *)
Definition demo_tree : host :=
  Dir [([46], NoStream); ([97], RegFile [[104; 105; 10]]); ([100], Dir [([98], RegFile [replicate 512 7; [1; 2]])])].

Lemma demo_plan :
  (fun f => (f.1, length f.2)) <$> plan ROOTINO ROOTINO demo_tree = [(1, 512%nat); (2, 3%nat); (1, 512%nat); (2, 514%nat)] /\
  plan ROOTINO ROOTINO demo_tree !! 1%nat = Some (T_FILE, [104; 105; 10]).
Proof. split; vm_compute; reflexivity. Qed.

Lemma demo_storable : storable demo_tree.
Proof.
  assert (H : Forall is_u8 (replicate 512 7)) by (apply Forall_replicate; unfold is_u8; lia).
  assert (Hb : forall l, forallb (fun x => (0 <=? x) && (x <? 256)) l = true -> Forall is_u8 l).
  { intros l Hl. apply Forall_forall. intros x Hx%list_elem_of_In. rewrite forallb_forall in Hl.
    specialize (Hl x Hx). unfold is_u8. lia. }
  cbn [storable demo_tree]. split; [done|]. split; [done|]. split.
  { intros _. split; [by apply Hb|]. apply Forall_singleton. split; [done|by apply Hb]. }
  split; [|done]. intros _. split; [by apply Hb|]. split; [done|]. split; [|done].
  intros _. split; [by apply Hb|]. apply Forall_cons. split; [done|]. apply Forall_singleton. split; [done|by apply Hb].
Qed.

Lemma demo_fits :
  let F := plan ROOTINO ROOTINO demo_tree in small F /\ Z.of_nat (length F) <= 199 /\ blocks F <= 995.
Proof.
  split; [|split; by apply Z.leb_le; vm_compute]. destruct demo_plan as [Hp _]. apply Forall_forall. intros f Hf.
  assert ((f.1, length f.2) ∈ (fun f => (f.1, length f.2)) <$> plan ROOTINO ROOTINO demo_tree) as Hin
    by (apply list_elem_of_fmap; eauto).
  rewrite Hp in Hin. repeat (apply elem_of_cons in Hin as [[= _ ->]|Hin]; [done|]). by apply not_elem_of_nil in Hin.
Qed.

Lemma mkfs_stores_witness :
  exists st, mkfs_main 3 true demo_tree = Ret (0, st) /\
    readi_file 1024 0 3 (node (img st) 2, img st) = Ret (3, [104; 105; 10], (node (img st) 2, img st)).
Proof.
  destruct demo_fits as (H1 & H2 & H3).
  destruct (mkfs_stores demo_tree demo_storable eq_refl H1 H2 H3) as (st & Em & _ & _ & Hf & _).
  exists st. split; [exact Em|]. destruct demo_plan as [_ E]. destruct (Hf _ _ _ E) as (_ & _ & _ & Hr). exact Hr.
Defined.

(** The checker of Xfsck.v accepts the image of this tree on a disk of 40
    sectors. *)
Lemma image_accepted :
  exists st, make_image 35 8 40 demo_tree (Mk ∅ 0 0 0 1) = Ret (0, st) /\
    Xfsck.main 2 (Some (as_image st)) = Xfsck.Done 0.
Proof.
  destruct (ends_in_true (make_image 35 8 40 demo_tree (Mk ∅ 0 0 0 1)) (fun x => bool_decide (x.1 = 0) &&
    match Xfsck.main 2 (Some (as_image x.2)) with Xfsck.Done 0 => true | _ => false end)) as ([r st] & E & H).
  { vm_compute. reflexivity. }
  apply andb_prop in H as [Hr H]. apply bool_decide_eq_true_1 in Hr. cbn [fst snd] in *. subst r.
  exists st. split; [exact E|]. destruct (Xfsck.main 2 (Some (as_image st))) as [[]| |]; done.
Qed.
