(* ===== verification/Mp.v ===== *)
(** * Multiprocessor configuration (kernel/mp.c, kernel/mp.h)

    The BIOS leaves a floating pointer structure and a configuration table in
    memory; [mpinit] finds them, checks their sums, and walks the entries of
    the table to count the processors.  The memory is the byte memory of
    Memory.v.  What the BIOS leaves is an argument, and so is the value of the
    port that [mpinit] reads.

    The theorems: the search returns the first candidate of each region, in
    order; for a table made of entries of the known types the walk ends and
    yields exactly the processors, the boot processor and the I/O APIC of the
    table; an entry of an unknown type keeps the walk from ending. *)

From S2P Require Import Prelude Memory Fs.

Definition NCPU : Z := 8.
Definition MPBOOT : Z := 2.
Definition MPPROC : Z := 0.
Definition MPBUS : Z := 1.
Definition MPIOAPIC : Z := 2.
Definition MPIOINTR : Z := 3.
Definition MPLINTR : Z := 4.

(** The sizes of [struct mp], [struct mpconf], [struct mpproc] and
    [struct mpioapic]. *)
Definition MP_SIZE : Z := 16.
Definition MPCONF_SIZE : Z := 44.
Definition MPPROC_SIZE : Z := 20.
Definition MPIOAPIC_SIZE : Z := 8.

(** The globals of mp.c, [lapic], the [id] fields of [cpus], and what was
    written to ports. *)
Record mpst := MpState {
  bcpu : Z; ismp : Z; ncpu : Z; ioapicid : Z; lapic : Z; ids : list Z; ports : list (Z * Z)
}.

Definition mp_boot : mpst := MpState 0 0 0 0 0 (replicate (Z.to_nat NCPU) 0) [].

(** [sum(addr, len)] *)
Definition sum (m : memory) (addr len : Z) : Z := u8 (foldl Z.add 0 (bytes_at m addr len)).

(** [memcmp(p, lit, 4) == 0] *)
Definition signed (m : memory) (p : Z) (lit : list Z) : bool := bool_decide (bytes_at m p 4 = lit).

Definition mp_sig : list Z := [95; 77; 80; 95].
Definition conf_sig : list Z := [80; 67; 77; 80].

Definition is_mp (m : memory) (p : Z) : bool := signed m p mp_sig && (sum m p MP_SIZE =? 0).

Fixpoint mpsearch_loop (fuel : nat) (m : memory) (p e : Z) : outcome Z :=
  if p <? e then
    match fuel with
    | O => Undef "loop bound"
    | S fuel => if is_mp m p then Ret p else mpsearch_loop fuel m (p + MP_SIZE) e
    end
  else Ret 0.

(** [mpsearch1(addr, len)]; a round for every 16 bytes. *)
Definition mpsearch1 (m : memory) (addr len : Z) : outcome Z :=
  mpsearch_loop (Z.to_nat (len / MP_SIZE) + 1) m addr (addr + len).

(** [mpsearch()]: the extended BIOS data area or the end of base memory, and
    then the ROM. *)
Definition mpsearch (m : memory) : outcome Z :=
  let bda := 0x400 in
  let p := Z.shiftl (Z.lor (Z.shiftl (rd8 m (bda + 0x0F)) 8) (rd8 m (bda + 0x0E))) 4 in
  mp ← (if negb (p =? 0) then mpsearch1 m p 1024
        else mpsearch1 m (Z.lor (Z.shiftl (rd8 m (bda + 0x14)) 8) (rd8 m (bda + 0x13)) * 1024 - 1024) 1024);
  if negb (mp =? 0) then Ret mp else mpsearch1 m 0xF0000 0x10000.

Definition mp_physaddr (m : memory) (mp : Z) : Z := load32 m (mp + 4).
Definition mp_imcrp (m : memory) (mp : Z) : Z := rd8 m (mp + 12).
Definition conf_length (m : memory) (conf : Z) : Z := load16 m (conf + 4).
Definition conf_version (m : memory) (conf : Z) : Z := rd8 m (conf + 6).
Definition conf_lapicaddr (m : memory) (conf : Z) : Z := load32 m (conf + 36).

(** [mpconfig(&mp)]: the table and the pointer structure. *)
Definition mpconfig (m : memory) : outcome (option (Z * Z)) :=
  mp ← mpsearch m;
  if (mp =? 0) || (mp_physaddr m mp =? 0) then Ret None
  else
    let conf := mp_physaddr m mp in
    if negb (signed m conf conf_sig) then Ret None
    else if negb (conf_version m conf =? 1) && negb (conf_version m conf =? 4) then Ret None
    else if negb (sum m conf (conf_length m conf) =? 0) then Ret None
    else Ret (Some (conf, mp)).

(** [case MPPROC] *)
Definition mpproc (m : memory) (p : Z) (st : mpst) : outcome mpst :=
  let ok := if ncpu st =? rd8 m (p + 1) then ismp st else 0 in
  let boot := if Z.land (rd8 m (p + 3)) MPBOOT =? 0 then bcpu st else ncpu st in
  l ← aset (ids st) (ncpu st) (ncpu st);
  Ret (MpState boot ok (ncpu st + 1) (ioapicid st) (lapic st) l (ports st)).

Definition set_ioapicid v st := MpState (bcpu st) (ismp st) (ncpu st) v (lapic st) (ids st) (ports st).
Definition set_ismp v st := MpState (bcpu st) v (ncpu st) (ioapicid st) (lapic st) (ids st) (ports st).

(** The loop over the entries.  The case of an unknown type does not move [p]. *)
Fixpoint mpinit_loop (fuel : nat) (m : memory) (p e : Z) (st : mpst) : outcome mpst :=
  if p <? e then
    match fuel with
    | O => Undef "loop bound"
    | S fuel =>
      let t := rd8 m p in
      if t =? MPPROC then st ← mpproc m p st; mpinit_loop fuel m (u32 (p + MPPROC_SIZE)) e st
      else if t =? MPIOAPIC then mpinit_loop fuel m (u32 (p + MPIOAPIC_SIZE)) e (set_ioapicid (rd8 m (p + 1)) st)
      else if (t =? MPBUS) || (t =? MPIOINTR) || (t =? MPLINTR) then mpinit_loop fuel m (u32 (p + 8)) e st
      else mpinit_loop fuel m p e (set_ismp 0 st)
    end
  else Ret st.

(** [mpinit()]; [in23] is the value of port 0x23.  An entry has at least eight
    bytes, which bounds the rounds. *)
Definition mpinit (m : memory) (in23 : Z) (st : mpst) : outcome mpst :=
  let st := MpState 0 (ismp st) (ncpu st) (ioapicid st) (lapic st) (ids st) (ports st) in
  c ← mpconfig m;
  match c with
  | None => Ret st
  | Some (conf, mp) =>
    let st := MpState (bcpu st) 1 (ncpu st) (ioapicid st) (conf_lapicaddr m conf) (ids st) (ports st) in
    st ← mpinit_loop (Z.to_nat (conf_length m conf / 8) + 1) m (u32 (conf + MPCONF_SIZE)) (u32 (conf + conf_length m conf)) st;
    if ismp st =? 0 then Ret (MpState (bcpu st) 0 1 0 0 (ids st) (ports st))
    else if negb (mp_imcrp m mp =? 0) then
      Ret (MpState (bcpu st) (ismp st) (ncpu st) (ioapicid st) (lapic st) (ids st)
             (ports st ++ [(0x22, 0x70); (0x23, Z.lor in23 1)]))
    else Ret st
  end.

Definition mpbcpu (st : mpst) : Z := bcpu st.

(** ** The search *)

Lemma mpsearch_loop_spec m e fuel : forall p,
  e - p <= MP_SIZE * Z.of_nat fuel ->
  exists r, mpsearch_loop fuel m p e = Ret r /\
    ((exists i, 0 <= i /\ r = p + MP_SIZE * i /\ r < e /\ is_mp m r = true /\
        forall j, 0 <= j < i -> is_mp m (p + MP_SIZE * j) = false) \/
     r = 0 /\ forall j, 0 <= j -> p + MP_SIZE * j < e -> is_mp m (p + MP_SIZE * j) = false).
Proof.
  unfold MP_SIZE. induction fuel as [|fuel IH]; intros p Hf; cbn [mpsearch_loop]; destruct (Z.ltb_spec p e) as [Hp|Hp]; [lia|..].
  1, 3: exists 0; split; [done|]; right; split; [done|]; intros; lia.
  destruct (is_mp m p) eqn:E.
  - exists p. split; [done|]. left. exists 0. split_and!; try lia; done.
  - destruct (IH (p + 16) ltac:(lia)) as (r & Er & H). exists r. split; [done|].
    assert (Hs : forall j, 0 < j -> p + 16 * j = p + 16 + 16 * (j - 1)) by (intros; lia).
    destruct H as [(i & Hi & Hr & Hlt & Hm & Hn)|[-> Hn]].
    + left. exists (i + 1). split_and!; [lia|lia|done|done|]. intros j Hj.
      destruct (decide (j = 0)) as [->|]; [by rewrite Z.mul_0_r, Z.add_0_r|]. rewrite Hs by lia. apply Hn. lia.
    + right. split; [done|]. intros j Hj Hlt.
      destruct (decide (j = 0)) as [->|]; [by rewrite Z.mul_0_r, Z.add_0_r|]. rewrite Hs by lia. apply Hn; lia.
Qed.

(** The first candidate of a region, or none. *)
Definition first_mp (m : memory) (addr len r : Z) : Prop :=
  (exists i, 0 <= i /\ r = addr + MP_SIZE * i /\ r < addr + len /\ is_mp m r = true /\
     forall j, 0 <= j < i -> is_mp m (addr + MP_SIZE * j) = false) \/
  r = 0 /\ forall j, 0 <= j -> addr + MP_SIZE * j < addr + len -> is_mp m (addr + MP_SIZE * j) = false.

Lemma mpsearch1_spec m addr len : 0 <= len -> exists r, mpsearch1 m addr len = Ret r /\ first_mp m addr len r.
Proof.
  intros H. unfold mpsearch1, first_mp. apply mpsearch_loop_spec. unfold MP_SIZE. dm.
Qed.

(** ** The walk *)

(** An entry of a known type: its bytes. *)
Definition entry_ok (l : list Z) : Prop :=
  match l with
  | [] => False
  | t :: _ => t = MPPROC /\ length l = 20%nat \/ t ∈ [MPIOAPIC; MPBUS; MPIOINTR; MPLINTR] /\ length l = 8%nat
  end.

Definition etype (l : list Z) : Z := nth 0 l 0.
Definition eid (l : list Z) : Z := nth 1 l 0.
Definition eflags (l : list Z) : Z := nth 3 l 0.

(** What the table says: the processors in order, the last one marked as the
    boot processor, and the last I/O APIC. *)
Definition procs (T : list (list Z)) : list (list Z) := filter (fun l => etype l = MPPROC) T.
Definition boot_from (n b : Z) (P : list (list Z)) : Z :=
  foldl (fun b '(i, l) => if Z.land (eflags l) MPBOOT =? 0 then b else i) b (zip (seqZ n (Z.of_nat (length P))) P).
Definition order_from (n : Z) (P : list (list Z)) : bool :=
  forallb (fun '(i, l) => i =? eid l) (zip (seqZ n (Z.of_nat (length P))) P).
Definition boot_index (T : list (list Z)) : Z := boot_from 0 0 (procs T).
Definition in_order (T : list (list Z)) : bool := order_from 0 (procs T).
Definition last_ioapic (T : list (list Z)) (d : Z) : Z :=
  foldl (fun d l => if etype l =? MPIOAPIC then eid l else d) d T.

(** One entry, as the walk takes it. *)
Definition take_entry (st : mpst) (l : list Z) : mpst :=
  if etype l =? MPPROC then
    MpState (if Z.land (eflags l) MPBOOT =? 0 then bcpu st else ncpu st) (if ncpu st =? eid l then ismp st else 0)
      (ncpu st + 1) (ioapicid st) (lapic st) (<[Z.to_nat (ncpu st) := ncpu st]> (ids st)) (ports st)
  else if etype l =? MPIOAPIC then set_ioapicid (eid l) st else st.

(** Memory that holds the bytes [l] at [p]. *)
Definition at_bytes (m : memory) (p : Z) (l : list Z) : Prop := bytes_at m p (Z.of_nat (length l)) = l.

Lemma at_bytes_nth m p l k : at_bytes m p l -> (k < length l)%nat -> rd8 m (p + Z.of_nat k) = nth k l 0.
Proof.
  intros H Hk. unfold at_bytes, bytes_at in H. rewrite <- H at 1. rewrite nth_lookup, list_lookup_fmap.
  by rewrite lookup_seqZ_lt by lia.
Qed.

Lemma at_bytes_app m p l1 l2 :
  at_bytes m p (l1 ++ l2) <-> at_bytes m p l1 /\ at_bytes m (p + Z.of_nat (length l1)) l2.
Proof.
  unfold at_bytes, bytes_at. rewrite length_app, Nat2Z.inj_add, seqZ_app, fmap_app by lia.
  assert (E : (fun i => rd8 m (p + i)) <$> seqZ (0 + Z.of_nat (length l1)) (Z.of_nat (length l2)) =
    (fun i => rd8 m (p + Z.of_nat (length l1) + i)) <$> seqZ 0 (Z.of_nat (length l2))).
  { apply list_eq. intros i. rewrite !list_lookup_fmap. destruct (decide (Z.of_nat i < Z.of_nat (length l2))).
    - rewrite !lookup_seqZ_lt by lia. simpl. do 2 f_equal. lia.
    - by rewrite !lookup_seqZ_ge by lia. }
  rewrite E. split; [|intros [-> ->]; done]. intros H. apply app_inj_1 in H; [done|].
  by rewrite length_fmap, length_seqZ, Nat2Z.id.
Qed.

Lemma entry_length l : entry_ok l -> 8 <= Z.of_nat (length l).
Proof. destruct l; [done|]. intros [[_ ->]|[_ ->]]; lia. Qed.

(** One round of the walk over an entry of a known type. *)
Lemma mpinit_round m l p e st fuel :
  entry_ok l -> at_bytes m p l -> 0 <= p < e -> p + Z.of_nat (length l) < 2 ^ 32 ->
  (etype l = MPPROC -> 0 <= ncpu st < Z.of_nat (length (ids st))) ->
  mpinit_loop (S fuel) m p e st = mpinit_loop fuel m (p + Z.of_nat (length l)) e (take_entry st l).
Proof.
  intros Hok Hl Hp Hw Hn. destruct l as [|t l]; [done|].
  assert (H : forall k, (k < length (t :: l))%nat -> rd8 m (p + Z.of_nat k) = nth k (t :: l) 0)
    by (intros; by apply at_bytes_nth).
  pose proof (entry_length _ Hok) as Hlen0. cbn [mpinit_loop]. rewrite (proj2 (Z.ltb_lt _ _)) by lia.
  pose proof (H 0%nat ltac:(lia)) as H0. pose proof (H 1%nat ltac:(lia)) as H1. pose proof (H 3%nat ltac:(lia)) as H3.
  rewrite Z.add_0_r in H0. cbn [nth] in H0. change (Z.of_nat 1) with 1 in H1. change (Z.of_nat 3) with 3 in H3.
  unfold take_entry. change (etype (t :: l)) with t in *. rewrite H0.
  destruct Hok as [[-> Hlen]|[Ht Hlen]].
  - rewrite Z.eqb_refl. unfold mpproc. rewrite H1, H3, aset_Ret by auto. cbn [mbind outcome_bind].
    rewrite Hlen in *. by rewrite u32_small by (unfold is_u32, MPPROC_SIZE; lia).
  - rewrite H1, Hlen in *. unfold MPIOAPIC_SIZE. rewrite (u32_small (p + 8)) by (unfold is_u32; lia).
    set_unfold in Ht. destruct Ht as [->|[->|[->|[->|[]]]]]; done.
Qed.

Lemma procs_cons l T : procs (l :: T) = if etype l =? MPPROC then l :: procs T else procs T.
Proof. unfold procs. rewrite filter_cons. destruct (Z.eqb_spec (etype l) MPPROC); by case_decide. Qed.

Lemma mpinit_loop_spec m T : forall p st fuel,
  Forall entry_ok T -> at_bytes m p (concat T) -> 0 <= p -> p + Z.of_nat (length (concat T)) < 2 ^ 32 ->
  0 <= ncpu st -> ncpu st + Z.of_nat (length (procs T)) <= Z.of_nat (length (ids st)) -> (length T <= fuel)%nat ->
  mpinit_loop fuel m p (p + Z.of_nat (length (concat T))) st = Ret (foldl take_entry st T).
Proof.
  induction T as [|l T IH]; intros p st fuel Hok Hm Hp Hw Hn Hc Hf; cbn [concat foldl] in *.
  { rewrite Z.add_0_r. by destruct fuel; cbn [mpinit_loop]; rewrite Z.ltb_irrefl. }
  apply Forall_cons in Hok as [Hl Hok]. apply at_bytes_app in Hm as [Hm1 Hm2]. pose proof (entry_length l Hl).
  rewrite length_app, Nat2Z.inj_add in *. destruct fuel as [|fuel]; [simpl in Hf; lia|]. rewrite procs_cons in Hc.
  rewrite (mpinit_round m l); [|done|done|lia|lia|].
  - rewrite Z.add_assoc. apply IH; try done; try lia.
    + unfold take_entry. repeat case_match; simpl; lia.
    + unfold take_entry. destruct (etype l =? MPPROC); [simpl in *; rewrite length_insert; lia|].
      case_match; simpl; lia.
    + simpl in Hf. lia.
  - intros E%Z.eqb_eq. rewrite E in Hc. simpl in Hc. lia.
Qed.

(** ** What the walk yields *)

Lemma seqZ_S_cons n k : seqZ n (Z.of_nat (S k)) = n :: seqZ (n + 1) (Z.of_nat k).
Proof. rewrite seqZ_cons by lia. f_equal. f_equal; lia. Qed.

Lemma walk_result T : forall st,
  let st' := foldl take_entry st T in
  ncpu st' = ncpu st + Z.of_nat (length (procs T)) /\ bcpu st' = boot_from (ncpu st) (bcpu st) (procs T) /\
  ismp st' = (if order_from (ncpu st) (procs T) then ismp st else 0) /\
  ioapicid st' = last_ioapic T (ioapicid st) /\ lapic st' = lapic st /\ ports st' = ports st /\
  length (ids st') = length (ids st) /\
  (0 <= ncpu st -> ncpu st + Z.of_nat (length (procs T)) <= Z.of_nat (length (ids st)) -> forall i,
    ids st' !! i = if decide (ncpu st <= Z.of_nat i < ncpu st + Z.of_nat (length (procs T))) then Some (Z.of_nat i) else ids st !! i).
Proof.
  induction T as [|l T IH]; intros st; cbn [foldl].
  { split_and!; try done; [simpl; lia|]. intros Hn Hc i. rewrite decide_False by (simpl; lia). done. }
  destruct (IH (take_entry st l)) as (H1 & H2 & H3 & H4 & H5 & H6 & H7 & H8). rewrite procs_cons.
  unfold take_entry in *. destruct (Z.eqb_spec (etype l) MPPROC) as [Ht|Ht].
  - cbn [ncpu bcpu ismp ioapicid lapic ports ids] in *. cbn [length]. rewrite length_insert in *.
    split_and!; try done; try lia.
    + rewrite H2. unfold boot_from. cbn [length]. rewrite seqZ_S_cons. done.
    + rewrite H3. unfold order_from. cbn [length]. rewrite seqZ_S_cons. cbn [zip zip_with forallb].
      destruct (ncpu st =? eid l); [done|]. by destruct (forallb _ _).
    + rewrite H4. unfold last_ioapic. cbn [foldl]. by rewrite Ht.
    + intros Hn Hc i. rewrite H8 by lia. case_decide; [by rewrite decide_True by lia|].
      destruct (decide (Z.of_nat i = ncpu st)) as [Ei|Ei].
      * rewrite decide_True by lia. rewrite <- Ei, Nat2Z.id. apply list_lookup_insert_eq. lia.
      * rewrite decide_False by lia. apply list_lookup_insert_ne. lia.
  - destruct (Z.eqb_spec (etype l) MPIOAPIC) as [Ha|Ha]; cbn [ncpu bcpu ismp ioapicid lapic ports ids set_ioapicid] in *.
    + split_and!; try done. rewrite H4. unfold last_ioapic. cbn [foldl]. by rewrite (proj2 (Z.eqb_eq _ _) Ha).
    + split_and!; try done. rewrite H4. unfold last_ioapic. cbn [foldl]. by rewrite (proj2 (Z.eqb_neq _ _) Ha).
Qed.

(** A table whose entries have known types: [mpconfig] accepts it, and its
    entries follow its header. *)
Record table (m : memory) (conf mp : Z) (T : list (list Z)) : Prop := {
  t_found : mpconfig m = Ret (Some (conf, mp));
  t_known : Forall entry_ok T;
  t_bytes : at_bytes m (conf + MPCONF_SIZE) (concat T);
  t_length : conf_length m conf = MPCONF_SIZE + Z.of_nat (length (concat T));
  t_range : 0 <= conf /\ conf + conf_length m conf < 2 ^ 32;
  t_cpus : Z.of_nat (length (procs T)) <= NCPU
}.

Lemma table_rounds T : Forall entry_ok T -> 8 * Z.of_nat (length T) <= Z.of_nat (length (concat T)).
Proof.
  induction 1 as [|l T Hl _ IH]; [done|]. pose proof (entry_length l Hl). cbn [concat length]. rewrite length_app. lia.
Qed.

Lemma unknown_loops m p e fuel : forall st,
  p < e -> rd8 m p ∉ [MPPROC; MPIOAPIC; MPBUS; MPIOINTR; MPLINTR] ->
  mpinit_loop fuel m p e st = Undef "loop bound".
Proof.
  induction fuel as [|fuel IH]; intros st Hp Ht; cbn [mpinit_loop]; rewrite (proj2 (Z.ltb_lt _ _) Hp); [done|].
  set_unfold in Ht. rewrite !(proj2 (Z.eqb_neq (rd8 m p) _)) by tauto. simpl. apply IH; [done|]. set_solver.
Qed.

(** [mpinit] on such a table, with the walk replaced by its meaning. *)
Lemma mpinit_table m in23 conf mp T :
  table m conf mp T ->
  let st := foldl take_entry (MpState 0 1 0 0 (conf_lapicaddr m conf) (replicate 8 0) []) T in
  mpinit m in23 mp_boot =
  if ismp st =? 0 then Ret (MpState (bcpu st) 0 1 0 0 (ids st) (ports st))
  else if negb (mp_imcrp m mp =? 0) then
    Ret (MpState (bcpu st) (ismp st) (ncpu st) (ioapicid st) (lapic st) (ids st)
           (ports st ++ [(0x22, 0x70); (0x23, Z.lor in23 1)]))
  else Ret st.
Proof.
  intros [Hf Hk Hb Hl Hr Hc]. unfold mpinit. rewrite Hf. cbn [mbind outcome_bind bcpu ismp ncpu ioapicid lapic ids ports mp_boot].
  pose proof (table_rounds T Hk). unfold MPCONF_SIZE, NCPU in *.
  rewrite !u32_small by (unfold is_u32; lia). rewrite Hl, Z.add_assoc.
  rewrite mpinit_loop_spec; [done|done|done|lia|lia|done|simpl; lia|]. dm.
Qed.


(** ** Example: two processors, a bus and an I/O APIC *)

Definition demo_entries : list (list Z) :=
  [[0; 0; 17; 3] ++ replicate 16 0; [0; 1; 17; 1] ++ replicate 16 0;
   [1; 0; 73; 83; 65; 32; 32; 32]; [2; 2; 17; 1; 0; 0; 192; 254]].

Definition demo_conf : list Z :=
  conf_sig ++ [100; 0; 4; 77] ++ replicate 26 0 ++ [4; 0; 0; 0; 0xE0; 0xFE; 0; 0; 0; 0] ++ concat demo_entries.

(** The end of base memory is at 640K; the structure is in its last kilobyte. *)
Definition demo_bios : memory :=
  wr_bytes (wr_bytes (wr_bytes ∅ 0x413 [0x80; 2])
    0x9FC00 (mp_sig ++ [0; 0xFD; 9; 0; 1; 4; 154; 0; 0; 0; 0; 0])) 0x9FD00 demo_conf.

Lemma demo_table : table demo_bios 0x9FD00 0x9FC00 demo_entries.
Proof.
  split; [vm_compute; reflexivity| |vm_compute; reflexivity..|vm_compute; split; congruence|vm_compute; congruence].
  repeat constructor; simpl; auto; right; (split; [set_solver|done]).
Qed.

