(* ===== verification/Icache.v ===== *)
(** * The inode cache (kernel/fs.c: iget, idup, iput)

    Every reference to an in-memory inode is counted: in every run of clients
    that take references with [iget] and [idup] and drop the ones they hold
    with [iput], [ref] is the number of references held, and two slots in use
    never hold the same inode. *)

From S2P Require Import Prelude Memory Fs.

Section Icache.
Context {D : Type} (nsect : Z).

(** The identity of the inode a slot holds, and its count. *)
Definition key (ip : inode) : Z * Z * Z := (idev ip, inum ip, ref ip).
Definition keys (s : fs D) : list (Z * Z * Z) := key <$> icache s.

(** Runs: [held] are the references that clients hold, fewer than an [int]
    can count. *)
Definition maxrefs : Z := 2 ^ 31 - 1.
Inductive creach : fs D -> list nat -> Prop :=
| creach_boot d v : creach (FS d (replicate NINODE inode_zero) v) []
| creach_iget s held num i s' :
    creach s held -> Z.of_nat (length held) < maxrefs -> iget num s = Ret (i, s') -> creach s' (i :: held)
| creach_idup s held i s' :
    creach s held -> Z.of_nat (length held) < maxrefs -> i ∈ held -> idup i s = Ret s' -> creach s' (i :: held)
| creach_iput s held i held' s' :
    creach s held -> held ≡ₚ i :: held' -> iput nsect i s = Ret s' -> creach s' held'
(** locking, reading and writing inodes *)
| creach_use s held s' : creach s held -> keys s' = keys s -> creach s' held.

Definition count (held : list nat) (i : nat) : Z := Z.of_nat (length (filter (fun j => j = i) held)).

Record cinv (s : fs D) (held : list nat) : Prop := {
  ci_len : length (icache s) = NINODE;
  ci_ref : forall i ip, icache s !! i = Some ip -> ref ip = count held i;
  ci_dev : forall i ip, icache s !! i = Some ip -> 0 < ref ip -> idev ip = ROOTDEV;
  ci_uniq : forall i j ip jp, icache s !! i = Some ip -> icache s !! j = Some jp ->
    0 < ref ip -> 0 < ref jp -> inum ip = inum jp -> i = j
}.

Lemma count_cons held i j : count (i :: held) j = if decide (i = j) then count held j + 1 else count held j.
Proof. unfold count. rewrite filter_cons. case_decide; simpl; lia. Qed.

Lemma count_nonneg held i : 0 <= count held i <= Z.of_nat (length held).
Proof. unfold count. pose proof (length_filter (fun j => j = i) held). lia. Qed.

Lemma count_perm held held' i : held ≡ₚ held' -> count held i = count held' i.
Proof. intros H. unfold count. by rewrite H. Qed.

Lemma lookup_keys (s : fs D) i k : keys s !! i = Some k <-> exists ip, icache s !! i = Some ip /\ key ip = k.
Proof.
  unfold keys. rewrite list_lookup_fmap, fmap_Some. split; intros (ip & H1 & H2); eauto.
Qed.

(** The invariant speaks of keys only. *)
Lemma cinv_keys s s' held : keys s' = keys s -> cinv s held -> cinv s' held.
Proof.
  intros E [H1 H2 H3 H4].
  assert (Hk : forall i ip', icache s' !! i = Some ip' -> exists ip, icache s !! i = Some ip /\ key ip = key ip').
  { intros i ip' Hi. apply lookup_keys. rewrite <- E. apply lookup_keys. eauto. }
  split.
  - apply (f_equal length) in E. unfold keys in E. rewrite !length_fmap in E. congruence.
  - intros i ip' Hi. destruct (Hk i ip' Hi) as (ip & Hip & [= Ed En Er]). rewrite <- Er. eauto.
  - intros i ip' Hi. destruct (Hk i ip' Hi) as (ip & Hip & [= Ed En Er]). rewrite <- Ed, <- Er. eauto.
  - intros i j ip' jp' Hi Hj. destruct (Hk i ip' Hi) as (ip & Hip & [= _ En Er]).
    destruct (Hk j jp' Hj) as (jp & Hjp & [= _ Fn Fr]). rewrite <- Er, <- Fr, <- En, <- Fn. eauto.
Qed.

(** Replacing one slot. *)
Lemma lookup_seti (s : fs D) i ip j :
  icache (seti i ip s) !! j = if decide (i = j /\ (i < length (icache s))%nat) then Some ip else icache s !! j.
Proof.
  simpl. destruct (decide (i = j /\ _)) as [[-> Hl]|Hn]; [by apply list_lookup_insert_eq|].
  destruct (decide (i = j)) as [->|]; [|by apply list_lookup_insert_ne].
  rewrite list_insert_ge by lia. done.
Qed.

Lemma cinv_seti s held i ip ip' held' :
  cinv s held -> icache s !! i = Some ip ->
  (forall j, j <> i -> count held' j = count held j) -> ref ip' = count held' i ->
  (0 < ref ip' -> idev ip' = ROOTDEV) ->
  (0 < ref ip' -> forall j jp, j <> i -> icache s !! j = Some jp -> 0 < ref jp -> inum jp <> inum ip') ->
  cinv (seti i ip' s) held'.
Proof.
  intros [H1 H2 H3 H4] Hi Hc Hr Hd Hu. pose proof (lookup_lt_Some _ _ _ Hi) as Hl.
  split.
  - simpl. by rewrite length_insert.
  - intros j jp. rewrite lookup_seti. destruct (decide (i = j /\ _)) as [[<- _]|Hn]; [by intros [= <-]|].
    intros Hj. rewrite Hc by (intros ->; tauto). eauto.
  - intros j jp. rewrite lookup_seti. destruct (decide (i = j /\ _)) as [[<- _]|Hn]; [by intros [= <-]|]. eauto.
  - intros j k jp kp. rewrite !lookup_seti.
    destruct (decide (i = j /\ _)) as [[<- _]|Hn], (decide (i = k /\ _)) as [[<- _]|Hm]; auto.
    + intros [= <-] Hk Hp Hkp E. exfalso. apply (Hu Hp k kp); auto.
    + intros Hj [= <-] Hjp Hp E. exfalso. apply (Hu Hp j jp); auto.
    + eauto.
Qed.

Lemma cinv_ref s held i ip r held' :
  cinv s held -> icache s !! i = Some ip -> 0 < ref ip ->
  (forall j, j <> i -> count held' j = count held j) -> r = count held' i ->
  cinv (seti i (i_ref r ip) s) held'.
Proof.
  intros I Hi Hp Hc Hr. pose proof I as [H1 H2 H3 H4].
  apply (cinv_seti s held i ip); auto; simpl.
  - intros _. by eapply H3.
  - intros _ j jp Hj Hjp Hpos En. apply Hj. by eapply (H4 j i).
Qed.

Lemma geti_Some (s : fs D) i ip : geti i s = Ret ip <-> icache s !! i = Some ip.
Proof. unfold geti. rewrite aget_Ret, Nat2Z.id. split; [tauto|]. split; [lia|done]. Qed.

Lemma iget_inv s held num i s' :
  cinv s held -> Z.of_nat (length held) < maxrefs -> iget num s = Ret (i, s') -> cinv s' (i :: held).
Proof.
  intros I Hb E. pose proof I as [H1 H2 H3 H4]. unfold iget in E.
  assert (Hcnt : forall j, j <> i -> count (i :: held) j = count held j)
    by (intros j Hj; rewrite count_cons; by rewrite decide_False).
  destruct (list_find (fun ip => iget_hit num ip = true) (icache s)) as [[k ip]|] eqn:F.
  - injection E as -> <-. apply list_find_Some in F as (Hi & Hh & _).
    unfold iget_hit in Hh. rewrite !andb_true_iff, Z.ltb_lt, !Z.eqb_eq in Hh. destruct Hh as [[Hp Hd] Hn].
    pose proof (count_nonneg held i). pose proof (H2 i ip Hi) as Hr. unfold maxrefs in *.
    rewrite i32_small by (unfold is_i32; lia).
    apply (cinv_ref s held); auto. rewrite count_cons, decide_True by done. lia.
  - apply list_find_None in F. rewrite Forall_lookup in F.
    destruct (list_find (fun ip => ref ip = 0) (icache s)) as [[k ip]|] eqn:F2; [|discriminate].
    injection E as -> <-. apply list_find_Some in F2 as (Hi & Hz & _). simpl in Hz.
    eapply cinv_seti; eauto; simpl.
    + rewrite count_cons, decide_True by done. rewrite <- (H2 i ip Hi), Hz. done.
    + intros _ j jp Hj Hjp Hpos En. apply (F j jp Hjp). unfold iget_hit.
      rewrite !andb_true_iff, Z.ltb_lt, !Z.eqb_eq. split_and!; auto. by eapply H3.
Qed.

Lemma idup_inv s held i s' :
  cinv s held -> Z.of_nat (length held) < maxrefs -> i ∈ held -> idup i s = Ret s' -> cinv s' (i :: held).
Proof.
  intros I Hb Hin E. pose proof I as [H1 H2 H3 H4]. unfold idup in E.
  apply bind_Ret_inv in E as (ip & Ei & E). injection E as <-. apply geti_Some in Ei.
  pose proof (count_nonneg held i). pose proof (H2 i ip Ei) as Hr. unfold maxrefs in *.
  rewrite i32_small by (unfold is_i32; lia).
  assert (0 < ref ip) as Hp.
  { rewrite (H2 i ip Ei). unfold count. apply list_elem_of_split in Hin as (l1 & l2 & ->).
    rewrite filter_app, length_app, filter_cons, decide_True by done. simpl. lia. }
  apply (cinv_ref s held); auto.
  - intros j Hj. rewrite count_cons. by rewrite decide_False.
  - rewrite count_cons, decide_True by done. lia.
Qed.

(** [itrunc] keeps the identity of the inode. *)
Lemma itrunc_key ip d ip' d' : itrunc nsect (ip, d) = Ret (ip', d') -> key ip' = key ip.
Proof.
  unfold itrunc. intros E. apply bind_Ret_inv in E as (d1 & _ & E).
  apply bind_Ret_inv in E as (b & _ & E). apply bind_Ret_inv in E as ([ip2 d2] & E2 & E).
  apply bind_Ret_inv in E as (d3 & _ & E). injection E as <- <-.
  destruct (b =? 0); [by injection E2 as <- <-|].
  apply bind_Ret_inv in E2 as (? & _ & E2). apply bind_Ret_inv in E2 as (? & _ & E2).
  apply bind_Ret_inv in E2 as (? & _ & E2). apply bind_Ret_inv in E2 as (l & _ & E2).
  by injection E2 as <- <-.
Qed.

Lemma iput_effect s i s' :
  iput nsect i s = Ret s' ->
  exists ip ip' s1, icache s !! i = Some ip /\ keys s1 = keys s /\ icache s1 !! i = Some ip' /\
    key ip' = key ip /\ s' = seti i (i_ref (i32 (ref ip - 1)) ip') s1.
Proof.
  unfold iput. intros E. apply bind_Ret_inv in E as (ip & Ei & E).
  apply bind_Ret_inv in E as (s1 & E1 & E). apply bind_Ret_inv in E as (ip' & Ei' & E).
  injection E as <-. apply geti_Some in Ei. apply geti_Some in Ei'.
  assert (keys s1 = keys s) as Hk.
  { destruct (_ && _); [|by injection E1 as <-]. destruct (flag ip I_BUSY); [discriminate|].
    apply bind_Ret_inv in E1 as ([ip2 d2] & Et & E1). apply bind_Ret_inv in E1 as (d3 & _ & E1).
    injection E1 as <-. apply itrunc_key in Et. unfold keys. simpl.
    rewrite list_fmap_insert. apply list_insert_id. rewrite list_lookup_fmap, Ei. simpl. f_equal.
    symmetry. exact Et. }
  assert (key ip' = key ip) as Hkk.
  { assert (keys s1 !! i = Some (key ip')) as F1 by (apply lookup_keys; eauto).
    assert (keys s !! i = Some (key ip)) as F2 by (apply lookup_keys; eauto). congruence. }
  exists ip, ip', s1. split_and!; auto. injection Hkk as _ _ ->. done.
Qed.

Lemma iput_inv s held i held' s' :
  cinv s held -> Z.of_nat (length held) <= maxrefs -> held ≡ₚ i :: held' -> iput nsect i s = Ret s' ->
  cinv s' held'.
Proof.
  intros I Hb Hp E. apply iput_effect in E as (ip & ip' & s1 & Hi & Hk & Hi' & [= Ed En Er] & ->).
  pose proof (cinv_keys _ _ _ Hk I) as I1. pose proof I1 as [_ H2 H3 H4].
  assert (Hc : forall j, count held j = if decide (i = j) then count held' j + 1 else count held' j)
    by (intros j; rewrite (count_perm _ _ j Hp); apply count_cons).
  pose proof (H2 i ip' Hi') as Hr. rewrite Hc, decide_True in Hr by done.
  pose proof (count_nonneg held' i) as Hnn. apply Permutation_length in Hp. simpl in Hp. unfold maxrefs in *.
  rewrite i32_small by (unfold is_i32; lia).
  apply (cinv_ref s1 held); auto; [lia| |lia].
  intros j Hj. rewrite Hc. by rewrite decide_False.
Qed.

Lemma creach_bound s held : creach s held -> Z.of_nat (length held) <= maxrefs.
Proof.
  induction 1 as [| | |s held i held' s' H IH Hp E|]; simpl in *; unfold maxrefs in *; try lia.
  apply Permutation_length in Hp. simpl in Hp. lia.
Qed.

Lemma creach_inv s held : creach s held -> cinv s held.
Proof.
  induction 1 as [d v|s held num i s' H IH Hb E|s held i s' H IH Hb Hi E|s held i held' s' H IH Hp E|s held s' H IH E].
  - split.
    + apply length_replicate.
    + intros i ip [-> _]%lookup_replicate_1. done.
    + intros i ip [-> _]%lookup_replicate_1. simpl. lia.
    + intros i j ip jp [-> _]%lookup_replicate_1. simpl. lia.
  - by eapply iget_inv.
  - by eapply idup_inv.
  - eapply iput_inv; eauto using creach_bound.
  - by apply (cinv_keys s).
Qed.
End Icache.

(** C35. References to inodes are counted and inodes are shared: in every run,
    [ref] of a slot is the number of references held to it, two slots in use
    hold different inodes, and [iget num] returns the slot that holds inode
    [num] when there is one, otherwise a slot without references; it panics
    exactly when all 50 slots are referenced by other inodes. *)
Theorem icache_shared {D : Type} nsect (s : fs D) held num :
  creach nsect s held ->
  (forall i ip, icache s !! i = Some ip -> ref ip = count held i) /\
  (forall i j ip jp, icache s !! i = Some ip -> icache s !! j = Some jp ->
     0 < ref ip -> 0 < ref jp -> inum ip = inum jp -> i = j) /\
  match iget num s with
  | Ret (i, s') => exists ip ip', icache s !! i = Some ip /\ icache s' !! i = Some ip' /\
      inum ip' = num /\ (0 < ref ip -> inum ip = num) /\
      (forall j jp, icache s !! j = Some jp -> 0 < ref jp -> inum jp = num -> j = i) /\
      (forall j, j <> i -> icache s' !! j = icache s !! j)
  | Panic _ => length (icache s) = NINODE /\
      forall j jp, icache s !! j = Some jp -> 0 < ref jp /\ inum jp <> num
  | Undef _ => False
  end.
Proof.
  intros H. pose proof (creach_inv nsect s held H) as I. pose proof I as [H1 H2 H3 H4].
  split_and!; [done|done|]. unfold iget.
  destruct (list_find (fun ip => iget_hit num ip = true) (icache s)) as [[i ip]|] eqn:F.
  - apply list_find_Some in F as (Hi & Hh & _). pose proof (lookup_lt_Some _ _ _ Hi).
    unfold iget_hit in Hh. rewrite !andb_true_iff, Z.ltb_lt, !Z.eqb_eq in Hh. destruct Hh as [[Hp Hd] Hn].
    eexists ip, _. rewrite lookup_seti, decide_True by done. split_and!; auto.
    + intros j jp Hj Hjp En. eapply (H4 j i); eauto. congruence.
    + intros j Hj. rewrite lookup_seti, decide_False by naive_solver. done.
  - apply list_find_None in F. rewrite Forall_lookup in F.
    assert (Hno : forall j jp, icache s !! j = Some jp -> 0 < ref jp -> inum jp <> num).
    { intros j jp Hj Hp En. apply (F j jp Hj). unfold iget_hit.
      rewrite !andb_true_iff, Z.ltb_lt, !Z.eqb_eq. split_and!; eauto. }
    destruct (list_find (fun ip => ref ip = 0) (icache s)) as [[i ip]|] eqn:F2.
    + apply list_find_Some in F2 as (Hi & Hz & _). pose proof (lookup_lt_Some _ _ _ Hi). simpl in Hz.
      eexists ip, _. rewrite lookup_seti, decide_True by done. split_and!; auto; [lia|naive_solver|].
      intros j Hj. rewrite lookup_seti, decide_False by naive_solver. done.
    + split; [done|]. intros j jp Hj. apply list_find_None in F2. rewrite Forall_lookup in F2.
      assert (0 < ref jp); [|eauto]. pose proof (H2 j jp Hj). pose proof (count_nonneg held j).
      specialize (F2 j jp Hj). simpl in F2. lia.
Qed.

(** After boot, inode 1 is taken twice. *)
Definition cache0 : fs unit := FS ∅ (replicate NINODE inode_zero) tt.
Definition after_iget (num : Z) (s : fs unit) : fs unit :=
  match iget num s with Ret (_, s') => s' | _ => s end.

Lemma icache_shared_witness :
  exists i, iget 1 (after_iget 1 cache0) = Ret (i, after_iget 1 (after_iget 1 cache0)) /\
    forall ip, icache (after_iget 1 (after_iget 1 cache0)) !! i = Some ip -> ref ip = 2.
Proof.
  assert (R1 : creach 64 (after_iget 1 cache0) [0%nat]).
  { apply creach_iget with cache0 1; [apply creach_boot|simpl; unfold maxrefs; lia|reflexivity]. }
  assert (R2 : creach 64 (after_iget 1 (after_iget 1 cache0)) [0%nat; 0%nat]).
  { apply creach_iget with (after_iget 1 cache0) 1; [exact R1|simpl; unfold maxrefs; lia|reflexivity]. }
  exists 0%nat. split; [reflexivity|]. intros ip Hi.
  destruct (icache_shared 64 (after_iget 1 (after_iget 1 cache0)) [0%nat; 0%nat] 1 R2) as (H & _ & _).
  rewrite (H 0%nat ip Hi). reflexivity.
Defined.
