(* ===== verification/Ide.v ===== *)
(** * The IDE driver (kernel/ide.c, kernel/buf.h)

    Buffers are an array; a pointer to a buffer is its index.  The driver
    keeps a queue of buffers linked through [qnext]; the drive works on the
    first one and raises an interrupt when it is done.  The drive itself is a
    parameter: the class [Drive] has the port accesses the driver makes,
    [DriveSpec] states what the ATA standard promises about them.

    The theorem shows that requests complete in the order they were made,
    that each one transfers the sector it asks for, and that a request is
    complete after as many interrupts as its place in the queue. *)

From S2P Require Import Prelude.

(** ** Buffers *)

Record buf := Buf {
  flags : Z; dev : Z; sector : Z;
  prev : option nat; next : option nat; qnext : option nat; data : list Z
}.
Definition B_BUSY : Z := 1.
Definition B_VALID : Z := 2.
Definition B_DIRTY : Z := 4.

Definition b_flags v b := Buf v (dev b) (sector b) (prev b) (next b) (qnext b) (data b).
Definition b_prev v b := Buf (flags b) (dev b) (sector b) v (next b) (qnext b) (data b).
Definition b_next v b := Buf (flags b) (dev b) (sector b) (prev b) v (qnext b) (data b).
Definition b_qnext v b := Buf (flags b) (dev b) (sector b) (prev b) (next b) v (data b).
Definition b_data v b := Buf (flags b) (dev b) (sector b) (prev b) (next b) (qnext b) v.

(** A null pointer cannot be followed. *)
Definition deref {A} (l : list A) (p : option nat) : outcome A :=
  match p with Some i => aget l (Z.of_nat i) | None => Undef "null pointer" end.

(** [(flags & f) != 0], and the test that ends the wait in [iderw]. *)
Definition has (b : buf) (f : Z) : bool := negb (Z.land (flags b) f =? 0).
Definition synced (b : buf) : bool := Z.land (flags b) (Z.lor B_VALID B_DIRTY) =? B_VALID.

(** ** The drive *)

Class Drive (H : Type) := {
  inb : Z -> H -> Z * H;
  outb : Z -> Z -> H -> H;
  insl : Z -> Z -> H -> list Z * H;
  outsl : Z -> list Z -> H -> H
}.

Definition IDE_BSY : Z := 0x80.
Definition IDE_DRDY : Z := 0x40.
Definition IDE_DF : Z := 0x20.
Definition IDE_ERR : Z := 0x01.
Definition IDE_CMD_READ : Z := 0x20.
Definition IDE_CMD_WRITE : Z := 0x30.

Record ide (H : Type) := Ide { bufs : list buf; idequeue : option nat; havedisk1 : bool; hw : H }.
Arguments Ide {H}. Arguments bufs {H}. Arguments idequeue {H}. Arguments havedisk1 {H}. Arguments hw {H}.

(** ** The driver *)

Section Driver.
Context {H : Type} `{!Drive H}.
(** The loop that polls the status register, given at most [polls] reads. *)
Variable polls : nat.

Definition set_bufs (l : list buf) (s : ide H) : ide H := Ide l (idequeue s) (havedisk1 s) (hw s).
Definition set_queue (q : option nat) (s : ide H) : ide H := Ide (bufs s) q (havedisk1 s) (hw s).
Definition set_hw (h : H) (s : ide H) : ide H := Ide (bufs s) (idequeue s) (havedisk1 s) h.

Fixpoint poll (fuel : nat) (h : H) : outcome (Z * H) :=
  match fuel with
  | O => Undef "loop bound"
  | S fuel =>
    let (r, h) := inb 0x1f7 h in
    if Z.land r (Z.lor IDE_BSY IDE_DRDY) =? IDE_DRDY then Ret (r, h) else poll fuel h
  end.

Definition idewait (checkerr : bool) (h : H) : outcome (Z * H) :=
  '(r, h) ← poll polls h;
  if checkerr && negb (Z.land r (Z.lor IDE_DF IDE_ERR) =? 0) then Ret (-1, h) else Ret (0, h).

(** Is disk 1 present? *)
Fixpoint probe (fuel : nat) (h : H) : bool * H :=
  match fuel with
  | O => (false, h)
  | S fuel => let (r, h) := inb 0x1f7 h in if negb (r =? 0) then (true, h) else probe fuel h
  end.

Definition ideinit (s : ide H) : outcome (ide H) :=
  '(_, h) ← idewait false (hw s);
  let h := outb 0x1f6 (Z.lor 0xe0 (Z.shiftl 1 4)) h in
  let (found, h) := probe 1000 h in
  let h := outb 0x1f6 (Z.lor 0xe0 (Z.shiftl 0 4)) h in
  Ret (Ide (bufs s) (idequeue s) (found || havedisk1 s) h).

(** The registers that select the sector. *)
Definition select (dev sector : Z) (h : H) : H :=
  let h := outb 0x3f6 0 h in
  let h := outb 0x1f2 1 h in
  let h := outb 0x1f3 (Z.land sector 0xff) h in
  let h := outb 0x1f4 (Z.land (Z.shiftr sector 8) 0xff) h in
  let h := outb 0x1f5 (Z.land (Z.shiftr sector 16) 0xff) h in
  outb 0x1f6 (Z.lor (Z.lor 0xe0 (Z.shiftl (Z.land dev 1) 4)) (Z.land (Z.shiftr sector 24) 0x0f)) h.

Definition idestart (p : option nat) (s : ide H) : outcome (ide H) :=
  match p with
  | None => Panic "idestart"
  | Some i =>
    b ← aget (bufs s) (Z.of_nat i);
    '(_, h) ← idewait false (hw s);
    let h := select (dev b) (sector b) h in
    if has b B_DIRTY
    then Ret (set_hw (outsl 0x1f0 (data b) (outb 0x1f7 IDE_CMD_WRITE h)) s)
    else Ret (set_hw (outb 0x1f7 IDE_CMD_READ h) s)
  end.

(** Read data if needed. *)
Definition receive (b : buf) (h : H) : outcome (list Z * H) :=
  if has b B_DIRTY then Ret (data b, h)
  else '(r, h) ← idewait true h;
       if 0 <=? r then Ret (insl 0x1f0 (512 / 4) h) else Ret (data b, h).

Definition ideintr (s : ide H) : outcome (ide H) :=
  match idequeue s with
  | None => Ret s
  | Some i =>
    b ← aget (bufs s) (Z.of_nat i);
    let s := set_queue (qnext b) s in
    '(l, h) ← receive b (hw s);
    let f := Z.land (Z.lor (flags b) B_VALID) (Z.lnot B_DIRTY) in
    let s := set_hw h (set_bufs (<[i := b_flags f (b_data l b)]> (bufs s)) s) in
    match idequeue s with Some _ => idestart (idequeue s) s | None => Ret s end
  end.

(** The walk along [qnext] that finds the last buffer of the queue. *)
Fixpoint queue_end (fuel : nat) (l : list buf) (i : nat) : outcome nat :=
  match fuel with
  | O => Undef "loop bound"
  | S fuel =>
    b ← aget l (Z.of_nat i);
    match qnext b with Some j => queue_end fuel l j | None => Ret i end
  end.

(** [iderw] up to the wait: the request is queued, and started when it is the
    only one.  The caller then sleeps until [synced]. *)
Definition iderw (i : nat) (s : ide H) : outcome (ide H) :=
  b ← aget (bufs s) (Z.of_nat i);
  if negb (has b B_BUSY) then Panic "iderw: buf not busy"
  else if synced b then Panic "iderw: nothing to do"
  else if negb (dev b =? 0) && negb (havedisk1 s) then Panic "iderw: ide disk 1 not present"
  else
    let l := <[i := b_qnext None b]> (bufs s) in
    match idequeue s with
    | None => idestart (Some i) (set_queue (Some i) (set_bufs l s))
    | Some j =>
      e ← queue_end (length l) l j;
      be ← aget l (Z.of_nat e);
      let l := <[e := b_qnext (Some i) be]> l in
      if decide (j = i) then idestart (Some i) (set_bufs l s) else Ret (set_bufs l s)
    end.

End Driver.

(** ** What the drive promises *)

(** The port accesses of a command: four registers, then the command. *)
Definition command {H} `{!Drive H} (b0 b1 b2 b3 cmd : Z) (h : H) : H :=
  outb 0x1f7 cmd (outb 0x1f6 b3 (outb 0x1f5 b2 (outb 0x1f4 b1 (outb 0x1f3 b0
    (outb 0x1f2 1 (outb 0x3f6 0 h)))))).

(** The disk and the 28-bit sector number that the registers name. *)
Definition unit_of (b3 : Z) : Z := Z.land (Z.shiftr b3 4) 1.
Definition lba (b0 b1 b2 b3 : Z) : Z := b0 + 2 ^ 8 * b1 + 2 ^ 16 * b2 + 2 ^ 24 * Z.land b3 0x0f.

(** [media]: the contents of the sectors; [reading]: the sector whose data is
    ready to be read.  In LBA mode ([b3] between 0xe0 and 0xff): a write
    command stores the next 512 bytes, a read command makes the sector ready,
    and reading 128 words gives its contents.  The drive becomes ready, and it
    has no faults. *)
Class DriveSpec (H : Type) `{!Drive H} (polls : nat) := {
  media : H -> Z -> Z -> list Z;
  reading : H -> option (Z * Z);
  media_len : forall h u k, length (media h u k) = 512%nat;
  poll_ok : forall h, exists r h', poll polls h = Ret (r, h') /\
    Z.land r (Z.lor IDE_DF IDE_ERR) = 0 /\
    (forall u k, media h' u k = media h u k) /\ reading h' = reading h;
  write_ok : forall h b0 b1 b2 b3 l,
    is_u8 b0 -> is_u8 b1 -> is_u8 b2 -> 0xe0 <= b3 <= 0xff -> length l = 512%nat ->
    forall u k, media (outsl 0x1f0 l (command b0 b1 b2 b3 IDE_CMD_WRITE h)) u k =
      if decide (u = unit_of b3 /\ k = lba b0 b1 b2 b3) then l else media h u k;
  read_ok : forall h b0 b1 b2 b3,
    is_u8 b0 -> is_u8 b1 -> is_u8 b2 -> 0xe0 <= b3 <= 0xff ->
    let h' := command b0 b1 b2 b3 IDE_CMD_READ h in
    (forall u k, media h' u k = media h u k) /\
    reading h' = Some (unit_of b3, lba b0 b1 b2 b3);
  insl_ok : forall h u k, reading h = Some (u, k) ->
    exists h', insl 0x1f0 128 h = (media h u k, h') /\ forall u k, media h' u k = media h u k
}.

(** ** Flags as bits *)

Lemma has_busy b : has b B_BUSY = Z.testbit (flags b) 0.
Proof. unfold has, B_BUSY. rewrite (land_shiftl_1 _ 0) by lia. by rewrite negb_involutive. Qed.
Lemma has_valid b : has b B_VALID = Z.testbit (flags b) 1.
Proof. unfold has, B_VALID. rewrite (land_shiftl_1 _ 1) by lia. by rewrite negb_involutive. Qed.
Lemma has_dirty b : has b B_DIRTY = Z.testbit (flags b) 2.
Proof. unfold has, B_DIRTY. rewrite (land_shiftl_1 _ 2) by lia. by rewrite negb_involutive. Qed.

Lemma synced_bits b : synced b = Z.testbit (flags b) 1 && negb (Z.testbit (flags b) 2).
Proof.
  unfold synced. change (Z.lor B_VALID B_DIRTY) with 6. change B_VALID with 2.
  apply eq_iff_eq_true. rewrite Z.eqb_eq, andb_true_iff, negb_true_iff. split.
  - intros E. split; rewrite <- (andb_true_r (Z.testbit _ _)).
    + change true with (Z.testbit 6 1) at 1. by rewrite <- Z.land_spec, E.
    + change true with (Z.testbit 6 2). by rewrite <- Z.land_spec, E.
  - intros [E1 E2]. apply Z.bits_inj'. intros n Hn. rewrite Z.land_spec.
    assert (n = 0 \/ n = 1 \/ n = 2 \/ 3 <= n) as [->|[->|[->|Hb]]] by lia.
    + by rewrite andb_false_r.
    + by rewrite E1.
    + by rewrite E2.
    + rewrite (Z.bits_above_log2 6 n), (Z.bits_above_log2 2 n), andb_false_r by (simpl; lia). done.
Qed.

(** The flags after a completed transfer. *)
Lemma done_bits f n : 0 <= n ->
  Z.testbit (Z.land (Z.lor f B_VALID) (Z.lnot B_DIRTY)) n =
  if decide (n = 1) then true else if decide (n = 2) then false else Z.testbit f n.
Proof.
  intros Hn. rewrite Z.land_spec, Z.lor_spec, Z.lnot_spec by done.
  change B_VALID with (2 ^ 1). change B_DIRTY with (2 ^ 2). rewrite !Z.pow2_bits_eqb by lia.
  repeat case_decide; subst; repeat zcase; try lia; destruct (Z.testbit f n); done.
Qed.

(** ** Selecting a sector *)


Lemma drive_reg u k : 0 <= u <= 1 ->
  let b3 := Z.lor (Z.lor 0xe0 (Z.shiftl (Z.land u 1) 4)) (Z.land (Z.shiftr k 24) 0x0f) in
  0xe0 <= b3 <= 0xff /\ unit_of b3 = u /\ Z.land b3 0x0f = Z.land (Z.shiftr k 24) 0x0f.
Proof.
  intros Hu. assert (0 <= Z.land (Z.shiftr k 24) 0x0f < 16) as Hx.
  { change 0x0f with (Z.ones 4). rewrite Z.land_ones by lia. apply Z.mod_pos_bound. lia. }
  generalize dependent (Z.land (Z.shiftr k 24) 0x0f). intros x Hx.
  assert (x ∈ seqZ 0 16) as Hs by (apply elem_of_seqZ; lia). clear Hx.
  assert (u = 0 \/ u = 1) as [->| ->] by lia; revert x Hs; rewrite <- Forall_forall.
  all: repeat (apply Forall_cons; split; [by vm_compute|]); done.
Qed.

Lemma lba_sector k b3 : 0 <= k < 2 ^ 28 -> Z.land b3 0x0f = Z.land (Z.shiftr k 24) 0x0f ->
  lba (Z.land k 0xff) (Z.land (Z.shiftr k 8) 0xff) (Z.land (Z.shiftr k 16) 0xff) b3 = k.
Proof.
  intros Hk E. unfold lba. rewrite E. change 0xff with (Z.ones 8). change 0x0f with (Z.ones 4).
  rewrite !Z.land_ones, !Z.shiftr_div_pow2 by lia. dm.
Qed.

Lemma land_ff_u8 x : is_u8 (Z.land x 0xff).
Proof. change 0xff with (Z.ones 8). rewrite Z.land_ones by lia. apply Z.mod_pos_bound. lia. Qed.

(** ** The queue *)

(** [chain l p q]: following [qnext] from [p] visits the buffers [q]. *)
Fixpoint chain (l : list buf) (p : option nat) (q : list nat) : Prop :=
  match q with
  | [] => p = None
  | i :: q => p = Some i /\ exists b, l !! i = Some b /\ chain l (qnext b) q
  end.

(** Changes outside the queue, or that keep [qnext]. *)
Lemma chain_insert l p q i b :
  (forall b0, i ∈ q -> l !! i = Some b0 -> qnext b = qnext b0) -> chain l p q -> chain (<[i := b]> l) p q.
Proof.
  revert p. induction q as [|j q IH]; intros p Hq; simpl; [done|]. intros (-> & b0 & Hj & Hc).
  split; [done|]. destruct (decide (i = j)) as [<-|Hn].
  - exists b. split; [apply list_lookup_insert_eq; by eapply lookup_lt_Some|].
    rewrite (Hq b0) by (done || left). apply IH; [|done]. intros b1 ? H1. apply Hq; [by right|done].
  - exists b0. rewrite list_lookup_insert_ne by done. split; [done|]. apply IH; [|done].
    intros b1 ? H1. apply Hq; [by right|done].
Qed.

(** Appending to the queue. *)
Lemma chain_snoc l p q e be i b :
  chain l p (q ++ [e]) -> NoDup (q ++ [e]) -> l !! e = Some be -> l !! i = Some b -> qnext b = None -> e <> i ->
  chain (<[e := b_qnext (Some i) be]> l) p (q ++ [e; i]).
Proof.
  revert p. induction q as [|j q IH]; intros p; simpl.
  - intros (-> & b0 & He & Hq) _ He' Hi Hn Hne. split; [done|]. eexists.
    split; [apply list_lookup_insert_eq; by eapply lookup_lt_Some|]. split; [done|].
    exists b. by rewrite list_lookup_insert_ne by done.
  - intros (-> & b0 & Hj & Hc) [Hj' Hnd]%NoDup_cons He Hi Hn Hne. split; [done|].
    assert (e <> j) by (intros ->; apply Hj', elem_of_app; right; left).
    exists b0. rewrite list_lookup_insert_ne by done. eauto.
Qed.

Lemma queue_end_last fuel l j q e :
  chain l (Some j) (q ++ [e]) -> (length q < fuel)%nat -> queue_end fuel l j = Ret e.
Proof.
  revert j q. induction fuel as [|fuel IH]; intros j q Hc Hl; [lia|]. simpl.
  destruct q as [|j' q]; simpl in Hc; destruct Hc as ([= <-] & b & Hj & Hc); rewrite (aget_Some _ _ _ Hj); simpl.
  - by rewrite Hc.
  - destruct (qnext b) as [k|]; [|destruct q; simpl in Hc; naive_solver].
    apply (IH k q); [done|simpl in Hl; lia].
Qed.

Lemma chain_None l q : chain l None q -> q = [].
Proof. destruct q; simpl; naive_solver. Qed.

Lemma NoDup_bounded (q : list nat) n : NoDup q -> (forall i, i ∈ q -> (i < n)%nat) -> (length q <= n)%nat.
Proof.
  intros Hn Hq. rewrite <- (length_seq n 0). apply submseteq_length, NoDup_submseteq; [done|].
  intros i Hi. apply elem_of_seq. specialize (Hq i Hi). lia.
Qed.

(** [l'] differs from [l] in the links of the queue only. *)
Definition links (l l' : list buf) : Prop := forall j, exists x, l' !! j = b_qnext x <$> l !! j.

Lemma links_insert l i b x : l !! i = Some b -> links l (<[i := b_qnext x b]> l).
Proof.
  intros Hi j. destruct (decide (i = j)) as [<-|].
  - exists x. rewrite list_lookup_insert_eq, Hi by (by eapply lookup_lt_Some). done.
  - rewrite list_lookup_insert_ne by done. destruct (l !! j) as [bj|]; [|by exists None].
    exists (qnext bj). by destruct bj.
Qed.

Lemma links_trans l1 l2 l3 : links l1 l2 -> links l2 l3 -> links l1 l3.
Proof.
  intros H1 H2 j. destruct (H1 j) as (x & E1), (H2 j) as (y & E2). exists y. rewrite E2, E1.
  by destruct (l1 !! j).
Qed.

Section Queue.
Context {H : Type} `{DriveSpec H polls}.

(** A request the driver accepts: the buffer is locked, has something to
    transfer, and names a sector that exists. *)
Record request (disk1 : bool) (b : buf) : Prop := {
  rq_busy : Z.testbit (flags b) 0 = true;
  rq_todo : synced b = false;
  rq_dev : dev b = 0 \/ dev b = 1 /\ disk1 = true;
  rq_sector : 0 <= sector b < 2 ^ 28;
  rq_len : length (data b) = 512%nat
}.

(** The drive is working for [b]: its data is on the disk, or the sector it
    asks for is ready. *)
Definition working (h : H) (b : buf) : Prop :=
  if has b B_DIRTY then media h (dev b) (sector b) = data b
  else reading h = Some (dev b, sector b).

Record qinv (s : ide H) (q : list nat) : Prop := {
  qi_chain : chain (bufs s) (idequeue s) q;
  qi_nodup : NoDup q;
  qi_req : forall i, i ∈ q -> exists b, bufs s !! i = Some b /\ request (havedisk1 s) b;
  qi_work : forall i b, head q = Some i -> bufs s !! i = Some b -> working (hw s) b
}.

(** The contents of the disk after a write of [b]. *)
Definition written (b : buf) (m : Z -> Z -> list Z) (u k : Z) : list Z :=
  if decide (has b B_DIRTY = true /\ u = dev b /\ k = sector b) then data b else m u k.

Lemma idewait_ok c h : exists h', idewait polls c h = Ret (0, h') /\
  (forall u k, media h' u k = media h u k) /\ reading h' = reading h.
Proof.
  destruct (poll_ok h) as (r & h' & E & Er & Hm). exists h'. unfold idewait. rewrite E. simpl.
  rewrite Er, andb_false_r. done.
Qed.

Lemma select_command u k cmd (h : H) :
  outb 0x1f7 cmd (select u k h) =
  command (Z.land k 0xff) (Z.land (Z.shiftr k 8) 0xff) (Z.land (Z.shiftr k 16) 0xff)
    (Z.lor (Z.lor 0xe0 (Z.shiftl (Z.land u 1) 4)) (Z.land (Z.shiftr k 24) 0x0f)) cmd h.
Proof. done. Qed.

Lemma idestart_spec s i b :
  bufs s !! i = Some b -> request (havedisk1 s) b ->
  exists h, idestart polls (Some i) s = Ret (set_hw h s) /\ working h b /\
    forall u k, media h u k = written b (media (hw s)) u k.
Proof.
  intros Hi [Hb Hs Hd Hk Hl]. unfold idestart. rewrite (aget_Some _ _ _ Hi). simpl.
  destruct (idewait_ok false (hw s)) as (h & -> & Hm & _). simpl.
  destruct (drive_reg (dev b) (sector b)) as (R1 & R2 & R3); [lia|].
  pose proof (lba_sector (sector b) _ Hk R3) as R4. unfold working, written.
  destruct (has b B_DIRTY).
  - eexists. split; [done|]. simpl. split.
    + rewrite select_command, write_ok by (apply land_ff_u8 || done). by rewrite R2, R4, decide_True.
    + intros u k. rewrite select_command, write_ok by (apply land_ff_u8 || done). rewrite R2, R4, Hm.
      repeat case_decide; naive_solver.
  - eexists. split; [done|]. simpl.
    rewrite select_command. edestruct (read_ok h) as [M1 M2]; [apply land_ff_u8..|exact R1|].
    split; [by rewrite M2, R2, R4|]. intros u k. rewrite M1, Hm.
    done.
Qed.

(** The contents of the disk after the request at the head of [q] is started. *)
Definition after_start (l : list buf) (q : list nat) (m : Z -> Z -> list Z) : Z -> Z -> list Z :=
  match q with
  | [] => m
  | i :: _ => match l !! i with Some b => written b m | None => m end
  end.

(** A buffer whose request is complete. *)
Definition completed (m : Z -> Z -> list Z) (b : buf) : buf :=
  b_flags (Z.land (Z.lor (flags b) B_VALID) (Z.lnot B_DIRTY))
    (b_data (if has b B_DIRTY then data b else m (dev b) (sector b)) b).

Lemma request_links disk1 l l' j :
  links l l' -> (exists b, l !! j = Some b /\ request disk1 b) -> exists b, l' !! j = Some b /\ request disk1 b.
Proof.
  intros Hl (b & Hb & [H1 H2 H3 H4 H5]). destruct (Hl j) as (x & E). rewrite Hb in E.
  eexists. split; [exact E|by split].
Qed.

Lemma request_qnext disk1 b x : request disk1 b -> request disk1 (b_qnext x b).
Proof. intros [H1 H2 H3 H4 H5]. by split. Qed.

(** Starting the head of a queue that is otherwise in order. *)
Lemma start_queue s i q b :
  chain (bufs s) (idequeue s) (i :: q) -> NoDup (i :: q) ->
  (forall j, j ∈ i :: q -> exists b, bufs s !! j = Some b /\ request (havedisk1 s) b) -> bufs s !! i = Some b ->
  exists h, idestart polls (Some i) s = Ret (set_hw h s) /\ qinv (set_hw h s) (i :: q) /\
    forall u k, media h u k = written b (media (hw s)) u k.
Proof.
  intros Hc Hn Hr Hi. destruct (Hr i) as (b' & Hi' & Hb); [left|]. simplify_eq.
  destruct (idestart_spec s i b Hi Hb) as (h & E & Hw & Hm). exists h. split_and!; [done| |done].
  split; try done. intros j bj [= <-]. simpl. intros Hj. simplify_eq. done.
Qed.

(** A request is appended to the queue; only the links change. *)
Lemma iderw_spec s q i b :
  qinv s q -> i ∉ q -> bufs s !! i = Some b -> request (havedisk1 s) b ->
  exists s', iderw polls i s = Ret s' /\ qinv s' (q ++ [i]) /\ havedisk1 s' = havedisk1 s /\
    links (bufs s) (bufs s') /\
    forall u k, media (hw s') u k = if q is [] then written b (media (hw s)) u k else media (hw s) u k.
Proof.
  intros [Hc Hn Hr Hw] Hi Hb Rb. unfold iderw. rewrite (aget_Some _ _ _ Hb). cbn [mbind outcome_bind].
  rewrite has_busy, (rq_busy _ _ Rb), (rq_todo _ _ Rb). cbn [negb].
  replace (negb (dev b =? 0) && _) with false
    by (destruct (rq_dev _ _ Rb) as [->|[-> ->]]; done).
  assert (Hlt := lookup_lt_Some _ _ _ Hb).
  pose proof (links_insert _ _ _ None Hb) as Hbufs.
  destruct q as [|j q].
  - simpl in Hc. rewrite Hc.
    destruct (start_queue (set_queue (Some i) (set_bufs (<[i := b_qnext None b]> (bufs s)) s)) i [] (b_qnext None b))
      as (h & E & Hq & Hm); simpl.
    + split; [done|]. exists (b_qnext None b). by rewrite list_lookup_insert_eq by done.
    + apply NoDup_singleton.
    + intros j ->%list_elem_of_singleton. rewrite list_lookup_insert_eq by done. eauto using request_qnext.
    + by rewrite list_lookup_insert_eq.
    + eexists. split_and!; [done|done|done|done|]. done.
  - assert (Hq : idequeue s = Some j) by apply Hc. rewrite Hq in *.
    assert (j <> i) by (intros ->; apply Hi; left).
    destruct (exists_last (l := j :: q)) as (q0 & e & Eq); [done|]. rewrite Eq in *.
    assert (e <> i) by (intros ->; apply Hi, elem_of_app; right; left).
    destruct (Hr e) as (be & He & Re); [apply elem_of_app; right; left|].
    assert (Hc1 : chain (<[i:=b_qnext None b]> (bufs s)) (Some j) (q0 ++ [e])) by (by apply chain_insert).
    assert (length (q0 ++ [e]) <= length (bufs s))%nat as Hl.
    { apply NoDup_bounded; [done|]. intros k Hk. destruct (Hr k Hk) as (bk & ? & _). by eapply lookup_lt_Some. }
    rewrite length_app in Hl. simpl in Hl.
    rewrite (queue_end_last _ _ _ _ _ Hc1) by (rewrite length_insert; lia). cbn [mbind outcome_bind].
    assert (He1 : <[i:=b_qnext None b]> (bufs s) !! e = Some be) by (by rewrite list_lookup_insert_ne).
    rewrite (aget_Some _ _ _ He1). cbn [mbind outcome_bind]. rewrite decide_False by done.
    pose proof (links_trans _ _ _ Hbufs (links_insert _ _ _ (Some i) He1)) as Hl2.
    eexists. split; [done|]. split_and!; [|done|done|done].
    split.
    + cbn [set_bufs bufs idequeue]. rewrite Hq, <- app_assoc. simpl.
      apply (chain_snoc _ _ _ _ _ _ (b_qnext None b)); [done..| |done|done]. by rewrite list_lookup_insert_eq.
    + apply NoDup_app. split_and!; [done| |apply NoDup_singleton].
      intros k Hk ->%list_elem_of_singleton. done.
    + intros k Hk. apply (request_links _ (bufs s)); [done|].
      apply elem_of_app in Hk as [Hk| ->%list_elem_of_singleton]; eauto.
    + rewrite <- Eq. intros k bk [= <-] Hk. destruct (Hl2 j) as (x & Ej). simpl in Hk. rewrite Hk in Ej.
      destruct (bufs s !! j) as [bj|] eqn:Hj; [|done]. injection Ej as ->.
      apply (Hw j bj); [by rewrite <- Eq|done].
Qed.

Lemma receive_spec b h : working h b -> exists h',
  receive polls b h = Ret (data (completed (media h) b), h') /\ forall u k, media h' u k = media h u k.
Proof.
  unfold working, receive, completed. destruct (has b B_DIRTY); intros Hw; simpl; [by exists h|].
  destruct (idewait_ok true h) as (h1 & -> & Hm & Hr). cbn [mbind outcome_bind]. rewrite <- Hr in Hw.
  destruct (insl_ok h1 _ _ Hw) as (h2 & E & Hm2). exists h2. split.
  - change (512 / 4) with 128. rewrite E. simpl. by rewrite Hm.
  - intros u k. by rewrite Hm2, Hm.
Qed.

(** An interrupt completes the first request and starts the next one. *)
Lemma ideintr_spec s i q b :
  qinv s (i :: q) -> bufs s !! i = Some b ->
  exists s', ideintr polls s = Ret s' /\ qinv s' q /\ havedisk1 s' = havedisk1 s /\
    bufs s' = <[i := completed (media (hw s)) b]> (bufs s) /\
    forall u k, media (hw s') u k = after_start (bufs s) q (media (hw s)) u k.
Proof.
  intros [Hc Hn Hr Hw] Hi. unfold ideintr. destruct Hc as (-> & b' & Hi' & Hc). rewrite Hi in Hi'. injection Hi' as <-.
  rewrite (aget_Some _ _ _ Hi). cbn [mbind outcome_bind].
  destruct (receive_spec b (hw s)) as (h & E & Hm); [by apply (Hw i)|].
  cbn [set_queue hw]. rewrite E. cbn [mbind outcome_bind].
  change (b_flags _ (b_data _ b)) with (completed (media (hw s)) b).
  apply NoDup_cons in Hn as [Hni Hn].
  assert (Hc' : chain (<[i := completed (media (hw s)) b]> (bufs s)) (qnext b) q) by (by apply chain_insert).
  assert (Hr' : forall j, j ∈ q -> exists b0,
    <[i := completed (media (hw s)) b]> (bufs s) !! j = Some b0 /\ request (havedisk1 s) b0).
  { intros j Hj. rewrite list_lookup_insert_ne by naive_solver. apply Hr. by right. }
  cbn [set_hw set_bufs set_queue idequeue bufs]. destruct q as [|j q].
  - simpl in Hc. rewrite Hc. eexists. split_and!; [done| |done|done|]; [split; try done|].
    intros u k. simpl. by rewrite Hm.
  - destruct Hc as (Ej & bj & Hj & _). rewrite Ej in *.
    edestruct (start_queue (set_hw h (set_bufs (<[i := completed (media (hw s)) b]> (bufs s)) (set_queue (Some j) s))) j q bj)
      as (h' & E' & Hq' & Hm'); [done..| |].
    { simpl. rewrite list_lookup_insert_ne; [done|]. intros ->. apply Hni. left. }
    eexists. split_and!; [exact E'|done..|].
    intros u k. simpl. rewrite Hm', Hj. unfold written. simpl. by rewrite Hm.
Qed.

(** ** Runs of the driver

    [irun s0 reqs n s]: from [s0] the requests [reqs] were made, [n] of them
    have been completed, and the state is [s].  Processes use the buffers that
    are not in the queue as they like; interrupts come at any time. *)
Inductive irun (s0 : ide H) : list nat -> nat -> ide H -> Prop :=
| irun_start : irun s0 [] 0 s0
| irun_iderw reqs n s i b s' :
    irun s0 reqs n s -> i ∉ drop n reqs -> bufs s !! i = Some b -> request (havedisk1 s) b ->
    iderw polls i s = Ret s' -> irun s0 (reqs ++ [i]) n s'
| irun_intr reqs n s s' :
    irun s0 reqs n s -> ideintr polls s = Ret s' ->
    irun s0 reqs (if reqs !! n is Some _ then S n else n) s'
| irun_use reqs n s l :
    irun s0 reqs n s -> (forall i, i ∈ drop n reqs -> l !! i = bufs s !! i) ->
    irun s0 reqs n (set_bufs l s).

Lemma chain_agree l l' p q : (forall i, i ∈ q -> l' !! i = l !! i) -> chain l p q -> chain l' p q.
Proof.
  revert p. induction q as [|i q IH]; intros p Hq; simpl; [done|]. intros (-> & b & Hi & Hc).
  split; [done|]. exists b. rewrite Hq by left. split; [done|]. apply IH; [|done]. intros; apply Hq. by right.
Qed.

Lemma qinv_idle s : idequeue s = None -> qinv s [].
Proof.
  intros E. split; [done|apply NoDup_nil_2| |done]. intros i Hi. by apply elem_of_nil in Hi.
Qed.

Lemma irun_inv s0 reqs n s :
  idequeue s0 = None -> irun s0 reqs n s -> (n <= length reqs)%nat /\ qinv s (drop n reqs).
Proof.
  intros Hidle. induction 1 as [|reqs n s i b s' _ [Hl Hq] Hi Hb Hr E|reqs n s s' _ [Hl Hq] E|reqs n s l _ [Hl Hq] Hu].
  - split; [done|]. by apply qinv_idle.
  - rewrite length_app. simpl. split; [lia|]. rewrite drop_app_le by done.
    destruct (iderw_spec s _ i b Hq Hi Hb Hr) as (s1 & E1 & Hq1 & _). congruence.
  - destruct (reqs !! n) as [i|] eqn:Hn.
    + split; [by eapply lookup_lt_Some|]. rewrite (drop_S reqs i n Hn) in Hq.
      destruct (qi_req _ _ Hq i) as (b & Hi & _); [left|].
      destruct (ideintr_spec s i _ b Hq Hi) as (s1 & E1 & Hq1 & _). congruence.
    + split; [done|]. apply lookup_ge_None in Hn. rewrite drop_ge in * by done.
      unfold ideintr in E. rewrite (qi_chain _ _ Hq) in E. congruence.
  - split; [done|]. destruct Hq as [Hc Hn Hr Hw]. split; simpl; [by apply (chain_agree (bufs s))|done| |].
    + intros i Hi. rewrite Hu by done. auto.
    + intros i b Hd. rewrite Hu; [by apply Hw|]. destruct (drop n reqs); [done|]. injection Hd as ->. left.
Qed.
End Queue.
Arguments irun {H _} polls.

(** C36. The disk queue is first in, first out and every request completes:
    when [n] requests of [reqs] have been completed, the queue holds the
    others in the order they were made, new requests are accepted, and the
    next interrupt completes request [n]: its buffer becomes valid and clean,
    with the contents of the sector it names, and after a write the data is on
    the disk.  An interrupt with an empty queue is ignored.  So a request is
    complete after as many interrupts as its place in the queue, whatever else
    is requested. *)
Theorem ide_fifo {H : Type} `{DriveSpec H polls} s0 reqs n s :
  idequeue s0 = None -> irun polls s0 reqs n s ->
  chain (bufs s) (idequeue s) (drop n reqs) /\
  (forall i b, i ∉ drop n reqs -> bufs s !! i = Some b -> request (havedisk1 s) b ->
     exists s', iderw polls i s = Ret s') /\
  match reqs !! n with
  | None => ideintr polls s = Ret s
  | Some i => exists b b' s', bufs s !! i = Some b /\ ideintr polls s = Ret s' /\
      bufs s' = <[i := b']> (bufs s) /\ synced b' = true /\ has b' B_BUSY = true /\
      (dev b', sector b') = (dev b, sector b) /\
      data b' = media (hw s) (dev b) (sector b) /\ (has b B_DIRTY = true -> data b' = data b)
  end.
Proof.
  intros Hidle Hrun. destruct (irun_inv s0 reqs n s Hidle Hrun) as [Hl Hq].
  split; [apply Hq|]. split.
  { intros i b Hi Hb Hr. destruct (iderw_spec s _ i b Hq Hi Hb Hr) as (s' & E & _). eauto. }
  destruct (reqs !! n) as [i|] eqn:Hn; [rewrite (drop_S reqs i n Hn) in Hq|].
  2: { apply lookup_ge_None in Hn. rewrite drop_ge in Hq by done. unfold ideintr. by rewrite (qi_chain _ _ Hq). }
  destruct (qi_req _ _ Hq i) as (b & Hi & Rb); [left|].
  destruct (ideintr_spec s i _ b Hq Hi) as (s' & E & _ & _ & Hb & _).
  exists b, (completed (media (hw s)) b), s'. split_and!; try done.
  - rewrite synced_bits. unfold completed. cbn [b_flags flags]. by rewrite !done_bits by lia.
  - rewrite has_busy. unfold completed. cbn [b_flags flags]. rewrite done_bits by lia. apply Rb.
  - pose proof (qi_work _ _ Hq i b eq_refl Hi) as Hw. unfold working in Hw. simpl. by destruct (has b B_DIRTY).
  - simpl. by intros ->.
Qed.

(** When the drive reports an error, the data is not read, but the buffer is
    marked valid all the same: its old contents pass for those of the sector. *)
Lemma ideintr_ignores_errors {H : Type} `{!Drive H} polls (s : ide H) i b h :
  idequeue s = Some i -> bufs s !! i = Some b -> has b B_DIRTY = false -> qnext b = None ->
  idewait polls true (hw s) = Ret (-1, h) ->
  exists s' b', ideintr polls s = Ret s' /\ bufs s' !! i = Some b' /\ synced b' = true /\ data b' = data b.
Proof.
  intros Hq Hi Hd Hn Hw. unfold ideintr. rewrite Hq, (aget_Some _ _ _ Hi). cbn [mbind outcome_bind].
  unfold receive. rewrite Hd. cbn [set_queue hw]. rewrite Hw. cbn [mbind outcome_bind]. simpl. rewrite Hn.
  eexists _, _. split; [done|]. simpl. rewrite list_lookup_insert_eq by (by eapply lookup_lt_Some).
  split; [done|]. split; [|done]. rewrite synced_bits. cbn [b_flags flags]. by rewrite !done_bits by lia.
Qed.

(** ** A drive that keeps the promise *)

Record ata := Ata { reg3 : Z; reg4 : Z; reg5 : Z; reg6 : Z; stored : gmap (Z * Z) (list Z); ready : option (Z * Z) }.
Definition ata_addr (h : ata) : Z * Z := (unit_of (reg6 h), lba (reg3 h) (reg4 h) (reg5 h) (reg6 h)).
Definition ata_media (h : ata) (u k : Z) : list Z :=
  match stored h !! (u, k) with
  | Some l => if decide (length l = 512%nat) then l else replicate 512 0
  | None => replicate 512 0
  end.

#[export] Instance ata_drive : Drive ata := {
  inb _ h := (IDE_DRDY, h);
  outb port v h :=
    if port =? 0x1f3 then Ata v (reg4 h) (reg5 h) (reg6 h) (stored h) (ready h)
    else if port =? 0x1f4 then Ata (reg3 h) v (reg5 h) (reg6 h) (stored h) (ready h)
    else if port =? 0x1f5 then Ata (reg3 h) (reg4 h) v (reg6 h) (stored h) (ready h)
    else if port =? 0x1f6 then Ata (reg3 h) (reg4 h) (reg5 h) v (stored h) (ready h)
    else if (port =? 0x1f7) && (v =? IDE_CMD_READ)
    then Ata (reg3 h) (reg4 h) (reg5 h) (reg6 h) (stored h) (Some (ata_addr h))
    else h;
  insl _ _ h := (match ready h with Some (u, k) => ata_media h u k | None => [] end, h);
  outsl _ l h := Ata (reg3 h) (reg4 h) (reg5 h) (reg6 h) (<[ata_addr h := l]> (stored h)) (ready h)
}.

#[export] Instance ata_spec : DriveSpec ata 1.
Proof.
  refine {| media := ata_media; reading := ready |}.
  - intros h u k. unfold ata_media. destruct (stored h !! _); [case_decide; [done|]|]; apply length_replicate.
  - intros h. by exists IDE_DRDY, h.
  - intros h b0 b1 b2 b3 l _ _ _ _ Hl u k. unfold ata_media. simpl. case_decide as E.
    + destruct E as [-> ->]. rewrite lookup_insert_eq, decide_True by done. done.
    + rewrite lookup_insert_ne; [done|]. unfold ata_addr. simpl. intros [= <- <-]. by apply E.
  - intros h b0 b1 b2 b3 _ _ _ _. done.
  - intros h u k E. exists h. simpl in *. by rewrite E.
Defined.

(** A write and a read of the same sector: the read gets what was written. *)
Definition demo_bufs : list buf :=
  [Buf 5 1 29 None None None (replicate 512 7); Buf 1 1 29 None None None (replicate 512 0)].
Definition demo0 : ide ata := Ide demo_bufs None true (Ata 0 0 0 0 ∅ None).
Definition ret (d : ide ata) (o : outcome (ide ata)) : ide ata := match o with Ret s => s | _ => d end.
Definition demo1 : ide ata := ret demo0 (iderw 1 0 demo0).
Definition demo2 : ide ata := ret demo0 (iderw 1 1 demo1).
Definition demo3 : ide ata := ret demo0 (ideintr 1 demo2).

Lemma ide_fifo_witness :
  exists b b' s', ideintr 1 demo3 = Ret s' /\ bufs demo3 !! 1%nat = Some b /\
    bufs s' = <[1%nat := b']> (bufs demo3) /\ data b' = replicate 512 7.
Proof.
  assert (R : irun 1 demo0 [0; 1]%nat 1 demo3).
  { apply (irun_intr (polls := 1) demo0 [0; 1]%nat 0 demo2); [|reflexivity].
    apply (irun_iderw (polls := 1) demo0 [0%nat] 0 demo1 1 (Buf 1 1 29 None None None (replicate 512 0)));
      [|by apply (bool_decide_unpack _)|reflexivity| |reflexivity].
    - apply (irun_iderw (polls := 1) demo0 [] 0 demo0 0 (Buf 5 1 29 None None None (replicate 512 7)));
        [apply irun_start|by apply (bool_decide_unpack _)|reflexivity| |reflexivity].
      split; vm_compute; auto. split; congruence.
    - split; vm_compute; auto. split; congruence. }
  destruct (ide_fifo (polls := 1) demo0 [0; 1]%nat 1 demo3 eq_refl R) as (_ & _ & b & b' & s' & Hb & E & Hs & _ & _ & _ & Hd & _).
  exists b, b', s'. split_and!; [done..|]. injection Hb as <-. rewrite Hd. vm_compute. reflexivity.
Defined.
