(* ===== verification/Bootmain.v ===== *)
(** * The boot loader (kernel/bootmain.c)

    [bootmain] reads the first page of the kernel image from the disk, which
    starts at sector 1, and loads the program segments that its headers name.
    It reads whole sectors, so it also stores bytes before and after what was
    asked for; the headers are read from the same memory that the segments
    are loaded into.

    The drive is the class of Ide.v, with one more documented fact: a read
    command needs no write to the device control register before it.  The
    main theorem says under which layout of the segments the loader is right:
    they lie above the scratch page and are listed in increasing order, far
    enough apart that the bytes read before a segment do not reach back. *)

From S2P Require Import Prelude Memory Fs FsData Ide.

Definition SECTSIZE : Z := 512.
Definition ELF_MAGIC : Z := 0x464C457F.
Definition scratch : Z := 0x10000.

(** The fields of [struct elfhdr] and [struct proghdr] in memory. *)
Definition magic (m : memory) (elf : Z) : Z := load32 m elf.
Definition entry (m : memory) (elf : Z) : Z := load32 m (elf + 24).
Definition phoff (m : memory) (elf : Z) : Z := load32 m (elf + 28).
Definition phnum (m : memory) (elf : Z) : Z := load16 m (elf + 44).
Definition PROGHDR_SIZE : Z := 32.
Definition p_offset (m : memory) (ph : Z) : Z := load32 m (ph + 4).
Definition p_va (m : memory) (ph : Z) : Z := load32 m (ph + 8).
Definition p_filesz (m : memory) (ph : Z) : Z := load32 m (ph + 16).
Definition p_memsz (m : memory) (ph : Z) : Z := load32 m (ph + 20).

Section Loader.
Context {H : Type} `{!Drive H} (polls : nat).

Definition waitdisk (h : H) : outcome H := '(_, h) ← poll polls h; Ret h.

(** The command that [readsect] issues. *)
Definition read_command (offset : Z) (h : H) : H :=
  outb 0x1F7 0x20 (outb 0x1F6 (u8 (Z.lor (Z.shiftr offset 24) 0xE0)) (outb 0x1F5 (u8 (Z.shiftr offset 16))
    (outb 0x1F4 (u8 (Z.shiftr offset 8)) (outb 0x1F3 (u8 offset) (outb 0x1F2 1 h))))).

Definition readsect (dst offset : Z) (s : memory * H) : outcome (memory * H) :=
  h ← waitdisk s.2;
  h ← waitdisk (read_command offset h);
  let (l, h) := insl 0x1F0 (SECTSIZE / 4) h in
  Ret (wr_bytes s.1 dst l, h).

Fixpoint readseg_loop (fuel : nat) (va eva offset : Z) (s : memory * H) : outcome (memory * H) :=
  if va <? eva then
    match fuel with
    | O => Undef "loop bound"
    | S fuel => s ← readsect va offset s; readseg_loop fuel (u32 (va + SECTSIZE)) eva (u32 (offset + 1)) s
    end
  else Ret s.

(** [readseg(va, count, offset)]; a round for every sector that the bytes touch. *)
Definition readseg (va count offset : Z) (s : memory * H) : outcome (memory * H) :=
  readseg_loop (Z.to_nat (count / SECTSIZE) + 2) (u32 (va - offset mod SECTSIZE)) (u32 (va + count))
    (u32 (offset / SECTSIZE + 1)) s.

(** The body of the loop over the program headers. *)
Definition load_segment (ph : Z) (s : memory * H) : outcome (memory * H) :=
  let va := p_va s.1 ph in
  s' ← readseg va (p_filesz s.1 ph) (p_offset s.1 ph) s;
  let m := s'.1 in
  if p_filesz m ph <? p_memsz m ph
  then Ret (memset m (u32 (va + p_filesz m ph)) 0 (p_memsz m ph - p_filesz m ph), s'.2)
  else Ret s'.

Fixpoint load_segments (fuel : nat) (ph eph : Z) (s : memory * H) : outcome (memory * H) :=
  if ph <? eph then
    match fuel with
    | O => Undef "loop bound"
    | S fuel => s ← load_segment ph s; load_segments fuel (u32 (ph + PROGHDR_SIZE)) eph s
    end
  else Ret s.

(** [bootmain()]: the address it jumps to, or none when it returns. *)
Definition bootmain (s : memory * H) : outcome (option Z * (memory * H)) :=
  s ← readseg scratch 4096 0 s;
  if negb (magic s.1 scratch =? ELF_MAGIC) then Ret (None, s)
  else
    let ph := u32 (scratch + phoff s.1 scratch) in
    let n := phnum s.1 scratch in
    s ← load_segments (Z.to_nat n) ph (u32 (ph + PROGHDR_SIZE * n)) s;
    Ret (Some (entry s.1 scratch), s).
End Loader.

(** A read command works without the device control register. *)
Class BootDrive (H : Type) `{DS : DriveSpec H polls} := {
  boot_read : forall (h : H) b0 b1 b2 b3,
    is_u8 b0 -> is_u8 b1 -> is_u8 b2 -> 0xe0 <= b3 <= 0xff ->
    let h' := outb 0x1f7 0x20 (outb 0x1f6 b3 (outb 0x1f5 b2 (outb 0x1f4 b1 (outb 0x1f3 b0 (outb 0x1f2 1 h))))) in
    (forall u k, media h' u k = media h u k) /\ reading h' = Some (unit_of b3, lba b0 b1 b2 b3)
}.

#[export] Instance ata_boot : BootDrive ata.
Proof. split. intros h b0 b1 b2 b3 _ _ _ _. done. Defined.

(** ** Sectors *)

Lemma wr_bytes_u8 l : forall m a, wr_bytes m a (u8 <$> l) = wr_bytes m a l.
Proof.
  induction l as [|x l IH]; intros m a; cbn [fmap list_fmap wr_bytes]; [done|]. rewrite IH.
  unfold wr8. by rewrite u8_u8.
Qed.

(** The bytes of a store of arbitrary numbers. *)
Lemma rd8_wr_list m a l x :
  rd8 (wr_bytes m a l) x = if decide (a <= x < a + Z.of_nat (length l)) then u8 (nth (Z.to_nat (x - a)) l 0) else rd8 m x.
Proof.
  rewrite <- wr_bytes_u8, rd8_wr_bytes, length_fmap; [|apply Forall_fmap, Forall_forall; intros; apply u8_range].
  case_decide; [|done]. rewrite !nth_lookup, list_lookup_fmap. by destruct (l !! _).
Qed.

Lemma lba_offset o :
  0 <= o < 2 ^ 28 ->
  let b3 := u8 (Z.lor (Z.shiftr o 24) 0xE0) in
  0xe0 <= b3 <= 0xff /\ unit_of b3 = 0 /\ lba (u8 o) (u8 (Z.shiftr o 8)) (u8 (Z.shiftr o 16)) b3 = o.
Proof.
  intros Ho b3. assert (Hh : 0 <= Z.shiftr o 24 < 16) by (rewrite Z.shiftr_div_pow2 by lia; dm).
  assert (E : b3 = 0xE0 + Z.shiftr o 24).
  { unfold b3. revert Hh. generalize (Z.shiftr o 24). intros x Hx.
    pose proof (forall_range (fun x => u8 (Z.lor x 0xE0) =? 0xE0 + x) 0 16 eq_refl x ltac:(lia)) as E. by apply Z.eqb_eq in E. }
  rewrite E. split; [lia|]. split.
  - unfold unit_of. revert Hh. generalize (Z.shiftr o 24). intros x Hx.
    pose proof (forall_range (fun x => Z.land (Z.shiftr (0xE0 + x) 4) 1 =? 0) 0 16 eq_refl x ltac:(lia)) as E0. by apply Z.eqb_eq in E0.
  - unfold lba. assert (Z.land (0xE0 + Z.shiftr o 24) 0x0f = Z.shiftr o 24) as ->.
    { revert Hh. generalize (Z.shiftr o 24). intros x Hx.
      pose proof (forall_range (fun x => Z.land (0xE0 + x) 0x0f =? x) 0 16 eq_refl x ltac:(lia)) as E0. by apply Z.eqb_eq in E0. }
    unfold u8. rewrite !Z.shiftr_div_pow2 by lia. dm.
Qed.

Section Loaded.
Context {H : Type} `{DS : DriveSpec H polls} `{!BootDrive H}.

(** Byte [x] of the kernel image, which starts at sector 1 of disk 0. *)
Definition kbyte (h : H) (x : Z) : Z := u8 (nth (Z.to_nat (x mod SECTSIZE)) (media h 0 (x / SECTSIZE + 1)) 0).

Definition same_disk (h h' : H) : Prop := forall u k, media h' u k = media h u k.

Lemma kbyte_same h h' x : same_disk h h' -> kbyte h' x = kbyte h x.
Proof. intros E. unfold kbyte. by rewrite E. Qed.

Lemma waitdisk_spec (h : H) : exists h', waitdisk polls h = Ret h' /\ same_disk h h' /\ reading h' = reading h.
Proof.
  unfold waitdisk. destruct (poll_ok h) as (r & h' & -> & _ & Hm & Hr). cbn [mbind outcome_bind]. eauto.
Qed.

Lemma readsect_spec dst k m (h : H) :
  0 <= k < 2 ^ 28 ->
  exists m' h', readsect polls dst k (m, h) = Ret (m', h') /\ same_disk h h' /\
    forall a, rd8 m' a = if decide (dst <= a < dst + SECTSIZE) then u8 (nth (Z.to_nat (a - dst)) (media h 0 k) 0) else rd8 m a.
Proof.
  intros Hk. unfold readsect. cbn [fst snd]. destruct (waitdisk_spec h) as (h1 & -> & E1 & _). cbn [mbind outcome_bind].
  destruct (lba_offset k Hk) as (Hb3 & Hu & Hl).
  destruct (boot_read h1 (u8 k) (u8 (Z.shiftr k 8)) (u8 (Z.shiftr k 16)) (u8 (Z.lor (Z.shiftr k 24) 0xE0))
    (u8_range _) (u8_range _) (u8_range _) Hb3) as (E2 & Hr). fold (read_command k h1) in E2, Hr. rewrite Hu, Hl in Hr.
  destruct (waitdisk_spec (read_command k h1)) as (h2 & -> & E3 & Hr2). cbn [mbind outcome_bind]. rewrite Hr in Hr2.
  destruct (insl_ok h2 0 k Hr2) as (h3 & Ei & E4). change (SECTSIZE / 4) with 128. rewrite Ei.
  eexists _, h3. split; [reflexivity|]. split; [intros u j; by rewrite E4, E3, E2, E1|].
  intros a. rewrite rd8_wr_list, media_len. change (Z.of_nat 512) with SECTSIZE. by rewrite E3, E2, E1.
Qed.

Lemma readseg_loop_spec n : forall fuel va eva k m (h : H),
  (n <= fuel)%nat -> eva <= va + 512 * Z.of_nat n -> (n <> 0%nat -> va + 512 * (Z.of_nat n - 1) < eva) ->
  0 <= va -> va + 512 * Z.of_nat n < 2 ^ 32 -> 1 <= k -> k + Z.of_nat n <= 2 ^ 28 ->
  exists m' h', readseg_loop polls fuel va eva k (m, h) = Ret (m', h') /\ same_disk h h' /\
    forall a, rd8 m' a = if decide (va <= a < va + 512 * Z.of_nat n) then kbyte h (512 * (k - 1) + (a - va)) else rd8 m a.
Proof.
  induction n as [|n IH]; intros fuel va eva k m h Hf He Hlt Hva Hw Hk Hk2.
  - exists m, h. split; [|split; [done|intros a; by rewrite decide_False by lia]].
    destruct fuel; cbn [readseg_loop]; rewrite (proj2 (Z.ltb_ge va eva)) by lia; done.
  - destruct fuel as [|fuel]; [lia|]. cbn [readseg_loop]. rewrite (proj2 (Z.ltb_lt va eva)) by lia.
    destruct (readsect_spec va k m h ltac:(lia)) as (m1 & h1 & -> & E1 & H1). cbn [mbind outcome_bind].
    unfold SECTSIZE in *. rewrite !u32_small by (unfold is_u32; lia).
    destruct (IH fuel (va + 512) eva (k + 1) m1 h1) as (m' & h' & -> & E2 & H2); try lia.
    exists m', h'. split; [done|]. split; [intros u j; by rewrite E2, E1|].
    intros a. rewrite H2, H1, (kbyte_same h h1) by done. destruct (decide (va + 512 <= a < _)).
    + rewrite decide_True by lia. f_equal. lia.
    + destruct (decide (va <= a < va + 512)) as [Ha|Ha]; [rewrite decide_True by lia|by rewrite decide_False by lia].
      unfold kbyte, SECTSIZE. do 2 f_equal; [do 2 f_equal; dm|f_equal; dm].
Qed.

(** [readseg] stores the sectors that the bytes touch. *)
Lemma readseg_spec va count off m (h : H) :
  let r := off mod 512 in let n := (count + r + 511) / 512 in
  0 <= count -> 0 <= off -> r <= va -> va + count + 512 < 2 ^ 32 -> off + count < 2 ^ 32 ->
  exists m' h', readseg polls va count off (m, h) = Ret (m', h') /\ same_disk h h' /\
    forall a, rd8 m' a = if decide (va - r <= a < va - r + 512 * n) then kbyte h (off + (a - va)) else rd8 m a.
Proof.
  intros r n Hc Ho Hr Hw Hf. unfold readseg, SECTSIZE. fold r.
  assert (0 <= r < 512) by (unfold r; dm). assert (0 <= n) by (unfold n; dm).
  rewrite !u32_small by (unfold is_u32; dm).
  destruct (readseg_loop_spec (Z.to_nat n) (Z.to_nat (count / 512) + 2) (va - r) (va + count) (off / 512 + 1) m h)
    as (m' & h' & -> & E & Hm); rewrite ?Z2Nat.id; try (unfold n; dm).
  exists m', h'. split; [done|]. split; [done|]. intros a. rewrite Hm, Z2Nat.id by done. case_decide; [|done].
  f_equal. unfold r. dm.
Qed.

(** ** Segments *)

Definition kword (h : H) (x : Z) : Z :=
  kbyte h x + 2 ^ 8 * kbyte h (x + 1) + 2 ^ 16 * kbyte h (x + 2) + 2 ^ 24 * kbyte h (x + 3).
Definition khalf (h : H) (x : Z) : Z := kbyte h x + 2 ^ 8 * kbyte h (x + 1).

(** The segment that the program header at offset [x] of the image names. *)
Record seg := Seg { s_off : Z; s_va : Z; s_file : Z; s_mem : Z }.
Definition kseg (h : H) (x : Z) : seg :=
  Seg (kword h (x + 4)) (kword h (x + 8)) (kword h (x + 16)) (kword h (x + 20)).
Definition segments (h : H) : list seg :=
  (fun i => kseg h (kword h 28 + PROGHDR_SIZE * i)) <$> seqZ 0 (khalf h 44).

Definition s_end (s : seg) : Z := s_va s + Z.max (s_file s) (s_mem s).

(** The segments are above [lo], in increasing order, and the bytes of the
    sector before a segment do not reach back into the one before. *)
Fixpoint laid_out (lo : Z) (l : list seg) : Prop :=
  match l with
  | [] => True
  | s :: l => lo <= s_va s - s_off s mod 512 /\ s_end s + 512 < 2 ^ 32 /\ s_off s + s_file s < 2 ^ 32 /\ laid_out (s_end s) l
  end.

(** The segment is in memory, the rest of it zero. *)
Definition loaded (h : H) (m : memory) (s : seg) : Prop :=
  (forall j, 0 <= j < s_file s -> rd8 m (s_va s + j) = kbyte h (s_off s + j)) /\
  (forall j, s_file s <= j < s_mem s -> rd8 m (s_va s + j) = 0).

(** The scratch page holds the start of the image. *)
Definition headers (h : H) (m : memory) : Prop :=
  forall a, scratch <= a < scratch + 4096 -> rd8 m a = kbyte h (a - scratch).

Lemma kbyte_range h x : is_u8 (kbyte h x).
Proof. apply u8_range. Qed.

Lemma kword_range h x : is_u32 (kword h x).
Proof.
  unfold kword, is_u32. pose proof (kbyte_range h x). pose proof (kbyte_range h (x + 1)).
  pose proof (kbyte_range h (x + 2)). pose proof (kbyte_range h (x + 3)). unfold is_u8 in *. lia.
Qed.

Lemma khalf_nonneg h x : 0 <= khalf h x.
Proof.
  unfold khalf. pose proof (kbyte_range h x). pose proof (kbyte_range h (x + 1)). unfold is_u8 in *. lia.
Qed.

Lemma headers_word h m x : headers h m -> 0 <= x -> x + 4 <= 4096 -> load32 m (scratch + x) = kword h x.
Proof.
  intros Hh H0 H1. unfold load32, kword. rewrite !Hh by lia.
  repeat (f_equal; try lia); f_equal; lia.
Qed.

Lemma load_segment_spec h0 x m (h : H) :
  let s := kseg h0 x in
  same_disk h0 h -> headers h0 m -> 0 <= x -> x + 32 <= 4096 -> laid_out (scratch + 4096) [s] ->
  exists m' h', load_segment polls (scratch + x) (m, h) = Ret (m', h') /\ same_disk h0 h' /\ loaded h0 m' s /\
    forall a, a < s_va s - s_off s mod 512 -> rd8 m' a = rd8 m a.
Proof.
  intros s Hd Hh Hx Hx2 (Hlo & Hend & Hoff & _).
  assert (Hf : forall m, headers h0 m -> p_offset m (scratch + x) = s_off s /\ p_va m (scratch + x) = s_va s /\
    p_filesz m (scratch + x) = s_file s /\ p_memsz m (scratch + x) = s_mem s).
  { intros m1 H1. unfold p_offset, p_va, p_filesz, p_memsz. rewrite <- !Z.add_assoc. rewrite !(headers_word h0) by (done || lia). done. }
  pose proof (kword_range h0 (x + 4)) as R1. pose proof (kword_range h0 (x + 16)) as R2. pose proof (kword_range h0 (x + 20)) as R3.
  change (is_u32 (s_off s)) in R1. change (is_u32 (s_file s)) in R2. change (is_u32 (s_mem s)) in R3.
  unfold is_u32, s_end, scratch in *. destruct (Hf m Hh) as (E1 & E2 & E3 & _). unfold load_segment. cbn [fst snd].
  unfold scratch in *. rewrite E1, E2, E3.
  destruct (readseg_spec (s_va s) (s_file s) (s_off s) m h) as (m1 & h1 & -> & D1 & H1); [lia|lia|dm|lia|lia|].
  cbn [mbind outcome_bind fst snd]. set (r := s_off s mod 512) in *. assert (0 <= r < 512) by (unfold r; dm).
  assert (Hh1 : headers h0 m1). { intros a Ha. unfold scratch in Ha. rewrite H1, decide_False by lia. by apply Hh. }
  destruct (Hf m1 Hh1) as (_ & _ & E5 & E6). unfold scratch in E5, E6. rewrite E5, E6.
  assert (Hbytes : forall j, 0 <= j < s_file s -> rd8 m1 (s_va s + j) = kbyte h0 (s_off s + j)).
  { intros j Hj. rewrite H1, decide_True by dm. rewrite (kbyte_same h0 h) by done. f_equal. lia. }
  destruct (Z.ltb_spec (s_file s) (s_mem s)) as [Hlt|Hge].
  - eexists _, h1. split; [reflexivity|]. split; [intros u k; by rewrite D1, Hd|].
    rewrite u32_small by (unfold is_u32; lia). split; [split|].
    + intros j Hj. rewrite rd8_memset, decide_False by lia. auto.
    + intros j Hj. rewrite rd8_memset, decide_True by lia. done.
    + intros a Ha. rewrite rd8_memset, decide_False, H1, decide_False by lia. done.
  - exists m1, h1. split; [done|]. split; [intros u k; by rewrite D1, Hd|]. split; [split; [done|intros; lia]|].
    intros a Ha. by rewrite H1, decide_False by lia.
Qed.

Definition segs_from (h : H) (x : Z) (n : nat) : list seg :=
  (fun i => kseg h (x + PROGHDR_SIZE * i)) <$> seqZ 0 (Z.of_nat n).

Lemma segs_from_S h x n : segs_from h x (S n) = kseg h x :: segs_from h (x + PROGHDR_SIZE) n.
Proof.
  unfold segs_from. rewrite seqZ_cons by lia. cbn [fmap list_fmap]. rewrite Z.mul_0_r, Z.add_0_r. f_equal.
  replace (Z.pred (Z.of_nat (S n))) with (Z.of_nat n) by lia. change (Z.succ 0) with (1 + 0).
  rewrite <- (fmap_add_seqZ 1), <- list_fmap_compose.
  apply list_fmap_ext. intros i y _. unfold compose, PROGHDR_SIZE. f_equal. lia.
Qed.

Lemma load_segments_spec h0 n : forall x lo m (h : H),
  same_disk h0 h -> headers h0 m -> 0 <= x -> x + 32 * Z.of_nat n <= 4096 ->
  scratch + 4096 <= lo -> laid_out lo (segs_from h0 x n) ->
  exists m' h', load_segments polls n (scratch + x) (scratch + x + 32 * Z.of_nat n) (m, h) = Ret (m', h') /\
    same_disk h0 h' /\ Forall (loaded h0 m') (segs_from h0 x n) /\ forall a, a < lo -> rd8 m' a = rd8 m a.
Proof.
  induction n as [|n IH]; intros x lo m h Hd Hh Hx Hn Hlo Hl.
  { exists m, h. cbn [load_segments]. rewrite (proj2 (Z.ltb_ge _ _)) by lia. done. }
  rewrite segs_from_S in *. destruct Hl as (Hl1 & Hl2 & Hl3 & Hl). cbn [load_segments]. rewrite (proj2 (Z.ltb_lt _ _)) by lia.
  destruct (load_segment_spec h0 x m h Hd Hh Hx ltac:(lia)) as (m1 & h1 & -> & D1 & L1 & F1); [split_and!; try done; lia|].
  cbn [mbind outcome_bind]. unfold PROGHDR_SIZE in *. set (s := kseg h0 x) in *.
  assert (0 <= s_off s mod 512) by dm. assert (s_va s <= s_end s) as Hve.
  { unfold s_end. pose proof (kword_range h0 (x + 16)) as R2. change (is_u32 (s_file s)) in R2. unfold is_u32 in R2. lia. }
  rewrite u32_small by (unfold is_u32, scratch in *; lia). replace (scratch + x + 32) with (scratch + (x + 32)) by lia.
  replace (scratch + x + 32 * Z.of_nat (S n)) with (scratch + (x + 32) + 32 * Z.of_nat n) by lia.
  destruct (IH (x + 32) (s_end s) m1 h1) as (m' & h' & -> & D2 & L2 & F2); [done| |lia|lia|lia|done|].
  { intros a Ha. rewrite F1 by lia. by apply Hh. }
  exists m', h'. split; [done|]. split; [done|]. split.
  - constructor; [|done]. destruct L1 as [La Lb]. split; intros j Hj; rewrite F2; unfold s_end; auto; lia.
  - intros a Ha. rewrite F2, F1 by lia. done.
Qed.

(** C27. The boot loader loads the kernel: if the image on the disk starts with
    an ELF header whose program headers lie in its first page, and the
    segments are above the scratch page, in increasing order and apart by the
    bytes that reading whole sectors adds before them, then [bootmain] returns
    the entry point of the header, every segment is in memory byte for byte
    and followed by zeros up to its size in memory, and the disk is as it was.
    An image without the magic number makes it return. *)
Theorem bootmain_loads m (h : H) :
  (kword h 0 = ELF_MAGIC -> kword h 28 + 32 * khalf h 44 <= 4096 -> laid_out (scratch + 4096) (segments h) ->
   exists m' h', bootmain polls (m, h) = Ret (Some (kword h 24), (m', h')) /\ same_disk h h' /\
     Forall (loaded h m') (segments h)) /\
  (kword h 0 <> ELF_MAGIC -> exists s, bootmain polls (m, h) = Ret (None, s)).
Proof.
  unfold bootmain.
  destruct (readseg_spec scratch 4096 0 m h) as (m1 & h1 & -> & D1 & H1); [done..|]. cbn [mbind outcome_bind fst snd].
  assert (Hh : headers h m1). { intros a Ha. rewrite H1. change (0 mod 512) with 0. change ((4096 + 0 + 511) / 512) with 8. by rewrite decide_True by lia. }
  pose proof (headers_word h m1 0 Hh ltac:(lia) ltac:(lia)) as Em. rewrite Z.add_0_r in Em. unfold magic. rewrite Em.
  split; [intros Hm Hp Hl|intros Hm; rewrite (proj2 (Z.eqb_neq _ _) Hm); simpl; eauto].
  rewrite (proj2 (Z.eqb_eq _ _) Hm). cbn [negb]. unfold phoff, phnum.
  assert (En : load16 m1 (scratch + 44) = khalf h 44). { unfold load16, khalf. rewrite !Hh by (unfold scratch; lia). done. }
  rewrite En, (headers_word h) by (done || lia). pose proof (kword_range h 28) as R. unfold is_u32 in R.
  pose proof (khalf_nonneg h 44).
  rewrite !u32_small by (unfold is_u32, scratch, PROGHDR_SIZE; lia). unfold PROGHDR_SIZE.
  destruct (load_segments_spec h (Z.to_nat (khalf h 44)) (kword h 28) (scratch + 4096) m1 h1 D1 Hh ltac:(lia) ltac:(lia) ltac:(lia))
    as (m' & h' & El & D2 & L & F).
  { unfold segs_from. rewrite Z2Nat.id by done. exact Hl. }
  rewrite Z2Nat.id in El by done. rewrite El. cbn [mbind outcome_bind fst]. exists m', h'. split.
  - unfold entry. rewrite (headers_word h); [done| |lia|lia]. intros a Ha. rewrite F by lia. by apply Hh.
  - split; [done|]. unfold segs_from in L. by rewrite Z2Nat.id in L by done.
Qed.
End Loaded.

(** ** Example: two segments *)

Definition word_bytes (x : Z) : list Z := [u8 x; u8 (x / 2 ^ 8); u8 (x / 2 ^ 16); u8 (x / 2 ^ 24)].
Definition fill (l : list Z) : list Z := l ++ replicate (512 - length l) 0.

Definition demo_header : list Z :=
  concat (word_bytes <$> [ELF_MAGIC; 0; 0; 0; 0; 0; 0x100000; 52; 0; 0; 0; 2; 0]) ++
  concat (word_bytes <$> [1; 0x200; 0x100000; 0x100000; 5; 8; 0; 0]) ++
  concat (word_bytes <$> [1; 0x408; 0x101008; 0x101008; 3; 3; 0; 0]).

Definition demo_drive : ata :=
  Ata 0 0 0 0 (<[(0, 1) := fill demo_header]> (<[(0, 2) := fill [1; 2; 3; 4; 5; 99]]>
    {[(0, 3) := fill (replicate 8 98 ++ [6; 7; 8])]})) None.

Lemma demo_segments :
  segments demo_drive = [Seg 0x200 0x100000 5 8; Seg 0x408 0x101008 3 3].
Proof. vm_compute. reflexivity. Qed.

Lemma bootmain_loads_witness :
  exists m' h', bootmain 1 (∅, demo_drive) = Ret (Some 0x100000, (m', h')) /\
    rd8 m' 0x100004 = 5 /\ rd8 m' 0x100005 = 0 /\ rd8 m' 0x101008 = 6.
Proof.
  destruct (proj1 (bootmain_loads (polls := 1) ∅ demo_drive)) as (m' & h' & E & _ & L).
  - vm_compute. reflexivity.
  - vm_compute. congruence.
  - rewrite demo_segments. vm_compute. intuition congruence.
  - exists m', h'. split; [exact E|]. rewrite demo_segments in L.
    apply Forall_cons in L as [[L1 L2] L]. apply Forall_cons in L as [[L3 _] _]. cbn [s_off s_va s_file s_mem] in *.
    split; [exact (L1 4 ltac:(lia))|]. split; [exact (L2 5 ltac:(lia))|]. exact (L3 0 ltac:(lia)).
Defined.
