(* ===== verification/Bio.v ===== *)
(** * The buffer cache (kernel/bio.c)

    [NBUF] buffers and a list head, the last one of the array, linked through
    [prev] and [next] in the order of their last use.  The parts of [bread] and
    [bwrite] that run without sleeping are steps of [bstep], and so are the
    interrupts of the disk; [astep] is what the cache promises: a store of
    sectors, of which a process can lock one, read and change its private
    copy, write it back and unlock it. *)

From S2P Require Import Prelude Ide.

Definition NBUF : nat := 10.
(** [&bcache.head] *)
Definition HEAD : nat := NBUF.

(** An update of the buffer that [p] points to. *)
Definition bupd (p : option nat) (f : buf -> buf) (l : list buf) : outcome (list buf) :=
  match p with
  | Some i => b ← aget l (Z.of_nat i); Ret (<[i := f b]> l)
  | None => Undef "null pointer"
  end.

Definition b_id (d k : Z) (b : buf) : buf := Buf (flags b) d k (prev b) (next b) (qnext b) (data b).

(** ** [binit] *)

(** One buffer is put at the front of the list. *)
Definition binit_one (i : nat) (l : list buf) : outcome (list buf) :=
  h ← aget l (Z.of_nat HEAD);
  l ← bupd (Some i) (b_next (next h)) l;
  l ← bupd (Some i) (b_prev (Some HEAD)) l;
  l ← bupd (Some i) (fun b => b_id (u32 (-1)) (sector b) b) l;
  h ← aget l (Z.of_nat HEAD);
  l ← bupd (next h) (b_prev (Some i)) l;
  bupd (Some HEAD) (b_next (Some i)) l.

Definition binit (l : list buf) : outcome (list buf) :=
  l ← bupd (Some HEAD) (b_prev (Some HEAD)) l;
  l ← bupd (Some HEAD) (b_next (Some HEAD)) l;
  iterM binit_one (seq 0 NBUF) l.

(** ** [bget] *)

(** [for(b = p; b != &bcache.head; b = b->dir)]: the first buffer that [f]
    accepts. *)
Fixpoint walk (fuel : nat) (dir : buf -> option nat) (f : buf -> bool) (p : option nat) (l : list buf)
  : outcome (option nat) :=
  match fuel with
  | O => Undef "loop bound"
  | S fuel =>
    if decide (p = Some HEAD) then Ret None
    else b ← deref l p; if f b then Ret p else walk fuel dir f (dir b) l
  end.

(** [bget] returns a buffer, or it sleeps and starts over. *)
Inductive got := Locked (i : nat) | Sleeps (i : nat).

Definition bget (d k : Z) (l : list buf) : outcome (got * list buf) :=
  h ← aget l (Z.of_nat HEAD);
  r ← walk (S NBUF) next (fun b => (dev b =? d) && (sector b =? k)) (next h) l;
  match r with
  | Some i =>
    b ← aget l (Z.of_nat i);
    if has b B_BUSY then Ret (Sleeps i, l)
    else Ret (Locked i, <[i := b_flags (Z.lor (flags b) B_BUSY) b]> l)
  | None =>
    r ← walk (S NBUF) prev (fun b => negb (has b B_BUSY)) (prev h) l;
    match r with
    | Some i => b ← aget l (Z.of_nat i); Ret (Locked i, <[i := b_flags B_BUSY (b_id d k b)]> l)
    | None => Panic "bget: no buffers"
    end
  end.

(** ** [brelse] *)

(** Take [i] out of the list and put it at the front. *)
Definition relink (i : nat) (l : list buf) : outcome (list buf) :=
  b ← aget l (Z.of_nat i);
  l ← bupd (next b) (b_prev (prev b)) l;
  b ← aget l (Z.of_nat i);
  l ← bupd (prev b) (b_next (next b)) l;
  h ← aget l (Z.of_nat HEAD);
  l ← bupd (Some i) (b_next (next h)) l;
  l ← bupd (Some i) (b_prev (Some HEAD)) l;
  h ← aget l (Z.of_nat HEAD);
  l ← bupd (next h) (b_prev (Some i)) l;
  bupd (Some HEAD) (b_next (Some i)) l.

Definition brelse (i : nat) (l : list buf) : outcome (list buf) :=
  b ← aget l (Z.of_nat i);
  if negb (has b B_BUSY) then Panic "brelse"
  else
    l ← relink i l;
    bupd (Some i) (fun b => b_flags (Z.land (flags b) (Z.lnot B_BUSY)) b) l.

(** ** [bread] and [bwrite], up to the wait in [iderw] *)

Section Disk.
Context {H : Type} `{!Drive H}.
Variable polls : nat.

Definition bread (d k : Z) (s : ide H) : outcome (got * ide H) :=
  '(r, l) ← bget d k (bufs s);
  let s := set_bufs l s in
  match r with
  | Sleeps i => Ret (Sleeps i, s)
  | Locked i =>
    b ← aget l (Z.of_nat i);
    if has b B_VALID then Ret (Locked i, s)
    else s ← iderw polls i s; Ret (Locked i, s)
  end.

Definition bmark (i : nat) (l : list buf) : outcome (list buf) :=
  b ← aget l (Z.of_nat i);
  if negb (has b B_BUSY) then Panic "bwrite"
  else Ret (<[i := b_flags (Z.lor (flags b) B_DIRTY) b]> l).

Definition bwrite (i : nat) (s : ide H) : outcome (ide H) :=
  l ← bmark i (bufs s); iderw polls i (set_bufs l s).

End Disk.

(** ** Circular lists

    [path f a xs z]: following [f] from [a] visits [xs] and arrives at [z]. *)

Fixpoint path (f : nat -> option nat) (a : nat) (xs : list nat) (z : nat) : Prop :=
  match xs with
  | [] => f a = Some z
  | x :: xs => f a = Some x /\ path f x xs z
  end.

Fixpoint lastof (a : nat) (xs : list nat) : nat :=
  match xs with [] => a | x :: xs => lastof x xs end.

Definition upd (f : nat -> option nat) (p : nat) (v : option nat) : nat -> option nat :=
  fun a => if decide (p = a) then v else f a.

Lemma path_app f a l1 i l2 z : path f a (l1 ++ i :: l2) z <-> path f a l1 i /\ path f i l2 z.
Proof. revert a. induction l1 as [|x l1 IH]; intros a; simpl; [done|]. rewrite IH. tauto. Qed.

Lemma path_agree f f' a xs z : (forall x, x ∈ a :: xs -> f' x = f x) -> path f a xs z -> path f' a xs z.
Proof.
  revert a. induction xs as [|x xs IH]; intros a E; simpl; rewrite E by left; [done|].
  intros [-> Hp]. split; [done|]. apply IH; [|done]. intros y Hy. apply E. by right.
Qed.

(** The element before [z]. *)
Lemma path_last f a xs z : path f a xs z -> f (lastof a xs) = Some z.
Proof. revert a. induction xs as [|x xs IH]; intros a; [done|]. intros [_ Hp]. by apply IH. Qed.

Lemma last_elem (xs : list nat) a : lastof a xs ∈ a :: xs.
Proof. revert a. induction xs as [|x xs IH]; intros a; [left|]. right. apply IH. Qed.

Lemma lastof_app a xs x : lastof a (xs ++ [x]) = x.
Proof. revert a. induction xs; intros; simpl; auto. Qed.

(** Redirecting the last step. *)
Lemma path_redirect f a xs z z' :
  NoDup (a :: xs) -> path f a xs z -> path (upd f (lastof a xs) (Some z')) a xs z'.
Proof.
  revert a. induction xs as [|x xs IH]; intros a Hn; simpl.
  - intros _. unfold upd. by rewrite decide_True.
  - intros [Ha Hp]. apply NoDup_cons in Hn as [Hna Hn]. split.
    + unfold upd. rewrite decide_False; [done|]. intros E. apply Hna. rewrite <- E. apply last_elem.
    + by apply IH.
Qed.

(** Taking [i] out of the list. *)
Lemma path_unlink f a l1 i l2 z :
  NoDup (a :: l1 ++ i :: l2) -> path f a (l1 ++ i :: l2) z ->
  path (upd f (lastof a l1) (f i)) a (l1 ++ l2) z.
Proof.
  intros Hn Hp. apply path_app in Hp as [H1 H2].
  rewrite app_comm_cons in Hn. apply NoDup_app in Hn as (N1 & N2 & N3).
  destruct l2 as [|j l2]; simpl in H2.
  - rewrite app_nil_r, H2. by apply (path_redirect _ _ _ i).
  - destruct H2 as [-> H2]. apply path_app. split; [by apply (path_redirect _ _ _ i)|].
    apply (path_agree f); [|done]. intros x Hx. unfold upd. rewrite decide_False; [done|].
    intros <-. apply (N2 _ (last_elem l1 a)). by right.
Qed.

(** Putting [i] at the front. *)
Lemma path_push f a i xs z : i <> a -> a ∉ xs -> i ∉ xs -> path f a xs z ->
  path (upd (upd f i (f a)) a (Some i)) a (i :: xs) z.
Proof.
  intros Hia Ha Hi Hp. simpl. split; [unfold upd; by rewrite decide_True|].
  destruct xs as [|x xs]; simpl in *.
  - unfold upd. by rewrite decide_False, decide_True by done.
  - destruct Hp as [Hx Hp]. apply not_elem_of_cons in Ha as [Ha1 Ha2], Hi as [Hi1 Hi2].
    split; [unfold upd; by rewrite decide_False, decide_True by done|].
    apply (path_agree f); [|done]. intros y Hy. unfold upd.
    rewrite !decide_False; [done| |]; intros <-; apply elem_of_cons in Hy as [|]; done.
Qed.

(** Putting [i] at the end: what the front is for the other direction. *)
Lemma path_snoc f a i xs z : i <> z -> NoDup (a :: xs) -> i ∉ a :: xs -> path f a xs z ->
  path (upd (upd f i (Some z)) (lastof a xs) (Some i)) a (xs ++ [i]) z.
Proof.
  intros Hiz Hn Hi Hp. apply path_app. split.
  - apply (path_redirect _ _ _ z); [done|]. apply (path_agree f); [|done].
    intros x Hx. unfold upd. rewrite decide_False; [done|]. by intros ->.
  - simpl. unfold upd. rewrite decide_False, decide_True; [done..|]. intros E. apply Hi. rewrite <- E. apply last_elem.
Qed.

Lemma path_first f a xs z : path f a xs z -> f a = Some (lastof z (rev xs)).
Proof. destruct xs as [|x xs]; simpl; [done|]. rewrite lastof_app. tauto. Qed.

Lemma path_first_elem f a xs z m : path f a xs z -> f a = Some m -> m = z \/ m ∈ xs.
Proof. destruct xs as [|x xs]; simpl; [intros ->|intros [-> _]]; intros [= <-]; [by left|right; left]. Qed.

(** Putting [i] at the front of both lists. *)
Lemma path_front f g f' g' i xs m :
  path f HEAD xs HEAD -> path g HEAD (rev xs) HEAD -> NoDup (HEAD :: i :: xs) -> f HEAD = Some m ->
  (forall x, f' x = upd (upd f i (Some m)) HEAD (Some i) x) ->
  (forall x, g' x = upd (upd g i (Some HEAD)) m (Some i) x) ->
  path f' HEAD (i :: xs) HEAD /\ path g' HEAD (rev (i :: xs)) HEAD.
Proof.
  intros Pf Pg Hn Hm Hf Hg. pose proof (path_first _ _ _ _ Pf) as Em. rewrite Hm in Em. injection Em as ->.
  apply NoDup_cons in Hn as [Hh Hn]. apply NoDup_cons in Hn as [Hi Hn].
  apply not_elem_of_cons in Hh as [Hhi Hh]. split.
  - eapply path_agree; [intros x _; apply Hf|]. rewrite <- Hm. by apply path_push.
  - eapply path_agree; [intros x _; apply Hg|]. apply path_snoc; [done| | |done].
    + rewrite <- Permutation_rev. by apply NoDup_cons.
    + rewrite <- Permutation_rev. by apply not_elem_of_cons.
Qed.

(** ** The list of buffers *)

Definition nx (l : list buf) (a : nat) : option nat := l !! a ≫= next.
Definition pv (l : list buf) (a : nat) : option nat := l !! a ≫= prev.
(** What a buffer holds besides the links. *)
Definition core (b : buf) := (flags b, dev b, sector b, qnext b, data b).

(** [lru]: the buffers, most recently used first. *)
Record dll (l : list buf) (lru : list nat) : Prop := {
  dll_next : path (nx l) HEAD lru HEAD;
  dll_prev : path (pv l) HEAD (rev lru) HEAD;
  dll_perm : lru ≡ₚ seq 0 NBUF;
  dll_len : length l = S NBUF
}.

Lemma dll_elem l lru i : dll l lru -> i ∈ lru <-> (i < NBUF)%nat.
Proof. intros D. rewrite (dll_perm _ _ D), elem_of_seq. lia. Qed.

Lemma dll_nodup l lru : dll l lru -> NoDup (HEAD :: lru).
Proof.
  intros D. apply NoDup_cons. split.
  - intros Hi%(dll_elem _ _ _ D). unfold HEAD in Hi. lia.
  - rewrite (dll_perm _ _ D). apply NoDup_seq.
Qed.

Lemma bupd_next p v l : (p < length l)%nat -> exists l', bupd (Some p) (b_next v) l = Ret l' /\
  length l' = length l /\ (forall x, nx l' x = upd (nx l) p v x) /\ (forall x, pv l' x = pv l x) /\
  (forall x, core <$> l' !! x = core <$> l !! x).
Proof.
  intros [b Hp]%lookup_lt_is_Some. unfold bupd. rewrite (aget_Some _ _ _ Hp). simpl.
  eexists. split; [done|]. rewrite length_insert. split; [done|]. unfold nx, pv, upd.
  assert (Hl := lookup_lt_Some _ _ _ Hp).
  split_and!; intros x; destruct (decide (p = x)) as [<-|]; rewrite ?list_lookup_insert_eq, ?Hp, ?list_lookup_insert_ne by done; done.
Qed.

Lemma bupd_prev p v l : (p < length l)%nat -> exists l', bupd (Some p) (b_prev v) l = Ret l' /\
  length l' = length l /\ (forall x, nx l' x = nx l x) /\ (forall x, pv l' x = upd (pv l) p v x) /\
  (forall x, core <$> l' !! x = core <$> l !! x).
Proof.
  intros [b Hp]%lookup_lt_is_Some. unfold bupd. rewrite (aget_Some _ _ _ Hp). simpl.
  eexists. split; [done|]. rewrite length_insert. split; [done|]. unfold nx, pv, upd.
  assert (Hl := lookup_lt_Some _ _ _ Hp).
  split_and!; intros x; destruct (decide (p = x)) as [<-|]; rewrite ?list_lookup_insert_eq, ?Hp, ?list_lookup_insert_ne by done; done.
Qed.

(** Reading the links of an element. *)
Lemma nx_get l i n : nx l i = Some n -> exists b, aget l (Z.of_nat i) = Ret b /\ l !! i = Some b /\ next b = Some n.
Proof.
  unfold nx. destruct (l !! i) as [b|] eqn:E; [|done]. intros Hb. exists b. split; [by apply aget_Some|done].
Qed.

(** A change of the contents keeps the list. *)
Lemma dll_insert l lru i b b' :
  l !! i = Some b -> next b' = next b -> prev b' = prev b -> dll l lru -> dll (<[i := b']> l) lru.
Proof.
  intros Hi En Ep [D1 D2 D3 D4]. assert (Hl := lookup_lt_Some _ _ _ Hi).
  split; [apply (path_agree (nx l)); [|done]|apply (path_agree (pv l)); [|done]|done|by rewrite length_insert].
  all: intros x _; unfold nx, pv; destruct (decide (i = x)) as [<-|];
    [rewrite list_lookup_insert_eq, Hi by done; done|by rewrite list_lookup_insert_ne].
Qed.

Lemma dll_same l l' lru :
  (forall x, nx l' x = nx l x) -> (forall x, pv l' x = pv l x) -> length l' = length l -> dll l lru -> dll l' lru.
Proof.
  intros En Ep El [D1 D2 D3 D4]. split; [by apply (path_agree (nx l))|by apply (path_agree (pv l))|done|congruence].
Qed.

(** ** [brelse] moves the buffer to the front *)

Lemma pv_get l i n p : nx l i = Some n -> pv l i = Some p ->
  exists b, aget l (Z.of_nat i) = Ret b /\ next b = Some n /\ prev b = Some p.
Proof.
  unfold nx, pv. destruct (l !! i) as [b|] eqn:E; [|done]. intros Hn Hp. exists b. split; [by apply aget_Some|done].
Qed.

Lemma lastof_lt l lru (D : dll l lru) a xs : xs ⊆ lru -> (a < length l)%nat -> (lastof a xs < length l)%nat.
Proof.
  intros Hs Ha. pose proof (last_elem xs a) as [->|Hx]%elem_of_cons; [done|].
  apply Hs, (dll_elem _ _ _ D) in Hx. rewrite (dll_len _ _ D). unfold NBUF in *. lia.
Qed.

(** The neighbours of [i], and the lists without [i]. *)
Lemma dll_unlink l l1 i l2 (n := lastof HEAD (rev l2)) (p := lastof HEAD l1) :
  dll l (l1 ++ i :: l2) ->
  nx l i = Some n /\ pv l i = Some p /\ (n < length l)%nat /\ (p < length l)%nat /\ n <> i /\
  path (upd (nx l) p (Some n)) HEAD (l1 ++ l2) HEAD /\
  path (upd (pv l) n (Some p)) HEAD (rev (l1 ++ l2)) HEAD.
Proof.
  intros D. pose proof (dll_nodup _ _ D) as Hnd. pose proof (dll_next _ _ D) as Dn.
  pose proof (dll_prev _ _ D) as Dp. pose proof (dll_len _ _ D) as Hl.
  assert (E : rev (l1 ++ i :: l2) = rev l2 ++ i :: rev l1)
    by (rewrite rev_app_distr; simpl; by rewrite <- app_assoc).
  assert (Hr : NoDup (HEAD :: rev l2 ++ i :: rev l1)) by (rewrite <- E, <- Permutation_rev; done).
  rewrite E in Dp.
  destruct (proj1 (path_app _ _ _ _ _ _) Dn) as [_ Pn], (proj1 (path_app _ _ _ _ _ _) Dp) as [_ Pp].
  apply path_first in Pn as Hn, Pp as Hp. rewrite rev_involutive in Hp. fold n in Hn. fold p in Hp.
  assert (Hlen : forall x, x ∈ HEAD :: l1 ++ l2 -> (x < length l)%nat).
  { intros x Hx. rewrite Hl. assert (x ∈ HEAD :: l1 ++ i :: l2) as [->|Hx']%elem_of_cons;
      [rewrite !elem_of_cons, !elem_of_app, ?elem_of_cons in *; tauto|unfold HEAD; lia|].
    apply (dll_elem _ _ _ D) in Hx'. lia. }
  assert (Hn' : n ∈ HEAD :: rev l2) by apply last_elem. rewrite elem_of_cons, <- (Permutation_rev l2) in Hn'.
  assert (Hp' : p ∈ HEAD :: l1) by apply last_elem. rewrite elem_of_cons in Hp'.
  split_and!; [done|done| | | | |].
  - apply Hlen. rewrite elem_of_cons, elem_of_app. tauto.
  - apply Hlen. rewrite elem_of_cons, elem_of_app. tauto.
  - intros <-. apply NoDup_cons in Hnd as [N1 N2]. apply NoDup_app in N2 as (_ & _ & N3).
    apply NoDup_cons in N3 as [N3 _]. rewrite elem_of_app, elem_of_cons in N1. destruct Hn'; naive_solver.
  - rewrite <- Hn. by apply path_unlink.
  - rewrite rev_app_distr, <- Hp. by apply path_unlink.
Qed.

Lemma relink_spec l l1 i l2 :
  dll l (l1 ++ i :: l2) -> exists l', relink i l = Ret l' /\ dll l' (i :: l1 ++ l2) /\
    forall x, core <$> l' !! x = core <$> l !! x.
Proof.
  intros D. destruct (dll_unlink _ _ _ _ D) as (Hn & Hp & Ln & Lp & Ni & Pn & Pp).
  generalize dependent (lastof HEAD (rev l2)); intros n Hn Ln Ni Pn Pp.
  generalize dependent (lastof HEAD l1); intros p Hp Lp Pn Pp.
  assert (Hi : (i < NBUF)%nat) by (apply (dll_elem _ _ _ D), elem_of_app; right; left).
  pose proof (dll_nodup _ _ D) as Hnd. pose proof (dll_len _ _ D) as Hl. unfold relink.
  destruct (pv_get l i n p Hn Hp) as (b & -> & Eb1 & Eb2). cbn [mbind outcome_bind]. rewrite Eb1, Eb2.
  destruct (bupd_prev n (Some p) l Ln) as (m1 & -> & L1 & N1 & P1 & C1). cbn [mbind outcome_bind].
  destruct (pv_get m1 i n p) as (b1 & -> & Ec1 & Ec2); [by rewrite N1|rewrite P1; unfold upd; by rewrite decide_False|].
  cbn [mbind outcome_bind]. rewrite Ec1, Ec2.
  destruct (bupd_next p (Some n) m1) as (m2 & -> & L2 & N2 & P2 & C2); [lia|]. cbn [mbind outcome_bind].
  apply (path_agree _ (nx m2)) in Pn; [|intros x _; rewrite N2; unfold upd; by rewrite N1].
  apply (path_agree _ (pv m2)) in Pp; [|intros x _; by rewrite P2, P1].
  pose proof (path_first _ _ _ _ Pn) as Hm. generalize dependent (lastof HEAD (rev (l1 ++ l2))). intros m Hm.
  destruct (nx_get m2 HEAD m Hm) as (h & -> & _ & Eh). cbn [mbind outcome_bind]. rewrite Eh.
  destruct (bupd_next i (Some m) m2) as (m3 & -> & L3 & N3 & P3 & C3); [unfold NBUF in *; lia|]. cbn [mbind outcome_bind].
  destruct (bupd_prev i (Some HEAD) m3) as (m4 & -> & L4 & N4 & P4 & C4); [unfold NBUF in *; lia|]. cbn [mbind outcome_bind].
  destruct (nx_get m4 HEAD m) as (h' & -> & _ & Eh').
  { rewrite N4, N3. unfold upd. rewrite decide_False; [done|]. unfold HEAD. lia. }
  cbn [mbind outcome_bind]. rewrite Eh'.
  assert (Lm : (m < length m4)%nat).
  { replace (length m4) with (S NBUF) by lia.
    destruct (path_first_elem _ _ _ _ _ Pn Hm) as [->|Hx]; [unfold HEAD; lia|].
    assert (m ∈ l1 ++ i :: l2) as Hx' by (rewrite elem_of_app, elem_of_cons in *; tauto).
    apply (dll_elem _ _ _ D) in Hx'. lia. }
  destruct (bupd_prev m (Some i) m4 Lm) as (m5 & -> & L5 & N5 & P5 & C5). cbn [mbind outcome_bind].
  destruct (bupd_next HEAD (Some i) m5) as (m6 & -> & L6 & N6 & P6 & C6); [unfold HEAD; lia|].
  exists m6. split; [done|]. split; [|intros x; by rewrite C6, C5, C4, C3, C2, C1].
  destruct (path_front (nx m2) (pv m2) (nx m6) (pv m6) i (l1 ++ l2) m Pn Pp) as [F1 F2].
  - by rewrite Permutation_middle.
  - done.
  - intros x. rewrite N6. unfold upd. by rewrite N5, N4, N3.
  - intros x. rewrite P6, P5. unfold upd. rewrite P4. unfold upd. by rewrite P3.
  - split; [done|done| |lia]. by rewrite Permutation_middle, <- (dll_perm _ _ D).
Qed.

Lemma brelse_spec l l1 i l2 b :
  dll l (l1 ++ i :: l2) -> l !! i = Some b -> has b B_BUSY = true ->
  exists l', brelse i l = Ret l' /\ dll l' (i :: l1 ++ l2) /\
    forall x, core <$> l' !! x =
      if decide (x = i) then Some (core (b_flags (Z.land (flags b) (Z.lnot B_BUSY)) b)) else core <$> l !! x.
Proof.
  intros D Hi Hb. unfold brelse. rewrite (aget_Some _ _ _ Hi). cbn [mbind outcome_bind]. rewrite Hb. cbn [negb].
  destruct (relink_spec _ _ _ _ D) as (l' & -> & D' & C). cbn [mbind outcome_bind].
  pose proof (C i) as Ci. rewrite Hi in Ci. destruct (l' !! i) as [b'|] eqn:Hi'; [|done]. injection Ci as E1 E2 E3 E4 E5.
  unfold bupd. rewrite (aget_Some _ _ _ Hi'). cbn [mbind outcome_bind]. eexists. split; [done|].
  split; [by apply (dll_insert _ _ _ b')|]. intros x. case_decide as Hx.
  - subst x. rewrite list_lookup_insert_eq by (by eapply lookup_lt_Some). unfold core. simpl. congruence.
  - by rewrite list_lookup_insert_ne.
Qed.

(** ** The walks of [bget] *)

(** [r] is the first of [xs] that [g] accepts. *)
Definition first_of (g : buf -> bool) (l : list buf) (xs : list nat) (r : option nat) : Prop :=
  match r with
  | Some i => exists xs1 xs2 b, xs = xs1 ++ i :: xs2 /\ l !! i = Some b /\ g b = true /\
      forall j bj, j ∈ xs1 -> l !! j = Some bj -> g bj = false
  | None => forall j bj, j ∈ xs -> l !! j = Some bj -> g bj = false
  end.

Lemma walk_spec fuel dir g l a xs :
  path (fun x => l !! x ≫= dir) a xs HEAD -> HEAD ∉ xs -> (length xs < fuel)%nat ->
  exists r, walk fuel dir g (l !! a ≫= dir) l = Ret r /\ first_of g l xs r.
Proof.
  revert a xs. induction fuel as [|fuel IH]; intros a xs Hp Hh Hf; [lia|]. cbn [walk].
  destruct xs as [|x xs]; simpl in Hp; [|destruct Hp as [E Hp]].
  - rewrite Hp, decide_True by done. exists None. split; [done|]. intros j bj Hj. by apply elem_of_nil in Hj.
  - apply not_elem_of_cons in Hh as [Hh1 Hh2]. rewrite E, decide_False by congruence. unfold deref.
    destruct (l !! x) as [b|] eqn:Hx; [|destruct xs as [|y ys]; simpl in Hp; rewrite Hx in Hp; naive_solver].
    rewrite (aget_Some _ _ _ Hx). cbn [mbind outcome_bind]. destruct (g b) eqn:Hg.
    + exists (Some x). split; [done|]. exists [], xs, b. split_and!; auto. intros j bj Hj. by apply elem_of_nil in Hj.
    + destruct (IH x xs Hp Hh2) as (r & Hr & Hs); [simpl in Hf; lia|]. rewrite Hx in Hr. exists r. split; [exact Hr|].
      destruct r as [i|]; simpl in *.
      * destruct Hs as (xs1 & xs2 & bi & -> & Hi & Hgi & Hall). exists (x :: xs1), xs2, bi. split_and!; auto.
        intros j bj [->|Hj]%elem_of_cons Hbj; [congruence|eauto].
      * intros j bj [->|Hj]%elem_of_cons Hbj; [congruence|eauto].
Qed.

(** What [bget] does: the buffer of the sector when it is cached, otherwise the
    least recently used buffer that is not locked. *)
Definition same_id (d k : Z) (b : buf) : bool := (dev b =? d) && (sector b =? k).

Lemma bget_spec d k l lru :
  dll l lru ->
  match bget d k l with
  | Ret (Sleeps i, l') => l' = l /\ exists b, l !! i = Some b /\ (i < NBUF)%nat /\ same_id d k b = true /\ has b B_BUSY = true
  | Ret (Locked i, l') => exists b, l !! i = Some b /\ (i < NBUF)%nat /\ has b B_BUSY = false /\
      (same_id d k b = true /\ l' = <[i := b_flags (Z.lor (flags b) B_BUSY) b]> l \/
       (forall j bj, (j < NBUF)%nat -> l !! j = Some bj -> same_id d k bj = false) /\
       l' = <[i := b_flags B_BUSY (b_id d k b)]> l /\
       exists l1 l2, lru = l1 ++ i :: l2 /\ forall j bj, j ∈ l2 -> l !! j = Some bj -> has bj B_BUSY = true)
  | Panic _ => forall j bj, (j < NBUF)%nat -> l !! j = Some bj -> same_id d k bj = false /\ has bj B_BUSY = true
  | Undef _ => False
  end.
Proof.
  intros D. pose proof (dll_nodup _ _ D) as [Hh _]%NoDup_cons.
  assert (Hlen : length lru = NBUF) by (rewrite (dll_perm _ _ D); apply length_seq).
  assert (He : forall i, (i < NBUF)%nat <-> i ∈ lru) by (intros; symmetry; by eapply dll_elem). unfold bget.
  destruct (lookup_lt_is_Some_2 l HEAD) as [h HH]; [rewrite (dll_len _ _ D); unfold HEAD; lia|].
  rewrite (aget_Some _ _ _ HH). cbn [mbind outcome_bind].
  destruct (walk_spec (S NBUF) next (same_id d k) l HEAD lru) as (r & Hr & Hf); [apply D|done|lia|].
  rewrite HH in Hr. cbn [mbind option_bind] in Hr. unfold same_id in Hr at 1. rewrite Hr. cbn [mbind outcome_bind]. clear Hr.
  destruct r as [i|]; simpl in Hf.
  { destruct Hf as (xs1 & xs2 & b & -> & Hi & Hg & _). rewrite (aget_Some _ _ _ Hi). cbn [mbind outcome_bind].
    assert (i < NBUF)%nat by (apply He, elem_of_app; right; left).
    destruct (has b B_BUSY) eqn:Hb; [|exists b]; eauto 10. }
  destruct (walk_spec (S NBUF) prev (fun b => negb (has b B_BUSY)) l HEAD (rev lru)) as (r & Hr & Hg);
    [apply D|by rewrite <- Permutation_rev|rewrite length_rev; lia|].
  rewrite HH in Hr. cbn [mbind option_bind] in Hr. rewrite Hr. cbn [mbind outcome_bind]. clear Hr.
  destruct r as [i|]; simpl in Hg.
  - destruct Hg as (xs1 & xs2 & b & E & Hi & Hb & Hx). rewrite (aget_Some _ _ _ Hi). cbn [mbind outcome_bind].
    apply negb_true_iff in Hb. apply (f_equal (@rev nat)) in E.
    rewrite rev_involutive, rev_app_distr in E. simpl in E. rewrite <- app_assoc in E. simpl in E.
    exists b. split_and!; [done|apply He; rewrite E; apply elem_of_app; right; left|done|].
    right. split_and!; [intros j bj Hj; apply Hf; by apply He|done|].
    exists (rev xs2), (rev xs1). split; [done|]. intros j bj Hj Hbj. rewrite <- Permutation_rev in Hj.
    apply negb_false_iff. eauto.
  - intros j bj Hj Hbj. rewrite He in Hj. split; [eauto|]. apply negb_false_iff, (Hg j); [|done]. by rewrite <- Permutation_rev.
Qed.

(** ** What the cache promises

    A store of sectors.  [held]: the sectors that are locked, with the private
    copy of the process that locked each. *)
Record astate := A { store : Z -> Z -> list Z; held : gmap (Z * Z) (list Z) }.

Definition put (u k : Z) (v : list Z) (m : Z -> Z -> list Z) : Z -> Z -> list Z :=
  fun u' k' => if decide (u' = u /\ k' = k) then v else m u' k'.

Inductive astep : astate -> astate -> Prop :=
| as_lock u k a : held a !! (u, k) = None -> astep a (A (store a) (<[(u, k) := store a u k]> (held a)))
| as_set u k v v' a : held a !! (u, k) = Some v -> astep a (A (store a) (<[(u, k) := v']> (held a)))
| as_flush u k v a : held a !! (u, k) = Some v -> astep a (A (put u k v (store a)) (held a))
| as_unlock u k a : held a !! (u, k) = Some (store a u k) -> astep a (A (store a) (delete (u, k) (held a))).

(** ** How the buffers represent it *)

Definition ok_id (disk1 : bool) (d k : Z) : Prop := (d = 0 \/ d = 1 /\ disk1 = true) /\ 0 <= k < 2 ^ 28.

(** The private copy in a locked buffer; the data of a buffer that is not yet
    valid is still on the disk. *)
Definition view (m : Z -> Z -> list Z) (b : buf) : list Z :=
  if has b B_VALID then data b else m (dev b) (sector b).

Record bok (disk1 : bool) (m : Z -> Z -> list Z) (b : buf) : Prop := {
  bo_len : length (data b) = 512%nat;
  bo_id : has b B_BUSY = true -> ok_id disk1 (dev b) (sector b);
  bo_dirty : has b B_DIRTY = true -> has b B_BUSY = true /\ has b B_VALID = true;
  bo_clean : has b B_BUSY = false -> has b B_VALID = true -> data b = m (dev b) (sector b)
}.

Record sim (disk1 : bool) (l : list buf) (m : Z -> Z -> list Z) (a : astate) : Prop := {
  s_buf : forall i b, (i < NBUF)%nat -> l !! i = Some b -> bok disk1 m b;
  s_uniq : forall i j bi bj, (i < NBUF)%nat -> (j < NBUF)%nat -> l !! i = Some bi -> l !! j = Some bj ->
    ok_id disk1 (dev bi) (sector bi) -> dev bj = dev bi -> sector bj = sector bi -> j = i;
  s_store : forall u k, store a u k = m u k;
  s_held : forall u k v, held a !! (u, k) = Some v <->
    exists i b, (i < NBUF)%nat /\ l !! i = Some b /\ has b B_BUSY = true /\ dev b = u /\ sector b = k /\ v = view m b
}.

(** What [sim] depends on. *)
Definition content (b : buf) := (flags b, dev b, sector b, data b).

Lemma bok_content disk1 m b b' : content b' = content b -> bok disk1 m b -> bok disk1 m b'.
Proof.
  intros [= E1 E2 E3 E4] [B1 B2 B3 B4]. unfold has in *. split; unfold has; rewrite ?E1, ?E2, ?E3, ?E4; done.
Qed.

Lemma sim_ext disk1 l l' m a :
  (forall i, content <$> l' !! i = content <$> l !! i) -> sim disk1 l m a -> sim disk1 l' m a.
Proof.
  intros E [S1 S2 S3 S4].
  assert (G : forall l1 l2 : list buf, (forall i, content <$> l1 !! i = content <$> l2 !! i) ->
    forall i b', l1 !! i = Some b' -> exists b, l2 !! i = Some b /\ content b' = content b).
  { intros l1 l2 E' i b' Hi. specialize (E' i). rewrite Hi in E'. destruct (l2 !! i) as [b|]; [|done].
    exists b. split; [done|]. by apply (inj Some) in E'. }
  pose proof (G l l' (fun i => eq_sym (E i))) as G'. specialize (G l' l E). split.
  - intros i b' Hi Hb'. destruct (G i b' Hb') as (b & Hb & Ec). eapply bok_content; eauto.
  - intros i j bi bj Hi Hj Hbi Hbj. destruct (G i bi Hbi) as (ci & Hci & [= _ -> -> _]), (G j bj Hbj) as (cj & Hcj & [= _ -> -> _]).
    by apply (S2 i j ci cj).
  - done.
  - intros u k v. rewrite S4. split; intros (i & b & Hi & Hb & Hbusy & Hd & Hs & ->).
    + destruct (G' i b Hb) as (b' & Hb' & [= E1 E2 E3 E4]). exists i, b'. unfold view, has in *.
      rewrite <- E1, <- E2, <- E3, <- E4. done.
    + destruct (G i b Hb) as (b' & Hb' & [= E1 E2 E3 E4]). exists i, b'. unfold view, has in *.
      rewrite <- E1, <- E2, <- E3, <- E4. done.
Qed.

(** One buffer changes: the others still represent what they did. *)
Lemma sim_update disk1 l m a i b b' a' :
  sim disk1 l m a -> (i < NBUF)%nat -> l !! i = Some b -> bok disk1 m b' ->
  dev b' = dev b -> sector b' = sector b -> store a' = store a ->
  (forall u k, (u, k) <> (dev b, sector b) -> held a' !! (u, k) = held a !! (u, k)) ->
  (has b B_BUSY = true \/ ok_id disk1 (dev b) (sector b)) ->
  (forall v, held a' !! (dev b, sector b) = Some v <-> has b' B_BUSY = true /\ v = view m b') ->
  sim disk1 (<[i := b']> l) m a'.
Proof.
  intros [S1 S2 S3 S4] Hi Hb Hok Ed Es Est Hh Hid Hv. assert (Hl := lookup_lt_Some _ _ _ Hb).
  assert (Hid' : ok_id disk1 (dev b) (sector b)) by (destruct Hid; [apply (S1 i b Hi Hb)|]; done).
  assert (G : forall j bj, <[i := b']> l !! j = Some bj -> j = i /\ bj = b' \/ j <> i /\ l !! j = Some bj).
  { intros j bj. destruct (decide (i = j)) as [<-|].
    - rewrite list_lookup_insert_eq by done. intros [= <-]. by left.
    - rewrite list_lookup_insert_ne by done. right. split; [congruence|done]. }
  split.
  - intros j bj Hj Hbj. destruct (G j bj Hbj) as [[-> ->]|[_ Hbj']]; [done|eauto].
  - intros j k bj bk Hj Hk Hbj Hbk. destruct (G j bj Hbj) as [[-> ->]|[Hnj Hbj']], (G k bk Hbk) as [[-> ->]|[Hnk Hbk']]; try done.
    + rewrite Ed, Es. by apply (S2 i k b bk).
    + rewrite Ed, Es. by apply (S2 j i bj b).
    + by apply (S2 j k bj bk).
  - intros u k. by rewrite Est.
  - intros u k v. destruct (decide ((u, k) = (dev b, sector b))) as [[= -> ->]|Hne].
    + rewrite Hv. split.
      * intros [Hbusy ->]. exists i, b'. rewrite list_lookup_insert_eq by done. done.
      * intros (j & bj & Hj & Hbj & Hbusy & Hd & Hs & ->). destruct (G j bj Hbj) as [[-> ->]|[Hnj Hbj']]; [done|].
        destruct Hnj. by apply (S2 i j b bj).
    + rewrite Hh, S4 by done. split; intros (j & bj & Hj & Hbj & Hbusy & Hd & Hs & ->).
      * exists j, bj. rewrite list_lookup_insert_ne; [done|]. intros <-. congruence.
      * destruct (G j bj Hbj) as [[-> ->]|[Hnj Hbj']]; [congruence|]. exists j, bj. done.
Qed.


Lemma sim_media disk1 l m m' a : (forall u k, m' u k = m u k) -> sim disk1 l m a -> sim disk1 l m' a.
Proof.
  intros E [S1 S2 S3 S4]. split; [|done|intros; by rewrite E|].
  - intros i b Hi Hb. destruct (S1 i b Hi Hb) as [B1 B2 B3 B4]. split; try done. intros. rewrite E. auto.
  - intros u k v. rewrite S4. split; intros (i & b & H1 & H2 & H3 & H4 & H5 & ->); exists i, b;
      (split_and!; [done..|]); unfold view; by rewrite E.
Qed.

(** The drive writes a locked buffer. *)
Lemma sim_flush disk1 l m a i b :
  sim disk1 l m a -> (i < NBUF)%nat -> l !! i = Some b -> has b B_BUSY = true ->
  exists a', (a' = a \/ astep a a') /\ forall m', (forall u k, m' u k = written b m u k) -> sim disk1 l m' a'.
Proof.
  intros S Hi Hb Hbusy. destruct (has b B_DIRTY) eqn:Hd.
  2: { exists a. split; [by left|]. intros m' E. apply (sim_media _ _ m); [|done].
       intros u k. rewrite E. unfold written. rewrite Hd, decide_False by naive_solver. done. }
  pose proof S as [S1 S2 S3 S4]. destruct (S1 i b Hi Hb) as [B1 B2 B3 B4].
  destruct (B3 Hd) as [_ Hv]. specialize (B2 Hbusy).
  exists (A (put (dev b) (sector b) (data b) (store a)) (held a)). split.
  { right. apply as_flush with (v := data b). apply S4. exists i, b. unfold view. by rewrite Hv. }
  intros m' E.
  assert (Em : forall u k, m' u k = put (dev b) (sector b) (data b) m u k).
  { intros u k. rewrite E. unfold written, put. rewrite Hd. repeat case_decide; naive_solver. }
  assert (Eo : forall j bj, (j < NBUF)%nat -> l !! j = Some bj -> j <> i -> m' (dev bj) (sector bj) = m (dev bj) (sector bj)).
  { intros j bj Hj Hbj Hne. rewrite Em. unfold put. case_decide as Eq; [|done]. destruct Eq as [Ed Es].
    destruct Hne. by apply (S2 i j b bj). }
  assert (Ev : forall j bj, (j < NBUF)%nat -> l !! j = Some bj -> view m' bj = view m bj).
  { intros j bj Hj Hbj. unfold view. destruct (decide (j = i)) as [->|]; [|by rewrite (Eo j)].
    replace bj with b by congruence. by rewrite Hv. }
  split; [|done| |].
  - intros j bj Hj Hbj. destruct (S1 j bj Hj Hbj) as [C1 C2 C3 C4]. split; try done.
    intros Hnb. rewrite (Eo j); auto. intros ->. congruence.
  - intros u k. simpl. rewrite Em. unfold put. case_decide; [done|apply S3].
  - intros u k v. simpl. rewrite S4. split; intros (j & bj & Hj & Hbj & H3 & H4 & H5 & ->); exists j, bj;
      (split_and!; [done..|]); by rewrite (Ev j).
Qed.

(** Bits of the flags after each change. *)
Lemma busy_lor f n : 0 <= n -> Z.testbit (Z.lor f B_BUSY) n = (n =? 0) || Z.testbit f n.
Proof.
  intros Hn. rewrite Z.lor_spec. change B_BUSY with (2 ^ 0). rewrite Z.pow2_bits_eqb by lia.
  rewrite orb_comm. by rewrite Z.eqb_sym.
Qed.
Lemma dirty_lor f n : 0 <= n -> Z.testbit (Z.lor f B_DIRTY) n = (n =? 2) || Z.testbit f n.
Proof.
  intros Hn. rewrite Z.lor_spec. change B_DIRTY with (2 ^ 2). rewrite Z.pow2_bits_eqb by lia.
  rewrite orb_comm. by rewrite Z.eqb_sym.
Qed.
Lemma busy_clear f n : 0 <= n -> Z.testbit (Z.land f (Z.lnot B_BUSY)) n = negb (n =? 0) && Z.testbit f n.
Proof.
  intros Hn. rewrite Z.land_spec, Z.lnot_spec by done. change B_BUSY with (2 ^ 0). rewrite Z.pow2_bits_eqb by lia.
  rewrite andb_comm. by rewrite Z.eqb_sym.
Qed.

(** All tests of flags as bits. *)
Ltac bits :=
  rewrite ?synced_bits, ?has_busy, ?has_valid, ?has_dirty in *; cbn [b_flags b_data b_id flags dev sector data] in *;
  rewrite ?busy_lor, ?dirty_lor, ?busy_clear in * by lia; cbn [Z.eqb orb andb negb Pos.eqb] in *.

(** A buffer that caches the sector is locked. *)
Lemma sim_lock_cached disk1 l m a i b :
  sim disk1 l m a -> (i < NBUF)%nat -> l !! i = Some b -> has b B_BUSY = false -> ok_id disk1 (dev b) (sector b) ->
  exists a', astep a a' /\ sim disk1 (<[i := b_flags (Z.lor (flags b) B_BUSY) b]> l) m a'.
Proof.
  intros S Hi Hb Hn Hid. pose proof S as [S1 S2 S3 S4]. destruct (S1 i b Hi Hb) as [B1 B2 B3 B4].
  assert (Hno : held a !! (dev b, sector b) = None).
  { destruct (held a !! _) as [v|] eqn:E; [|done]. apply S4 in E as (j & bj & Hj & Hbj & Hbusy & Ed & Es & _).
    assert (j = i) as -> by (by apply (S2 i j b bj)). congruence. }
  eexists. split; [by apply as_lock|].
  apply (sim_update _ _ _ a _ b); [done|done|done| |done|done|done| |by right|].
  - split; [done|done| |]; bits; [naive_solver|done].
  - intros u k Hne. simpl. by rewrite lookup_insert_ne by congruence.
  - intros v. simpl. rewrite lookup_insert_eq. unfold view. bits.
    assert (E : store a (dev b) (sector b) = if Z.testbit (flags b) 1 then data b else m (dev b) (sector b)).
    { rewrite S3. destruct (Z.testbit (flags b) 1) eqn:E1; [symmetry; by apply B4|done]. }
    rewrite E. naive_solver.
Qed.

(** A buffer that is not locked is reused. *)
Lemma sim_lock_fresh disk1 l m a i b d k :
  sim disk1 l m a -> (i < NBUF)%nat -> l !! i = Some b -> has b B_BUSY = false -> ok_id disk1 d k ->
  (forall j bj, (j < NBUF)%nat -> l !! j = Some bj -> same_id d k bj = false) ->
  exists a', astep a a' /\ sim disk1 (<[i := b_flags B_BUSY (b_id d k b)]> l) m a'.
Proof.
  intros S Hi Hb Hn Hid Hfresh. pose proof S as [S1 S2 S3 S4]. assert (Hl := lookup_lt_Some _ _ _ Hb).
  assert (Hne : forall j bj, (j < NBUF)%nat -> l !! j = Some bj -> (dev bj, sector bj) <> (d, k)).
  { intros j bj Hj Hbj [= E1 E2]. specialize (Hfresh j bj Hj Hbj). unfold same_id in Hfresh.
    by rewrite E1, E2, !Z.eqb_refl in Hfresh. }
  assert (Hno : held a !! (d, k) = None).
  { destruct (held a !! _) as [v|] eqn:E; [|done]. apply S4 in E as (j & bj & Hj & Hbj & _ & Ed & Es & _).
    destruct (Hne j bj Hj Hbj). congruence. }
  assert (G : forall j bj, <[i := b_flags B_BUSY (b_id d k b)]> l !! j = Some bj ->
    j = i /\ bj = b_flags B_BUSY (b_id d k b) \/ j <> i /\ l !! j = Some bj).
  { intros j bj. destruct (decide (i = j)) as [<-|].
    - rewrite list_lookup_insert_eq by done. intros [= <-]. by left.
    - rewrite list_lookup_insert_ne by done. right. split; [congruence|done]. }
  eexists. split; [by apply as_lock|]. split; simpl.
  - intros j bj Hj Hbj. destruct (G j bj Hbj) as [[-> ->]|[_ Hbj']]; [|eauto].
    split; [apply (S1 i b Hi Hb)|done|done|done].
  - intros j j' bj bj' Hj Hj' Hbj Hbj'. destruct (G j bj Hbj) as [[-> ->]|[Hnj Cj]], (G j' bj' Hbj') as [[-> ->]|[Hnj' Cj']]; try done.
    + simpl. intros _ E1 E2. destruct (Hne j' bj' Hj' Cj'). congruence.
    + simpl. intros _ E1 E2. destruct (Hne j bj Hj Cj). congruence.
    + by apply (S2 j j' bj bj').
  - done.
  - intros u k' v. destruct (decide ((u, k') = (d, k))) as [[= -> ->]|Hx].
    + rewrite lookup_insert_eq. split.
      * intros [= <-]. exists i, (b_flags B_BUSY (b_id d k b)). rewrite list_lookup_insert_eq by done. split_and!; done.
      * intros (j & bj & Hj & Hbj & _ & Ed & Es & ->). destruct (G j bj Hbj) as [[-> ->]|[_ Cj]]; [exact (f_equal Some (S3 d k))|].
        destruct (Hne j bj Hj Cj). congruence.
    + rewrite lookup_insert_ne, S4 by congruence. split; intros (j & bj & Hj & Hbj & Hbusy & Ed & Es & ->).
      * exists j, bj. rewrite list_lookup_insert_ne; [done|]. intros <-. congruence.
      * destruct (G j bj Hbj) as [[-> ->]|[_ Cj]]; [simpl in *; congruence|]. exists j, bj. done.
Qed.

(** The owner of a buffer changes its data, marks it, or unlocks it. *)
Lemma sim_set disk1 l m a i b v :
  sim disk1 l m a -> (i < NBUF)%nat -> l !! i = Some b -> has b B_BUSY = true -> synced b = true ->
  length v = 512%nat -> exists a', astep a a' /\ sim disk1 (<[i := b_data v b]> l) m a'.
Proof.
  intros S Hi Hb Hbusy Hs Hv. pose proof S as [S1 S2 S3 S4]. destruct (S1 i b Hi Hb) as [B1 B2 B3 B4].
  assert (Hval : has b B_VALID = true) by (bits; by apply andb_true_iff in Hs as [? _]).
  exists (A (store a) (<[(dev b, sector b) := v]> (held a))). split.
  { apply as_set with (view m b). apply S4. exists i, b. done. }
  apply (sim_update _ _ _ a _ b); [done|done|done| |done|done|done| |by left|].
  - split; [done..|]. bits. congruence.
  - intros u k Hne. simpl. by rewrite lookup_insert_ne by congruence.
  - intros w. simpl. rewrite lookup_insert_eq. unfold view. bits. rewrite Hval. naive_solver.
Qed.

Lemma sim_keep disk1 l m a i b b' :
  sim disk1 l m a -> (i < NBUF)%nat -> l !! i = Some b -> has b B_BUSY = true -> has b' B_BUSY = true ->
  bok disk1 m b' -> dev b' = dev b -> sector b' = sector b -> view m b' = view m b ->
  sim disk1 (<[i := b']> l) m a.
Proof.
  intros S Hi Hb Hbusy Hbusy' Hok Ed Es Ev. pose proof S as [S1 S2 S3 S4].
  apply (sim_update _ _ _ a _ b); [done|done|done|done|done|done|done|done|by left|].
  intros v. rewrite S4. split.
  - intros (j & bj & Hj & Hbj & H3 & H4 & H5 & ->). split; [done|]. rewrite Ev.
    assert (j = i) as -> by (apply (S2 i j b bj); try done; by apply (S1 i b)). congruence.
  - intros [_ ->]. exists i, b. done.
Qed.

Lemma sim_mark disk1 l m a i b :
  sim disk1 l m a -> (i < NBUF)%nat -> l !! i = Some b -> has b B_BUSY = true -> synced b = true ->
  sim disk1 (<[i := b_flags (Z.lor (flags b) B_DIRTY) b]> l) m a.
Proof.
  intros S Hi Hb Hbusy Hs. destruct (s_buf _ _ _ _ S i b Hi Hb) as [B1 B2 B3 B4].
  apply (sim_keep _ _ _ _ _ b); try done; unfold view; bits; try done.
  apply andb_true_iff in Hs as [Hs1 Hs2]. split; bits; try done.
Qed.

Lemma sim_complete disk1 l m a i b :
  sim disk1 l m a -> (i < NBUF)%nat -> l !! i = Some b -> has b B_BUSY = true -> synced b = false ->
  length (m (dev b) (sector b)) = 512%nat -> sim disk1 (<[i := completed m b]> l) m a.
Proof.
  intros S Hi Hb Hbusy Hs Hm. destruct (s_buf _ _ _ _ S i b Hi Hb) as [B1 B2 B3 B4].
  assert (Hc0 : has (completed m b) B_BUSY = has b B_BUSY) by (rewrite !has_busy; by apply done_bits).
  assert (Hc1 : has (completed m b) B_VALID = true) by (rewrite has_valid; by apply done_bits).
  assert (Hc2 : has (completed m b) B_DIRTY = false) by (rewrite has_dirty; by apply done_bits).
  apply (sim_keep _ _ _ _ _ b); try done; unfold view; rewrite ?Hc0, ?Hc1; try done.
  - split; rewrite ?Hc0, ?Hc1, ?Hc2; [|done|done|congruence]. simpl. destruct (has b B_DIRTY); done.
  - simpl. bits. destruct (Z.testbit (flags b) 2) eqn:E2; [by destruct (B3 eq_refl) as [_ ->]|].
    destruct (Z.testbit (flags b) 1); done.
Qed.

Lemma sim_unlock disk1 l m a i b :
  sim disk1 l m a -> (i < NBUF)%nat -> l !! i = Some b -> has b B_BUSY = true -> synced b = true ->
  data b = m (dev b) (sector b) ->
  exists a', astep a a' /\ sim disk1 (<[i := b_flags (Z.land (flags b) (Z.lnot B_BUSY)) b]> l) m a'.
Proof.
  intros S Hi Hb Hbusy Hs Hd. pose proof S as [S1 S2 S3 S4]. destruct (S1 i b Hi Hb) as [B1 B2 B3 B4].
  assert (Hv : view m b = data b) by (unfold view; bits; apply andb_true_iff in Hs as [-> _]; done).
  exists (A (store a) (delete (dev b, sector b) (held a))). split.
  { apply as_unlock. apply S4. exists i, b. by rewrite S3, <- Hd, Hv. }
  apply (sim_update _ _ _ a _ b); [done|done|done| |done|done|done| |by left|].
  - rewrite synced_bits in Hs. apply andb_true_iff in Hs as [Hs1 Hs2]. split; bits; [done|done| |done].
    intros E. rewrite E in Hs2. done.
  - intros u k Hne. simpl. by rewrite lookup_delete_ne by congruence.
  - intros v. simpl. rewrite lookup_delete_eq. bits. naive_solver.
Qed.

(** ** Runs

    The steps between sleeps of the processes that use the cache, and the
    interrupts of the disk.  A process uses a buffer between [bread] and
    [brelse], when it is [synced]; it releases a buffer with what is on the
    disk, that is after [bwrite] when it changed it. *)
Section Cache.
Context {H : Type} `{DriveSpec H polls}.

Definition queued (s : ide H) (i : nat) : Prop := exists q, chain (bufs s) (idequeue s) q /\ i ∈ q.

Inductive bstep (s : ide H) : ide H -> Prop :=
| bs_get d k i l :
    ok_id (havedisk1 s) d k -> bget d k (bufs s) = Ret (Locked i, l) -> bstep s (set_bufs l s)
| bs_iderw i b s' :
    (i < NBUF)%nat -> bufs s !! i = Some b -> has b B_BUSY = true -> synced b = false -> ~ queued s i ->
    iderw polls i s = Ret s' -> bstep s s'
| bs_intr s' : ideintr polls s = Ret s' -> bstep s s'
| bs_set i b v :
    (i < NBUF)%nat -> bufs s !! i = Some b -> has b B_BUSY = true -> synced b = true -> length v = 512%nat ->
    bstep s (set_bufs (<[i := b_data v b]> (bufs s)) s)
| bs_mark i b l :
    (i < NBUF)%nat -> bufs s !! i = Some b -> has b B_BUSY = true -> synced b = true ->
    bmark i (bufs s) = Ret l -> bstep s (set_bufs l s)
| bs_brelse i b l :
    (i < NBUF)%nat -> bufs s !! i = Some b -> has b B_BUSY = true -> synced b = true ->
    data b = media (hw s) (dev b) (sector b) ->
    brelse i (bufs s) = Ret l -> bstep s (set_bufs l s).

(** Memory at boot. *)
Definition bufs0 : list buf := replicate (S NBUF) (Buf 0 0 0 None None None (replicate 512 0)).

Inductive breach : ide H -> Prop :=
| breach_boot l disk1 h : binit bufs0 = Ret l -> breach (Ide l None disk1 h)
| breach_step s s' : breach s -> bstep s s' -> breach s'.

Inductive areach (m : Z -> Z -> list Z) : astate -> Prop :=
| areach_boot : areach m (A m ∅)
| areach_step a a' : areach m a -> astep a a' -> areach m a'.

Record binv (s : ide H) (q lru : list nat) (a : astate) : Prop := {
  bi_queue : qinv s q;
  bi_range : forall i, i ∈ q -> (i < NBUF)%nat;
  bi_list : dll (bufs s) lru;
  bi_sim : sim (havedisk1 s) (bufs s) (media (hw s)) a
}.

Lemma chain_fun l p q q' : chain l p q -> chain l p q' -> q = q'.
Proof.
  revert p q'. induction q as [|i q IH]; intros p q'; simpl.
  - intros ->. by intros ->%chain_None.
  - intros (-> & b & Hb & Hc). destruct q' as [|j q']; [done|]. intros ([= <-] & b' & Hb' & Hc').
    f_equal. eapply IH; [done|]. congruence.
Qed.

(** Changes that keep the buffers of the queue, up to the links of the cache. *)
Lemma chain_core l l' p q : (forall x, x ∈ q -> core <$> l' !! x = core <$> l !! x) -> chain l p q -> chain l' p q.
Proof.
  revert p. induction q as [|i q IH]; intros p E; simpl; [done|]. intros (-> & b & Hb & Hc). split; [done|].
  pose proof (E i ltac:(left)) as Ei. rewrite Hb in Ei. destruct (l' !! i) as [b'|]; [|done].
  injection Ei as _ _ _ E4 _. exists b'. rewrite E4. split; [done|]. apply IH; [|done]. intros; apply E. by right.
Qed.

Lemma qinv_core s q l' : (forall x, x ∈ q -> core <$> l' !! x = core <$> bufs s !! x) -> qinv s q -> qinv (set_bufs l' s) q.
Proof.
  intros E [Q1 Q2 Q3 Q4]. split; simpl; [by apply (chain_core (bufs s))|done| |].
  - intros i Hi. destruct (Q3 i Hi) as (b & Hb & [R1 R2 R3 R4 R5]). specialize (E i Hi). rewrite Hb in E.
    destruct (l' !! i) as [b'|]; [|done]. injection E as E1 E2 E3 _ E5. exists b'. split; [done|].
    unfold synced in *. split; unfold synced; rewrite ?E1, ?E2, ?E3, ?E5; done.
  - intros i b' Hi Hb'. assert (Hq : i ∈ q) by (destruct q; [done|]; injection Hi as ->; left).
    specialize (E i Hq). rewrite Hb' in E. destruct (bufs s !! i) as [b|] eqn:Hb; [|done]. injection E as E1 E2 E3 _ E5.
    specialize (Q4 i b Hi Hb). unfold working, has in *. by rewrite E1, E2, E3, E5.
Qed.

Lemma qinv_change s q i b' : qinv s q -> i ∉ q -> qinv (set_bufs (<[i := b']> (bufs s)) s) q.
Proof. intros Q Hn. apply qinv_core; [|done]. intros x Hx. rewrite list_lookup_insert_ne by congruence. done. Qed.

Lemma not_in_queue s q i b : qinv s q -> bufs s !! i = Some b -> synced b = true -> i ∉ q.
Proof.
  intros Q Hi Hs Hq. destruct (qi_req _ _ Q i Hq) as (b' & Hb' & R). pose proof (rq_todo _ _ R). congruence.
Qed.

Lemma busy_not_in_queue s q i b : qinv s q -> bufs s !! i = Some b -> has b B_BUSY = false -> i ∉ q.
Proof.
  intros Q Hi Hs Hq. destruct (qi_req _ _ Q i Hq) as (b' & Hb' & R). pose proof (rq_busy _ _ R).
  rewrite has_busy in Hs. congruence.
Qed.

Lemma bstep_get s q lru a d k i l :
  binv s q lru a -> ok_id (havedisk1 s) d k -> bget d k (bufs s) = Ret (Locked i, l) ->
  exists a', astep a a' /\ binv (set_bufs l s) q lru a'.
Proof.
  intros [Q R D S] Hid E. pose proof (bget_spec d k _ _ D) as G. rewrite E in G.
  destruct G as (b & Hb & Hi & Hn & G). pose proof (busy_not_in_queue _ _ _ _ Q Hb Hn) as Hq.
  destruct G as [[Hs ->]|(Hf & -> & _)].
  - unfold same_id in Hs. apply andb_true_iff in Hs as [<-%Z.eqb_eq <-%Z.eqb_eq].
    destruct (sim_lock_cached _ _ _ _ i b S Hi Hb Hn Hid) as (a' & Ha & S'). exists a'. split; [done|].
    split; [by apply qinv_change|done|by apply (dll_insert _ _ _ b)|done].
  - destruct (sim_lock_fresh _ _ _ _ i b d k S Hi Hb Hn Hid Hf) as (a' & Ha & S'). exists a'. split; [done|].
    split; [by apply qinv_change|done|by apply (dll_insert _ _ _ b)|done].
Qed.

(** The links of the disk queue do not matter to the cache. *)
Lemma links_dll l l' lru : links l l' -> dll l lru -> dll l' lru.
Proof.
  intros L D. apply (dll_same l); [..|done].
  - intros x. destruct (L x) as (y & E). unfold nx. rewrite E. by destruct (l !! x).
  - intros x. destruct (L x) as (y & E). unfold pv. rewrite E. by destruct (l !! x).
  - assert (G : forall n, (n < length l')%nat <-> (n < length l)%nat).
    { intros n. rewrite <- !lookup_lt_is_Some. destruct (L n) as (y & ->). by rewrite fmap_is_Some. }
    pose proof (G (length l)). pose proof (G (length l')). lia.
Qed.

Lemma links_content l l' i : links l l' -> content <$> l' !! i = content <$> l !! i.
Proof. intros L. destruct (L i) as (y & ->). by destruct (l !! i). Qed.

Lemma bstep_iderw s q lru a i b s' :
  binv s q lru a -> (i < NBUF)%nat -> bufs s !! i = Some b -> has b B_BUSY = true -> synced b = false ->
  i ∉ q -> iderw polls i s = Ret s' -> exists a', (a' = a \/ astep a a') /\ binv s' (q ++ [i]) lru a'.
Proof.
  intros [Q R D S] Hi Hb Hbusy Hs Hq E. pose proof (s_buf _ _ _ _ S i b Hi Hb) as B.
  assert (Rq : request (havedisk1 s) b).
  { destruct (bo_id _ _ _ B Hbusy) as [Hd Hk]. split; [by rewrite <- has_busy|done|done|done|apply B]. }
  destruct (iderw_spec s q i b Q Hq Hb Rq) as (s1 & E1 & Q1 & Hd1 & L & Hm). rewrite E in E1. injection E1 as <-.
  assert (Hr : forall j, j ∈ q ++ [i] -> (j < NBUF)%nat)
    by (intros j [?| ->%list_elem_of_singleton]%elem_of_app; auto).
  assert (Sx : forall m a', sim (havedisk1 s) (bufs s) m a' -> sim (havedisk1 s') (bufs s') m a').
  { intros m a' Sm. rewrite Hd1. apply (sim_ext _ (bufs s)); [|done]. intros j. by apply links_content. }
  destruct q as [|j q].
  - destruct (sim_flush _ _ _ _ i b S Hi Hb Hbusy) as (a' & Ha & Sa). exists a'. split; [done|].
    split; [done|done|by apply (links_dll (bufs s))|]. apply Sx, Sa, Hm.
  - exists a. split; [by left|]. split; [done|done|by apply (links_dll (bufs s))|].
    apply Sx. by apply (sim_media _ _ (media (hw s))).
Qed.

Lemma bstep_intr s q lru a s' :
  binv s q lru a -> ideintr polls s = Ret s' ->
  exists a', (a' = a \/ astep a a') /\ binv s' (tail q) lru a'.
Proof.
  intros [Q R D S] E. destruct q as [|i q].
  { unfold ideintr in E. rewrite (qi_chain _ _ Q) in E. injection E as <-. exists a. split; [by left|done]. }
  destruct (qi_req _ _ Q i) as (b & Hb & Rq); [left|]. assert (Hi : (i < NBUF)%nat) by (apply R; left).
  destruct (ideintr_spec s i q b Q Hb) as (s1 & E1 & Q1 & Hd1 & Hl & Hm). rewrite E in E1. injection E1 as <-.
  assert (Hbusy : has b B_BUSY = true) by (rewrite has_busy; apply Rq).
  pose proof (sim_complete _ _ _ _ i b S Hi Hb Hbusy (rq_todo _ _ Rq) (media_len _ _ _)) as S1. rewrite <- Hl in S1.
  assert (D1 : dll (bufs s') lru) by (rewrite Hl; by apply (dll_insert _ _ _ b)).
  assert (R1 : forall j, j ∈ q -> (j < NBUF)%nat) by (intros j Hj; apply R; by right). simpl.
  destruct q as [|j q]; simpl in Hm.
  - exists a. split; [by left|]. split; [done..|]. rewrite Hd1. by apply (sim_media _ _ (media (hw s))).
  - destruct (qi_req _ _ Q j) as (bj & Hbj & Rj); [right; left|]. rewrite Hbj in Hm.
    assert (Hj : bufs s' !! j = Some bj).
    { rewrite Hl, list_lookup_insert_ne; [done|]. intros ->. pose proof (qi_nodup _ _ Q) as Hn.
      apply NoDup_cons in Hn as [Hn _]. apply Hn. left. }
    destruct (sim_flush _ _ _ _ j bj S1) as (a' & Ha & Sa); [apply R; right; left|done|rewrite has_busy; apply Rj|].
    exists a'. split; [done|]. split; [done..|]. rewrite Hd1. by apply Sa.
Qed.

Lemma bstep_brelse s q lru a i b l :
  binv s q lru a -> (i < NBUF)%nat -> bufs s !! i = Some b -> has b B_BUSY = true -> synced b = true ->
  data b = media (hw s) (dev b) (sector b) -> brelse i (bufs s) = Ret l ->
  exists lru' a', astep a a' /\ binv (set_bufs l s) q lru' a'.
Proof.
  intros [Q R D S] Hi Hb Hbusy Hs Hd E. pose proof (not_in_queue _ _ _ _ Q Hb Hs) as Hq.
  assert (Hin : i ∈ lru) by (by eapply dll_elem). apply list_elem_of_split in Hin as (l1 & l2 & ->).
  destruct (brelse_spec _ _ _ _ b D Hb Hbusy) as (l' & E' & D' & C). rewrite E in E'. injection E' as <-.
  destruct (sim_unlock _ _ _ _ i b S Hi Hb Hbusy Hs Hd) as (a' & Ha & Sa).
  exists (i :: l1 ++ l2), a'. split; [done|]. split; [|done|done|].
  - apply qinv_core; [|done]. intros x Hx. rewrite C, decide_False by congruence. done.
  - simpl. refine (sim_ext _ _ _ _ _ _ Sa). intros x. specialize (C x). destruct (decide (x = i)) as [->|Hx].
    + rewrite list_lookup_insert_eq by (by eapply lookup_lt_Some).
      destruct (l !! i) as [bi|]; [|done]. injection C as E1 E2 E3 _ E5. simpl. unfold content. simpl. congruence.
    + rewrite list_lookup_insert_ne by done. destruct (l !! x), (bufs s !! x); try done.
      injection C as E1 E2 E3 _ E5. simpl. unfold content. congruence.
Qed.

Lemma bstep_inv s q lru a s' :
  binv s q lru a -> bstep s s' -> exists q' lru' a', (a' = a \/ astep a a') /\ binv s' q' lru' a'.
Proof.
  intros B Hst. pose proof B as [Q R D S]. destruct Hst as [d k i l Hid E|i b s' Hi Hb Hbusy Hs Hnq E|s' E|i b v Hi Hb Hbusy Hs Hv|i b l Hi Hb Hbusy Hs E|i b l Hi Hb Hbusy Hs Hd E].
  - destruct (bstep_get _ _ _ _ _ _ _ _ B Hid E) as (a' & ? & ?). eauto 10.
  - assert (Hni : i ∉ q) by (intros Hin; apply Hnq; exists q; split; [apply Q|done]).
    destruct (bstep_iderw _ _ _ _ _ _ _ B Hi Hb Hbusy Hs Hni E) as (a' & ? & ?). eauto 10.
  - destruct (bstep_intr _ _ _ _ _ B E) as (a' & ? & ?). eauto 10.
  - pose proof (not_in_queue _ _ _ _ Q Hb Hs). destruct (sim_set _ _ _ _ i b v S Hi Hb Hbusy Hs Hv) as (a' & ? & ?).
    exists q, lru, a'. split; [by right|]. split; [by apply qinv_change|done|by apply (dll_insert _ _ _ b)|done].
  - pose proof (not_in_queue _ _ _ _ Q Hb Hs). unfold bmark in E. rewrite (aget_Some _ _ _ Hb) in E. simpl in E.
    rewrite Hbusy in E. injection E as <-. exists q, lru, a. split; [by left|].
    split; [by apply qinv_change|done|by apply (dll_insert _ _ _ b)|by apply sim_mark].
  - destruct (bstep_brelse _ _ _ _ _ _ _ B Hi Hb Hbusy Hs Hd E) as (lru' & a' & ? & ?). eauto 10.
Qed.

(** [binit] links the buffers in reverse order. *)
Lemma binit_list : exists l, binit bufs0 = Ret l /\ dll l (rev (seq 0 NBUF)) /\
  forall i b, l !! i = Some b -> flags b = 0 /\ length (data b) = 512%nat /\ (i < NBUF -> dev b = u32 (-1))%nat.
Proof.
  eexists. split; [vm_compute; reflexivity|]. split.
  - split; [vm_compute; intuition congruence..| |done]. symmetry. apply Permutation_rev.
  - intros i b Hi. do 11 (destruct i as [|i]; [injection Hi as <-; split_and!; [done..|intros; try done; unfold NBUF in *; lia]|]).
    done.
Qed.

Lemma breach_inv s : breach s -> exists m q lru a, areach m a /\ binv s q lru a.
Proof.
  induction 1 as [l disk1 h E|s s' _ (m & q & lru & a & Ha & B) Hst].
  - destruct binit_list as (l' & E' & D & F). rewrite E in E'. injection E' as <-. clear E.
    exists (media h), [], (rev (seq 0 NBUF)), (A (media h) ∅). split; [constructor|].
    split; [by apply qinv_idle|by intros i ?%elem_of_nil|done|]. split; cbn [bufs hw havedisk1 store held].
    + intros i b Hi Hb. destruct (F i b Hb) as (Ef & El & _). split; [done|..]; unfold has; by rewrite Ef.
    + intros i j bi bj Hi Hj Hbi Hbj [[Hd|[Hd _]] _]; destruct (F i bi Hbi) as (_ & _ & Ed); rewrite Ed in Hd by done; done.
    + done.
    + intros u k v. rewrite lookup_empty. split; [done|]. intros (i & b & Hi & Hb & Hbusy & _).
      destruct (F i b Hb) as (Ef & _). unfold has in Hbusy. by rewrite Ef in Hbusy.
  - destruct (bstep_inv _ _ _ _ _ B Hst) as (q' & lru' & a' & Ha' & B'). exists m, q', lru', a'. split; [|done].
    destruct Ha' as [->|Ha']; [done|]. by apply areach_step with a.
Qed.

(** [bread] and [bwrite] are sequences of these steps. *)
Lemma bread_steps s d k i s' :
  breach s -> ok_id (havedisk1 s) d k -> bread polls d k s = Ret (Locked i, s') -> breach s'.
Proof.
  intros Hs Hid E. destruct (breach_inv s Hs) as (m & q & lru & a & _ & B). unfold bread in E.
  destruct (bget d k (bufs s)) as [[r l]|?|?] eqn:G; cbn [mbind outcome_bind] in E; [|done..].
  destruct r as [j|j]; [|done]. bind_inv E.
  assert (Hst : bstep s (set_bufs l s)) by (by apply (bs_get s d k j)).
  pose proof (breach_step _ _ Hs Hst) as Hs'. apply aget_Ret in E0 as [_ E0]. rewrite Nat2Z.id in E0.
  destruct (has a0 B_VALID) eqn:Hv; [by injection E as <- <-|]. bind_inv E. injection E as <- <-.
  apply breach_step with (set_bufs l s); [done|].
  pose proof (bget_spec d k _ _ (bi_list _ _ _ _ B)) as Gs. rewrite G in Gs. destruct Gs as (b & Hb & Hj & Hn & Gs).
  pose proof (busy_not_in_queue _ _ _ _ (bi_queue _ _ _ _ B) Hb Hn) as Hq.
  destruct (bstep_get _ _ _ _ _ _ _ _ B Hid G) as (a' & _ & B').
  apply (bs_iderw _ j a0); [done|done| | | |done].
  - destruct Gs as [[_ ->]|(_ & -> & _)]; rewrite list_lookup_insert_eq in E0 by (by eapply lookup_lt_Some);
      injection E0 as <-; [by bits|done].
  - rewrite synced_bits. rewrite has_valid in Hv. by rewrite Hv.
  - intros (q' & Hc & Hin). rewrite (chain_fun _ _ _ _ Hc (qi_chain _ _ (bi_queue _ _ _ _ B'))) in Hin. done.
Qed.

Lemma bwrite_steps s i b s' :
  breach s -> (i < NBUF)%nat -> bufs s !! i = Some b -> has b B_BUSY = true -> synced b = true ->
  bwrite polls i s = Ret s' -> breach s'.
Proof.
  intros Hs Hi Hb Hbusy Hsy E. destruct (breach_inv s Hs) as (m & q & lru & a & _ & B). unfold bwrite in E.
  bind_inv E. pose proof (bs_mark s i b _ Hi Hb Hbusy Hsy E0) as Hst.
  apply breach_step with (set_bufs a0 s); [by apply breach_step with s|].
  pose proof (not_in_queue _ _ _ _ (bi_queue _ _ _ _ B) Hb Hsy) as Hq.
  unfold bmark in E0. rewrite (aget_Some _ _ _ Hb) in E0. simpl in E0. rewrite Hbusy in E0. injection E0 as <-.
  pose proof (qinv_change _ _ i (b_flags (Z.lor (flags b) B_DIRTY) b) (bi_queue _ _ _ _ B) Hq) as Q'.
  apply (bs_iderw _ i (b_flags (Z.lor (flags b) B_DIRTY) b)); [done| | | | |done].
  - simpl. by rewrite list_lookup_insert_eq by (by eapply lookup_lt_Some).
  - by bits.
  - bits. apply andb_false_r.
  - intros (q' & Hc & Hin). rewrite (chain_fun _ _ _ _ Hc (qi_chain _ _ Q')) in Hin. done.
Qed.
End Cache.
Arguments breach {H _} polls {_}.


(** Sector 29 is locked; a second process sleeps on it. *)
Definition cache0 : list buf := match binit bufs0 with Ret l => l | _ => [] end.
Definition cache1 : list buf := match bget 1 29 cache0 with Ret (_, l) => l | _ => [] end.
Definition hw0 : ata := Ata 0 0 0 0 ∅ None.

Lemma cache0_boot : binit bufs0 = Ret cache0.
Proof. vm_compute. reflexivity. Qed.
Lemma cache0_get : bget 1 29 cache0 = Ret (Locked 0, cache1).
Proof. vm_compute. reflexivity. Qed.
Lemma cache1_get : bget 1 29 cache1 = Ret (Sleeps 0, cache1).
Proof. vm_compute. reflexivity. Qed.

