(* ===== verification/File.v ===== *)
(** * Open files (kernel/file.c, kernel/file.h) and [pipealloc]

    The state of the kernel that system calls work on: the process table, the
    page allocator, the file system, the table of open files and the pipes.  A
    pointer to a [struct file] is its index in [ftable]; a pipe is known by the
    address of its page.  A call that sleeps in a pipe returns [Sleeps]; the
    caller is resumed with what is left. *)

From S2P Require Import Prelude Memory Kalloc Proc Pipe Fs.

Inductive fdtype := FD_NONE | FD_PIPE | FD_INODE.
#[export] Instance fdtype_eq_dec : EqDecision fdtype.
Proof. solve_decision. Defined.

Record file := File {
  ftype : fdtype; fref : Z; readable : bool; writable : bool;
  fpipe : Z; fip : nat; foff : Z
}.
Definition NFILE : nat := 100.
Definition file_zero : file := File FD_NONE 0 false false 0 0 0.

Definition f_ref v f := File (ftype f) v (readable f) (writable f) (fpipe f) (fip f) (foff f).
Definition f_off v f := File (ftype f) (fref f) (readable f) (writable f) (fpipe f) (fip f) v.

Record kernel (D : Type) := Kernel {
  pt : ptable; km : kst; fsys : fs D; ftable : list file; pipes : gmap Z pipe
}.
Arguments Kernel {D}. Arguments pt {D}. Arguments km {D}. Arguments fsys {D}.
Arguments ftable {D}. Arguments pipes {D}.

Section File.
Context {D : Type} (nsect kend : Z).
Context (dev_read : Z -> option (Z -> D -> outcome (Z * list Z * D))).
Context (dev_write : Z -> option (list Z -> Z -> D -> outcome (Z * D))).

Abbreviation kernel := (kernel D).

Definition set_pt v (k : kernel) : kernel := Kernel v (km k) (fsys k) (ftable k) (pipes k).
Definition set_km v (k : kernel) : kernel := Kernel (pt k) v (fsys k) (ftable k) (pipes k).
Definition set_fsys v (k : kernel) : kernel := Kernel (pt k) (km k) v (ftable k) (pipes k).
Definition set_ftable v (k : kernel) : kernel := Kernel (pt k) (km k) (fsys k) v (pipes k).
Definition set_pipes v (k : kernel) : kernel := Kernel (pt k) (km k) (fsys k) (ftable k) v.

Definition getf (i : nat) (k : kernel) : outcome file := aget (ftable k) (Z.of_nat i).
Definition setf (i : nat) (f : file) (k : kernel) : kernel := set_ftable (<[i := f]> (ftable k)) k.

(** ** Pipes at their addresses *)

(** [&p->nread] and [&p->nwrite], which processes sleep on. *)
Definition nread_chan (p : Z) : Z := p + 564.
Definition nwrite_chan (p : Z) : Z := p + 568.
Definition pipe_wake (w : wake) (p : Z) (k : kernel) : kernel :=
  match w with
  | WakeReaders => set_pt (wakeup (nread_chan p) (pt k)) k
  | WakeWriters => set_pt (wakeup (nwrite_chan p) (pt k)) k
  | WakeNone => k
  end.

Definition getpipe (p : Z) (k : kernel) : outcome pipe :=
  match pipes k !! p with Some pi => Ret pi | None => Undef "not a pipe" end.

(** [pipeclose] at an address: the page is freed with the second end. *)
Definition close_pipe (p : Z) (writable : bool) (k : kernel) : outcome kernel :=
  pi ← getpipe p k;
  let '(w, free, pi) := pipeclose writable pi in
  let k := pipe_wake w p k in
  if free : bool then
    m ← kfree kend p (km k);
    Ret (set_km m (set_pipes (delete p (pipes k)) k))
  else Ret (set_pipes (<[p := pi]> (pipes k)) k).

(** ** The file table *)

Definition filealloc (k : kernel) : option nat * kernel :=
  match list_find (fun f => fref f = 0) (ftable k) with
  | Some (i, f) => (Some i, setf i (f_ref 1 f) k)
  | None => (None, k)
  end.

Definition filedup (i : nat) (k : kernel) : outcome kernel :=
  f ← getf i k;
  if fref f <? 1 then Panic "filedup" else Ret (setf i (f_ref (i32 (fref f + 1)) f) k).

Definition fileclose (i : nat) (k : kernel) : outcome kernel :=
  f ← getf i k;
  if fref f <? 1 then Panic "fileclose"
  else
    let r := i32 (fref f - 1) in
    if 0 <? r then Ret (setf i (f_ref r f) k)
    else
      let k := setf i (File FD_NONE 0 (readable f) (writable f) (fpipe f) (fip f) (foff f)) k in
      match ftype f with
      | FD_PIPE => close_pipe (fpipe f) (writable f) k
      | FD_INODE => s ← iput nsect (fip f) (fsys k); Ret (set_fsys s k)
      | FD_NONE => Ret k
      end.

(** [struct stat], or [None] for the return value -1. *)
Definition filestat (i : nat) (k : kernel) : outcome (option (Z * Z * Z * Z * Z) * kernel) :=
  f ← getf i k;
  match ftype f with
  | FD_INODE =>
    s ← ilock nsect (fip f) (fsys k);
    ip ← geti (fip f) s;
    s' ← iunlock (fip f) s;
    Ret (Some (stati ip), set_fsys s' k)
  | _ => Ret (None, k)
  end.

Definition proc_killed (k : kernel) : outcome bool :=
  '(_, p) ← curp (pt k); Ret (negb (killed p =? 0)).

(** The return value, and the bytes stored at [addr]. *)
Definition fileread (i : nat) (n : Z) (k : kernel) : outcome (result unit * list Z * kernel) :=
  f ← getf i k;
  if negb (readable f) then Ret (Returns (-1), [], k)
  else
    match ftype f with
    | FD_PIPE =>
      dead ← proc_killed k;
      pi ← getpipe (fpipe f) k;
      '(r, w, bs, pi) ← piperead dead n pi;
      Ret (r, bs, pipe_wake w (fpipe f) (set_pipes (<[fpipe f := pi]> (pipes k)) k))
    | FD_INODE =>
      s ← ilock nsect (fip f) (fsys k);
      '(r, bs, s) ← readi nsect dev_read (fip f) (foff f) (u32 n) s;
      let k := if 0 <? r then setf i (f_off (u32 (foff f + r)) f) k else k in
      s ← iunlock (fip f) s;
      Ret (Returns r, bs, set_fsys s k)
    | FD_NONE => Panic "fileread"
    end.

(** [bytes]: the [n] bytes at [addr], or those a resumed call has left. *)
Definition filewrite (i : nat) (bytes : list Z) (n : Z) (k : kernel)
  : outcome (result (list Z) * kernel) :=
  f ← getf i k;
  if negb (writable f) then Ret (Returns (-1), k)
  else
    match ftype f with
    | FD_PIPE =>
      dead ← proc_killed k;
      pi ← getpipe (fpipe f) k;
      '(r, w, pi) ← pipewrite dead n bytes pi;
      Ret (r, pipe_wake w (fpipe f) (set_pipes (<[fpipe f := pi]> (pipes k)) k))
    | FD_INODE =>
      s ← ilock nsect (fip f) (fsys k);
      '(r, s) ← writei nsect dev_write (fip f) bytes (foff f) (u32 n) s;
      let k := if 0 <? r then setf i (f_off (u32 (foff f + r)) f) k else k in
      s ← iunlock (fip f) s;
      Ret (Returns r, set_fsys s k)
    | FD_NONE => Panic "filewrite"
    end.

(** ** [pipealloc] *)

(** The two ends of a new pipe at page [p]. *)
Definition end_of (p : Z) (w : bool) (f : file) : file :=
  File FD_PIPE (fref f) (negb w) w p (fip f) (foff f).

Definition pipealloc (k : kernel) : outcome (option (nat * nat) * kernel) :=
  let (f0, k) := filealloc k in
  match f0 with
  | None => Ret (None, k)
  | Some i =>
    let (f1, k) := filealloc k in
    match f1 with
    | None => k ← fileclose i k; Ret (None, k)
    | Some j =>
      '(p, m) ← kalloc (km k);
      let k := set_km m k in
      if p =? 0 then k ← fileclose i k; k ← fileclose j k; Ret (None, k)
      else
        let k := set_pipes (<[p := pipe_init (bytes_at (mem m) (p + 52) PIPESIZE)]> (pipes k)) k in
        fi ← getf i k;
        let k := setf i (end_of p false fi) k in
        fj ← getf j k;
        Ret (Some (i, j), setf j (end_of p true fj) k)
    end
  end.

End File.
