(* ===== verification/Syscall.v ===== *)
(** * System call arguments (kernel/syscall.c)

    The kernel reads and writes the memory of the current process through its
    page directory; an address that is not mapped traps, and a trap in the
    kernel is [panic("trap")] (kernel/trap.c).  [CR0_WP] is never set, so
    stores do not look at [PTE_W].

    The theorem says what a handler may rely on after the argument checks:
    the block an argument names lies inside the process, unless its size is
    negative. *)

From S2P Require Import Prelude Memory Kalloc Vm VmMap Proc.

(** ** User memory *)

Section Umem.
(** The page directory of the current process. *)
Variable pgdir : Z.

Definition translate (va : Z) (s : kst) : outcome Z :=
  '(pte, _) ← walkpgdir pgdir va false s;
  if (pte =? 0) || negb (has (load32 (mem s) pte) PTE_P) then Panic "trap"
  else Ret (PTE_ADDR (load32 (mem s) pte) + va mod PGSIZE).

Definition uload8 (va : Z) (s : kst) : outcome Z :=
  pa ← translate va s; Ret (rd8 (mem s) pa).

Definition ustore8 (va v : Z) (s : kst) : outcome kst :=
  pa ← translate va s; Ret (set_mem (wr8 (mem s) pa v) s).

Fixpoint uread (n : nat) (va : Z) (s : kst) : outcome (list Z) :=
  match n with
  | O => Ret []
  | S n => b ← uload8 va s; l ← uread n (u32 (va + 1)) s; Ret (b :: l)
  end.

Fixpoint uwrite (l : list Z) (va : Z) (s : kst) : outcome kst :=
  match l with
  | [] => Ret s
  | b :: l => s ← ustore8 va b s; uwrite l (u32 (va + 1)) s
  end.

(** A little-endian word and its bytes. *)
Definition word (l : list Z) : Z := foldr (fun b w => b + 2 ^ 8 * w) 0 l.
Definition bytes32 (v : Z) : list Z := [u8 v; u8 (v / 2 ^ 8); u8 (v / 2 ^ 16); u8 (v / 2 ^ 24)].

Definition uload32 (va : Z) (s : kst) : outcome Z := l ← uread 4 va s; Ret (word l).
Definition ustore32 (va v : Z) (s : kst) : outcome kst := uwrite (bytes32 v) va s.

(** ** Fetching arguments

    [None] is the return value -1; [sz] is the size of the process. *)

Definition fetchint (sz addr : Z) (s : kst) : outcome (option Z) :=
  if (sz <=? addr) || (sz <? u32 (addr + 4)) then Ret None
  else v ← uload32 addr s; Ret (Some (i32 v)).

(** [for(s = *pp; s < ep; s++)]; the length of the string. *)
Fixpoint fetchstr_loop (fuel : nat) (sz addr a : Z) (s : kst) : outcome (option Z) :=
  match fuel with
  | O => Undef "loop bound"
  | S fuel =>
    if a <? sz then
      b ← uload8 a s;
      if b =? 0 then Ret (Some (a - addr)) else fetchstr_loop fuel sz addr (a + 1) s
    else Ret None
  end.
Definition fetchstr (sz addr : Z) (s : kst) : outcome (option Z) :=
  if sz <=? addr then Ret None
  else fetchstr_loop (S (Z.to_nat (sz - addr))) sz addr addr s.

(** [argint(n, ip)], [argptr(n, pp, size)] and [argstr(n, pp)] of a process
    with stack pointer [esp]. *)
Definition argint (sz esp n : Z) (s : kst) : outcome (option Z) :=
  fetchint sz (u32 (esp + 4 + 4 * n)) s.

Definition argptr (sz esp n size : Z) (s : kst) : outcome (option Z) :=
  r ← argint sz esp n s;
  match r with
  | None => Ret None
  | Some i => if (sz <=? u32 i) || (sz <? u32 (u32 i + size)) then Ret None else Ret (Some (u32 i))
  end.

(** The address and the length. *)
Definition argstr (sz esp n : Z) (s : kst) : outcome (option (Z * Z)) :=
  r ← argint sz esp n s;
  match r with
  | None => Ret None
  | Some a =>
    l ← fetchstr sz (u32 a) s;
    Ret (match l with Some l => Some (u32 a, l) | None => None end)
  end.

End Umem.

(** ** What the checks establish *)

Section Checks.
Variables (pgdir sz : Z) (s : kst).
Hypothesis Hsz : 0 <= sz <= USERTOP.

(** Every byte of the process has a page. *)
Definition all_mapped : Prop := forall va, 0 <= va < sz -> exists pa, translate pgdir va s = Ret pa.

(** The byte of the process at an address. *)
Definition ubyte (va : Z) : Z := match translate pgdir va s with Ret pa => rd8 (mem s) pa | _ => 0 end.

Hypothesis Hall : all_mapped.

Lemma uload8_ubyte va : 0 <= va < sz -> uload8 pgdir va s = Ret (ubyte va).
Proof. intros H. unfold uload8, ubyte. by destruct (Hall va H) as [pa ->]. Qed.

Lemma uread_ubytes n va : 0 <= va -> va + Z.of_nat n <= sz ->
  uread pgdir n va s = Ret ((fun i => ubyte (va + Z.of_nat i)) <$> seq 0 n).
Proof.
  revert va. induction n as [|n IH]; intros va H0 H1; [done|]. cbn [uread]. rewrite uload8_ubyte by lia. cbn [mbind outcome_bind].
  rewrite u32_small, IH by (unfold is_u32, USERTOP in *; lia). cbn [mbind outcome_bind]. cbn [seq]. rewrite fmap_cons, <- fmap_S_seq, Z.add_0_r.
  do 2 f_equal. rewrite <- list_fmap_compose. apply list_fmap_ext. intros i j _. unfold compose. f_equal. lia.
Qed.

(** The word of the process at an address. *)
Definition uword (va : Z) : Z := word [ubyte va; ubyte (va + 1); ubyte (va + 2); ubyte (va + 3)].

Lemma fetchint_spec a : is_u32 a ->
  fetchint pgdir sz a s = Ret (if a + 4 <=? sz then Some (i32 (uword a)) else None).
Proof.
  intros Ha. unfold fetchint. destruct (Z.leb_spec sz a), (Z.leb_spec (a + 4) sz); try lia; [done|..];
    cbn [orb]; rewrite u32_small by (unfold is_u32, USERTOP in *; lia).
  - rewrite (proj2 (Z.ltb_ge _ _)) by lia. unfold uload32. rewrite uread_ubytes by (unfold is_u32 in *; lia).
    cbn [mbind outcome_bind fmap list_fmap seq]. unfold uword. do 3 f_equal. rewrite Z.add_0_r. done.
  - rewrite (proj2 (Z.ltb_lt _ _)) by lia. done.
Qed.

Lemma fetchstr_loop_spec fuel addr a : 0 <= addr <= a -> a <= sz -> (Z.to_nat (sz - a) < fuel)%nat ->
  (forall j, addr <= j < a -> ubyte j <> 0) ->
  exists r, fetchstr_loop pgdir fuel sz addr a s = Ret r /\
    match r with
    | Some len => 0 <= len /\ addr + len < sz /\ ubyte (addr + len) = 0 /\ forall j, addr <= j < addr + len -> ubyte j <> 0
    | None => forall j, addr <= j < sz -> ubyte j <> 0
    end.
Proof.
  revert a. induction fuel as [|fuel IH]; intros a H0 H1 Hf Hb; [lia|]. cbn [fetchstr_loop].
  destruct (Z.ltb_spec a sz).
  - rewrite uload8_ubyte by lia. cbn [mbind outcome_bind]. destruct (Z.eqb_spec (ubyte a) 0).
    + eexists. split; [done|]. simpl. replace (addr + (a - addr)) with a by lia. split_and!; try lia. exact Hb.
    + apply IH; [lia|lia|lia|]. intros j Hj. destruct (decide (j = a)) as [->|]; [done|]. apply Hb. lia.
  - eexists. split; [done|]. intros j Hj. apply Hb. lia.
Qed.

Lemma fetchstr_spec a : is_u32 a ->
  exists r, fetchstr pgdir sz a s = Ret r /\
    match r with
    | Some len => 0 <= len /\ a + len < sz /\ ubyte (a + len) = 0 /\ forall j, a <= j < a + len -> ubyte j <> 0
    | None => forall j, a <= j < sz -> ubyte j <> 0
    end.
Proof.
  intros Ha. unfold fetchstr. destruct (Z.leb_spec sz a).
  - eexists. split; [done|]. intros j Hj. lia.
  - unfold is_u32 in Ha. apply fetchstr_loop_spec; lia.
Qed.

End Checks.

(** C21. What a handler may rely on after fetching its arguments, when the
    pages of the process are present: fetching never faults, and the number of
    the argument and the stack pointer do not matter for that.  An integer is
    the word on the stack when all of it lies inside the process.  A pointer
    lies inside the process, and so does the block of [size] bytes it names,
    provided that [size] is not negative.  A string ends inside the process
    with its first zero byte; it is refused exactly when there is none. *)
Theorem argument_checks pgdir sz s esp n size :
  0 <= sz <= USERTOP -> all_mapped pgdir sz s -> is_i32 size ->
  (let a := u32 (esp + 4 + 4 * n) in
   argint pgdir sz esp n s = Ret (if a + 4 <=? sz then Some (i32 (uword pgdir s a)) else None)) /\
  (exists r, argptr pgdir sz esp n size s = Ret r /\
     forall p, r = Some p -> 0 <= p < sz /\ (0 <= size -> p + size <= sz) /\ (size < 0 -> 0 <= p + size)) /\
  (exists r, argstr pgdir sz esp n s = Ret r /\
     forall a len, r = Some (a, len) -> 0 <= a /\ 0 <= len /\ a + len < sz /\ ubyte pgdir s (a + len) = 0 /\
       forall j, a <= j < a + len -> ubyte pgdir s j <> 0).
Proof.
  intros Hsz Hall Hi. assert (A : forall m, argint pgdir sz esp m s =
    Ret (if u32 (esp + 4 + 4 * m) + 4 <=? sz then Some (i32 (uword pgdir s (u32 (esp + 4 + 4 * m)))) else None))
    by (intros m; apply fetchint_spec; auto with xv6).
  split; [apply A|]. unfold argptr, argstr. rewrite A. cbn [mbind outcome_bind].
  set (o := if _ <=? sz then _ else None). clearbody o. split.
  - destruct o as [i|]; [|by exists None]. pose proof (u32_range i) as Ri. set (p := u32 i) in *. clearbody p.
    destruct (Z.leb_spec sz p); [by exists None|]. cbn [orb].
    destruct (Z.ltb_spec sz (u32 (p + size))) as [|H1]; [by exists None|]. exists (Some p). split; [done|]. intros q [= <-].
    unfold is_u32, is_i32, USERTOP in *. split; [lia|]. unfold u32 in H1. split; intros Hs.
    + rewrite Z.mod_small in H1 by lia. lia.
    + destruct (Z.le_gt_cases 0 (p + size)); [lia|]. rewrite <- (Z.mod_add _ 1), Z.mod_small in H1 by lia. lia.
  - destruct o as [i|]; [|by exists None]. destruct (fetchstr_spec pgdir sz s Hall (u32 i) (u32_range i)) as (r & -> & H).
    cbn [mbind outcome_bind]. eexists. split; [done|]. intros a len. destruct r as [l|]; [|done]. intros [= <- <-].
    destruct (u32_range i). tauto.
Qed.

(** A process with one page. *)
Lemma demo_arg_slot : walkpgdir demo_dir 0 false demo_vm = Ret (demo_table, demo_vm) /\
  has (load32 (mem demo_vm) demo_table) PTE_P = true.
Proof. split; vm_compute; reflexivity. Qed.

Lemma demo_all_mapped : all_mapped demo_dir 4096 demo_vm.
Proof.
  intros va Hva. assert (is_u32 va) by (unfold is_u32; lia). assert (is_u32 0) by (unfold is_u32; lia).
  destruct demo_arg_slot as [W P]. exists (PTE_ADDR (load32 (mem demo_vm) demo_table) + va mod PGSIZE). unfold translate.
  replace (walkpgdir demo_dir va false demo_vm) with (walkpgdir demo_dir 0 false demo_vm).
  - rewrite W. cbn [mbind outcome_bind]. rewrite P. reflexivity.
  - unfold walkpgdir. rewrite !PDX_div, !PTX_div by done. replace (va / PGSIZE) with 0 by (unfold PGSIZE; dm). done.
Qed.

Lemma argument_checks_witness :
  exists r, argptr demo_dir 4096 0 0 8 demo_vm = Ret r /\ forall p, r = Some p -> p + 8 <= 4096.
Proof.
  destruct (argument_checks demo_dir 4096 demo_vm 0 0 8) as (_ & (r & E & H) & _).
  - unfold USERTOP. lia.
  - exact demo_all_mapped.
  - unfold is_i32. lia.
  - exists r. split; [exact E|]. intros p Hp. apply (H p Hp). lia.
Defined.
