(* ===== verification/ProcOps.v ===== *)
(** * Creating, ending and waiting for processes (kernel/proc.c)

    [allocproc], [userinit], [fork], [clone], [exit], [wait] and [join] on the
    state of [File.v].  The trap frame at the top of a kernel stack is the
    field [tf] of the process; the rest of the new kernel stack (the return
    address and the context that [swtch] pops) is written to memory.  [wait]
    and [join] return [Sleeps] where the code sleeps and scans again. *)

From S2P Require Import Prelude Rand Memory Kalloc Vm VmMap Proc Mlfq Pipe Fs File Syscall.

Definition KSTACKSIZE : Z := 4096.
Definition SEG_UCODE : Z := 4.
Definition SEG_UDATA : Z := 5.
Definition DPL_USER : Z := 3.
Definition FL_IF : Z := 0x200.

(** [sizeof(struct trapframe)] and [sizeof(struct context)]; [eip] is the last
    field of the context. *)
Definition SIZEOF_TF : Z := 76.
Definition SIZEOF_CONTEXT : Z := 20.

(** Bytes stored over the beginning of an array. *)
Definition overlay (bs a : list Z) : list Z := bs ++ drop (length bs) a.

(** Assignments to registers of a trap frame. *)
Definition tf_set_eax v t := let '(Trapframe a b c d e f g _ i j k l m n o p q r s) := t in Trapframe a b c d e f g v i j k l m n o p q r s.
Definition tf_set_ebp v t := let '(Trapframe a b _ d e f g h i j k l m n o p q r s) := t in Trapframe a b v d e f g h i j k l m n o p q r s.
Definition tf_set_eip v t := let '(Trapframe a b c d e f g h i j k l m n _ p q r s) := t in Trapframe a b c d e f g h i j k l m n v p q r s.
Definition tf_set_esp v t := let '(Trapframe a b c d e f g h i j k l m n o p q _ s) := t in Trapframe a b c d e f g h i j k l m n o p q v s.

Section ProcOps.
Context {D : Type} (nsect kend data : Z).
(** Where the linker placed [trapret], [forkret] and the entries of [ptable]. *)
Context (trapret forkret : Z) (proc_addr : nat -> Z).

Abbreviation kernel := (kernel D).

(** The value of a pointer into the table. *)
Definition chan_of (p : option nat) : Z := match p with Some i => proc_addr i | None => 0 end.

Definition upd_pt (f : ptable -> ptable) (k : kernel) : kernel := set_pt (f (pt k)) k.

(** ** [allocproc] *)

(** The frame on the new kernel stack. *)
Definition stack_frame (kstk : Z) (m : memory) : memory :=
  let sp := kstk + KSTACKSIZE - SIZEOF_TF in
  let sp := sp - 4 in
  let m := store32 m sp trapret in
  let sp := sp - SIZEOF_CONTEXT in
  let m := memset m sp 0 SIZEOF_CONTEXT in
  store32 m (sp + 16) forkret.

Definition allocproc (k : kernel) : outcome (option nat * kernel) :=
  match list_find (fun p => state p = UNUSED) (procs (pt k)) with
  | None => Ret (None, k)
  | Some (i, _) =>
    let n := nextpid (pt k) in
    let k := upd_pt (fun t => set_nextpid (i32 (n + 1)) (updp i (fun p => p_pid n (p_state EMBRYO p)) t)) k in
    '(a, m) ← kalloc (km k);
    let k := upd_pt (updp i (p_kstack a)) (set_km m k) in
    if a =? 0 then Ret (None, upd_pt (updp i (p_state UNUSED)) k)
    else
      let k := set_km (set_mem (stack_frame a (mem (km k))) (km k)) k in
      t ← alloc_queue i (pt k);
      Ret (Some i, set_pt t k)
  end.

(** ** [userinit] *)

Definition init_tf : trapframe :=
  let cs := Z.lor (Z.shiftl SEG_UCODE 3) DPL_USER in
  let ds := Z.lor (Z.shiftl SEG_UDATA 3) DPL_USER in
  Trapframe 0 0 0 0 0 0 0 0 0 0 ds ds 0 0 0 cs FL_IF PGSIZE ds.

(** "initcode" and "/". *)
Definition initcode_name : list Z := [105; 110; 105; 116; 99; 111; 100; 101].

(** [_binary_initcode_start] and [_binary_initcode_size] *)
Definition userinit (initcode_start initcode_size : Z) (k : kernel) : outcome kernel :=
  '(r, k) ← allocproc k;
  match r with
  | None => Undef "null dereference"
  | Some i =>
    let k := upd_pt (set_initproc (Some i)) k in
    '(d, m) ← setupkvm data (km k);
    if d =? 0 then Panic "userinit: out of memory?"
    else
      m ← inituvm d initcode_start (i32 initcode_size) m;
      let k := upd_pt (updp i (fun p =>
        p_name (overlay (safestrcpy (at_list initcode_name) 16) (name p))
          (p_tf init_tf (p_sz PGSIZE (p_pgdir d p))))) (set_km m k) in
      '(ip, s) ← namei nsect [SLASH] 0 (fsys k);
      Ret (upd_pt (updp i (fun p => p_state RUNNABLE (p_cwd ip p))) (set_fsys s k))
  end.

(** ** [fork] and [clone] *)

(** [for(i = 0; i < NOFILE; i++) if(proc->ofile[i]) np->ofile[i] = filedup(...)] *)
Definition dup_files (me np : nat) (k : kernel) : outcome kernel :=
  iterM (fun fd k =>
    p ← getp (pt k) me;
    f ← aget (ofile p) (Z.of_nat fd);
    match f with
    | None => Ret k
    | Some i =>
      k ← filedup i k;
      Ret (upd_pt (updp np (fun q => p_ofile (<[fd := Some i]> (ofile q)) q)) k)
    end) (seq 0 NOFILE) k.

(** The end of both: files, directory, name; the child can run. *)
Definition share_files (me np : nat) (k : kernel) : outcome (Z * kernel) :=
  k ← dup_files me np k;
  p ← getp (pt k) me;
  match cwd p with
  | None => Undef "null dereference"
  | Some c =>
    s ← idup c (fsys k);
    let k := upd_pt (updp np (p_cwd (Some c))) (set_fsys s k) in
    q ← getp (pt k) np;
    let k := upd_pt (updp np (p_state RUNNABLE)) k in
    Ret (pid q, upd_pt (updp np (fun q => p_name (overlay (safestrcpy (at_list (name p)) 16) (name q)) q)) k)
  end.

Definition fork (k : kernel) : outcome (Z * kernel) :=
  '(r, k) ← allocproc k;
  match r with
  | None => Ret (-1, k)
  | Some np =>
    '(me, p) ← curp (pt k);
    '(d, m) ← copyuvm kend data (pgdir p) (sz p) (km k);
    let k := upd_pt (updp np (p_pgdir d)) (set_km m k) in
    if d =? 0 then
      q ← getp (pt k) np;
      m ← kfree kend (kstack q) (km k);
      Ret (-1, upd_pt (updp np (fun q => p_state UNUSED (p_kstack 0 q))) (set_km m k))
    else
      share_files me np (upd_pt (updp np (fun q =>
        p_tf (tf_set_eax 0 (tf p)) (p_parent (Some me) (p_sz (sz p) q)))) k)
  end.

Definition clone (fcn arg1 arg2 stack : Z) (k : kernel) : outcome (Z * kernel) :=
  '(r, k) ← allocproc k;
  match r with
  | None => Ret (-1, k)
  | Some np =>
    '(me, p) ← curp (pt k);
    let t := tf_set_ebp 0 (tf_set_eip (u32 fcn) (tf_set_esp (u32 (stack + PGSIZE - 12)) (tf_set_eax 0 (tf p)))) in
    let k := upd_pt (updp np (fun q =>
      p_ustack stack (p_tf t (p_parent (Some me) (p_sz (sz p) (p_pgdir (pgdir p) q)))))) k in
    a ← uva2ka (pgdir p) stack (km k);
    let m := store32 (mem (km k)) (a + PGSIZE - 4) arg2 in
    let m := store32 m (a + PGSIZE - 8) arg1 in
    let m := store32 m (a + PGSIZE - 12) 0xffffffff in
    share_files me np (set_km (set_mem m (km k)) k)
  end.

(** ** [exit] *)

Definition close_files (me : nat) (k : kernel) : outcome kernel :=
  iterM (fun fd k =>
    p ← getp (pt k) me;
    f ← aget (ofile p) (Z.of_nat fd);
    match f with
    | None => Ret k
    | Some i =>
      k ← fileclose nsect kend i k;
      Ret (upd_pt (updp me (fun q => p_ofile (<[fd := None]> (ofile q)) q)) k)
    end) (seq 0 NOFILE) k.

(** Pass abandoned children to init. *)
Definition reparent (me : nat) (t : ptable) : outcome ptable :=
  iterM (fun j t =>
    p ← getp t j;
    if decide (parent p = Some me) then
      let t := updp j (p_parent (initproc t)) t in
      Ret (if decide (state p = ZOMBIE) then wakeup1 (chan_of (initproc t)) t else t)
    else Ret t) (seq 0 NPROC) t.

(** Up to the switch to the scheduler. *)
Definition exit (k : kernel) : outcome kernel :=
  '(me, _) ← curp (pt k);
  if decide (initproc (pt k) = Some me) then Panic "init exiting"
  else
    k ← close_files me k;
    p ← getp (pt k) me;
    match cwd p with
    | None => Undef "null dereference"
    | Some c =>
      s ← iput nsect c (fsys k);
      let k := upd_pt (updp me (p_cwd None)) (set_fsys s k) in
      let k := upd_pt (wakeup1 (chan_of (parent p))) k in
      t ← reparent me (pt k);
      Ret (set_pt (updp me (p_state ZOMBIE) t) k)
    end.

(** ** [wait] and [join] *)

(** The entry of a process that was waited for. *)
Definition reaped (p : proc) : proc :=
  p_killed 0 (p_name (overlay [0] (name p)) (p_parent None (p_pid 0 (p_state UNUSED p)))).

Definition wait (k : kernel) : outcome (result unit * kernel) :=
  '(me, p) ← curp (pt k);
  match list_find (fun q => parent q = Some me /\ state q = ZOMBIE) (procs (pt k)) with
  | Some (j, q) =>
    m ← kfree kend (kstack q) (km k);
    let k := upd_pt (updp j (p_kstack 0)) (set_km m k) in
    m ← freevm kend (pgdir q) (km k);
    Ret (Returns (pid q), upd_pt (updp j reaped) (set_km m k))
  | None =>
    if negb (existsb (fun q => bool_decide (parent q = Some me)) (procs (pt k))) || negb (killed p =? 0)
    then Ret (Returns (-1), k)
    else t ← sleep (proc_addr me) false (pt k); Ret (Sleeps tt, set_pt t k)
  end.

Definition join (stack : Z) (k : kernel) : outcome (result unit * kernel) :=
  '(me, p) ← curp (pt k);
  match list_find (fun q => (parent q = Some me /\ pgdir q = pgdir p) /\ state q = ZOMBIE) (procs (pt k)) with
  | Some (j, q) =>
    if decide (j = me) then Panic "proc"
    else
      m ← ustore32 (pgdir p) stack (ustack q) (km k);
      m ← kfree kend (kstack q) m;
      Ret (Returns (pid q),
        upd_pt (updp j (fun q => reaped (p_pgdir 0 (p_ustack 0 (p_kstack 0 q))))) (set_km m k))
  | None =>
    if negb (existsb (fun q => bool_decide (parent q = Some me /\ pgdir q = pgdir p)) (procs (pt k)))
       || negb (killed p =? 0)
    then m ← ustore32 (pgdir p) stack 0 (km k); Ret (Returns (-1), set_km m k)
    else t ← sleep (proc_addr me) false (pt k); Ret (Sleeps tt, set_pt t k)
  end.

End ProcOps.

(** ** The process tree

    What matters of a process to its relatives: whether the entry is free, the
    process alive or a zombie, its parent and its id. *)

Inductive class := Free | Embryo | Alive | Zombie.
Definition class_of (s : procstate) : class :=
  match s with UNUSED => Free | EMBRYO => Embryo | ZOMBIE => Zombie | _ => Alive end.
Definition view (p : proc) : class * option nat * Z := (class_of (state p), parent p, pid p).
Definition views (t : ptable) : list (class * option nat * Z) := view <$> procs t.

Definition v_class c (v : class * option nat * Z) : class * option nat * Z := (c, v.1.2, v.2).
Definition v_parent q (v : class * option nat * Z) : class * option nat * Z := (v.1.1, q, v.2).
Definition v_pid n (v : class * option nat * Z) : class * option nat * Z := (v.1, n).

Lemma views_updp i f g t : (forall p, view (f p) = g (view p)) -> views (updp i f t) = alter g i (views t).
Proof.
  intros E. unfold views, updp. cbn [procs set_procs]. apply list_eq. intros j. rewrite list_lookup_fmap.
  destruct (decide (i = j)) as [<-|Hn].
  - rewrite !list_lookup_alter_eq, list_lookup_fmap. destruct (procs t !! i); simpl; by rewrite ?E.
  - by rewrite !list_lookup_alter_ne, list_lookup_fmap.
Qed.

Lemma views_same i f t : (forall p, view (f p) = view p) -> views (updp i f t) = views t.
Proof. intros E. rewrite (views_updp i f id) by done. apply list_alter_id. done. Qed.

Lemma views_wakeup c t : views (wakeup1 c t) = views t.
Proof.
  unfold views, wakeup1, mapp. cbn [procs set_procs]. rewrite <- list_fmap_compose. apply list_fmap_ext.
  intros j p _. unfold compose, wakeup1_one. case_match eqn:E; [|done].
  apply andb_true_iff in E as [E _]. apply bool_decide_eq_true in E. destruct p; simpl in *; subst. done.
Qed.

(** The rest of the table that the tree depends on. *)
Definition frame (t : ptable) := (views t, initproc t, nextpid t, cur t).

Lemma frame_updp i f t : (forall p, view (f p) = view p) -> frame (updp i f t) = frame t.
Proof. intros E. unfold frame. rewrite views_same by done. done. Qed.

Lemma frame_wakeup c t : frame (wakeup1 c t) = frame t.
Proof. unfold frame. by rewrite views_wakeup. Qed.

Lemma iterM_inv {A S X} (f : A -> S -> outcome S) (g : S -> X) l s s' :
  (forall x s s', f x s = Ret s' -> g s' = g s) -> iterM f l s = Ret s' -> g s' = g s.
Proof.
  intros Hf. revert s. induction l as [|x l IH]; simpl; intros s E; [congruence|].
  bind_inv E. rewrite (IH _ E). by eapply Hf.
Qed.

(** An assignment that leaves state, parent and id alone. *)
Ltac by_fields := let p := fresh in intros p; destruct p; reflexivity.

Section Tree.
Context {D : Type} (nsect kend data : Z) (trapret forkret : Z) (proc_addr : nat -> Z).
Implicit Types k : kernel D.

(** File operations wake processes up, nothing else. *)
Lemma frame_close_pipe p w k k' : close_pipe kend p w k = Ret k' -> frame (pt k') = frame (pt k).
Proof.
  unfold close_pipe. intros E. bind_inv E. destruct (pipeclose w a) as [[wk free] pi].
  assert (Hw : frame (pt (pipe_wake wk p k)) = frame (pt k)) by (destruct wk; [apply frame_wakeup..|done]).
  destruct free; [bind_inv E|]; injection E as <-; done.
Qed.

Lemma frame_fileclose i k k' : fileclose nsect kend i k = Ret k' -> frame (pt k') = frame (pt k).
Proof.
  unfold fileclose. intros E. bind_inv E. case_match; [done|]. case_match; [by injection E as <-|].
  destruct (ftype a); [by injection E as <-|by apply frame_close_pipe in E|].
  bind_inv E. by injection E as <-.
Qed.

Lemma pt_filedup i k k' : filedup i k = Ret k' -> pt k' = pt k.
Proof. unfold filedup. intros E. bind_inv E. case_match; [done|]. by injection E as <-. Qed.

Lemma frame_dup_files me np k k' : dup_files me np k = Ret k' -> frame (pt k') = frame (pt k).
Proof.
  apply (iterM_inv _ (fun k => frame (pt k))). intros fd k1 k2 E. do 2 bind_inv E. destruct a0 as [i|]; [|by injection E as <-].
  bind_inv E. injection E as <-. unfold upd_pt. cbn [pt set_pt]. rewrite frame_updp by by_fields. by rewrite (pt_filedup _ _ _ E2).
Qed.

Lemma frame_close_files me k k' : close_files nsect kend me k = Ret k' -> frame (pt k') = frame (pt k).
Proof.
  apply (iterM_inv _ (fun k => frame (pt k))). intros fd k1 k2 E. do 2 bind_inv E. destruct a0 as [i|]; [|by injection E as <-].
  bind_inv E. injection E as <-. unfold upd_pt. cbn [pt set_pt]. rewrite frame_updp by by_fields. by apply frame_fileclose in E2.
Qed.

(** The scheduler's queues do not matter either. *)
Lemma frame_alloc_queue i t t' : alloc_queue i t = Ret t' -> frame t' = frame t.
Proof.
  unfold alloc_queue, enqueue. intros E. do 2 bind_inv E. unfold mlfq_set in E1. unfold size_add in E.
  repeat bind_inv E1. injection E1 as <-. repeat bind_inv E. injection E as <-.
  change (frame (updp i (p_sched (Mq 3 (replicate NLAYER 0) (replicate NLAYER 0) 0 0)) t) = frame t).
  apply frame_updp. by_fields.
Qed.

Lemma kalloc_ne0 s p s' : kalloc s = Ret (p, s') -> p <> 0.
Proof.
  unfold kalloc. intros E. bind_inv E. destruct a as [r s1]. bind_inv E. injection E as <- <-.
  unfold kalloc_locked in E0. destruct (xv6_rand (rand_seed s)) as [rnd seed].
  destruct (size_freelist s =? 0); [done|]. case_match.
  - destruct (freelist s =? 0) eqn:Ez; [done|]. injection E0 as <- _. by apply Z.eqb_neq.
  - bind_inv E0. destruct a0 as [rp r']. destruct (r' =? 0) eqn:Ez; [done|]. injection E0 as <- _. by apply Z.eqb_neq.
Qed.

(** [allocproc] takes a free entry, which becomes an embryo with a fresh id. *)
Lemma allocproc_frame k r k' :
  allocproc trapret forkret k = Ret (r, k') ->
  match r with
  | None => frame (pt k') = frame (pt k)
  | Some i => exists q n, views (pt k) !! i = Some (Free, q, n) /\
      frame (pt k') = (<[i := (Embryo, q, nextpid (pt k))]> (views (pt k)), initproc (pt k),
                       i32 (nextpid (pt k) + 1), cur (pt k))
  end.
Proof.
  unfold allocproc. destruct (list_find _ _) as [[i p]|] eqn:F; [|by intros [= <- <-]].
  apply list_find_Some in F as (Hp & Hs & _). intros E. bind_inv E. destruct a as [a m].
  rewrite (proj2 (Z.eqb_neq a 0)) in E by (by eapply kalloc_ne0). bind_inv E. injection E as <- <-.
  exists (parent p), (pid p). split; [unfold views; rewrite list_lookup_fmap, Hp; simpl; unfold view; by rewrite Hs|].
  cbn [pt set_pt]. rewrite (frame_alloc_queue _ _ _ E1). unfold upd_pt. cbn [pt set_pt set_km].
  rewrite frame_updp by by_fields. unfold frame. cbn [set_nextpid procs initproc nextpid cur].
  change (views (set_nextpid _ ?t)) with (views t).
  rewrite (views_updp _ _ (fun v => (Embryo, v.1.2, nextpid (pt k)))) by by_fields.
  repeat f_equal. apply list_eq. intros j. destruct (decide (i = j)) as [<-|Hn].
  - assert (Hv : views (pt k) !! i = Some (view p)) by (unfold views; by rewrite list_lookup_fmap, Hp).
    rewrite list_lookup_alter_eq, list_lookup_insert_eq, Hv by (by eapply lookup_lt_Some). done.
  - by rewrite list_lookup_alter_ne, list_lookup_insert_ne.
Qed.

(** Changing one view. *)
Lemma alter_view (g : class * option nat * Z -> class * option nat * Z) i (vs : list (class * option nat * Z)) v :
  vs !! i = Some v -> alter g i vs = <[i := g v]> vs.
Proof.
  intros Hv. apply list_eq. intros j. destruct (decide (i = j)) as [<-|Hn].
  - by rewrite list_lookup_alter_eq, list_lookup_insert_eq, Hv by (by eapply lookup_lt_Some).
  - by rewrite list_lookup_alter_ne, list_lookup_insert_ne.
Qed.

Lemma frame_change i f g t v : (forall p, view (f p) = g (view p)) -> views t !! i = Some v ->
  frame (updp i f t) = (<[i := g v]> (views t), initproc t, nextpid t, cur t).
Proof. intros Hf Hv. unfold frame. rewrite (views_updp _ _ g) by done. by rewrite (alter_view _ _ _ v). Qed.

Lemma frame_inv t t' : frame t' = frame t ->
  views t' = views t /\ initproc t' = initproc t /\ nextpid t' = nextpid t /\ cur t' = cur t.
Proof. by intros [= -> -> -> ->]. Qed.

Lemma getp_view t i p : getp t i = Ret p -> views t !! i = Some (view p).
Proof. unfold getp, views. rewrite list_lookup_fmap. case_match eqn:E; [|done]. intros [= ->]. done. Qed.

Lemma curp_view t i p : curp t = Ret (i, p) -> cur t = Some i /\ views t !! i = Some (view p).
Proof. unfold curp. case_match; [|done]. intros E. bind_inv E. injection E as <- <-. eauto using getp_view. Qed.

Lemma share_files_frame me np k r k' v :
  share_files me np k = Ret (r, k') -> views (pt k) !! np = Some v ->
  r = v.2 /\ frame (pt k') = (<[np := v_class Alive v]> (views (pt k)), initproc (pt k), nextpid (pt k), cur (pt k)).
Proof.
  unfold share_files. intros E Hv. bind_inv E. apply frame_dup_files in E0. apply frame_inv in E0 as (V0 & I0 & N0 & C0).
  bind_inv E. destruct (cwd a0) as [c|]; [|done]. bind_inv E. bind_inv E. injection E as <- <-.
  apply getp_view in E2. unfold upd_pt in *. cbn [pt set_pt set_fsys] in *.
  rewrite views_same, V0, Hv in E2 by by_fields. injection E2 as ->. split; [done|].
  rewrite frame_updp by by_fields. rewrite (frame_change _ _ (v_class Alive) _ (view a2)); [|by_fields|].
  - rewrite views_same by by_fields. cbn [updp set_procs initproc nextpid cur]. by rewrite V0, I0, N0, C0.
  - by rewrite views_same, V0 by by_fields.
Qed.

(** The three outcomes of [fork]; [clone] cannot fail after [allocproc]. *)
Lemma fork_frame k r k' :
  fork kend data trapret forkret k = Ret (r, k') ->
  r = -1 /\ frame (pt k') = frame (pt k) \/
  exists np q n, views (pt k) !! np = Some (Free, q, n) /\ initproc (pt k') = initproc (pt k) /\
    nextpid (pt k') = i32 (nextpid (pt k) + 1) /\ cur (pt k') = cur (pt k) /\
    (r = -1 /\ views (pt k') = <[np := (Free, q, nextpid (pt k))]> (views (pt k)) \/
     r = nextpid (pt k) /\ views (pt k') = <[np := (Alive, cur (pt k), nextpid (pt k))]> (views (pt k))).
Proof.
  unfold fork. intros E. bind_inv E. destruct a as [[np|] k1]; apply allocproc_frame in E0; [|left; by injection E as <- <-].
  right. destruct E0 as (q & n & Hv & F1). exists np, q, n. assert (Hl := lookup_lt_Some _ _ _ Hv).
  injection F1 as V1 I1 N1 C1. bind_inv E. destruct a as [me p]. apply curp_view in E0 as [C0 P0].
  bind_inv E. destruct a as [d m]. destruct (d =? 0).
  - bind_inv E. bind_inv E. injection E as <- <-. unfold upd_pt in *. cbn [pt set_pt set_km] in *.
    assert (Hx : views (updp np (p_pgdir d) (pt k1)) !! np = Some (Embryo, q, nextpid (pt k)))
      by (rewrite views_same, V1 by by_fields; by apply list_lookup_insert_eq).
    pose proof (frame_change np (fun q => p_state UNUSED (p_kstack 0 q)) (v_class Free) _ _ ltac:(by_fields) Hx) as F2.
    injection F2 as V2. split_and!; [done|cbn; congruence..|]. left. split; [done|].
    rewrite V2, views_same, V1 by by_fields. apply list_insert_insert_eq.
  - unfold upd_pt in E. cbn [pt set_pt set_km] in E.
    assert (Hx : views (updp np (p_pgdir d) (pt k1)) !! np = Some (Embryo, q, nextpid (pt k)))
      by (rewrite views_same, V1 by by_fields; by apply list_lookup_insert_eq).
    set (f := fun q => p_tf (tf_set_eax 0 (tf p)) (p_parent (Some me) (p_sz (sz p) q))) in *.
    pose proof (frame_change np f (v_parent (Some me)) _ _ ltac:(by_fields) Hx) as F2. injection F2 as V2.
    apply (share_files_frame _ _ _ _ _ (Embryo, Some me, nextpid (pt k))) in E; cbn [pt set_pt] in *.
    + destruct E as [-> F3]. injection F3 as V3 I3 N3 C3.
      cbn [updp set_procs initproc nextpid cur] in I3, N3, C3. split_and!; [done|congruence..|]. right. split; [done|].
      rewrite V3, V2, views_same, V1 by by_fields. rewrite !list_insert_insert_eq, <- C1, C0. done.
    + rewrite V2. rewrite list_lookup_insert_eq; [done|]. rewrite views_same, V1, length_insert by by_fields. done.
Qed.

Lemma clone_frame fcn arg1 arg2 stack k r k' :
  clone trapret forkret fcn arg1 arg2 stack k = Ret (r, k') ->
  r = -1 /\ frame (pt k') = frame (pt k) \/
  exists np q n, views (pt k) !! np = Some (Free, q, n) /\ initproc (pt k') = initproc (pt k) /\
    nextpid (pt k') = i32 (nextpid (pt k) + 1) /\ cur (pt k') = cur (pt k) /\
    r = nextpid (pt k) /\ views (pt k') = <[np := (Alive, cur (pt k), nextpid (pt k))]> (views (pt k)).
Proof.
  unfold clone. intros E. bind_inv E. destruct a as [[np|] k1]; apply allocproc_frame in E0; [|left; by injection E as <- <-].
  right. destruct E0 as (q & n & Hv & F1). exists np, q, n. assert (Hl := lookup_lt_Some _ _ _ Hv).
  injection F1 as V1 I1 N1 C1. bind_inv E. destruct a as [me p]. apply curp_view in E0 as [C0 P0].
  bind_inv E. unfold upd_pt in E. cbn [pt set_pt set_km] in E.
  assert (Hx : views (pt k1) !! np = Some (Embryo, q, nextpid (pt k))) by (rewrite V1; by apply list_lookup_insert_eq).
  match type of E with context [updp np ?g (pt k1)] => set (f := g) in * end.
  pose proof (frame_change np f (v_parent (Some me)) _ _ ltac:(by_fields) Hx) as F2. injection F2 as V2.
  apply (share_files_frame _ _ _ _ _ (Embryo, Some me, nextpid (pt k))) in E; cbn [pt set_pt set_km] in *.
  - destruct E as [-> F3]. injection F3 as V3 I3 N3 C3.
    cbn [updp set_procs initproc nextpid cur] in I3, N3, C3. split_and!; [done|congruence..|done|].
    rewrite V3, V2, V1. rewrite !list_insert_insert_eq, <- C1, C0. done.
  - rewrite V2. rewrite list_lookup_insert_eq; [done|]. by rewrite V1, length_insert.
Qed.

(** [exit] turns the process into a zombie and its children into init's. *)
Definition adopt (me : nat) (init : option nat) (v : class * option nat * Z) : class * option nat * Z :=
  if decide (v.1.2 = Some me) then v_parent init v else v.

Lemma reparent_from me l : forall j t t',
  iterM (fun j t =>
    p ← getp t j;
    if decide (parent p = Some me) then
      let t := updp j (p_parent (initproc t)) t in
      Ret (if decide (state p = ZOMBIE) then wakeup1 (chan_of proc_addr (initproc t)) t else t)
    else Ret t) (seq j l) t = Ret t' ->
  initproc t' = initproc t /\ nextpid t' = nextpid t /\ cur t' = cur t /\
  length (views t') = length (views t) /\
  forall i v, views t !! i = Some v ->
    views t' !! i = Some (if decide (j <= i < j + l)%nat then adopt me (initproc t) v else v).
Proof.
  induction l as [|l IH]; intros j t t' E; simpl in E.
  - injection E as <-. split_and!; try done. intros i v Hi. rewrite decide_False by lia. done.
  - bind_inv E. bind_inv E0. pose proof (getp_view _ _ _ E1) as Hv.
    assert (Ha : initproc a = initproc t /\ nextpid a = nextpid t /\ cur a = cur t /\
      views a = alter (adopt me (initproc t)) j (views t)).
    { rewrite (alter_view _ _ _ _ Hv). unfold adopt at 1. cbn [view fst snd].
      destruct (decide (parent a0 = Some me)) as [Hp|Hp].
      - pose proof (frame_change j (p_parent (initproc t)) (v_parent (initproc t)) t _ ltac:(by_fields) Hv) as F. injection F as F.
        case_decide; injection E0 as <-; [rewrite views_wakeup|]; split_and!; try done.
      - injection E0 as <-. split_and!; try done. symmetry. by apply list_insert_id. }
    destruct Ha as (I0 & N0 & C0 & V0). apply IH in E as (I1 & N1 & C1 & L1 & V1).
    rewrite V0, length_alter in L1. split_and!; try congruence. intros i v Hi.
    destruct (decide (i = j)) as [->|Hn].
    + rewrite (V1 j (adopt me (initproc t) v)) by (by rewrite V0, list_lookup_alter_eq, Hi).
      rewrite decide_False, decide_True by lia. done.
    + rewrite (V1 i v) by (by rewrite V0, list_lookup_alter_ne by congruence). rewrite I0.
      destruct (decide (S j <= i < S j + l)%nat), (decide (j <= i < j + S l)%nat); done || lia.
Qed.

Lemma exit_frame k k' :
  exit nsect kend proc_addr k = Ret k' -> length (views (pt k)) = NPROC ->
  exists me v, cur (pt k) = Some me /\ initproc (pt k) <> Some me /\ views (pt k) !! me = Some v /\
    frame (pt k') = (<[me := v_class Zombie (adopt me (initproc (pt k)) v)]> (adopt me (initproc (pt k)) <$> views (pt k)),
      initproc (pt k), nextpid (pt k), cur (pt k)).
Proof.
  unfold exit. intros E Hlen. bind_inv E. destruct a as [me p0]. apply curp_view in E0 as [C0 Hme].
  case_decide as Hi; [done|]. bind_inv E. apply frame_close_files in E0. apply frame_inv in E0 as (V0 & I0 & N0 & C0').
  bind_inv E. destruct (cwd a0) as [c|]; [|done]. bind_inv E. bind_inv E. injection E as <-.
  unfold upd_pt in E2. cbn [pt set_pt set_fsys] in E2. unfold reparent in E2.
  apply reparent_from in E2 as (I1 & N1 & C1 & L1 & V1). rewrite views_wakeup, views_same in L1, V1 by by_fields.
  cbn [wakeup1 mapp set_procs updp initproc nextpid cur] in I1, N1, C1, V1.
  exists me, (view p0). split_and!; [done..|]. cbn [pt set_pt].
  assert (Va : views a2 = adopt me (initproc (pt k)) <$> views (pt k)).
  { apply list_eq_same_length with NPROC; [by rewrite length_fmap|congruence|].
    intros i x y Hl Hx Hy. rewrite list_lookup_fmap in Hy. destruct (views (pt k) !! i) as [v|] eqn:Hv; [|done].
    injection Hy as <-. rewrite <- V0 in Hv. apply V1 in Hv. rewrite Hx in Hv. injection Hv as ->.
    rewrite decide_True by (simpl in *; lia). congruence. }
  rewrite (frame_change me (p_state ZOMBIE) (v_class Zombie) a2 (adopt me (initproc (pt k)) (view p0))) by
    (by_fields || (rewrite Va, list_lookup_fmap, Hme; done)).
  rewrite Va, I1, N1, C1, I0, N0, C0'. done.
Qed.

(** [wait] and [join] free the entry of a zombie child, or change nothing. *)
Definition reaps (k : kernel D) (r : result unit) (k' : kernel D) : Prop :=
  frame (pt k') = frame (pt k) /\ (r = Returns (-1) \/ r = Sleeps tt) \/
  exists j n, views (pt k) !! j = Some (Zombie, cur (pt k), n) /\ r = Returns n /\
    frame (pt k') = (<[j := (Free, None, 0)]> (views (pt k)), initproc (pt k), nextpid (pt k), cur (pt k)).

Lemma sleep_frame c t t' : sleep c false t = Ret t' ->
  (forall i v, cur t = Some i -> views t !! i = Some v -> v.1.1 = Alive) -> frame t' = frame t.
Proof.
  unfold sleep. destruct (cur t) as [i|] eqn:C; [|done]. intros [= <-] Ha.
  unfold frame. rewrite (views_updp _ _ (v_class Alive)) by by_fields. repeat f_equal; try done.
  destruct (views t !! i) as [v|] eqn:Hv.
  - rewrite (alter_view _ _ _ _ Hv). specialize (Ha i v eq_refl Hv). destruct v as [[x y] z]. simpl in Ha. subst.
    by apply list_insert_id.
  - apply list_eq. intros j. destruct (decide (i = j)) as [<-|]; [|by rewrite list_lookup_alter_ne].
    by rewrite list_lookup_alter_eq, Hv.
Qed.

Lemma wait_frame k r k' :
  wait kend proc_addr k = Ret (r, k') ->
  (forall i v, cur (pt k) = Some i -> views (pt k) !! i = Some v -> v.1.1 = Alive) -> reaps k r k'.
Proof.
  unfold wait. intros E Ha. bind_inv E. destruct a as [me p]. apply curp_view in E0 as [C0 _].
  destruct (list_find _ _) as [[j q]|] eqn:F.
  - apply list_find_Some in F as (Hj & [Hp Hs] & _). right. exists j, (pid q). bind_inv E. bind_inv E. injection E as <- <-.
    assert (Hv : views (pt k) !! j = Some (Zombie, cur (pt k), pid q)).
    { unfold views. rewrite list_lookup_fmap, Hj. simpl. unfold view. by rewrite Hs, Hp, C0. }
    split_and!; [done..|]. unfold upd_pt. cbn [pt set_pt set_km].
    rewrite (frame_change j reaped (fun _ => (Free, None, 0)) _ (Zombie, cur (pt k), pid q)); [|by_fields|].
    + by rewrite views_same by by_fields.
    + by rewrite views_same by by_fields.
  - left. case_match; [injection E as <- <-; auto|]. bind_inv E. injection E as <- <-.
    split; [|auto]. by apply (sleep_frame (proc_addr me)).
Qed.

Lemma join_frame stack k r k' :
  join kend proc_addr stack k = Ret (r, k') ->
  (forall i v, cur (pt k) = Some i -> views (pt k) !! i = Some v -> v.1.1 = Alive) -> reaps k r k'.
Proof.
  unfold join. intros E Ha. bind_inv E. destruct a as [me p]. apply curp_view in E0 as [C0 _].
  destruct (list_find _ _) as [[j q]|] eqn:F.
  - apply list_find_Some in F as (Hj & [[Hp _] Hs] & _). right. exists j, (pid q). case_decide; [done|].
    bind_inv E. bind_inv E. injection E as <- <-.
    assert (Hv : views (pt k) !! j = Some (Zombie, cur (pt k), pid q)).
    { unfold views. rewrite list_lookup_fmap, Hj. simpl. unfold view. by rewrite Hs, Hp, C0. }
    split_and!; [done..|]. unfold upd_pt. cbn [pt set_pt set_km].
    by rewrite (frame_change j _ (fun _ => (Free, None, 0)) _ (Zombie, cur (pt k), pid q)); [|by_fields|].
  - left. case_match; [bind_inv E; injection E as <- <-; auto|]. bind_inv E. injection E as <- <-.
    split; [|auto]. by apply (sleep_frame (proc_addr me)).
Qed.

Lemma userinit_frame st n k k' :
  userinit nsect data trapret forkret st n k = Ret k' -> pt k = ptable_boot ->
  frame (pt k') = (<[0%nat := (Alive, None, 1)]> (replicate NPROC (Free, None, 0)), Some 0%nat, 2, None).
Proof.
  unfold userinit. intros E B. bind_inv E. destruct a as [r k1].
  assert (r = Some 0%nat) as ->.
  { unfold allocproc in E0. rewrite B in E0. cbn [list_find] in E0. change (list_find _ _) with (Some (0%nat, proc_zero)) in E0.
    cbn iota beta in E0. bind_inv E0. destruct a as [a m]. rewrite (proj2 (Z.eqb_neq a 0)) in E0 by (by eapply kalloc_ne0).
    bind_inv E0. by injection E0 as <-. }
  apply allocproc_frame in E0 as (q & m & Hv & F). rewrite B in F, Hv. injection Hv as <- <-. injection F as V I N C.
  bind_inv E. destruct a as [d m]. case_match; [done|]. bind_inv E. bind_inv E. destruct a0 as [ip s]. injection E as <-.
  unfold upd_pt. cbn [pt set_pt set_fsys set_km].
  rewrite (frame_change 0 _ (v_class Alive) _ (Embryo, None, 1)); [|by_fields|].
  - rewrite views_same by by_fields. change (views (set_initproc _ ?t)) with (views t). rewrite V.
    cbn [updp set_procs set_initproc initproc nextpid cur]. rewrite N, C. reflexivity.
  - rewrite views_same by by_fields. change (views (set_initproc _ ?t)) with (views t). by rewrite V.
Qed.

(** ** Runs of system calls

    A process that is alive makes a call; between calls anything happens that
    leaves the tree alone (scheduling, sleeping, waking up, work on files). *)

Definition caller (k : kernel D) (me : nat) : Prop :=
  cur (pt k) = Some me /\ exists q n, views (pt k) !! me = Some (Alive, q, n).

Inductive treach : kernel D -> Prop :=
| tr_boot st n k k' : pt k = ptable_boot -> userinit nsect data trapret forkret st n k = Ret k' -> treach k'
| tr_fork k me r k' : treach k -> caller k me -> nextpid (pt k) < 2 ^ 31 - 1 ->
    fork kend data trapret forkret k = Ret (r, k') -> treach k'
| tr_clone k me fcn a1 a2 stack r k' : treach k -> caller k me -> nextpid (pt k) < 2 ^ 31 - 1 ->
    clone trapret forkret fcn a1 a2 stack k = Ret (r, k') -> treach k'
| tr_exit k me k' : treach k -> caller k me -> exit nsect kend proc_addr k = Ret k' -> treach k'
| tr_wait k me r k' : treach k -> caller k me -> wait kend proc_addr k = Ret (r, k') -> treach k'
| tr_join k me stack r k' : treach k -> caller k me -> join kend proc_addr stack k = Ret (r, k') -> treach k'
| tr_other k k' : treach k -> views (pt k') = views (pt k) -> initproc (pt k') = initproc (pt k) ->
    nextpid (pt k') = nextpid (pt k) -> treach k'.

Record tree_inv (vs : list (class * option nat * Z)) (init : option nat) (next : Z) : Prop := {
  ti_len : length vs = NPROC;
  ti_init : exists i n, init = Some i /\ vs !! i = Some (Alive, None, n);
  ti_parent : forall j c q n, vs !! j = Some (c, q, n) ->
    match c with
    | Free => q = None
    | Embryo => False
    | _ => q = None /\ init = Some j \/ exists i q' m, q = Some i /\ vs !! i = Some (Alive, q', m)
    end;
  ti_pid : forall j c q n, vs !! j = Some (c, q, n) -> c <> Free -> 0 < n < next;
  ti_uniq : forall i j c d q q' n, vs !! i = Some (c, q, n) -> vs !! j = Some (d, q', n) ->
    c <> Free -> d <> Free -> i = j;
  ti_next : 0 < next
}.

(** The lookup after one entry changed. *)
Lemma lookup_change {A} (l : list A) i x j y :
  (i < length l)%nat -> <[i := x]> l !! j = Some y -> j = i /\ y = x \/ j <> i /\ l !! j = Some y.
Proof.
  intros Hl. destruct (decide (i = j)) as [<-|Hn].
  - rewrite list_lookup_insert_eq by done. intros [= <-]. by left.
  - rewrite list_lookup_insert_ne by done. right. split; [congruence|done].
Qed.

(** A child is born. *)
Lemma tree_create vs init next np q n me q0 n0 :
  tree_inv vs init next -> vs !! np = Some (Free, q, n) -> vs !! me = Some (Alive, q0, n0) ->
  tree_inv (<[np := (Alive, Some me, next)]> vs) init (next + 1).
Proof.
  intros [T1 T2 T3 T4 T5 T6] Hnp Hme. assert (Hl := lookup_lt_Some _ _ _ Hnp).
  assert (Hk : forall i q' m, vs !! i = Some (Alive, q', m) -> <[np := (Alive, Some me, next)]> vs !! i = Some (Alive, q', m)).
  { intros i q' m Hi. rewrite list_lookup_insert_ne; [done|]. intros ->. congruence. }
  split; [by rewrite length_insert| | | | |lia].
  - destruct T2 as (i & m & -> & Hi). exists i, m. auto.
  - intros j c q' m Hj. destruct (lookup_change _ _ _ _ _ Hl Hj) as [[-> [= -> -> ->]]|[Hne Hj']]; [right; eauto 10|].
    specialize (T3 _ _ _ _ Hj'). destruct c; [done|done|..]; destruct T3 as [?|(i & q1 & m1 & -> & Hi)]; eauto 10.
  - intros j c q' m Hj Hc. destruct (lookup_change _ _ _ _ _ Hl Hj) as [[-> [= -> -> ->]]|[Hne Hj']]; [lia|].
    specialize (T4 _ _ _ _ Hj' Hc). lia.
  - intros i j c d q1 q2 m Hi Hj Hc Hd.
    destruct (lookup_change _ _ _ _ _ Hl Hi) as [[-> [= -> -> ->]]|[Hni Hi']], (lookup_change _ _ _ _ _ Hl Hj) as [[-> E]|[Hnj Hj']]; try done.
    + specialize (T4 _ _ _ _ Hj' Hd). lia.
    + injection E as -> -> ->. specialize (T4 _ _ _ _ Hi' Hc). lia.
    + eauto.
Qed.

(** An entry is freed, or stays free with another id. *)
Lemma tree_free vs init next next' j c q n q' m :
  tree_inv vs init next -> next <= next' -> vs !! j = Some (c, q, n) -> c <> Alive -> q' = None ->
  tree_inv (<[j := (Free, q', m)]> vs) init next'.
Proof.
  intros [T1 T2 T3 T4 T5 T6] Hn Hj Hc ->. assert (Hl := lookup_lt_Some _ _ _ Hj).
  assert (Hk : forall i q' m', vs !! i = Some (Alive, q', m') -> <[j := (Free, None, m)]> vs !! i = Some (Alive, q', m')).
  { intros i q' m' Hi. rewrite list_lookup_insert_ne; [done|]. intros ->. congruence. }
  split; [by rewrite length_insert| | | | |lia].
  - destruct T2 as (i & m' & -> & Hi). exists i, m'. auto.
  - intros i d q' m' Hi. destruct (lookup_change _ _ _ _ _ Hl Hi) as [[-> [= -> -> ->]]|[Hne Hi']]; [done|].
    specialize (T3 _ _ _ _ Hi'). destruct d; [done|done|..]; destruct T3 as [?|(i' & q1 & m1 & -> & Hi1)]; eauto 10.
  - intros i d q' m' Hi Hd. destruct (lookup_change _ _ _ _ _ Hl Hi) as [[-> [= -> -> ->]]|[Hne Hi']]; [done|].
    specialize (T4 _ _ _ _ Hi' Hd). lia.
  - intros i i' d d' q1 q2 m' Hi Hi' Hd Hd'.
    destruct (lookup_change _ _ _ _ _ Hl Hi) as [[-> [= -> -> ->]]|[Hni Hi1]], (lookup_change _ _ _ _ _ Hl Hi') as [[-> E]|[Hnj Hj1]]; try done.
    + injection E as -> -> ->. done.
    + eauto.
Qed.

(** A process exits. *)
Lemma tree_exit vs init next me q n :
  tree_inv vs init next -> vs !! me = Some (Alive, q, n) -> init <> Some me ->
  tree_inv (<[me := v_class Zombie (adopt me init (Alive, q, n))]> (adopt me init <$> vs)) init next.
Proof.
  intros [T1 T2 T3 T4 T5 T6] Hme Hni. destruct T2 as (i0 & n0 & -> & Hi0).
  assert (Hl : (me < length (adopt me (Some i0) <$> vs))%nat) by (rewrite length_fmap; by eapply lookup_lt_Some).
  (** the new entries *)
  assert (G : forall j c p m,
    <[me := v_class Zombie (adopt me (Some i0) (Alive, q, n))]> (adopt me (Some i0) <$> vs) !! j = Some (c, p, m) ->
    exists c' p', vs !! j = Some (c', p', m) /\ c = (if decide (j = me) then Zombie else c') /\
      p = if decide (p' = Some me) then Some i0 else p').
  { intros j c p m Hj. destruct (lookup_change _ _ _ _ _ Hl Hj) as [[-> E]|[Hne Hj']].
    - exists Alive, q. rewrite decide_True by done. unfold adopt, v_class, v_parent in E. simpl in E.
      case_decide; injection E as -> -> ->; done.
    - rewrite list_lookup_fmap in Hj'. destruct (vs !! j) as [[[c' p'] m']|] eqn:E; [|done]. injection Hj' as Hj'.
      unfold adopt, v_parent in Hj'. simpl in Hj'. exists c', p'. rewrite (decide_False (P := j = me)) by done.
      case_decide; injection Hj' as <- <- <-; done. }
  assert (K : forall i p m, vs !! i = Some (Alive, p, m) -> i <> me ->
    exists p', <[me := v_class Zombie (adopt me (Some i0) (Alive, q, n))]> (adopt me (Some i0) <$> vs) !! i = Some (Alive, p', m)).
  { intros i p m Hi Hne. rewrite list_lookup_insert_ne, list_lookup_fmap, Hi by congruence. simpl. unfold adopt. simpl.
    case_decide; eexists; reflexivity. }
  split.
  - by rewrite length_insert, length_fmap.
  - exists i0, n0. rewrite list_lookup_insert_ne, list_lookup_fmap, Hi0 by congruence. done.
  - intros j c p m Hj. destruct (G j c p m Hj) as (c' & p' & Hj' & -> & ->). specialize (T3 _ _ _ _ Hj').
    destruct (K i0 _ _ Hi0) as (p0 & Hp0); [congruence|].
    assert (Hok : c' <> Free -> c' <> Embryo -> (if decide (p' = Some me) then Some i0 else p') = None /\ Some i0 = Some j \/
      exists i q' m', (if decide (p' = Some me) then Some i0 else p') = Some i /\
        <[me := v_class Zombie (adopt me (Some i0) (Alive, q, n))]> (adopt me (Some i0) <$> vs) !! i = Some (Alive, q', m')).
    { intros H1 H2. destruct (decide (p' = Some me)) as [Hp|Hp]; [right; eauto|].
      assert (T3' : p' = None /\ Some i0 = Some j \/ exists i q' m0, p' = Some i /\ vs !! i = Some (Alive, q', m0)) by (by destruct c').
      destruct T3' as [?|(i & q' & m' & -> & Hi)]; [left; done|]. right. destruct (K i q' m' Hi) as (p'' & Hp''); [congruence|]. eauto 10. }
    destruct (decide (j = me)) as [->|Hjm]; [rewrite Hme in Hj'; injection Hj' as <- <- <-; by apply Hok|].
    destruct c'; [|done|by apply Hok..]. subst p'. by rewrite decide_False by done.
  - intros j c p m Hj Hc. destruct (G j c p m Hj) as (c' & p' & Hj' & -> & ->). apply (T4 j c' p' m Hj').
    intros ->. case_decide; [|done]. subst j. congruence.
  - intros i j c d p p' m Hi Hj Hc Hd. destruct (G _ _ _ _ Hi) as (c1 & p1 & Hi1 & -> & _), (G _ _ _ _ Hj) as (c2 & p2 & Hj1 & -> & _).
    apply (T5 i j c1 c2 p1 p2 m Hi1 Hj1); intros ->; [destruct (decide (i = me))|destruct (decide (j = me))]; try done; subst; congruence.
  - done.
Qed.

Definition boot_views : list (class * option nat * Z) := <[0%nat := (Alive, None, 1)]> (replicate NPROC (Free, None, 0)).

Lemma tree_boot : tree_inv boot_views (Some 0%nat) 2.
Proof.
  assert (G : forall j c q m, boot_views !! j = Some (c, q, m) ->
    j = 0%nat /\ (c, q, m) = (Alive, None, 1) \/ c = Free /\ q = None).
  { intros j c q m Hj. apply lookup_change in Hj as [?|[_ Hj]]; [by left| |rewrite length_replicate; unfold NPROC; lia].
    apply lookup_replicate_1 in Hj as [[= -> -> ->] _]. by right. }
  split; [done|by exists 0%nat, 1| | |..|lia].
  - intros j c q m Hj. destruct (G _ _ _ _ Hj) as [[-> [= -> -> ->]]|[-> ->]]; [by left|done].
  - intros j c q m Hj Hc. destruct (G _ _ _ _ Hj) as [[-> [= -> -> ->]]|[-> ->]]; [lia|done].
  - intros i j c d q q' m Hi Hj Hc Hd. destruct (G _ _ _ _ Hi) as [[-> _]|[-> _]], (G _ _ _ _ Hj) as [[-> _]|[-> _]]; done.
Qed.

Lemma treach_inv k : treach k -> tree_inv (views (pt k)) (initproc (pt k)) (nextpid (pt k)).
Proof.
  assert (R : forall k r k', reaps k r k' -> tree_inv (views (pt k)) (initproc (pt k)) (nextpid (pt k)) ->
    tree_inv (views (pt k')) (initproc (pt k')) (nextpid (pt k'))).
  { intros k0 r k' [[F _]|(j & n & Hj & _ & F)] T; [by apply frame_inv in F as (-> & -> & -> & _)|].
    injection F as -> -> -> _. by apply (tree_free _ _ (nextpid (pt k0)) _ _ Zombie (cur (pt k0)) n). }
  assert (A : forall k me, caller k me -> forall i v, cur (pt k) = Some i -> views (pt k) !! i = Some v -> v.1.1 = Alive).
  { intros k0 me [C (q & n & Hv)] i v Hc Hi. rewrite C in Hc. injection Hc as <-. rewrite Hv in Hi. by injection Hi as <-. }
  induction 1 as [st n k k' B E|k me r k' _ T C Hn E|k me fcn a1 a2 stack r k' _ T C Hn E|k me k' _ T C E|k me r k' _ T C E|k me stack r k' _ T C E|k k' _ T V I N].
  - apply userinit_frame in E; [|done]. injection E as -> -> -> _.
    apply tree_boot.
  - destruct C as [C (q0 & n0 & Hme)]. apply fork_frame in E as [[_ F]|(np & q & n & Hv & I & N & _ & E)];
      [by apply frame_inv in F as (-> & -> & -> & _)|].
    pose proof (ti_next _ _ _ T). rewrite i32_small in N by (unfold is_i32; lia). rewrite I, N.
    destruct E as [[_ ->]|[_ ->]].
    + apply (tree_free _ _ (nextpid (pt k)) _ _ Free q n); try done; [lia|]. exact (ti_parent _ _ _ T _ _ _ _ Hv).
    + rewrite C. by eapply tree_create.
  - destruct C as [C (q0 & n0 & Hme)]. apply clone_frame in E as [[_ F]|(np & q & n & Hv & I & N & _ & _ & ->)];
      [by apply frame_inv in F as (-> & -> & -> & _)|].
    pose proof (ti_next _ _ _ T). rewrite i32_small in N by (unfold is_i32; lia). rewrite I, N, C. by eapply tree_create.
  - destruct C as [C (q0 & n0 & Hme)]. apply exit_frame in E as (me' & v & C' & Hi & Hv & F); [|apply T].
    rewrite C in C'. injection C' as <-. rewrite Hme in Hv. injection Hv as <-. injection F as -> -> -> _. by apply tree_exit.
  - eapply R; [|done]. eapply wait_frame; eauto.
  - eapply R; [|done]. eapply join_frame; eauto.
  - by rewrite V, I, N.
Qed.
End Tree.

Definition alive (p : proc) : Prop := class_of (state p) = Alive.

(** C12. No process is lost: in every run of [userinit], [fork], [clone],
    [exit], [wait] and [join], every process except init has a parent that is
    alive, process ids are unique, and a [wait] by the parent of a zombie does
    not sleep and does not fail: it returns the id of a zombie child and frees
    its entry. *)
Theorem process_tree {D} nsect kend data trapret forkret proc_addr (k : kernel D) j p :
  treach nsect kend data trapret forkret proc_addr k -> procs (pt k) !! j = Some p -> state p <> UNUSED ->
  state p <> EMBRYO /\ 0 < pid p < nextpid (pt k) /\
  (initproc (pt k) = Some j /\ parent p = None /\ alive p \/
   exists i q, parent p = Some i /\ procs (pt k) !! i = Some q /\ alive q) /\
  (forall j' p', procs (pt k) !! j' = Some p' -> state p' <> UNUSED -> pid p' = pid p -> j' = j) /\
  (forall me r k', state p = ZOMBIE -> parent p = Some me -> caller k me -> wait kend proc_addr k = Ret (r, k') ->
     exists i q q', procs (pt k) !! i = Some q /\ state q = ZOMBIE /\ parent q = Some me /\ r = Returns (pid q) /\
       procs (pt k') !! i = Some q' /\ state q' = UNUSED).
Proof.
  intros Hr Hj Hu. pose proof (treach_inv _ _ _ _ _ _ k Hr) as [T1 T2 T3 T4 T5 T6].
  assert (V : forall i q, procs (pt k) !! i = Some q -> views (pt k) !! i = Some (class_of (state q), parent q, pid q))
    by (intros i q Hi; unfold views; by rewrite list_lookup_fmap, Hi).
  assert (F : forall q, state q <> UNUSED -> class_of (state q) <> Free) by (intros q; by destruct (state q)).
  pose proof (T3 _ _ _ _ (V j p Hj)) as P. split_and!.
  - intros E. by rewrite E in P.
  - apply (T4 _ _ _ _ (V j p Hj)); auto.
  - apply (T4 _ _ _ _ (V j p Hj)); auto.
  - assert (P' : parent p = None /\ initproc (pt k) = Some j \/
      exists i q' m, parent p = Some i /\ views (pt k) !! i = Some (Alive, q', m)) by (destruct (state p); done).
    destruct P' as [[H1 H2]|(i & q' & m & H1 & H2)].
    + left. split_and!; auto. destruct T2 as (i & n & Hi & Hv). rewrite H2 in Hi. injection Hi as <-.
      rewrite (V j p Hj) in Hv. injection Hv as E _ _. exact E.
    + right. unfold views in H2. rewrite list_lookup_fmap in H2. destruct (procs (pt k) !! i) as [q|] eqn:Hq; [|done].
      injection H2 as E _ _. exists i, q. done.
  - intros j' p' Hj' Hu' E. pose proof (V j' p' Hj') as V'. rewrite E in V'. eapply T5; [exact V'|by apply V|auto..].
  - intros me r k' Hz Hp C E. unfold wait in E. destruct C as [C _]. unfold curp in E. rewrite C in E.
    destruct (getp (pt k) me) as [pm|?|?]; cbn [mbind outcome_bind] in E; [|done..].
    destruct (list_find _ (procs (pt k))) as [[i q]|] eqn:L.
    + apply list_find_Some in L as (Hi & [H1 H2] & _). bind_inv E. bind_inv E. injection E as <- <-.
      eexists i, q, _. split_and!; try done; unfold upd_pt; cbn [pt set_pt set_km].
      * rewrite !lookup_updp, !decide_True, Hi by done. done.
      * by destruct q.
    + apply list_find_None in L. rewrite Forall_lookup in L. destruct (L j p Hj). done.
Qed.

(** The system after [userinit]. *)
Definition demo_kernel : kernel unit :=
  Kernel ptable_boot demo_vm (FS ∅ (replicate NINODE inode_zero) tt) (replicate NFILE file_zero) ∅.
Definition returns {A} (o : outcome A) : bool := match o with Ret _ => true | _ => false end.

Lemma returns_Ret {A} (o : outcome A) : returns o = true -> exists a, o = Ret a.
Proof. destruct o; [eauto|done..]. Qed.

Lemma demo_kernel_boot : pt demo_kernel = ptable_boot.
Proof. reflexivity. Qed.

Lemma demo_init_returns : exists k, userinit 64 0x110000 0x101000 0x102000 0x100100 44 demo_kernel = Ret k.
Proof. apply returns_Ret. vm_compute. reflexivity. Qed.

Lemma process_tree_witness :
  exists (k : kernel unit) p, userinit 64 0x110000 0x101000 0x102000 0x100100 44 demo_kernel = Ret k /\
    procs (pt k) !! 0%nat = Some p /\ alive p /\ initproc (pt k) = Some 0%nat.
Proof.
  destruct demo_init_returns as [k E]. exists k.
  pose proof (tr_boot 64 0x101000 0x110000 0x101000 0x102000 (fun _ => 0) _ _ _ k demo_kernel_boot E) as Hr.
  pose proof (userinit_frame _ _ _ _ _ _ _ _ E demo_kernel_boot) as F.
  injection F as V I N _. pose proof (f_equal (fun l => l !! 0%nat) V) as V0. cbn in V0.
  unfold views in V0. rewrite list_lookup_fmap in V0.
  destruct (procs (pt k) !! 0%nat) as [p|] eqn:Hp; [|discriminate V0]. injection V0 as Es Ep En.
  assert (Hu : state p <> UNUSED) by (intros Hs; rewrite Hs in Es; discriminate Es).
  destruct (process_tree _ _ _ _ _ _ k 0 p Hr Hp Hu) as (_ & _ & [(Hi & _ & Ha)|(i & q & Hq & _)] & _).
  - exists p. auto.
  - rewrite Ep in Hq. discriminate Hq.
Defined.

(** [wait] does not tell threads from processes: when the first zombie
    child of the caller is a thread that [clone] made, so that both use the
    same page directory, [wait] frees the page directory that the caller is
    running on.  It is then the first page of the free list, and its bytes
    after the link are overwritten. *)
Theorem wait_frees_directory {D} kend proc_addr (k : kernel D) me p j q r k' :
  curp (pt k) = Ret (me, p) ->
  list_find (fun q => parent q = Some me /\ state q = ZOMBIE) (procs (pt k)) = Some (j, q) ->
  pgdir q = pgdir p -> j <> me -> wait kend proc_addr k = Ret (r, k') ->
  curp (pt k') = Ret (me, p) /\ freelist (km k') = pgdir p /\
  forall o, 4 <= o < PGSIZE -> rd8 (mem (km k')) (pgdir p + o) = 1.
Proof.
  intros C F Hd Hne E. unfold wait in E. rewrite C in E. cbn [mbind outcome_bind] in E. rewrite F in E.
  bind_inv E. bind_inv E. injection E as <- <-. unfold upd_pt. cbn [pt km set_pt set_km]. split.
  - unfold curp, getp in *. cbn [updp set_procs cur]. destruct (cur (pt k)) as [i|]; [|done].
    destruct (procs (pt k) !! i) eqn:Hi; cbn [mbind outcome_bind] in C; [|done]. injection C as -> ->.
    by rewrite !lookup_updp, !decide_False, Hi by done.
  - unfold freevm in E1. destruct (pgdir q =? 0); [done|]. bind_inv E1. destruct a1 as [x s1]. bind_inv E1.
    unfold kfree in E1. case_match; [done|]. injection E1 as <-. rewrite Hd. cbn [freelist mem]. split; [done|].
    intros o Ho. rewrite rd8_store32_ne, rd8_memset by lia. rewrite decide_True by lia. done.
Qed.

(** A process and its thread, which has exited. *)
Definition demo_thread : ptable :=
  Ptable (Proc 0 demo_dir 0 RUNNING 1 None tf_zero 0 0 [] None [] 0 mq_zero ::
          Proc 0 demo_dir 0x303000 ZOMBIE 2 (Some 0%nat) tf_zero 0 0 [] None [] 0 mq_zero ::
          replicate 62 proc_zero) 3 None [] [] (Some 0%nat).
Definition demo_threads : kernel unit :=
  Kernel demo_thread demo_vm (FS ∅ (replicate NINODE inode_zero) tt) (replicate NFILE file_zero) ∅.

Lemma demo_wait_returns : exists x, wait 0x101000 (fun _ => 0) demo_threads = Ret x.
Proof. apply returns_Ret. vm_compute. reflexivity. Qed.

Lemma wait_frees_directory_witness :
  exists x, wait 0x101000 (fun _ => 0) demo_threads = Ret x /\ freelist (km x.2) = demo_dir /\
    rd8 (mem (km x.2)) (demo_dir + 4) = 1.
Proof.
  destruct demo_wait_returns as [[r k'] E]. exists (r, k'). split; [exact E|].
  destruct (wait_frees_directory 0x101000 (fun _ => 0) demo_threads 0 _ 1 _ r k' eq_refl eq_refl eq_refl) as (_ & H1 & H2);
    [lia|exact E|]. split; [exact H1|]. apply H2. unfold PGSIZE. lia.
Defined.
