(* ===== verification/Fork.v ===== *)
(** * What [fork] gives the child (kernel/proc.c)

    [fork] returns when a process entry, enough pages and room in the
    scheduler's queue are left; the child is a copy of the parent with its own
    memory, and the files and the directory are shared and counted. *)

From S2P Require Import Prelude Rand Memory Kalloc Vm VmMap Proc Mlfq Pipe Fs File Syscall ProcOps.

(** Room for one more entry at the highest level. *)
Definition queue_room (t : ptable) : Prop :=
  exists row n, mlfq t !! 3%nat = Some row /\ mlfq_size t !! 3%nat = Some n /\ 0 <= n < Z.of_nat (length row).

Definition fresh_sched : mq := Mq 3 (replicate NLAYER 0) (replicate NLAYER 0) 0 0.

Lemma alloc_queue_returns i t :
  queue_room t -> exists t', alloc_queue i t = Ret t' /\ procs t' = procs (updp i (p_sched fresh_sched) t) /\
    initproc t' = initproc t /\ nextpid t' = nextpid t /\ cur t' = cur t.
Proof.
  intros (row & n & Hr & Hn & Hlt). pose proof (aget_Some _ 3 _ Hn : aget _ 3 = _) as An.
  pose proof (aget_Some _ 3 _ Hr : aget _ 3 = _) as Ar. unfold alloc_queue, enqueue. cbn [updp set_procs mlfq_size mlfq].
  rewrite An. cbn [mbind outcome_bind]. unfold mlfq_set. cbn [updp set_procs mlfq].
  rewrite Ar. cbn [mbind outcome_bind].
  rewrite aset_Ret by lia. cbn [mbind outcome_bind].
  rewrite aset_Ret by (apply lookup_lt_Some in Hr; lia). cbn [mbind outcome_bind].
  unfold size_add. cbn [set_mlfq mlfq_size set_procs updp]. rewrite An. cbn [mbind outcome_bind].
  rewrite aset_Ret by (apply lookup_lt_Some in Hn; lia). cbn [mbind outcome_bind].
  eexists. split; [done|]. done.
Qed.

(** Projections of updated states. *)
Ltac kcbn := cbn [pt km fsys ftable pipes set_pt set_km set_fsys set_ftable set_pipes procs nextpid initproc
  mlfq mlfq_size cur set_procs set_nextpid setf upd_pt mbind outcome_bind].

(** ** [allocproc] returns *)

Section Fork.
Context {D : Type} (kend data trapret forkret : Z).
Implicit Types k : kernel D.

(** The new entry. *)
Definition embryo (n a : Z) (q : proc) : proc := p_sched fresh_sched (p_kstack a (p_pid n (p_state EMBRYO q))).

Lemma stack_frame_outside a m : same_outside [a] m (stack_frame trapret forkret a m).
Proof.
  unfold stack_frame, KSTACKSIZE, SIZEOF_TF, SIZEOF_CONTEXT.
  eapply same_outside_trans; [|eapply (same_outside_store32 [a] _ _ _ a); [left|unfold PGSIZE; lia..]].
  apply (same_outside_trans _ _ (store32 m (a + 4096 - 76 - 4) trapret));
    [apply (same_outside_store32 [a] _ _ _ a); [left|unfold PGSIZE; lia..]|].
  intros b Hb. rewrite rd8_memset by lia. rewrite decide_False; [done|].
  intros Hx. apply (Hb a); [left|]. unfold in_page, PGSIZE. lia.
Qed.

Lemma allocproc_returns k fl np q :
  list_find (fun p => state p = UNUSED) (procs (pt k)) = Some (np, q) ->
  kinv kend (km k) fl -> room (km k) fl 1 -> queue_room (pt k) ->
  exists k' fl' a, allocproc trapret forkret k = Ret (Some np, k') /\
    evolves kend [] 1 (km k) fl (km k') fl' /\
    procs (pt k') = <[np := embryo (nextpid (pt k)) a q]> (procs (pt k)) /\
    cur (pt k') = cur (pt k) /\ nextpid (pt k') = i32 (nextpid (pt k) + 1) /\ initproc (pt k') = initproc (pt k) /\
    fsys k' = fsys k /\ ftable k' = ftable k /\ pipes k' = pipes k.
Proof.
  intros F Hk Hroom Hq. unfold allocproc. rewrite F. apply list_find_Some in F as (Hp & _ & _).
  unfold upd_pt. cbn [pt set_pt km set_km].
  destruct (evolves_kalloc kend (km k) fl Hk Hroom) as (a & s1 & fl' & E & Hev & Hin & Hnin & Hg).
  rewrite E. cbn [mbind outcome_bind]. rewrite (proj2 (Z.eqb_neq a 0)) by (by eapply good_page_ne).
  match goal with |- context [alloc_queue np ?t] => destruct (alloc_queue_returns np t) as (t' & Et & P & I & N & C) end; [done|].
  cbn [pt set_pt km set_km] in *. rewrite Et. cbn [mbind outcome_bind].
  eexists _, fl', a. split; [done|]. cbn [pt set_pt km set_km fsys ftable pipes]. split; [|split; [|split_and!; done]].
  - change 1 with (1 + 0). eapply (evolves_trans _ [] [a]); [exact Hev| |set_solver].
    apply evolves_write; [apply Hev| |apply stack_frame_outside].
    intros x ->%list_elem_of_singleton. split; [apply Hg|done].
  - rewrite P. cbn [updp set_procs set_nextpid procs]. apply list_eq. intros j. destruct (decide (np = j)) as [<-|Hn].
    + rewrite !list_lookup_alter_eq, list_lookup_insert_eq, Hp by (by eapply lookup_lt_Some). done.
    + by rewrite !list_lookup_alter_ne, list_lookup_insert_ne.
Qed.

(** ** The files *)

(** The number of descriptors of a table that refer to file [i]. *)
Definition refs (o : list (option nat)) (i : nat) : Z := Z.of_nat (length (filter (fun x => x = Some i) o)).

Lemma refs_cons x o i : refs (x :: o) i = (if decide (x = Some i) then 1 else 0) + refs o i.
Proof. unfold refs. rewrite filter_cons. case_decide; simpl; lia. Qed.

Lemma refs_bound o i : 0 <= refs o i <= Z.of_nat (length o).
Proof. unfold refs. pose proof (length_filter (fun x => x = Some i) o). lia. Qed.

(** Every open file of the table can be shared. *)
Definition shareable (o : list (option nat)) k : Prop :=
  forall i, Some i ∈ o -> exists f, ftable k !! i = Some f /\ 1 <= fref f /\ fref f + Z.of_nat (length o) < 2 ^ 31.

Lemma filedup_returns i f k : ftable k !! i = Some f -> 1 <= fref f -> fref f + 1 < 2 ^ 31 ->
  filedup i k = Ret (setf i (f_ref (fref f + 1) f) k).
Proof.
  intros Hf H1 H2. unfold filedup, getf. rewrite (aget_Some _ _ _ Hf). cbn [mbind outcome_bind].
  rewrite (proj2 (Z.ltb_ge _ _)) by lia. by rewrite i32_small by (unfold is_i32; lia).
Qed.

(** [updp] on an entry that is known. *)
Lemma updp_insert i f t q : procs t !! i = Some q -> updp i f t = set_procs (<[i := f q]> (procs t)) t.
Proof.
  intros Hi. unfold updp. f_equal. apply list_eq. intros j. destruct (decide (i = j)) as [<-|].
  - by rewrite list_lookup_alter_eq, list_lookup_insert_eq, Hi by (by eapply lookup_lt_Some).
  - by rewrite list_lookup_alter_ne, list_lookup_insert_ne.
Qed.

Lemma upd_pt_insert i f k q : procs (pt k) !! i = Some q ->
  upd_pt (updp i f) k = set_pt (set_procs (<[i := f q]> (procs (pt k))) (pt k)) k.
Proof. intros Hi. unfold upd_pt. by rewrite (updp_insert _ _ _ q). Qed.

Lemma getp_Some t i q : procs t !! i = Some q -> getp t i = Ret q.
Proof. intros Hi. unfold getp. by rewrite Hi. Qed.

(** Inheriting the descriptors [l], after [pre]. *)
Lemma dup_from me np p : forall l pre k q,
  procs (pt k) !! me = Some p -> procs (pt k) !! np = Some q -> me <> np ->
  ofile p = pre ++ l -> ofile q = pre ++ replicate (length l) None -> shareable l k ->
  exists fs, iterM (fun fd k =>
    p ← getp (pt k) me;
    f ← aget (ofile p) (Z.of_nat fd);
    match f with
    | None => Ret k
    | Some i =>
      k ← filedup i k;
      Ret (upd_pt (updp np (fun q => p_ofile (<[fd := Some i]> (ofile q)) q)) k)
    end) (seq (length pre) (length l)) k =
      Ret (set_ftable fs (set_pt (set_procs (<[np := p_ofile (pre ++ l) q]> (procs (pt k))) (pt k)) k)) /\
    (forall i, fs !! i = (fun f => f_ref (fref f + refs l i) f) <$> ftable k !! i).
Proof.
  induction l as [|x l IH]; intros pre k q Hp Hq Hne Ho Hoq Hsh.
  - exists (ftable k). simpl in *. rewrite app_nil_r in *. split.
    + f_equal. rewrite <- Hoq, list_insert_id; [by destruct k as [[] ? ? ? ?]|]. rewrite Hq. by destruct q.
    + intros i. destruct (ftable k !! i) as [f|]; [|done]. simpl. f_equal. destruct f. unfold f_ref. simpl. f_equal. unfold refs. simpl. lia.
  - cbn [length seq iterM]. rewrite (getp_Some _ _ _ Hp). cbn [mbind outcome_bind].
    rewrite Ho, (aget_Some _ _ x) by (rewrite lookup_app_r, Nat.sub_diag by lia; done). cbn [mbind outcome_bind].
    assert (Hins : <[length pre := x]> (ofile q) = pre ++ x :: replicate (length l) None).
    { rewrite Hoq. rewrite <- (Nat.add_0_r (length pre)) at 1. rewrite insert_app_r. done. }
    destruct x as [i|].
    + destruct (Hsh i) as (f & Hf & H1 & H2); [left|]. simpl in H2.
      rewrite (filedup_returns i f k) by (done || lia). cbn [mbind outcome_bind].
      assert (Eu : upd_pt (updp np (fun q => p_ofile (<[length pre := Some i]> (ofile q)) q)) (setf i (f_ref (fref f + 1) f) k) =
        set_pt (set_procs (<[np := p_ofile (pre ++ Some i :: replicate (length l) None) q]> (procs (pt k))) (pt k)) (setf i (f_ref (fref f + 1) f) k)).
      { unfold upd_pt. cbn [pt setf set_ftable]. by rewrite (updp_insert np _ _ q Hq), Hins. }
      rewrite Eu.
      match goal with |- context [iterM _ (seq (S (length pre)) (length l)) ?k1] =>
        destruct (IH (pre ++ [Some i]) k1 (p_ofile (pre ++ Some i :: replicate (length l) None) q)) as (fs & E & Hfs) end;
        cbn [pt set_pt setf set_ftable set_procs procs ftable].
      * by rewrite list_lookup_insert_ne.
      * by rewrite list_lookup_insert_eq by (by eapply lookup_lt_Some).
      * done.
      * by rewrite <- app_assoc.
      * destruct q. simpl. by rewrite <- app_assoc.
      * intros j Hj. destruct (Hsh j) as (g & Hg & G1 & G2); [by right|]. simpl in G2.
        destruct (decide (i = j)) as [<-|Hn]; cbn [ftable set_pt setf set_ftable].
        -- rewrite Hf in Hg. injection Hg as <-. eexists. rewrite list_lookup_insert_eq by (by eapply lookup_lt_Some).
           split; [done|]. simpl. lia.
        -- exists g. rewrite list_lookup_insert_ne by done. split; [done|lia].
      * exists fs. split.
        -- rewrite length_app, Nat.add_1_r in E. rewrite E. cbn [pt set_pt setf set_ftable set_procs procs ftable].
           rewrite list_insert_insert_eq. rewrite <- app_assoc. simpl. by destruct q.
        -- intros j. rewrite Hfs. cbn [ftable set_pt setf set_ftable]. rewrite refs_cons.
           destruct (decide (i = j)) as [<-|Hn].
           ++ rewrite list_lookup_insert_eq, Hf, decide_True by (done || by eapply lookup_lt_Some).
              simpl. unfold f_ref. simpl. do 2 f_equal. lia.
           ++ rewrite list_lookup_insert_ne, decide_False by congruence. done.
    + destruct (IH (pre ++ [None]) k q Hp Hq Hne) as (fs & E & Hfs); [by rewrite <- app_assoc|by rewrite <- app_assoc| |].
      * intros j Hj. destruct (Hsh j) as (g & Hg & G1 & G2); [by right|]. simpl in G2. exists g. split; [done|lia].
      * exists fs. rewrite length_app, Nat.add_1_r in E. cbn [mbind outcome_bind]. rewrite E, <- app_assoc. split; [done|].
        intros j. rewrite Hfs, refs_cons, decide_False by done. done.
Qed.

(** What the parent needs to be forked. *)
Record forkable k me (p : proc) : Prop := {
  fk_cur : cur (pt k) = Some me;
  fk_me : procs (pt k) !! me = Some p;
  fk_alive : state p <> UNUSED;
  fk_files : length (ofile p) = NOFILE /\ shareable (ofile p) k;
  fk_cwd : exists c ip, cwd p = Some c /\ icache (fsys k) !! c = Some ip
}.

(** The child, in the entry [q] that was free. *)
Definition finish (p q : proc) : proc :=
  p_name (overlay (safestrcpy (at_list (name p)) 16) (name q))
    (p_state RUNNABLE (p_cwd (cwd p) (p_ofile (ofile p) q))).

Lemma share_files_returns k me np p q :
  forkable k me p -> me <> np -> procs (pt k) !! np = Some q -> ofile q = replicate NOFILE None ->
  exists fs s, share_files me np k =
      Ret (pid q, set_ftable fs (set_fsys s (set_pt (set_procs (<[np := finish p q]> (procs (pt k))) (pt k)) k))) /\
    (forall i, fs !! i = (fun f => f_ref (fref f + refs (ofile p) i) f) <$> ftable k !! i) /\
    (forall c ip, cwd p = Some c -> icache (fsys k) !! c = Some ip ->
       s = seti c (i_ref (i32 (ref ip + 1)) ip) (fsys k)).
Proof.
  intros [Hc Hp Ha [Hl Hsh] (c & ip & Hcwd & Hip)] Hne Hq Hoq. unfold share_files, dup_files.
  destruct (dup_from me np p (ofile p) [] k q Hp Hq Hne) as (fs & E & Hfs); [done|by rewrite Hl|done|].
  cbn [length app] in E. rewrite Hl in E. rewrite E. cbn [mbind outcome_bind]. clear E.
  assert (Hl1 : (np < length (procs (pt k)))%nat) by (by eapply lookup_lt_Some).
  rewrite (getp_Some _ me p) by (kcbn; by rewrite list_lookup_insert_ne). kcbn.
  rewrite Hcwd. unfold idup, geti. rewrite (aget_Some _ _ _ Hip). kcbn.
  rewrite (upd_pt_insert np (p_cwd (Some c)) _ (p_ofile (ofile p) q)) by (kcbn; by rewrite list_lookup_insert_eq).
  rewrite (getp_Some _ np (p_cwd (Some c) (p_ofile (ofile p) q)))
    by (kcbn; rewrite lookup_updp, decide_True by done; kcbn; by rewrite list_lookup_insert_eq). kcbn.
  rewrite (upd_pt_insert np (p_state RUNNABLE) _ (p_cwd (Some c) (p_ofile (ofile p) q)))
    by (kcbn; rewrite list_insert_insert_eq; by rewrite list_lookup_insert_eq).
  rewrite (upd_pt_insert np _ _ (p_state RUNNABLE (p_cwd (Some c) (p_ofile (ofile p) q))))
    by (kcbn; rewrite !list_insert_insert_eq; by rewrite list_lookup_insert_eq).
  kcbn. rewrite !list_insert_insert_eq.
  exists fs, (seti c (i_ref (i32 (ref ip + 1)) ip) (fsys k)). split; [|split; [exact Hfs|intros c' ip' [= <-] Hip'; congruence]].
  unfold finish. rewrite Hcwd. do 2 f_equal; by destruct q.
Qed.
End Fork.

Lemma evolves_dir kend j s fl s1 fl1 d :
  kinv kend s fl -> evolves kend [] j s fl s1 fl1 -> wfdir kend fl (mem s) d ->
  pt_agree (mem s) (mem s1) d /\ wfdir kend fl1 (mem s1) d.
Proof.
  intros Hk Hev Hwf. split.
  - apply (evolves_agree kend [] j s fl s1 fl1 d); [done|done|done|apply Forall_nil_2|apply not_in_nil].
  - apply (evolves_wf kend [] j s fl s1 fl1 d); [done|done|done|apply Forall_nil_2|apply not_in_nil].
Qed.

(** A copy of the memory as it was before other pages were taken. *)
Lemma is_copy_before kend data j s fl s1 fl1 pd sz d s' fl' :
  kinv kend s fl -> evolves kend [] j s fl s1 fl1 -> wfdir kend fl (mem s) pd -> 0 <= sz <= USERTOP ->
  (forall va, 0 <= va < sz -> PTE_ADDR (pte_val (mem s) pd va) ∉ fl) ->
  is_copy data s1 fl1 pd sz d s' fl' -> is_copy data s fl pd sz d s' fl'.
Proof.
  intros Hk Hev Hwf Hsz Hh (C1 & C2 & C3). split; [|by split].
  destruct (evolves_dir _ _ _ _ _ _ _ Hk Hev Hwf) as [Ha _].
  intros va Hva. assert (is_u32 va) by (unfold is_u32, USERTOP in *; lia).
  destruct (C1 va Hva) as (H1 & H2 & H3 & H4 & H5 & H6). rewrite (pt_agree_val _ _ _ _ Ha) in H3, H6 by done.
  cbv zeta. split_and!; auto; [by apply (ev_fl _ _ _ _ _ _ _ Hev)|].
  intros o Ho. rewrite H6 by done.
  apply (evolves_page kend [] j s fl s1 fl1 (PTE_ADDR (pte_val (mem s) pd va))); auto.
  - rewrite PTE_ADDR_div by apply pte_val_range. unfold PGSIZE. rewrite Z.mul_comm. apply Z.mod_mul. lia.
  - apply not_elem_of_nil.
  - unfold in_page. lia.
Qed.

(** C11. [fork] makes a copy of the caller.  When an entry of the process table,
    room in the queue of the highest level and enough pages are free, [fork]
    returns the next process id.  The child can run, has the caller as parent,
    the same registers except that the system call returns 0, the same
    descriptors and directory, and a private copy of the caller's memory; every
    open file is counted once more for each descriptor; no other process and
    no page table of the caller changes. *)
Theorem fork_child {D} kend data trapret forkret (k : kernel D) me p np q fl :
  0x100000 < data < PHYSTOP -> data mod PGSIZE = 0 -> forkable k me p ->
  list_find (fun p => state p = UNUSED) (procs (pt k)) = Some (np, q) -> ofile q = replicate NOFILE None ->
  queue_room (pt k) -> kinv kend (km k) fl -> wfdir kend fl (mem (km k)) (pgdir p) -> 0 <= sz p <= USERTOP ->
  (forall va, 0 <= va < sz p -> has (pte_val (mem (km k)) (pgdir p) va) PTE_P = true /\
     PTE_ADDR (pte_val (mem (km k)) (pgdir p) va) ∉ fl) ->
  room (km k) fl (15 + sz p / PGSIZE) ->
  exists k' c fl', fork kend data trapret forkret k = Ret (nextpid (pt k), k') /\
    procs (pt k') = <[np := c]> (procs (pt k)) /\ state c = RUNNABLE /\ pid c = nextpid (pt k) /\
    parent c = Some me /\ sz c = sz p /\ tf c = tf_set_eax 0 (tf p) /\ ofile c = ofile p /\ cwd c = cwd p /\
    is_copy data (km k) fl (pgdir p) (sz p) (pgdir c) (km k') fl' /\ kinv kend (km k') fl' /\
    pt_agree (mem (km k)) (mem (km k')) (pgdir p) /\
    (forall i f, ftable k !! i = Some f -> ftable k' !! i = Some (f_ref (fref f + refs (ofile p) i) f)).
Proof.
  intros Hd Hal Hf F Hoq Hqr Hk Hwf Hsz Hu Hroom. pose proof Hf as [Hc Hp Ha Hfi Hcwd].
  destruct (allocproc_returns kend trapret forkret k fl np q F Hk) as (k1 & fl1 & a & E1 & Hev & P1 & C1 & N1 & I1 & Fs1 & Ft1 & Pi1);
    [eapply room_mono; [done|unfold PGSIZE; dm]|done|].
  apply list_find_Some in F as (Hq & Hqs & _). assert (Hne : me <> np) by (intros ->; congruence).
  assert (Hl : (np < length (procs (pt k)))%nat) by (by eapply lookup_lt_Some).
  assert (Hme : procs (pt k1) !! me = Some p) by (by rewrite P1, list_lookup_insert_ne).
  destruct (evolves_dir _ _ _ _ _ _ _ Hk Hev Hwf) as [Hag Hwf1].
  destruct (copyuvm_spec kend data (km k1) fl1 (pgdir p) (sz p) Hd Hal (ev_inv _ _ _ _ _ _ _ Hev))
    as (d & m & fl' & E2 & Hev2 & _ & Hag2 & Hcp & Hg).
  { done. } { done. }
  { intros va Hva. rewrite (pt_agree_val _ _ _ _ Hag) by (unfold is_u32, USERTOP in *; lia). destruct (Hu va Hva) as [U1 U2].
    split; [done|]. intros Hin. apply U2. by apply (ev_fl _ _ _ _ _ _ _ Hev). }
  { eapply evolves_room; [exact Hev|]. eapply room_mono; [done|lia]. }
  unfold fork. rewrite E1. cbn [mbind outcome_bind]. unfold curp. rewrite C1, Hc, (getp_Some _ _ _ Hme). cbn [mbind outcome_bind].
  rewrite E2. cbn [mbind outcome_bind]. rewrite (proj2 (Z.eqb_neq d 0)) by (by eapply good_page_ne).
  set (q1 := embryo (nextpid (pt k)) a q) in *.
  set (q2 := p_tf (tf_set_eax 0 (tf p)) (p_parent (Some me) (p_sz (sz p) (p_pgdir d q1)))).
  rewrite (upd_pt_insert np (p_pgdir d) _ q1) by (kcbn; rewrite P1; by apply list_lookup_insert_eq).
  rewrite (upd_pt_insert np _ _ (p_pgdir d q1)) by (kcbn; apply list_lookup_insert_eq; by rewrite P1, length_insert).
  kcbn. rewrite P1, !list_insert_insert_eq. fold q2.
  match goal with |- context [share_files me np ?k2] => destruct (share_files_returns k2 me np p q2) as (fs & s' & E3 & Hfs & _) end.
  - split; kcbn; [by rewrite C1|by rewrite list_lookup_insert_ne|done| |by rewrite Fs1].
    split; [apply Hfi|]. unfold shareable. kcbn. rewrite Ft1. apply Hfi.
  - done.
  - kcbn. by apply list_lookup_insert_eq.
  - by destruct q.
  - rewrite E3. kcbn. rewrite list_insert_insert_eq.
    eexists _, (finish p q2), fl'. split; [by destruct q|]. kcbn. split; [done|].
    split_and!; try (by destruct q).
    + replace (pgdir (finish p q2)) with d by (by destruct q).
      eapply is_copy_before; [exact Hk|exact Hev|done|done|intros va Hva; by apply Hu|done].
    + apply Hev2.
    + intros x b Hx Hb. rewrite (Hag2 x b); [by apply (Hag x)| |done].
      by rewrite (pdes_pages (mem (km k))) by (by apply pt_agree_pdes).
    + intros i f Hi. rewrite Hfs. kcbn. by rewrite Ft1, Hi.
Qed.

(** A process with one page and one open file. *)
Definition demo_parent : proc :=
  Proc 4096 demo_dir 0 RUNNING 1 None tf_zero 0 0 (Some 0%nat :: replicate 15 None) (Some 0%nat) [] 0 mq_zero.
Definition demo_one : ptable :=
  Ptable (demo_parent :: replicate 63 proc_zero) 2 None (replicate NLAYER (replicate MLFQLEN None)) (replicate NLAYER 0) (Some 0%nat).
Definition demo_before : kernel unit :=
  Kernel demo_one demo_vm (FS ∅ (replicate NINODE inode_zero) tt)
    (File FD_INODE 1 true true 0 0 0 :: replicate 99 file_zero) ∅.

Lemma demo_forkable : forkable demo_before 0 demo_parent.
Proof.
  split; [reflexivity|reflexivity|discriminate| |by exists 0%nat, inode_zero].
  split; [reflexivity|]. intros i Hi. exists (File FD_INODE 1 true true 0 0 0).
  assert (i = 0%nat) as ->; [|split; [reflexivity|simpl; lia]].
  apply elem_of_cons in Hi as [[= ->]|Hi]; [done|]. apply elem_of_replicate in Hi as [? _]. done.
Qed.

Lemma fork_child_witness :
  exists k' c, fork 0x110000 0x108000 0x101000 0x102000 demo_before = Ret (2, k') /\
    procs (pt k') !! 1%nat = Some c /\ pid c = 2 /\ parent c = Some 0%nat /\
    exists f, ftable k' !! 0%nat = Some f /\ fref f = 2.
Proof.
  assert (D : 0x100000 < 0x108000 < PHYSTOP) by (by vm_compute).
  assert (S : 0 <= 4096 <= USERTOP) by (by vm_compute).
  assert (R : room demo_vm demo_fl (15 + 4096 / PGSIZE)) by (vm_compute; intuition congruence).
  assert (Q : queue_room demo_one) by (exists (replicate MLFQLEN None), 0; split_and!; vm_compute; congruence || done).
  destruct (fork_child 0x110000 0x108000 0x101000 0x102000 demo_before 0 demo_parent 1 proc_zero demo_fl
    D eq_refl demo_forkable eq_refl eq_refl Q demo_kinv (proj1 demo_wf) S demo_present R)
    as (k' & c & fl' & E & P & _ & N & Pa & _ & _ & _ & _ & _ & _ & _ & Hf).
  exists k', c. split; [exact E|]. rewrite P. split; [reflexivity|]. split; [exact N|]. split; [exact Pa|].
  eexists. split; [exact (Hf 0%nat _ eq_refl)|reflexivity].
Defined.
