(* ===== verification/SysFile.v ===== *)
(** * File system calls (kernel/sysfile.c)

    The handlers, with their arguments fetched from the stack of the calling
    process.  [create], [link] and [unlink] are the parts that work on the file
    system only.  A handler gives its return value, or [Sleeps] when it waits
    in a pipe. *)

From S2P Require Import Prelude Memory Kalloc Vm Proc Pipe Fs File Syscall.

Definition O_RDONLY : Z := 0x000.
Definition O_WRONLY : Z := 0x001.
Definition O_RDWR : Z := 0x002.
Definition O_CREATE : Z := 0x200.

Definition DOT : list Z := [46].
Definition DOTDOT : list Z := [46; 46].

Section SysFile.
Context {D : Type} (nsect kend : Z).
Context (dev_read : Z -> option (Z -> D -> outcome (Z * list Z * D))).
Context (dev_write : Z -> option (list Z -> Z -> D -> outcome (Z * D))).

Abbreviation kernel := (kernel D).
Abbreviation fs := (fs D).

(** ** Work on the file system *)

(** [iupdate(ip)] for the inode in slot [i], after a change. *)
Definition update_inode (i : nat) (f : inode -> inode) (s : fs) : outcome fs :=
  ip ← geti i s;
  let ip := f ip in
  d ← iupdate nsect ip (dsk s);
  Ret (set_dsk d (seti i ip s)).

Definition add_nlink (n : Z) (ip : inode) : inode := i_nlink (i16 (nlink ip + n)) ip.

(** The body of [sys_link]. *)
Definition link (old new : list Z) (cwd : nat) (s : fs) : outcome (Z * fs) :=
  '(r, s) ← namei nsect old cwd s;
  match r with
  | None => Ret (-1, s)
  | Some i =>
    s ← ilock nsect i s;
    ip ← geti i s;
    if type ip =? T_DIR then s ← iunlockput nsect i s; Ret (-1, s)
    else
      s ← update_inode i (add_nlink 1) s;
      s ← iunlock i s;
      let bad s :=
        s ← ilock nsect i s;
        s ← update_inode i (add_nlink (-1)) s;
        s ← iunlockput nsect i s;
        Ret (-1, s) in
      '(r, name, s) ← nameiparent nsect new cwd s;
      match r with
      | None => bad s
      | Some dp =>
        s ← ilock nsect dp s;
        d ← geti dp s;
        ip ← geti i s;
        if negb (idev d =? idev ip) then s ← iunlockput nsect dp s; bad s
        else
          '(r, s) ← dirlink nsect dev_read dev_write dp name (inum ip) s;
          s ← iunlockput nsect dp s;
          if r <? 0 then bad s
          else s ← iput nsect i s; Ret (0, s)
      end
  end.

(** Is the directory empty except for "." and ".."? *)
Fixpoint isdirempty_loop (fuel : nat) (off : Z) (dp : nat) (s : fs) : outcome (bool * fs) :=
  match fuel with
  | O => Undef "loop bound"
  | S fuel =>
    ip ← geti dp s;
    if off <? size ip then
      '(r, de, s) ← readi nsect dev_read dp off 16 s;
      if negb (r =? 16) then Panic "isdirempty: readi"
      else if negb (nth 0 de 0 + 2 ^ 8 * nth 1 de 0 =? 0) then Ret (false, s)
      else isdirempty_loop fuel (off + 16) dp s
    else Ret (true, s)
  end.
Definition isdirempty (dp : nat) (s : fs) : outcome (bool * fs) :=
  ip ← geti dp s; isdirempty_loop (S (Z.to_nat (size ip / 16)) + 1) 32 dp s.

(** The body of [sys_unlink]. *)
Definition unlink (path : list Z) (cwd : nat) (s : fs) : outcome (Z * fs) :=
  '(r, name, s) ← nameiparent nsect path cwd s;
  match r with
  | None => Ret (-1, s)
  | Some dp =>
    s ← ilock nsect dp s;
    if (namecmp (at_list name) (at_list DOT) =? 0) || (namecmp (at_list name) (at_list DOTDOT) =? 0)
    then s ← iunlockput nsect dp s; Ret (-1, s)
    else
      '(r, s) ← dirlookup nsect dp name s;
      match r with
      | None => s ← iunlockput nsect dp s; Ret (-1, s)
      | Some (i, off) =>
        s ← ilock nsect i s;
        ip ← geti i s;
        if nlink ip <? 1 then Panic "unlink: nlink < 1"
        else
          '(e, s) ← (if type ip =? T_DIR then isdirempty i s else Ret (true, s));
          if negb e then
            s ← iunlockput nsect i s;
            s ← iunlockput nsect dp s;
            Ret (-1, s)
          else
            '(r, s) ← writei nsect dev_write dp (replicate 16 0) off 16 s;
            if negb (r =? 16) then Panic "unlink: writei"
            else
              s ← (if type ip =? T_DIR then update_inode dp (add_nlink (-1)) s else Ret s);
              s ← iunlockput nsect dp s;
              s ← update_inode i (add_nlink (-1)) s;
              s ← iunlockput nsect i s;
              Ret (0, s)
      end
  end.

(** The fields that [create] sets in a new inode. *)
Definition new_inode (major minor : Z) (ip : inode) : inode :=
  Inode (idev ip) (inum ip) (ref ip) (flags ip) (type ip) (i16 major) (i16 minor) 1 (size ip) (addrs ip).

Definition create (path : list Z) (ty major minor : Z) (cwd : nat) (s : fs) : outcome (option nat * fs) :=
  '(r, name, s) ← nameiparent nsect path cwd s;
  match r with
  | None => Ret (None, s)
  | Some dp =>
    s ← ilock nsect dp s;
    '(r, s) ← dirlookup nsect dp name s;
    match r with
    | Some (i, _) =>
      s ← iunlockput nsect dp s;
      s ← ilock nsect i s;
      ip ← geti i s;
      if (ty =? T_FILE) && (type ip =? T_FILE) then Ret (Some i, s)
      else s ← iunlockput nsect i s; Ret (None, s)
    | None =>
      '(i, s) ← ialloc nsect ty s;
      s ← ilock nsect i s;
      s ← update_inode i (new_inode major minor) s;
      ip ← geti i s;
      s ← (if ty =? T_DIR then
             s ← update_inode dp (add_nlink 1) s;
             d ← geti dp s;
             '(r, s) ← dirlink nsect dev_read dev_write i DOT (inum ip) s;
             if r <? 0 then Panic "create dots"
             else
               '(r, s) ← dirlink nsect dev_read dev_write i DOTDOT (inum d) s;
               if r <? 0 then Panic "create dots" else Ret s
           else Ret s);
      '(r, s) ← dirlink nsect dev_read dev_write dp name (inum ip) s;
      if r <? 0 then Panic "create: dirlink"
      else s ← iunlockput nsect dp s; Ret (Some i, s)
    end
  end.

(** ** Arguments of the calling process *)

Definition karg {A} (f : Z -> Z -> Z -> kst -> outcome A) (k : kernel) : outcome A :=
  '(_, p) ← curp (pt k); f (pgdir p) (sz p) (tf_esp (tf p)) (km k).
Definition kargint (n : Z) : kernel -> outcome (option Z) := karg (fun d sz esp => argint d sz esp n).
Definition kargptr (n size : Z) : kernel -> outcome (option Z) := karg (fun d sz esp => argptr d sz esp n size).

(** The bytes of a string argument. *)
Definition kargstr (n : Z) (k : kernel) : outcome (option (list Z)) :=
  r ← karg (fun d sz esp => argstr d sz esp n) k;
  match r with
  | None => Ret None
  | Some (a, len) => bs ← karg (fun d _ _ => uread d (Z.to_nat len) a) k; Ret (Some bs)
  end.

Definition kwrite (bs : list Z) (a : Z) (k : kernel) : outcome kernel :=
  m ← karg (fun d _ _ => uwrite d bs a) k; Ret (set_km m k).

Definition my_cwd (k : kernel) : outcome nat :=
  '(_, p) ← curp (pt k);
  match cwd p with Some c => Ret c | None => Undef "null dereference" end.

Definition set_ofile (fd : nat) (x : option nat) (k : kernel) : outcome kernel :=
  '(me, _) ← curp (pt k);
  Ret (set_pt (updp me (fun p => p_ofile (<[fd := x]> (ofile p)) p) (pt k)) k).

(** The descriptor and the file, or [None] for -1. *)
Definition argfd (n : Z) (k : kernel) : outcome (option (nat * nat)) :=
  r ← kargint n k;
  match r with
  | None => Ret None
  | Some fd =>
    if (fd <? 0) || (Z.of_nat NOFILE <=? fd) then Ret None
    else
      '(_, p) ← curp (pt k);
      f ← aget (ofile p) fd;
      Ret (match f with Some i => Some (Z.to_nat fd, i) | None => None end)
  end.

Definition fdalloc (i : nat) (k : kernel) : outcome (option nat * kernel) :=
  '(_, p) ← curp (pt k);
  match list_find (fun x => x = None) (ofile p) with
  | Some (fd, _) => k ← set_ofile fd (Some i) k; Ret (Some fd, k)
  | None => Ret (None, k)
  end.

(** ** The handlers *)

Definition sys_dup (k : kernel) : outcome (Z * kernel) :=
  r ← argfd 0 k;
  match r with
  | None => Ret (-1, k)
  | Some (_, i) =>
    '(fd, k) ← fdalloc i k;
    match fd with
    | None => Ret (-1, k)
    | Some fd => k ← filedup i k; Ret (Z.of_nat fd, k)
    end
  end.

Definition sys_read (k : kernel) : outcome (result unit * kernel) :=
  f ← argfd 0 k;
  match f with
  | None => Ret (Returns (-1), k)
  | Some (_, i) =>
    n ← kargint 2 k;
    match n with
    | None => Ret (Returns (-1), k)
    | Some n =>
      p ← kargptr 1 n k;
      match p with
      | None => Ret (Returns (-1), k)
      | Some p => '(r, bs, k) ← fileread nsect dev_read i n k; k ← kwrite bs p k; Ret (r, k)
      end
    end
  end.

(** The number of bytes that [filewrite] copies from the caller. *)
Definition write_count (i : nat) (n : Z) (k : kernel) : outcome Z :=
  f ← getf i k;
  if negb (writable f) then Ret 0
  else
    match ftype f with
    | FD_INODE =>
      s ← ilock nsect (fip f) (fsys k);
      ip ← geti (fip f) s;
      if type ip =? T_DEV then Ret (Z.max 0 n)
      else if (size ip <? foff f) || (u32 (foff f + u32 n) <? foff f) then Ret 0
      else Ret (Z.min (u32 n) (MAXFILE * BSIZE - foff f))
    | _ => Ret (Z.max 0 n)
    end.

Definition sys_write (k : kernel) : outcome (result (list Z) * kernel) :=
  f ← argfd 0 k;
  match f with
  | None => Ret (Returns (-1), k)
  | Some (_, i) =>
    n ← kargint 2 k;
    match n with
    | None => Ret (Returns (-1), k)
    | Some n =>
      p ← kargptr 1 n k;
      match p with
      | None => Ret (Returns (-1), k)
      | Some p =>
        m ← write_count i n k;
        bs ← karg (fun d _ _ => uread d (Z.to_nat m) p) k;
        filewrite nsect dev_write i bs n k
      end
    end
  end.

Definition sys_close (k : kernel) : outcome (Z * kernel) :=
  r ← argfd 0 k;
  match r with
  | None => Ret (-1, k)
  | Some (fd, i) =>
    k ← set_ofile fd None k;
    k ← fileclose nsect kend i k;
    Ret (0, k)
  end.

(** [struct stat]: type, device, inode, links, size at 0, 4, 8, 12 and 16. *)
Definition store_stat (st : Z * Z * Z * Z * Z) (a : Z) (k : kernel) : outcome kernel :=
  let '(dv, ino, ty, nl, size) := st in
  k ← kwrite (bytes32 dv) (a + 4) k;
  k ← kwrite (bytes32 ino) (a + 8) k;
  k ← kwrite (take 2 (bytes32 ty)) a k;
  k ← kwrite (take 2 (bytes32 nl)) (a + 12) k;
  kwrite (bytes32 size) (a + 16) k.

Definition sys_fstat (k : kernel) : outcome (Z * kernel) :=
  f ← argfd 0 k;
  match f with
  | None => Ret (-1, k)
  | Some (_, i) =>
    p ← kargptr 1 20 k;
    match p with
    | None => Ret (-1, k)
    | Some p =>
      '(st, k) ← filestat nsect i k;
      match st with
      | None => Ret (-1, k)
      | Some st => k ← store_stat st p k; Ret (0, k)
      end
    end
  end.

(** A handler that takes a path. *)
Definition on_path {A} (k : kernel) (bad : A) (f : list Z -> nat -> fs -> outcome (A * fs))
  : outcome (A * kernel) :=
  r ← kargstr 0 k;
  match r with
  | None => Ret (bad, k)
  | Some path => c ← my_cwd k; '(a, s) ← f path c (fsys k); Ret (a, set_fsys s k)
  end.

Definition sys_link (k : kernel) : outcome (Z * kernel) :=
  old ← kargstr 0 k;
  match old with
  | None => Ret (-1, k)
  | Some old =>
    new ← kargstr 1 k;
    match new with
    | None => Ret (-1, k)
    | Some new => c ← my_cwd k; '(r, s) ← link old new c (fsys k); Ret (r, set_fsys s k)
    end
  end.

Definition sys_unlink (k : kernel) : outcome (Z * kernel) := on_path k (-1) unlink.

(** [sys_open] up to the locked inode; the return value on failure. *)
Definition open_inode (omode : Z) (path : list Z) (cwd : nat) (s : fs) : outcome ((Z + nat) * fs) :=
  if negb (Z.land omode O_CREATE =? 0) then
    '(r, s) ← create path T_FILE 0 0 cwd s;
    Ret (match r with Some i => inr i | None => inl (-1) end, s)
  else
    '(r, s) ← namei nsect path cwd s;
    match r with
    | None => Ret (inl (-2), s)
    | Some i =>
      s ← ilock nsect i s;
      ip ← geti i s;
      if (type ip =? T_DIR) && negb (omode =? O_RDONLY)
      then s ← iunlockput nsect i s; Ret (inl (-3), s)
      else Ret (inr i, s)
    end.

Definition sys_open (k : kernel) : outcome (Z * kernel) :=
  path ← kargstr 0 k;
  match path with
  | None => Ret (-1, k)
  | Some path =>
    omode ← kargint 1 k;
    match omode with
    | None => Ret (-1, k)
    | Some omode =>
      c ← my_cwd k;
      '(r, s) ← open_inode omode path c (fsys k);
      let k := set_fsys s k in
      match r with
      | inl e => Ret (e, k)
      | inr ip =>
        let fail k := s ← iunlockput nsect ip (fsys k); Ret (-4, set_fsys s k) in
        let (f, k) := filealloc k in
        match f with
        | None => fail k
        | Some i =>
          '(fd, k) ← fdalloc i k;
          match fd with
          | None => k ← fileclose nsect kend i k; fail k
          | Some fd =>
            s ← iunlock ip (fsys k);
            f ← getf i k;
            Ret (Z.of_nat fd,
              setf i (File FD_INODE (fref f) (Z.land omode O_WRONLY =? 0)
                (negb (Z.land omode O_WRONLY =? 0) || negb (Z.land omode O_RDWR =? 0))
                (fpipe f) ip 0) (set_fsys s k))
          end
        end
      end
    end
  end.

Definition sys_mkdir (k : kernel) : outcome (Z * kernel) :=
  on_path k (-1) (fun path c s =>
    '(r, s) ← create path T_DIR 0 0 c s;
    match r with
    | None => Ret (-1, s)
    | Some i => s ← iunlockput nsect i s; Ret (0, s)
    end).

Definition sys_mknod (k : kernel) : outcome (Z * kernel) :=
  path ← kargstr 0 k;
  match path with
  | None => Ret (-1, k)
  | Some path =>
    major ← kargint 1 k;
    match major with
    | None => Ret (-1, k)
    | Some major =>
      minor ← kargint 2 k;
      match minor with
      | None => Ret (-1, k)
      | Some minor =>
        c ← my_cwd k;
        '(r, s) ← create path T_DEV (i16 major) (i16 minor) c (fsys k);
        match r with
        | None => Ret (-1, set_fsys s k)
        | Some i => s ← iunlockput nsect i s; Ret (0, set_fsys s k)
        end
      end
    end
  end.

Definition sys_chdir (k : kernel) : outcome (Z * kernel) :=
  '(r, k) ← on_path k None (namei nsect);
  match r with
  | None => Ret (-1, k)
  | Some i =>
    s ← ilock nsect i (fsys k);
    ip ← geti i s;
    if negb (type ip =? T_DIR) then s ← iunlockput nsect i s; Ret (-1, set_fsys s k)
    else
      s ← iunlock i s;
      c ← my_cwd k;
      s ← iput nsect c s;
      '(me, _) ← curp (pt k);
      Ret (0, set_pt (updp me (p_cwd (Some i)) (pt k)) (set_fsys s k))
  end.

Definition sys_pipe (k : kernel) : outcome (Z * kernel) :=
  p ← kargptr 0 8 k;
  match p with
  | None => Ret (-1, k)
  | Some p =>
    '(r, k) ← pipealloc nsect kend k;
    match r with
    | None => Ret (-1, k)
    | Some (rf, wf) =>
      let fail k := k ← fileclose nsect kend rf k; k ← fileclose nsect kend wf k; Ret (-1, k) in
      '(fd0, k) ← fdalloc rf k;
      match fd0 with
      | None => fail k
      | Some fd0 =>
        '(fd1, k) ← fdalloc wf k;
        match fd1 with
        | None => k ← set_ofile fd0 None k; fail k
        | Some fd1 =>
          k ← kwrite (bytes32 (Z.of_nat fd0)) p k;
          k ← kwrite (bytes32 (Z.of_nat fd1)) (p + 4) k;
          Ret (0, k)
        end
      end
    end
  end.

End SysFile.
