(* ===== verification/FileRefs.v ===== *)
(** * Open files are counted

    A [struct file] is shared by descriptors: [dup], [fork] and [clone] add
    one, [close] and [exit] take one away.  In every run of the system calls
    the count of a file is the number of descriptors that name it, so no file
    is released while a descriptor is left, every unreferenced entry of the
    table is free, and the panics of kernel/file.c cannot happen. *)

From S2P Require Import Prelude Memory Kalloc Vm VmMap Proc Mlfq Pipe Fs File Syscall ProcOps Fork SysFile.

(** ** Partial correctness of outcomes *)

(** If [o] returns, the result satisfies [Q]. *)
Definition gives {A} (o : outcome A) (Q : A -> Prop) : Prop := forall a, o = Ret a -> Q a.

Lemma gives_bind {A B} (o : outcome A) (f : A -> outcome B) (Q : B -> Prop) :
  gives o (fun a => gives (f a) Q) -> gives (o ≫= f) Q.
Proof. intros H b E. bind_inv E. by eapply H. Qed.

Lemma gives_ret {A} (a : A) (Q : A -> Prop) : Q a -> gives (Ret a) Q.
Proof. intros H b [= <-]. done. Qed.

Lemma gives_panic {A} m (Q : A -> Prop) : gives (Panic m) Q.
Proof. intros b. done. Qed.

Lemma gives_undef {A} m (Q : A -> Prop) : gives (Undef m) Q.
Proof. intros b. done. Qed.

Lemma gives_any {A} (o : outcome A) (Q : A -> Prop) : (forall a, Q a) -> gives o Q.
Proof. intros H a _. done. Qed.

Lemma gives_use {A} (o : outcome A) (P Q : A -> Prop) : gives o P -> (forall a, P a -> Q a) -> gives o Q.
Proof. intros H HP a E. by apply HP, H. Qed.

(** Equations between numbers of references. *)
Ltac count_solve := intros; repeat match goal with
  | |- context [decide (None = Some ?j)] => rewrite (decide_False (P := None = Some j)) by done
  | |- context [decide ?P] => destruct (decide P) end; simplify_eq; lia.

(** ** What counting depends on

    For each process whether it is alive, and its descriptors; for each file
    its count, and whether its type is set. *)

Abbreviation vtab := (list (bool * list (option nat))).
Definition live (s : procstate) : bool := match class_of s with Alive => true | _ => false end.
Definition proc_files (p : proc) : bool * list (option nat) := (live (state p), ofile p).
Definition vview {D} (k : kernel D) : vtab := proc_files <$> procs (pt k).
Definition file_count (f : file) : Z * bool := (fref f, bool_decide (ftype f <> FD_NONE)).
Definition rview {D} (k : kernel D) : list (Z * bool) := file_count <$> ftable k.

(** The descriptors of all processes. *)
Definition descriptors (vs : vtab) : list (option nat) := concat (snd <$> vs).

(** [h i]: references to file [i] that kernel code holds beside the
    descriptors; [raw]: files that were taken but have no type yet. *)
Record finv (h : nat -> Z) (raw : list nat) (vs : vtab) (rs : list (Z * bool)) : Prop := {
  fi_len : length vs = NPROC;
  fi_tab : forall j a o, vs !! j = Some (a, o) -> length o = NOFILE /\ (a = false -> o = replicate NOFILE None);
  fi_rng : forall j a o i, vs !! j = Some (a, o) -> Some i ∈ o -> (i < length rs)%nat;
  fi_cnt : forall i n t, rs !! i = Some (n, t) -> n = refs (descriptors vs) i + h i;
  fi_typ : forall i n t, rs !! i = Some (n, t) -> i ∉ raw -> n = 0 <-> t = false
}.

Definition plus (h : nat -> Z) (i : nat) (d : Z) (j : nat) : Z := h j + (if decide (i = j) then d else 0).
Definition none (i : nat) : Z := 0.

Lemma finv_ext h h' raw raw' vs rs :
  (forall i, h i = h' i) -> (forall i, i ∈ raw -> i ∈ raw') -> finv h raw vs rs -> finv h' raw' vs rs.
Proof.
  intros E S [F1 F2 F3 F4 F5]. split; auto.
  - intros i n t Hi. rewrite <- E. by eapply F4.
  - intros i n t Hi Hn. eapply F5; eauto.
Qed.

(** ** Arithmetic of descriptor tables *)

Lemma refs_app o1 o2 i : refs (o1 ++ o2) i = refs o1 i + refs o2 i.
Proof. unfold refs. rewrite filter_app, length_app. lia. Qed.

Lemma refs_none n i : refs (replicate n None) i = 0.
Proof. induction n as [|n IH]; [done|]. simpl replicate. rewrite refs_cons, IH. by case_decide. Qed.

Definition is_file (x : option nat) (i : nat) : Z := if decide (x = Some i) then 1 else 0.

Lemma refs_insert o fd x y i : o !! fd = Some x ->
  refs (<[fd := y]> o) i = refs o i - is_file x i + is_file y i.
Proof.
  intros H. pose proof (f_equal (fun o => refs o i) (take_drop_middle o fd x H)) as E. simpl in E.
  rewrite insert_take_drop by (by eapply lookup_lt_Some). rewrite refs_app, refs_cons in *. unfold is_file. lia.
Qed.

Lemma descriptors_insert vs j v w i : vs !! j = Some v ->
  refs (descriptors (<[j := w]> vs)) i = refs (descriptors vs) i - refs v.2 i + refs w.2 i.
Proof.
  intros H. pose proof (f_equal (fun o => refs (descriptors o) i) (take_drop_middle vs j v H)) as E. simpl in E.
  rewrite insert_take_drop by (by eapply lookup_lt_Some). unfold descriptors in *. rewrite fmap_app, concat_app in *.
  simpl in *. rewrite !refs_app in *. lia.
Qed.

Lemma length_descriptors vs :
  (forall j a o, vs !! j = Some (a, o) -> length o = NOFILE) -> length (descriptors vs) = (NOFILE * length vs)%nat.
Proof.
  unfold descriptors. induction vs as [|[a o] vs IH]; intros H; [done|]. rewrite fmap_cons. cbn [concat snd length].
  rewrite length_app, IH by (intros j a' o' Hj; by apply (H (S j) a')). rewrite (H 0%nat a o eq_refl). lia.
Qed.

Lemma descriptors_bound h raw vs rs i : finv h raw vs rs -> 0 <= refs (descriptors vs) i <= 1024.
Proof.
  intros [F1 F2 _ _ _]. pose proof (refs_bound (descriptors vs) i) as B.
  rewrite length_descriptors, F1 in B by (intros j a o Hj; by apply (F2 j a o)).
  change (Z.of_nat (NOFILE * NPROC)) with 1024 in B. lia.
Qed.

Lemma refs_elem o i : Some i ∈ o -> 1 <= refs o i.
Proof.
  intros (o1 & o2 & ->)%list_elem_of_split. rewrite refs_app, refs_cons, decide_True by done.
  pose proof (refs_bound o1 i). pose proof (refs_bound o2 i). lia.
Qed.

Lemma descriptors_elem vs j a o i : vs !! j = Some (a, o) -> Some i ∈ o -> 1 <= refs (descriptors vs) i.
Proof.
  intros Hj Hi. apply refs_elem, list_elem_of_In, in_concat. exists o. split; [|by apply list_elem_of_In].
  apply list_elem_of_In, list_elem_of_fmap. exists (a, o). split; [done|]. by eapply list_elem_of_lookup_2.
Qed.

(** ** Changing one file, and one process *)

Lemma finv_file h raw raw' vs rs i n t d t' :
  finv h raw vs rs -> rs !! i = Some (n, t) -> (forall j, j <> i -> j ∈ raw -> j ∈ raw') ->
  i ∈ raw' \/ (n + d = 0 <-> t' = false) -> finv (plus h i d) raw' vs (<[i := (n + d, t')]> rs).
Proof.
  intros [F1 F2 F3 F4 F5] Hi Hraw Ht. assert (L : (i < length rs)%nat) by (by eapply lookup_lt_Some).
  assert (G : forall j m u, <[i := (n + d, t')]> rs !! j = Some (m, u) ->
    i = j /\ m = n + d /\ u = t' \/ i <> j /\ rs !! j = Some (m, u)).
  { intros j m u Hj. destruct (decide (i = j)) as [<-|Hn];
      [rewrite list_lookup_insert_eq in Hj by done; injection Hj as <- <-; by left|].
    rewrite list_lookup_insert_ne in Hj by done. by right. }
  split; auto.
  - intros j a o x Hj Hx. rewrite length_insert. by eapply F3.
  - intros j m u [(<- & -> & ->)|[Hn Hj]]%G; unfold plus.
    + rewrite decide_True by done. specialize (F4 _ _ _ Hi). lia.
    + rewrite decide_False by done. specialize (F4 _ _ _ Hj). lia.
  - intros j m u [(<- & -> & ->)|[Hn Hj]]%G Hr; [by destruct Ht|]. eapply F5; [exact Hj|]. intros Hx. apply Hr, Hraw; auto.
Qed.

Lemma finv_proc h raw vs rs j a o b o' :
  finv h raw vs rs -> vs !! j = Some (a, o) -> length o' = NOFILE -> (b = false -> o' = replicate NOFILE None) ->
  (forall i, Some i ∈ o' -> (i < length rs)%nat) ->
  finv (fun i => h i + refs o i - refs o' i) raw (<[j := (b, o')]> vs) rs.
Proof.
  intros [F1 F2 F3 F4 F5] Hj Hl Hb Hr. assert (L : (j < length vs)%nat) by (by eapply lookup_lt_Some).
  assert (G : forall j' a' q, <[j := (b, o')]> vs !! j' = Some (a', q) -> a' = b /\ q = o' \/ vs !! j' = Some (a', q)).
  { intros j' a' q Hx. destruct (decide (j = j')) as [<-|Hn];
      [rewrite list_lookup_insert_eq in Hx by done; injection Hx as <- <-; by left|].
    rewrite list_lookup_insert_ne in Hx by done. by right. }
  split; auto.
  - by rewrite length_insert.
  - intros j' a' q [[-> ->]|Hx]%G; [done|by eapply F2].
  - intros j' a' q i [[-> ->]|Hx]%G Hi; [by apply Hr|by eapply F3].
  - intros i n t Hi. rewrite (descriptors_insert _ _ _ _ _ Hj). simpl. specialize (F4 _ _ _ Hi). lia.
Qed.

(** The state of a process may change while its descriptors stay. *)
Lemma finv_state h raw vs rs j a o b :
  finv h raw vs rs -> vs !! j = Some (a, o) -> (b = false -> o = replicate NOFILE None) ->
  finv h raw (<[j := (b, o)]> vs) rs.
Proof.
  intros F Hj Hb. eapply finv_ext; [| |apply (finv_proc h raw vs rs j a o b o F Hj)]; [intros i; simpl; lia|done| |done|].
  - by apply (fi_tab _ _ _ _ F j a).
  - intros i Hi. by eapply (fi_rng _ _ _ _ F).
Qed.

(** One descriptor changes from [x] to [y]. *)
Lemma finv_desc h h' raw vs rs j a o fd x y :
  finv h raw vs rs -> vs !! j = Some (a, o) -> a = true -> o !! fd = Some x ->
  (forall i, y = Some i -> (i < length rs)%nat) -> (forall i, h' i = h i + is_file x i - is_file y i) ->
  finv h' raw (<[j := (a, <[fd := y]> o)]> vs) rs.
Proof.
  intros F Hj -> Hx Hy Hh. eapply finv_ext; [| |apply (finv_proc h raw vs rs j true o true (<[fd := y]> o) F Hj)]; [|done| |done|].
  - intros i. simpl. rewrite (refs_insert _ _ _ _ _ Hx), Hh. lia.
  - rewrite length_insert. by apply (fi_tab _ _ _ _ F j true).
  - intros i Hi. apply list_elem_of_lookup in Hi as [m Hm]. destruct (decide (fd = m)) as [<-|Hn].
    + rewrite list_lookup_insert_eq in Hm by (by eapply lookup_lt_Some). injection Hm as ->. by apply Hy.
    + rewrite list_lookup_insert_ne in Hm by done. eapply (fi_rng _ _ _ _ F); [exact Hj|by eapply list_elem_of_lookup_2].
Qed.

(** A new process takes over the descriptors of another. *)
Lemma finv_inherit vs rs rs' me np a b o q :
  finv none [] vs rs -> vs !! me = Some (a, o) -> vs !! np = Some (b, q) -> b = false ->
  (forall i, rs' !! i = (fun r => (r.1 + refs o i, r.2)) <$> rs !! i) ->
  finv none [] (<[np := (true, o)]> vs) rs'.
Proof.
  intros F Hm Hn -> Hr. pose proof (fi_tab _ _ _ _ F _ _ _ Hn) as [_ E]. specialize (E eq_refl). subst q.
  destruct (finv_proc none [] vs rs np false (replicate NOFILE None) true o F Hn) as [G1 G2 G3 G4 G5].
  { by apply (fi_tab _ _ _ _ F me a). } { done. } { intros i Hi. exact (fi_rng _ _ _ _ F me a o i Hm Hi). }
  assert (L : length rs' = length rs).
  { apply Nat.le_antisymm; apply Nat.le_ngt; intros Hx.
    - destruct (lookup_lt_is_Some_2 rs' (length rs) Hx) as [y Hy]. rewrite Hr, lookup_ge_None_2 in Hy by lia. done.
    - destruct (lookup_lt_is_Some_2 rs (length rs') Hx) as [y Hy]. pose proof (Hr (length rs')) as Hz.
      rewrite Hy, lookup_ge_None_2 in Hz by lia. done. }
  split; auto.
  - intros j a' o' i Hj Hi. rewrite L. by eapply G3.
  - intros i n t Hi. rewrite Hr in Hi. destruct (rs !! i) as [[m u]|] eqn:E; [|done]. injection Hi as <- <-.
    rewrite (G4 _ _ _ E), refs_none. unfold none. simpl. lia.
  - intros i n t Hi Hx. rewrite Hr in Hi. destruct (rs !! i) as [[m u]|] eqn:E; [|done]. injection Hi as <- <-.
    rewrite <- (G5 _ _ _ E Hx). pose proof (fi_cnt _ _ _ _ F _ _ _ E) as C. unfold none in C. simpl.
    pose proof (refs_bound o i). pose proof (refs_bound (descriptors (<[me := (a, [])]> vs)) i) as B.
    rewrite (descriptors_insert _ _ _ _ _ Hm) in B. unfold refs in B at 3 6. simpl in B. lia.
Qed.

(** ** The operations of kernel/file.c *)

Definition tview (t : ptable) : vtab := proc_files <$> procs t.

Lemma tview_updp i f t q : procs t !! i = Some q -> tview (updp i f t) = <[i := proc_files (f q)]> (tview t).
Proof. intros H. rewrite (updp_insert _ _ _ _ H). unfold tview. cbn [procs set_procs]. by rewrite list_fmap_insert. Qed.

Lemma tview_same i f t : (forall p, proc_files (f p) = proc_files p) -> tview (updp i f t) = tview t.
Proof.
  intros E. unfold tview, updp. cbn [procs set_procs]. apply list_eq. intros j. rewrite !list_lookup_fmap.
  destruct (decide (i = j)) as [<-|Hn]; [|by rewrite list_lookup_alter_ne].
  rewrite list_lookup_alter_eq. destruct (procs t !! i); simpl; by rewrite ?E.
Qed.

Lemma tview_wakeup c t : tview (wakeup1 c t) = tview t.
Proof.
  unfold tview, wakeup1, mapp. cbn [procs set_procs]. rewrite <- list_fmap_compose. apply list_fmap_ext.
  intros j p _. unfold compose, wakeup1_one. case_match eqn:E; [|done].
  apply andb_true_iff in E as [E _]. apply bool_decide_eq_true in E. destruct p; simpl in *; subst. done.
Qed.

Section FileRefs.
Context {D : Type} (nsect kend data : Z) (trapret forkret : Z) (proc_addr : nat -> Z).
Context (dev_read : Z -> option (Z -> D -> outcome (Z * list Z * D))).
Context (dev_write : Z -> option (list Z -> Z -> D -> outcome (Z * D))).
Implicit Types k : kernel D.

Definition FI (h : nat -> Z) (raw : list nat) k : Prop := finv h raw (vview k) (rview k).

(** No process, no descriptor; no file. *)
Definition same_procs k k' : Prop := vview k' = vview k /\ cur (pt k') = cur (pt k).
Definition same_files k k' : Prop := same_procs k k' /\ rview k' = rview k.

Lemma FI_same h raw k k' : same_files k k' -> FI h raw k -> FI h raw k'.
Proof. intros [[E _] E']. unfold FI. by rewrite E, E'. Qed.

Lemma same_pipe_wake w p k : same_files k (pipe_wake w p k).
Proof. destruct w; split; try split; try done; apply (tview_wakeup _ (pt k)). Qed.

Lemma same_close_pipe p w k : gives (close_pipe kend p w k) (same_files k).
Proof.
  apply gives_bind, gives_any. intros pi. destruct (pipeclose w pi) as [[wk free] pi'].
  pose proof (same_pipe_wake wk p k) as S. destruct free; [|by apply gives_ret].
  apply gives_bind, gives_any. intros m. by apply gives_ret.
Qed.

Lemma rview_lookup k i f : ftable k !! i = Some f -> rview k !! i = Some (fref f, bool_decide (ftype f <> FD_NONE)).
Proof. intros H. unfold rview. by rewrite list_lookup_fmap, H. Qed.

Lemma rview_setf i f k : rview (setf i f k) = <[i := file_count f]> (rview k).
Proof. unfold rview. cbn [ftable setf set_ftable]. by rewrite list_fmap_insert. Qed.

Lemma getf_gives i k (Q : file -> Prop) : (forall f, ftable k !! i = Some f -> Q f) -> gives (getf i k) Q.
Proof. intros H f E. apply H. apply aget_Ret in E as [_ E]. by rewrite Nat2Z.id in E. Qed.

(** Storing a file with the same count and type. *)
Lemma same_setf i f g k : ftable k !! i = Some f -> file_count g = file_count f -> same_files k (setf i g k).
Proof.
  intros H E. split; [done|]. rewrite rview_setf, E. apply list_insert_id. unfold rview. by rewrite list_lookup_fmap, H.
Qed.

Lemma FI_filealloc h raw k i k' : FI h raw k -> filealloc k = (Some i, k') ->
  FI (plus h i 1) (i :: raw) k' /\ same_procs k k' /\ (i < length (rview k'))%nat /\
  refs (descriptors (vview k)) i + h i = 0.
Proof.
  intros F. unfold filealloc. destruct (list_find _ _) as [[i' f]|] eqn:E; [|done]. intros [= -> <-].
  apply list_find_Some in E as (Hi & H0 & _). pose proof (rview_lookup _ _ _ Hi) as R. rewrite H0 in R.
  split_and!; [|done..| |].
  - unfold FI. rewrite rview_setf.
    apply (finv_file h raw (i :: raw) _ _ i 0 _ 1 (bool_decide (ftype f <> FD_NONE)) F R); [by right|by left; left].
  - rewrite rview_setf, length_insert. by eapply lookup_lt_Some.
  - symmetry. exact (fi_cnt _ _ _ _ F _ _ _ R).
Qed.

Lemma filealloc_none k k' : filealloc k = (None, k') -> k' = k.
Proof. unfold filealloc. destruct (list_find _ _) as [[i f]|]; congruence. Qed.

(** The type of a new file is set. *)
Lemma FI_typed h raw raw' k i f g : FI h raw k -> ftable k !! i = Some f -> fref g = fref f -> ftype g <> FD_NONE ->
  1 <= refs (descriptors (vview k)) i + h i -> (forall j, j <> i -> j ∈ raw -> j ∈ raw') -> FI h raw' (setf i g k).
Proof.
  intros F Hi E Ht H1 Hraw. pose proof (rview_lookup _ _ _ Hi) as R. pose proof (fi_cnt _ _ _ _ F _ _ _ R) as C.
  unfold FI. rewrite rview_setf. unfold file_count. rewrite E, bool_decide_eq_true_2 by done.
  replace (fref f, true) with (fref f + 0, true) by (f_equal; lia).
  apply (finv_ext (plus h i 0) h raw' raw'); [|done|].
  - intros j. unfold plus. destruct (decide (i = j)); lia.
  - eapply finv_file; [exact F|exact R|exact Hraw|]. right. split; [lia|done].
Qed.

Lemma FI_filedup h raw k i : FI h raw k -> h i <= 16 ->
  gives (filedup i k) (fun k' => FI (plus h i 1) raw k' /\ same_procs k k').
Proof.
  intros F Hh. apply gives_bind, getf_gives. intros f Hi. pose proof (rview_lookup _ _ _ Hi) as R.
  pose proof (fi_cnt _ _ _ _ F _ _ _ R) as C. pose proof (descriptors_bound _ _ _ _ i F).
  destruct (Z.ltb_spec (fref f) 1); [apply gives_panic|]. apply gives_ret. split; [|done].
  rewrite i32_small by (unfold is_i32; lia). unfold FI. rewrite rview_setf.
  eapply finv_file; [exact F|exact R|done|]. destruct (decide (i ∈ raw)) as [|Hn]; [by left|right].
  pose proof (fi_typ _ _ _ _ F _ _ _ R Hn) as T. split; [lia|]. intros Hx. apply T in Hx. lia.
Qed.

Lemma FI_fileclose h raw raw' k i : FI h raw k -> h i <= 16 -> (forall j, j <> i -> j ∈ raw -> j ∈ raw') ->
  i ∈ raw' \/ i ∉ raw \/ refs (descriptors (vview k)) i + h i = 1 ->
  gives (fileclose nsect kend i k) (fun k' => FI (plus h i (-1)) raw' k' /\ same_procs k k').
Proof.
  intros F Hh Hraw Ht. apply gives_bind, getf_gives. intros f Hi. pose proof (rview_lookup _ _ _ Hi) as R.
  pose proof (fi_cnt _ _ _ _ F _ _ _ R) as C. pose proof (descriptors_bound _ _ _ _ i F).
  destruct (Z.ltb_spec (fref f) 1); [apply gives_panic|]. rewrite i32_small by (unfold is_i32; lia).
  cbv zeta. destruct (Z.ltb_spec 0 (fref f - 1)).
  - apply gives_ret. split; [|done]. unfold FI. rewrite rview_setf.
    eapply finv_file; [exact F|exact R|done|]. destruct Ht as [?|[Hn|?]]; [by left| |lia]. right.
    pose proof (fi_typ _ _ _ _ F _ _ _ R Hn) as T. split; [lia|]. intros Hx. apply T in Hx. lia.
  - set (k1 := setf i _ k).
    assert (F1 : FI (plus h i (-1)) raw' k1).
    { unfold FI, k1. rewrite rview_setf. change (file_count _) with (0, false). replace 0 with (fref f + -1) by lia.
      eapply finv_file; [exact F|exact R|done|]. right. split; [done|lia]. }
    assert (G : forall k', same_files k1 k' -> FI (plus h i (-1)) raw' k' /\ same_procs k k').
    { intros k' Sk. split; [by eapply FI_same|]. apply Sk. }
    destruct (ftype f).
    + apply gives_ret, G. done.
    + eapply gives_use; [apply same_close_pipe|exact G].
    + apply gives_bind, gives_any. intros s. apply gives_ret, G. done.
Qed.

(** ** Descriptors of the caller *)

Definition calling k me o : Prop := cur (pt k) = Some me /\ vview k !! me = Some (true, o).

Lemma vview_lookup k j a o : vview k !! j = Some (a, o) -> exists p, procs (pt k) !! j = Some p /\ live (state p) = a /\ ofile p = o.
Proof. unfold vview. rewrite list_lookup_fmap. destruct (procs (pt k) !! j) as [p|]; [|done]. intros [= <- <-]. by exists p. Qed.

Lemma calling_curp k me o (Q : nat * proc -> Prop) : calling k me o ->
  (forall p, procs (pt k) !! me = Some p -> live (state p) = true -> ofile p = o -> Q (me, p)) -> gives (curp (pt k)) Q.
Proof.
  intros [C V] H r. unfold curp. rewrite C. apply vview_lookup in V as (p & Hp & L & O). rewrite (getp_Some _ _ _ Hp).
  intros [= <-]. by apply H.
Qed.

Lemma FI_set_ofile h h' raw k me o fd x y : FI h raw k -> calling k me o -> o !! fd = Some x ->
  (forall i, y = Some i -> (i < length (rview k))%nat) -> (forall i, h' i = h i + is_file x i - is_file y i) ->
  gives (set_ofile fd y k) (fun k' => FI h' raw k' /\ calling k' me (<[fd := y]> o) /\ rview k' = rview k).
Proof.
  intros F C Hx Hy Hh. apply gives_bind. eapply calling_curp; [exact C|]. intros p Hp L O. apply gives_ret.
  set (k' := set_pt _ k). destruct C as [C V].
  assert (V' : vview k' = <[me := (true, <[fd := y]> o)]> (vview k)).
  { unfold vview, k'. fold (tview (pt k)). cbn [pt set_pt]. fold (tview (updp me (fun q => p_ofile (<[fd := y]> (ofile q)) q) (pt k))).
    rewrite (tview_updp _ _ _ p) by done. f_equal. destruct p. simpl in *. unfold proc_files. simpl. by rewrite L, O. }
  split_and!; [|split; [exact C|]|done].
  - unfold FI. rewrite V'. by eapply finv_desc.
  - rewrite V'. apply list_lookup_insert_eq. by eapply lookup_lt_Some.
Qed.

Lemma FI_fdalloc h raw k me o i : FI h raw k -> calling k me o -> (i < length (rview k))%nat ->
  gives (fdalloc i k) (fun '(r, k') => match r with
    | None => k' = k
    | Some fd => o !! fd = Some None /\ FI (plus h i (-1)) raw k' /\ calling k' me (<[fd := Some i]> o) /\ rview k' = rview k
    end).
Proof.
  intros F C Hi. apply gives_bind. eapply calling_curp; [exact C|]. intros p Hp L O. rewrite O.
  destruct (list_find _ o) as [[fd x]|] eqn:E; [|by apply gives_ret]. apply list_find_Some in E as (Hx & -> & _).
  apply gives_bind. eapply gives_use; [eapply (FI_set_ofile h (plus h i (-1))); [exact F|exact C|exact Hx| |]|].
  - intros j [= <-]. done.
  - unfold plus, is_file. count_solve.
  - intros k' G. by apply gives_ret.
Qed.

(** ** The handlers of kernel/sysfile.c *)

Definition counted k : Prop := FI none [] k.

Lemma calling_range k me o fd i : counted k -> calling k me o -> o !! fd = Some (Some i) -> (i < length (rview k))%nat.
Proof. intros F [_ V] H. eapply (fi_rng _ _ _ _ F); [exact V|]. by eapply list_elem_of_lookup_2. Qed.

Lemma argfd_gives n k me o : calling k me o ->
  gives (argfd n k) (fun r => match r with Some (fd, i) => o !! fd = Some (Some i) | None => True end).
Proof.
  intros C. apply gives_bind, gives_any. intros [fd|]; [|by apply gives_ret].
  case_match; [by apply gives_ret|]. apply gives_bind. eapply calling_curp; [exact C|]. intros p Hp L O.
  apply gives_bind. intros x E. apply aget_Ret in E as [_ E]. apply gives_ret. destruct x; [|done]. by rewrite <- O.
Qed.

Lemma counted_dup k me o : counted k -> calling k me o -> gives (sys_dup k) (fun '(_, k') => counted k').
Proof.
  intros F C. apply gives_bind. eapply gives_use; [by eapply argfd_gives|]. intros [[fd i]|] Hi; [|by apply gives_ret].
  apply gives_bind. eapply gives_use; [eapply FI_fdalloc; [exact F|exact C|by eapply calling_range]|].
  intros [[fd'|] k1] G; [|subst; by apply gives_ret]. destruct G as (_ & F1 & _ & _).
  apply gives_bind. eapply gives_use; [apply (FI_filedup _ _ _ i F1)|].
  - unfold plus, none. count_solve.
  - intros k2 [F2 _]. apply gives_ret. eapply finv_ext; [| |exact F2]; [|done].
    unfold plus, none. count_solve.
Qed.

Lemma counted_close k me o : counted k -> calling k me o -> gives (sys_close nsect kend k) (fun '(_, k') => counted k').
Proof.
  intros F C. apply gives_bind. eapply gives_use; [by eapply argfd_gives|]. intros [[fd i]|] Hi; [|by apply gives_ret].
  apply gives_bind. eapply gives_use; [eapply (FI_set_ofile none (plus none i 1)); [exact F|exact C|exact Hi|done|]|].
  - unfold plus, none, is_file. count_solve.
  - intros k1 (F1 & C1 & _). apply gives_bind. eapply gives_use; [eapply (FI_fileclose _ [] []); [exact F1| |done|]|].
    + unfold plus, none. count_solve.
    + right. left. apply not_elem_of_nil.
    + intros k2 [F2 _]. apply gives_ret. eapply finv_ext; [| |exact F2]; [|done].
      unfold plus, none. count_solve.
Qed.

(** Calls that leave processes and files alone. *)
Lemma same_refl k : same_files k k.
Proof. done. Qed.

Lemma same_trans k1 k2 k3 : same_files k1 k2 -> same_files k2 k3 -> same_files k1 k3.
Proof. intros [[? ?] ?] [[? ?] ?]. split; [split|]; congruence. Qed.

Lemma same_kwrite bs a k : gives (kwrite bs a k) (same_files k).
Proof. apply gives_bind, gives_any. intros m. by apply gives_ret. Qed.

(** Skip a step whose result does not matter. *)
Ltac skip := apply gives_bind, gives_any.

Lemma same_fileread i n k : gives (fileread nsect dev_read i n k) (fun '(_, _, k') => same_files k k').
Proof.
  apply gives_bind, getf_gives. intros f Hf. case_match; [by apply gives_ret|]. destruct (ftype f).
  - apply gives_panic.
  - skip. intros dead. skip. intros pi. skip. intros [[[r w] bs] pi']. apply gives_ret. eapply same_trans; [|apply same_pipe_wake]. done.
  - skip. intros s. skip. intros [[r bs] s1]. skip. intros s2. apply gives_ret.
    case_match; [|done]. exact (same_setf i f (f_off (u32 (foff f + r)) f) k Hf eq_refl).
Qed.

Lemma same_filewrite i bs n k : gives (filewrite nsect dev_write i bs n k) (fun '(_, k') => same_files k k').
Proof.
  apply gives_bind, getf_gives. intros f Hf. case_match; [by apply gives_ret|]. destruct (ftype f).
  - apply gives_panic.
  - skip. intros dead. skip. intros pi. skip. intros [[r w] pi']. apply gives_ret. eapply same_trans; [|apply same_pipe_wake]. done.
  - skip. intros s. skip. intros [r s1]. skip. intros s2. apply gives_ret.
    case_match; [|done]. exact (same_setf i f (f_off (u32 (foff f + r)) f) k Hf eq_refl).
Qed.

Lemma same_read k : gives (sys_read nsect dev_read k) (fun '(_, k') => same_files k k').
Proof.
  skip. intros [[fd i]|]; [|by apply gives_ret]. skip. intros [n|]; [|by apply gives_ret]. skip. intros [p|]; [|by apply gives_ret].
  apply gives_bind. eapply gives_use; [apply same_fileread|]. intros [[r bs] k1] S1. apply gives_bind.
  eapply gives_use; [apply same_kwrite|]. intros k2 S2. apply gives_ret. by eapply same_trans.
Qed.

Lemma same_write k : gives (sys_write nsect dev_write k) (fun '(_, k') => same_files k k').
Proof.
  skip. intros [[fd i]|]; [|by apply gives_ret]. skip. intros [n|]; [|by apply gives_ret]. skip. intros [p|]; [|by apply gives_ret].
  skip. intros m. skip. intros bs. apply same_filewrite.
Qed.

Lemma same_fstat k : gives (sys_fstat nsect k) (fun '(_, k') => same_files k k').
Proof.
  skip. intros [[fd i]|]; [|by apply gives_ret]. skip. intros [p|]; [|by apply gives_ret].
  apply gives_bind. eapply (gives_use _ (fun '(_, k') => same_files k k')).
  { skip. intros f. destruct (ftype f); [by apply gives_ret..|]. skip. intros s. skip. intros ip. skip. intros s1. by apply gives_ret. }
  intros [[st|] k1] S1; [|by apply gives_ret]. apply gives_bind.
  eapply (gives_use _ (same_files k1)); [|intros k2 S2; apply gives_ret; by eapply same_trans].
  destruct st as [[[[dv ino] ty] nl] sz]. unfold store_stat.
  apply gives_bind. eapply gives_use; [apply same_kwrite|]. intros k2 H2.
  apply gives_bind. eapply gives_use; [apply same_kwrite|]. intros k3 H3%(same_trans _ _ _ H2).
  apply gives_bind. eapply gives_use; [apply same_kwrite|]. intros k4 H4%(same_trans _ _ _ H3).
  apply gives_bind. eapply gives_use; [apply same_kwrite|]. intros k5 H5%(same_trans _ _ _ H4).
  eapply gives_use; [apply same_kwrite|]. intros k6 H6. by eapply same_trans.
Qed.

Lemma same_on_path {A} (bad : A) f k : gives (on_path k bad f) (fun '(_, k') => same_files k k').
Proof.
  skip. intros [path|]; [|by apply gives_ret]. skip. intros c. skip. intros [a s]. by apply gives_ret.
Qed.

Lemma same_link k : gives (sys_link nsect dev_read dev_write k) (fun '(_, k') => same_files k k').
Proof.
  skip. intros [old|]; [|by apply gives_ret]. skip. intros [new|]; [|by apply gives_ret]. skip. intros c. skip. intros [r s].
  by apply gives_ret.
Qed.

Lemma same_mknod k : gives (sys_mknod nsect dev_read dev_write k) (fun '(_, k') => same_files k k').
Proof.
  do 3 (skip; intros [?|]; [|by apply gives_ret]). skip. intros c. skip. intros [[i|] s]; [|by apply gives_ret].
  skip. intros s1. by apply gives_ret.
Qed.

Lemma same_chdir k : gives (sys_chdir nsect k) (fun '(_, k') => same_files k k').
Proof.
  apply gives_bind. eapply gives_use; [apply same_on_path|]. intros [[i|] k1] S1; [|by apply gives_ret].
  skip. intros s. skip. intros ip. case_match; [skip; intros s1; by apply gives_ret|].
  skip. intros s1. skip. intros c. skip. intros s2. skip. intros [me p]. apply gives_ret. eapply same_trans; [exact S1|].
  split; [split; [|done]|done]. apply (tview_same me (p_cwd (Some i)) (pt k1)). by_fields.
Qed.

Lemma calling_same k k' me o : same_procs k k' -> calling k me o -> calling k' me o.
Proof. intros [V C] [H1 H2]. split; by rewrite ?C, ?V. Qed.

(** Closing a file that was just taken. *)
Lemma FI_fileclose_new k i : FI (plus none i 1) [i] k -> refs (descriptors (vview k)) i = 0 ->
  gives (fileclose nsect kend i k) counted.
Proof.
  intros F R. eapply gives_use; [eapply (FI_fileclose _ [i] []); [exact F| | |]|].
  - unfold plus, none. count_solve.
  - intros j Hj [?|?%elem_of_nil]%elem_of_cons; done.
  - right. right. rewrite R. unfold plus, none. count_solve.
  - intros k' [F' _]. eapply finv_ext; [| |exact F']; [|done]. unfold plus, none. count_solve.
Qed.

Lemma refs_same k k' i : same_procs k k' -> refs (descriptors (vview k')) i = refs (descriptors (vview k)) i.
Proof. by intros [-> _]. Qed.

Lemma counted_open k me o : counted k -> calling k me o ->
  gives (sys_open nsect kend dev_read dev_write k) (fun '(_, k') => counted k').
Proof.
  intros F C. skip. intros [path|]; [|by apply gives_ret]. skip. intros [omode|]; [|by apply gives_ret]. skip. intros c.
  skip. intros [[e|ip] s]; [by apply gives_ret|]. cbv zeta.
  set (k0 := set_fsys s k). assert (F0 : counted k0) by done. assert (C0 : calling k0 me o) by done.
  clearbody k0. clear F C k. rename F0 into F, C0 into C. destruct (filealloc k0) as [[i|] k1] eqn:E.
  - destruct (FI_filealloc _ _ _ _ _ F E) as (F1 & S1 & L1 & R1). pose proof (calling_same _ _ _ _ S1 C) as C1.
    apply gives_bind. eapply gives_use; [eapply FI_fdalloc; [exact F1|exact C1|exact L1]|].
    intros [[fd|] k2] G.
    + destruct G as (Hfd & F2 & C2 & V2). skip. intros s2. apply gives_bind, getf_gives. intros f Hf.
      apply gives_ret. apply (finv_ext (plus (plus none i 1) i (-1)) none [] []);
        [unfold plus, none; count_solve|done|].
      eapply (FI_typed _ [i] []); [exact F2|exact Hf|done|done| |by intros j Hj [?|?%elem_of_nil]%elem_of_cons].
      destruct C2 as [_ V]. pose proof (descriptors_elem _ _ _ _ i V) as B.
      change (vview (set_fsys s2 k2)) with (vview k2).
      unfold plus, none. enough (1 <= refs (descriptors (vview k2)) i) by count_solve.
      apply B. eapply list_elem_of_lookup_2, list_lookup_insert_eq. by eapply lookup_lt_Some.
    + subst k2. apply gives_bind. eapply gives_use; [apply FI_fileclose_new; [exact F1|]|].
      * rewrite (refs_same _ _ _ S1). unfold none in R1. lia.
      * intros k2 F2. skip. intros s2. by apply gives_ret.
  - apply filealloc_none in E as ->. skip. intros s2. by apply gives_ret.
Qed.

Lemma FI_setf_typed h raw raw' k i g : FI h raw k -> (forall f, fref (g f) = fref f /\ ftype (g f) <> FD_NONE) ->
  1 <= h i -> (forall j, j <> i -> j ∈ raw -> j ∈ raw') ->
  gives (getf i k) (fun f => FI h raw' (setf i (g f) k)).
Proof.
  intros F Hg Hh Hr. apply getf_gives. intros f Hf. destruct (Hg f) as [H1 H2].
  eapply FI_typed; [exact F|exact Hf|done|done| |done]. pose proof (descriptors_bound _ _ _ _ i F). lia.
Qed.

Lemma procs_trans k1 k2 k3 : same_procs k1 k2 -> same_procs k2 k3 -> same_procs k1 k3.
Proof. intros [? ?] [? ?]. split; congruence. Qed.

(** Two files that were just taken. *)
Definition two (i j : nat) : nat -> Z := plus (plus none i 1) j 1.

Lemma elem_of_one (x y : nat) : x ∈ [y] -> x = y.
Proof. apply list_elem_of_singleton. Qed.
Lemma elem_of_two (x y z : nat) : x ∈ [y; z] -> x <> z -> x ∈ [y].
Proof. intros [->|[->|?%elem_of_nil]%elem_of_cons]%elem_of_cons ?; [left|done..]. Qed.

Lemma FI_fileclose_two k i j : i <> j -> FI (two i j) [j; i] k ->
  refs (descriptors (vview k)) i = 0 -> refs (descriptors (vview k)) j = 0 ->
  gives (fileclose nsect kend i k) (fun k1 => gives (fileclose nsect kend j k1) (fun k2 => counted k2 /\ same_procs k k2)).
Proof.
  intros Hij F Ri Rj. eapply gives_use; [eapply (FI_fileclose _ [j; i] [j]); [exact F| | |]|].
  - unfold two, plus, none. count_solve.
  - intros x Hx Hx'. by eapply elem_of_two.
  - right. right. rewrite Ri. unfold two, plus, none. count_solve.
  - intros k1 [F1 S1]. eapply gives_use; [eapply (FI_fileclose _ [j] []); [exact F1| | |]|].
    + unfold two, plus, none. count_solve.
    + by intros x Hx ->%elem_of_one.
    + right. right. rewrite (refs_same _ _ _ S1), Rj. unfold two, plus, none. count_solve.
    + intros k2 [F2 S2]. split; [|by eapply procs_trans].
      eapply finv_ext; [| |exact F2]; [|done]. unfold two, plus, none. count_solve.
Qed.

Lemma FI_pipe_ends k i j p : FI (two i j) [j; i] k ->
  gives (getf i k) (fun fi => gives (getf j (setf i (end_of p false fi) k)) (fun fj =>
    FI (two i j) [] (setf j (end_of p true fj) (setf i (end_of p false fi) k)))).
Proof.
  intros F. eapply gives_use; [apply (FI_setf_typed _ [j; i] [j] k i (end_of p false) F); [done| |]|].
  - unfold two, plus, none. count_solve.
  - intros x Hx Hx'. by eapply elem_of_two.
  - intros fi F1. apply (FI_setf_typed _ [j] [] _ j (end_of p true) F1); [done| |by intros x Hx ->%elem_of_one].
    unfold two, plus, none. count_solve.
Qed.

(** The two files of a new pipe are held by the caller. *)
Lemma FI_pipealloc k : counted k ->
  gives (pipealloc nsect kend k) (fun '(r, k') => same_procs k k' /\ match r with
    | None => counted k'
    | Some (i, j) => FI (two i j) [] k' /\ (i < length (rview k'))%nat /\ (j < length (rview k'))%nat
    end).
Proof.
  intros F. unfold pipealloc. destruct (filealloc k) as [[i|] k1] eqn:E;
    [|apply filealloc_none in E as ->; by apply gives_ret].
  destruct (FI_filealloc _ _ _ _ _ F E) as (F1 & S1 & L1 & R1). unfold none in R1. rewrite Z.add_0_r in R1.
  destruct (filealloc k1) as [[j|] k2] eqn:E2.
  - destruct (FI_filealloc _ _ _ _ _ F1 E2) as (F2 & S2 & L2 & R2). pose proof (procs_trans _ _ _ S1 S2) as S.
    rewrite (refs_same _ _ _ S1) in R2.
    assert (Hij : i <> j) by (intros <-; rewrite R1 in R2; unfold plus, none in R2; rewrite decide_True in R2; lia).
    assert (L1' : (i < length (rview k2))%nat).
    { unfold filealloc in E2. destruct (list_find _ _) as [[j' f]|]; [|done]. injection E2 as -> <-.
      rewrite rview_setf, length_insert. done. }
    skip. intros [p m]. cbv zeta. case_match.
    + apply gives_bind. eapply gives_use; [apply (FI_fileclose_two (set_km m k2) i j Hij F2)|].
      * by rewrite (refs_same k _ _ S).
      * rewrite (refs_same k _ _ S). unfold plus, none in R2. rewrite decide_False in R2 by done. lia.
      * intros k3 G. apply gives_bind. eapply gives_use; [exact G|]. intros k4 [F4 S4]. apply gives_ret.
        split; [exact (procs_trans k k2 k4 S S4)|done].
    + apply gives_bind. set (k3 := set_pipes _ _).
      eapply gives_use; [apply (FI_pipe_ends k3 i j p F2)|]. intros fi G.
      apply gives_bind. eapply gives_use; [exact G|]. intros fj F5. apply gives_ret.
      split; [exact S|]. split; [exact F5|]. rewrite !rview_setf, !length_insert. done.
  - apply filealloc_none in E2 as ->. apply gives_bind. intros k' E'.
    destruct (FI_fileclose (plus none i 1) [i] [i] k1 i F1) with (a := k') as [_ S2];
      [unfold plus, none; count_solve|done|left; left|done|].
    apply gives_ret. split; [by eapply procs_trans|].
    eapply FI_fileclose_new; [exact F1| |exact E']. by rewrite (refs_same _ _ _ S1).
Qed.

Lemma counted_pipe k me o : counted k -> calling k me o -> gives (sys_pipe nsect kend k) (fun '(_, k') => counted k').
Proof.
  intros F C. skip. intros [p|]; [|by apply gives_ret]. apply gives_bind. eapply gives_use; [by apply FI_pipealloc|].
  intros [[[i j]|] k1] [S1 G]; [|by apply gives_ret]. destruct G as (F1 & Li & Lj). pose proof (calling_same _ _ _ _ S1 C) as C1.
  assert (X : forall k2, FI (two i j) [] k2 ->
    gives (k ← fileclose nsect kend i k2; k ← fileclose nsect kend j k; Ret (-1, k)) (fun '(_, k') => counted k')).
  { intros k2 F2. apply gives_bind. eapply gives_use; [eapply (FI_fileclose _ [] []); [exact F2| |done|right; left; apply not_elem_of_nil]|].
    - unfold two, plus, none. count_solve.
    - intros k3 [F3 _]. apply gives_bind.
      eapply gives_use; [eapply (FI_fileclose _ [] []); [exact F3| |done|right; left; apply not_elem_of_nil]|].
      + unfold two, plus, none. count_solve.
      + intros k4 [F4 _]. apply gives_ret. eapply finv_ext; [| |exact F4]; [|done]. unfold two, plus, none. count_solve. }
  cbv zeta. apply gives_bind. eapply gives_use; [eapply FI_fdalloc; [exact F1|exact C1|exact Li]|].
  intros [[fd0|] k2] G; [|subst; by apply X]. destruct G as (H0 & F2 & C2 & V2).
  apply gives_bind. eapply gives_use; [eapply FI_fdalloc; [exact F2|exact C2|by rewrite V2]|].
  intros [[fd1|] k3] G.
  - destruct G as (_ & F3 & _ & _). apply gives_bind. eapply gives_use; [apply same_kwrite|]. intros k4 S4.
    apply gives_bind. eapply gives_use; [apply same_kwrite|]. intros k5 S5%(same_trans _ _ _ S4). apply gives_ret.
    eapply finv_ext; [| |exact (FI_same _ _ _ _ S5 F3)]; [|done]. unfold two, plus, none. count_solve.
  - subst k3. apply gives_bind.
    eapply gives_use; [eapply (FI_set_ofile _ (two i j)); [exact F2|exact C2| |done|]|].
    + apply list_lookup_insert_eq. by eapply lookup_lt_Some.
    + unfold two, plus, none, is_file. count_solve.
    + intros k3 (F3 & _). by apply X.
Qed.

(** ** Processes *)

Lemma vview_Some k j p : procs (pt k) !! j = Some p -> vview k !! j = Some (live (state p), ofile p).
Proof. intros H. unfold vview. by rewrite list_lookup_fmap, H. Qed.

(** A change to an entry that is not alive and stays so. *)
Lemma tview_dead i f t o : tview t !! i = Some (false, o) ->
  (forall p, live (state p) = false -> proc_files (f p) = proc_files p) -> tview (updp i f t) = tview t.
Proof.
  intros H E. unfold tview in H. rewrite list_lookup_fmap in H. destruct (procs t !! i) as [p|] eqn:Hp; [|done].
  injection H as L O. rewrite (tview_updp _ _ _ _ Hp), E by done. apply list_insert_id. unfold tview. by rewrite list_lookup_fmap, Hp.
Qed.

Lemma tview_alloc_queue i t : gives (alloc_queue i t) (fun t' => tview t' = tview t /\ cur t' = cur t).
Proof.
  intros t' E. unfold alloc_queue, enqueue in E. do 2 bind_inv E. unfold mlfq_set in E1. unfold size_add in E.
  repeat bind_inv E1. injection E1 as <-. repeat bind_inv E. injection E as <-. split; [|done].
  change (tview (updp i (p_sched (Mq 3 (replicate NLAYER 0) (replicate NLAYER 0) 0 0)) t) = tview t).
  apply tview_same. by_fields.
Qed.

Lemma same_allocproc k : gives (allocproc trapret forkret k) (fun '(r, k') => same_files k k' /\
  match r with Some np => exists o, vview k !! np = Some (false, o) | None => True end).
Proof.
  unfold allocproc. destruct (list_find _ _) as [[i p]|] eqn:E; [|by apply gives_ret].
  apply list_find_Some in E as (Hp & Hs & _).
  pose proof (vview_Some _ _ _ Hp) as V. rewrite Hs in V. change (vview k) with (tview (pt k)) in V.
  cbv zeta. skip. intros [a m]. set (k1 := upd_pt (updp i (p_kstack a)) _).
  assert (S1 : tview (pt k1) = tview (pt k)).
  { unfold k1, upd_pt. cbn [pt set_pt set_km]. rewrite tview_same by by_fields.
    change (tview (set_nextpid ?n ?t)) with (tview t). eapply tview_dead; [exact V|]. intros q Hq. destruct q. simpl in *. unfold proc_files. simpl. by rewrite Hq. }
  case_match.
  - apply gives_ret. split; [|done]. split; [split; [|done]|done]. change (tview (updp i (p_state UNUSED) (pt k1)) = tview (pt k)).
    rewrite <- S1. eapply tview_dead; [by rewrite S1|]. intros q Hq. destruct q. simpl in *. unfold proc_files. simpl. by rewrite Hq.
  - apply gives_bind. eapply gives_use; [apply tview_alloc_queue|]. intros t [T C]. apply gives_ret.
    split; [|by exists (ofile p)]. split; [split|done]; [|exact C]. change (tview t = tview (pt k)). by rewrite T.
Qed.

Lemma counted_share_files k me np o q : counted k -> calling k me o -> vview k !! np = Some (false, q) ->
  gives (share_files me np k) (fun '(_, k') => counted k').
Proof.
  intros F [C V] Hn. pose proof (fi_tab _ _ _ _ F _ _ _ Hn) as [_ Hq]. specialize (Hq eq_refl). subst q.
  assert (Hne : me <> np) by (intros ->; congruence).
  apply vview_lookup in V as (p & Hp & L & O). apply vview_lookup in Hn as (qp & Hqp & Lq & Oq).
  pose proof (vview_Some _ _ _ Hp) as Hv. pose proof (vview_Some _ _ _ Hqp) as Hv'. rewrite L, O in Hv. rewrite Lq, Oq in Hv'.
  destruct (fi_tab _ _ _ _ F _ _ _ Hv) as [Ho _].
  destruct (dup_from me np p o [] k qp Hp Hqp Hne O) as (fs & E & Hfs).
  { rewrite Ho. exact Oq. }
  { intros i Hi. destruct (lookup_lt_is_Some_2 (rview k) i) as [[n t] R]; [exact (fi_rng _ _ _ _ F me true o i Hv Hi)|].
    pose proof (fi_cnt _ _ _ _ F _ _ _ R) as Cn. pose proof (descriptors_elem _ _ _ _ _ Hv Hi). pose proof (descriptors_bound _ _ _ _ i F).
    unfold rview in R. rewrite list_lookup_fmap in R. destruct (ftable k !! i) as [f|] eqn:Hf; [|done]. injection R as <- <-.
    exists f. unfold none in Cn. rewrite Ho. split; [done|]. unfold NOFILE. lia. }
  cbn [length] in E. rewrite Ho in E. unfold share_files, dup_files. rewrite E. cbn [mbind outcome_bind]. clear E.
  skip. intros p'. destruct (cwd p') as [c|]; [|apply gives_undef]. skip. intros s. cbv zeta. skip. intros q'. apply gives_ret.
  match goal with |- counted ?k' => set (k2 := k') end.
  assert (R2 : rview k2 = file_count <$> fs) by done.
  assert (V2 : vview k2 = <[np := (true, o)]> (vview k)).
  { unfold k2, upd_pt. change (vview (set_pt ?t ?k)) with (tview t). cbn [pt set_pt set_fsys set_ftable].
    rewrite tview_same by by_fields.
    rewrite (tview_updp _ _ _ (p_cwd (Some c) (p_ofile o qp))).
    - rewrite tview_same by by_fields. unfold tview. cbn [procs set_procs]. rewrite list_fmap_insert, list_insert_insert_eq.
      destruct qp. done.
    - rewrite lookup_updp, decide_True by done. cbn [procs set_procs]. rewrite list_lookup_insert_eq by (by eapply lookup_lt_Some). done. }
  unfold counted, FI. rewrite V2, R2. eapply finv_inherit; [exact F|exact Hv|exact Hv'|done|].
  intros i. rewrite list_lookup_fmap, Hfs. unfold rview. rewrite list_lookup_fmap. by destruct (ftable k !! i).
Qed.

(** An update of the table that keeps states and descriptors. *)
Lemma same_upd_pt i f k : (forall p, proc_files (f p) = proc_files p) -> same_files k (upd_pt (updp i f) k).
Proof. intros E. split; [split|]; [|done..]. exact (tview_same i f (pt k) E). Qed.

Lemma same_dead i f k o : vview k !! i = Some (false, o) ->
  (forall p, live (state p) = false -> proc_files (f p) = proc_files p) -> same_files k (upd_pt (updp i f) k).
Proof. intros H E. split; [split|]; [|done..]. exact (tview_dead i f (pt k) o H E). Qed.

Lemma calling_files k k' me o : same_files k k' -> calling k me o -> calling k' me o.
Proof. intros [S _]. by apply calling_same. Qed.

Lemma counted_fork k me o : counted k -> calling k me o ->
  gives (fork kend data trapret forkret k) (fun '(_, k') => counted k').
Proof.
  intros F C. apply gives_bind. eapply gives_use; [apply same_allocproc|]. intros [[np|] k1] [S1 G];
    [|apply gives_ret; by eapply FI_same]. destruct G as [q Hq].
  apply (calling_files _ _ _ _ S1) in C. apply (FI_same _ _ _ _ S1) in F. destruct S1 as [[E1 _] _]. rewrite <- E1 in Hq. clear k E1.
  apply gives_bind. eapply calling_curp; [exact C|]. intros p Hp L O. skip. intros [d m]. cbv zeta.
  set (k2 := upd_pt _ _). assert (S2 : same_files k1 k2) by (apply (same_upd_pt np (p_pgdir d) (set_km m k1)); by_fields).
  assert (Hq2 : vview k2 !! np = Some (false, q)) by (destruct S2 as [[-> _] _]; done). case_match.
  - skip. intros q'. skip. intros m'. apply gives_ret. eapply FI_same; [|exact F]. eapply same_trans; [exact S2|].
    apply (same_dead np _ (set_km m' k2) q); [done|]. intros r Hr. destruct r. simpl in *. unfold proc_files. simpl. by rewrite Hr.
  - set (k3 := upd_pt _ k2). assert (S3 : same_files k2 k3) by (apply same_upd_pt; by_fields). pose proof (same_trans _ _ _ S2 S3) as S.
    eapply counted_share_files; [by eapply FI_same|by eapply calling_files|]. destruct S as [[-> _] _]. done.
Qed.

Lemma counted_clone k me o fcn a1 a2 stack : counted k -> calling k me o ->
  gives (clone trapret forkret fcn a1 a2 stack k) (fun '(_, k') => counted k').
Proof.
  intros F C. apply gives_bind. eapply gives_use; [apply same_allocproc|]. intros [[np|] k1] [S1 G];
    [|apply gives_ret; by eapply FI_same]. destruct G as [q Hq].
  apply (calling_files _ _ _ _ S1) in C. apply (FI_same _ _ _ _ S1) in F. destruct S1 as [[E1 _] _]. rewrite <- E1 in Hq. clear k E1.
  apply gives_bind. eapply calling_curp; [exact C|]. intros p Hp L O. cbv zeta. set (k2 := upd_pt _ k1).
  assert (S2 : same_files k1 k2) by (apply same_upd_pt; by_fields). skip. intros a.
  eapply (counted_share_files _ me np o q); [exact (FI_same _ _ _ _ S2 F)|exact (calling_files _ _ _ _ S2 C)|].
  destruct S2 as [[<- _] _] in Hq. exact Hq.
Qed.

(** [exit] closes every descriptor. *)
Lemma iterM_seq {S} (f : nat -> S -> outcome S) (I : nat -> S -> Prop) n : forall a s,
  (forall x s, I x s -> gives (f x s) (I (x + 1)%nat)) -> I a s -> gives (iterM f (seq a n) s) (I (a + n)%nat).
Proof.
  induction n as [|n IH]; intros a s H Hs; simpl; [apply gives_ret; by rewrite Nat.add_0_r|].
  apply gives_bind. eapply gives_use; [by apply H|]. intros s' Hs'. rewrite <- Nat.add_succ_comm. apply IH; [done|].
  by rewrite <- Nat.add_1_r.
Qed.

Lemma counted_close_files k me o : counted k -> calling k me o ->
  gives (close_files nsect kend me k) (fun k' => counted k' /\ calling k' me (replicate NOFILE None)).
Proof.
  intros F C. set (I (fd : nat) k := counted k /\ exists o, calling k me o /\ forall j, (j < fd)%nat -> o !! j = Some None).
  eapply (gives_use _ (I NOFILE)).
  - apply (iterM_seq _ I NOFILE 0 k); [|split; [done|exists o; split; [done|lia]]]. clear k o F C.
    intros fd k [F (o & C & Ho)]. pose proof C as [C1 V]. apply gives_bind. apply vview_lookup in V as (p & Hp & L & O).
    rewrite (getp_Some _ _ _ Hp). apply gives_ret. rewrite O. apply gives_bind. intros x E. apply aget_Ret in E as [_ E]. rewrite Nat2Z.id in E.
    destruct x as [i|].
    + apply gives_bind. eapply gives_use; [eapply (FI_fileclose _ [] []); [exact F|done|done|right; left; apply not_elem_of_nil]|].
      intros k1 [F1 S1]. pose proof (calling_same _ _ _ _ S1 C) as C'.
      assert (G : gives (set_ofile fd None k1) (fun k' => I (fd + 1)%nat k')).
      { eapply gives_use; [eapply (FI_set_ofile _ none); [exact F1|exact C'|exact E|done|]|].
        - unfold plus, none, is_file. count_solve.
        - intros k2 (F2 & C2 & _). split; [done|]. eexists. split; [exact C2|]. intros j Hj. destruct (decide (fd = j)) as [<-|Hn].
          + apply list_lookup_insert_eq. by eapply lookup_lt_Some.
          + rewrite list_lookup_insert_ne by done. apply Ho. lia. }
      apply gives_ret. apply G. unfold set_ofile, curp. destruct C' as [-> V']. apply vview_lookup in V' as (p' & Hp' & _).
      by rewrite (getp_Some _ _ _ Hp').
    + apply gives_ret. split; [done|]. exists o. split; [done|]. intros j Hj. destruct (decide (fd = j)) as [<-|]; [done|]. apply Ho. lia.
  - intros k' [F' (o' & C' & Ho)]. split; [done|]. destruct (fi_tab _ _ _ _ F' _ _ _ (proj2 C')) as [Hl _].
    replace (replicate NOFILE None) with o'; [done|]. apply list_eq_same_length with (n := NOFILE); [by rewrite length_replicate|done|].
    intros j x y Hj Hx Hy. rewrite Ho in Hx by done. apply lookup_replicate_1 in Hy as [-> _]. congruence.
Qed.

Lemma tview_reparent me t : gives (reparent proc_addr me t) (fun t' => tview t' = tview t).
Proof.
  unfold reparent. intros t' E. revert E. apply (iterM_inv _ tview). clear t t'. intros j t t' E. bind_inv E.
  case_match; [|by injection E as <-]. injection E as <-. case_match; rewrite ?tview_wakeup; apply tview_same; by_fields.
Qed.

Lemma counted_exit k me o : counted k -> calling k me o -> gives (exit nsect kend proc_addr k) counted.
Proof.
  intros F C. apply gives_bind. eapply calling_curp; [exact C|]. intros p Hp L O. case_match; [apply gives_panic|].
  apply gives_bind. eapply gives_use; [by eapply counted_close_files|]. intros k1 [F1 [C1 V1]]. skip. intros p1.
  destruct (cwd p1) as [c|]; [|apply gives_undef]. skip. intros s. cbv zeta. apply gives_bind.
  eapply gives_use; [apply tview_reparent|]. intros t T. apply gives_ret.
  assert (T' : tview t = vview k1).
  { rewrite T. unfold upd_pt. cbn [pt set_pt set_fsys]. rewrite tview_wakeup. apply tview_same. by_fields. }
  unfold counted, FI. change (vview (set_pt ?t ?k)) with (tview t).
  assert (V : tview (updp me (p_state ZOMBIE) t) = <[me := (false, replicate NOFILE None)]> (vview k1)).
  { rewrite <- T' in *. unfold tview in V1. rewrite list_lookup_fmap in V1. destruct (procs t !! me) as [q|] eqn:Hq; [|done].
    injection V1 as _ O1. rewrite (tview_updp _ _ _ q) by done. f_equal. destruct q. simpl in *. by subst. }
  rewrite V. change (rview _) with (rview k1). by eapply finv_state.
Qed.

Lemma same_sleep c b k me o : calling k me o -> gives (sleep c b (pt k)) (fun t => same_files k (set_pt t k)).
Proof.
  intros [C V]. unfold sleep. rewrite C. case_match; [apply gives_panic|]. apply gives_ret. split; [split|]; [|done..].
  change (tview (updp me (fun p => p_state SLEEPING (p_chan c p)) (pt k)) = tview (pt k)).
  apply vview_lookup in V as (p & Hp & L & O). rewrite (tview_updp _ _ _ _ Hp). apply list_insert_id.
  unfold tview. rewrite list_lookup_fmap, Hp. destruct p. simpl in *. unfold proc_files. simpl. by rewrite L.
Qed.

Lemma zombie_dead k j q : procs (pt k) !! j = Some q -> state q = ZOMBIE -> vview k !! j = Some (false, ofile q).
Proof. intros H Hs. rewrite (vview_Some _ _ _ H), Hs. done. Qed.

Lemma reaped_dead p : live (state p) = false -> proc_files (reaped p) = proc_files p.
Proof. destruct p. unfold proc_files. simpl. by intros ->. Qed.

Lemma same_wait k me o : calling k me o -> gives (wait kend proc_addr k) (fun '(_, k') => same_files k k').
Proof.
  intros C. apply gives_bind. eapply calling_curp; [exact C|]. intros p Hp L O.
  destruct (list_find _ _) as [[j q]|] eqn:E.
  - apply list_find_Some in E as (Hq & [_ Hz] & _). pose proof (zombie_dead _ _ _ Hq Hz) as V. skip. intros m. cbv zeta. skip. intros m'.
    apply gives_ret. set (k1 := upd_pt _ (set_km m k)). assert (S1 : same_files k k1) by (apply (same_upd_pt j (p_kstack 0) (set_km m k)); by_fields).
    eapply same_trans; [exact S1|]. apply (same_dead j reaped (set_km m' k1) (ofile q)); [|apply reaped_dead].
    destruct S1 as [[E _] _]. rewrite <- E in V. exact V.
  - case_match; [by apply gives_ret|]. apply gives_bind. eapply gives_use; [by eapply same_sleep|]. intros t St. by apply gives_ret.
Qed.

Lemma same_join k me o stack : calling k me o -> gives (join kend proc_addr stack k) (fun '(_, k') => same_files k k').
Proof.
  intros C. apply gives_bind. eapply calling_curp; [exact C|]. intros p Hp L O.
  destruct (list_find _ _) as [[j q]|] eqn:E.
  - apply list_find_Some in E as (Hq & [_ Hz] & _). pose proof (zombie_dead _ _ _ Hq Hz) as V. case_match; [apply gives_panic|].
    skip. intros m. skip. intros m'. apply gives_ret.
    apply (same_dead j _ (set_km m' k) (ofile q)); [exact V|]. intros r Hr. destruct r. simpl in *. unfold proc_files. simpl. by rewrite Hr.
  - case_match; [skip; intros m; by apply gives_ret|]. apply gives_bind. eapply gives_use; [by eapply same_sleep|].
    intros t St. by apply gives_ret.
Qed.

Lemma counted_userinit st n k : pt k = ptable_boot -> ftable k = replicate NFILE file_zero ->
  gives (userinit nsect data trapret forkret st n k) counted.
Proof.
  intros P T. assert (V0 : vview k = replicate NPROC (false, replicate NOFILE None)) by (unfold vview; by rewrite P).
  assert (R0 : rview k = replicate NFILE (0, false)) by (unfold rview; by rewrite T).
  assert (F : counted k).
  { unfold counted, FI. rewrite V0, R0. split; [done|..].
    - intros j a o H. by apply lookup_replicate_1 in H as [[= -> ->] _].
    - intros j a o i H Hi. apply lookup_replicate_1 in H as [[= -> ->] _].
      by apply (proj1 (elem_of_replicate NOFILE None (Some i))) in Hi as [? _].
    - intros i m t H. apply lookup_replicate_1 in H as [[= -> ->] _]. unfold none. rewrite Z.add_0_r. by vm_compute.
    - intros i m t H. by apply lookup_replicate_1 in H as [[= -> ->] _]. }
  apply gives_bind. eapply gives_use; [apply same_allocproc|]. intros [[i|] k1] [S1 G]; [|apply gives_undef].
  destruct G as [o Ho]. cbv zeta. skip. intros [d m]. case_match; [apply gives_panic|]. skip. intros m'. skip. intros [ip s]. apply gives_ret.
  assert (F1 : counted k1) by (by eapply FI_same). destruct S1 as [[E1 _] _]. rewrite <- E1 in Ho. clear E1.
  unfold counted, FI. change (rview _) with (rview k1).
  match goal with |- finv _ _ (vview ?k') _ => assert (V : vview k' = <[i := (true, o)]> (vview k1)) end; [|rewrite V; by eapply finv_state].
  apply vview_lookup in Ho as (q & Hq & _ & Oq). unfold upd_pt. change (vview (set_pt ?t ?k)) with (tview t). cbn [pt set_pt set_fsys set_km].
  erewrite tview_updp; [|rewrite lookup_updp, decide_True by done; change (procs (set_initproc ?x ?t)) with (procs t); by rewrite Hq].
  rewrite tview_same by by_fields. f_equal. destruct q. simpl in *. by subst.
Qed.

(** ** Runs *)

(** A live process makes a system call; between calls anything happens that
    keeps states and descriptors (scheduling, interrupts, other calls). *)
Inductive freach : kernel D -> Prop :=
| fr_boot st n k k' : pt k = ptable_boot -> ftable k = replicate NFILE file_zero ->
    userinit nsect data trapret forkret st n k = Ret k' -> freach k'
| fr_open k me o r k' : freach k -> calling k me o -> sys_open nsect kend dev_read dev_write k = Ret (r, k') -> freach k'
| fr_pipe k me o r k' : freach k -> calling k me o -> sys_pipe nsect kend k = Ret (r, k') -> freach k'
| fr_dup k me o r k' : freach k -> calling k me o -> sys_dup k = Ret (r, k') -> freach k'
| fr_close k me o r k' : freach k -> calling k me o -> sys_close nsect kend k = Ret (r, k') -> freach k'
| fr_read k r k' : freach k -> sys_read nsect dev_read k = Ret (r, k') -> freach k'
| fr_write k r k' : freach k -> sys_write nsect dev_write k = Ret (r, k') -> freach k'
| fr_fstat k r k' : freach k -> sys_fstat nsect k = Ret (r, k') -> freach k'
| fr_chdir k r k' : freach k -> sys_chdir nsect k = Ret (r, k') -> freach k'
| fr_link k r k' : freach k -> sys_link nsect dev_read dev_write k = Ret (r, k') -> freach k'
| fr_unlink k r k' : freach k -> sys_unlink nsect dev_read dev_write k = Ret (r, k') -> freach k'
| fr_mkdir k r k' : freach k -> sys_mkdir nsect dev_read dev_write k = Ret (r, k') -> freach k'
| fr_mknod k r k' : freach k -> sys_mknod nsect dev_read dev_write k = Ret (r, k') -> freach k'
| fr_fork k me o r k' : freach k -> calling k me o -> fork kend data trapret forkret k = Ret (r, k') -> freach k'
| fr_clone k me o fcn a1 a2 stack r k' : freach k -> calling k me o ->
    clone trapret forkret fcn a1 a2 stack k = Ret (r, k') -> freach k'
| fr_exit k me o k' : freach k -> calling k me o -> exit nsect kend proc_addr k = Ret k' -> freach k'
| fr_wait k me o r k' : freach k -> calling k me o -> wait kend proc_addr k = Ret (r, k') -> freach k'
| fr_join k me o stack r k' : freach k -> calling k me o -> join kend proc_addr stack k = Ret (r, k') -> freach k'
| fr_other k k' : freach k -> vview k' = vview k -> rview k' = rview k -> freach k'.

Lemma freach_counted k : freach k -> counted k.
Proof.
  induction 1 as [st n k k' P T E|k me o r k' _ F C E|k me o r k' _ F C E|k me o r k' _ F C E|k me o r k' _ F C E
    |k r k' _ F E|k r k' _ F E|k r k' _ F E|k r k' _ F E|k r k' _ F E|k r k' _ F E|k r k' _ F E|k r k' _ F E
    |k me o r k' _ F C E|k me o fcn a1 a2 stack r k' _ F C E|k me o k' _ F C E|k me o r k' _ F C E|k me o stack r k' _ F C E|k k' _ F V R].
  - exact (counted_userinit _ _ _ P T _ E).
  - exact (counted_open _ _ _ F C _ E).
  - exact (counted_pipe _ _ _ F C _ E).
  - exact (counted_dup _ _ _ F C _ E).
  - exact (counted_close _ _ _ F C _ E).
  - exact (FI_same _ _ _ _ (same_read _ _ E) F).
  - exact (FI_same _ _ _ _ (same_write _ _ E) F).
  - exact (FI_same _ _ _ _ (same_fstat _ _ E) F).
  - exact (FI_same _ _ _ _ (same_chdir _ _ E) F).
  - exact (FI_same _ _ _ _ (same_link _ _ E) F).
  - exact (FI_same _ _ _ _ (same_on_path _ _ _ _ E) F).
  - exact (FI_same _ _ _ _ (same_on_path _ _ _ _ E) F).
  - exact (FI_same _ _ _ _ (same_mknod _ _ E) F).
  - exact (counted_fork _ _ _ F C _ E).
  - exact (counted_clone _ _ _ _ _ _ _ F C _ E).
  - exact (counted_exit _ _ _ F C _ E).
  - exact (FI_same _ _ _ _ (same_wait _ _ _ C _ E) F).
  - exact (FI_same _ _ _ _ (same_join _ _ _ _ C _ E) F).
  - unfold counted, FI. by rewrite V, R.
Qed.

End FileRefs.

(** The number of descriptors of all processes that name file [i]. *)
Definition uses {D} (k : kernel D) (i : nat) : Z := refs (concat (ofile <$> procs (pt k))) i.

Lemma uses_descriptors {D} (k : kernel D) i : uses k i = refs (descriptors (vview k)) i.
Proof. unfold uses, descriptors, vview. by rewrite <- list_fmap_compose. Qed.

(** C4. Open files are counted: in every run of the system calls the count of
    an entry of the file table is the number of descriptors of all processes
    that name it, at most 1024; an entry is free exactly when its type is
    [FD_NONE].  A descriptor of any process names an open file, so duplicating
    it returns and [fileclose] on it does not panic, and only live processes
    have descriptors. *)
Theorem files_counted {D} nsect kend data trapret forkret proc_addr dev_read dev_write (k : kernel D) :
  freach nsect kend data trapret forkret proc_addr dev_read dev_write k ->
  (forall i f, ftable k !! i = Some f ->
     fref f = uses k i /\ 0 <= fref f <= 1024 /\ (fref f = 0 <-> ftype f = FD_NONE)) /\
  (forall j p fd i, procs (pt k) !! j = Some p -> ofile p !! fd = Some (Some i) ->
     alive p /\ exists f, ftable k !! i = Some f /\ ftype f <> FD_NONE /\
       filedup i k = Ret (setf i (f_ref (fref f + 1) f) k) /\ 1 <= fref f).
Proof.
  intros R%freach_counted. assert (A : forall i f, ftable k !! i = Some f ->
     fref f = uses k i /\ 0 <= fref f <= 1024 /\ (fref f = 0 <-> ftype f = FD_NONE)).
  { intros i f Hf. pose proof (rview_lookup _ _ _ Hf) as Hr. pose proof (fi_cnt _ _ _ _ R _ _ _ Hr) as C. unfold none in C.
    rewrite <- uses_descriptors in C. pose proof (descriptors_bound _ _ _ _ i R) as B. rewrite <- uses_descriptors in B.
    split; [lia|]. split; [lia|]. rewrite (fi_typ _ _ _ _ R _ _ _ Hr) by apply not_elem_of_nil.
    rewrite bool_decide_eq_false. destruct (decide (ftype f = FD_NONE)); tauto. }
  split; [exact A|]. intros j p fd i Hp Hi. pose proof (vview_Some _ _ _ Hp) as V.
  assert (Hin : Some i ∈ ofile p) by (by eapply list_elem_of_lookup_2). split.
  - destruct (fi_tab _ _ _ _ R _ _ _ V) as [_ H]. unfold alive, live in *. destruct (class_of (state p)); try done;
      rewrite H in Hin by done; by apply elem_of_replicate in Hin as [? _].
  - pose proof (fi_rng _ _ _ _ R _ _ _ _ V Hin) as L. unfold rview in L. rewrite length_fmap in L.
    apply lookup_lt_is_Some_2 in L as [f Hf]. exists f. destruct (A _ _ Hf) as (C & B & T).
    pose proof (descriptors_elem _ _ _ _ _ V Hin) as H1. rewrite <- uses_descriptors in H1.
    split; [done|]. split; [rewrite <- T; lia|]. split; [apply filedup_returns; (done || lia)|lia].
Qed.

(** The first process opens a pipe and duplicates its write end. *)
Definition demo_files : vtab := (true, replicate NOFILE None) :: replicate 63 (false, replicate NOFILE None).
Definition demo_first : kernel unit :=
  Kernel (Ptable (Proc 4096 demo_dir 0 RUNNING 1 None tf_zero 0 0 (replicate NOFILE None) (Some 0%nat) [] 0 mq_zero ::
      replicate 63 proc_zero) 2 (Some 0%nat) [] [] (Some 0%nat))
    demo_vm (FS ∅ (replicate NINODE inode_zero) tt) (replicate NFILE file_zero) ∅.

Lemma demo_init_view : exists k, userinit 64 0x110000 0x101000 0x102000 0x100100 44 demo_kernel = Ret k /\
  bool_decide (vview k = demo_files /\ rview k = replicate NFILE (0, false)) = true.
Proof. apply ends_in_true. vm_compute. reflexivity. Qed.

Lemma demo_pipe_dup : exists a, (x ← sys_pipe 64 0x110000 demo_first; y ← sys_dup x.2; Ret (x, y)) = Ret a /\
  bool_decide (a.1.1 = 0 /\ a.2.1 = 2 /\ cur (pt (a.1.2)) = Some 0%nat /\
    vview (a.1.2) !! 0%nat = Some (true, Some 0%nat :: Some 1%nat :: replicate 14 None)) = true.
Proof. apply ends_in_true. vm_compute. reflexivity. Qed.

Lemma files_counted_witness : exists k : kernel unit,
  freach 64 0x110000 0x110000 0x101000 0x102000 (fun _ => 0) (fun _ => None) (fun _ => None) k /\
  forall f, ftable k !! 1%nat = Some f -> fref f = uses k 1%nat.
Proof.
  destruct demo_init_view as (k0 & E0 & B0). apply bool_decide_eq_true in B0 as [V0 R0].
  destruct demo_pipe_dup as ([[r1 k1] [r2 k2]] & E & B). apply bool_decide_eq_true in B as (_ & _ & C1 & V1). cbn [fst snd] in *.
  bind_inv E. bind_inv E. injection E as -> ->. cbn [snd] in E2. exists k2.
  assert (F0 : freach 64 0x110000 0x110000 0x101000 0x102000 (fun _ => 0) (fun _ => None) (fun _ => None) demo_first).
  { eapply (fr_other _ _ _ _ _ _ _ _ k0); [eapply fr_boot; [| |exact E0]; reflexivity|by rewrite V0|by rewrite R0]. }
  assert (F1 : freach 64 0x110000 0x110000 0x101000 0x102000 (fun _ => 0) (fun _ => None) (fun _ => None) k1).
  { eapply fr_pipe; [exact F0| |exact E1]. split; reflexivity. }
  assert (F2 : freach 64 0x110000 0x110000 0x101000 0x102000 (fun _ => 0) (fun _ => None) (fun _ => None) k2).
  { eapply fr_dup; [exact F1| |exact E2]. split; [exact C1|exact V1]. }
  split; [exact F2|]. intros f Hf. apply (files_counted _ _ _ _ _ _ _ _ k2 F2). exact Hf.
Defined.
