(* ===== verification/Exec.v ===== *)
(** * Running programs (kernel/exec.c, kernel/elf.h, [sys_exec])

    [exec] builds a new page directory from an ELF file, pushes the arguments
    on a one-page stack and, when nothing failed, commits the process to it.

    Theorems: what [main] finds on its stack, and two ways in which a program
    or its arguments reach memory outside their place. *)

From S2P Require Import Prelude Rand Memory Kalloc Vm VmMap Proc Pipe Fs FsData File Syscall ProcOps SysFile.

Definition MAXARG : nat := 32.
Definition ELF_MAGIC : Z := 0x464C457F.
Definition ELF_PROG_LOAD : Z := 1.

(** A little-endian field of a structure that was read from a file. *)
Definition field (bs : list Z) (o n : nat) : outcome Z :=
  if decide (o + n <= length bs)%nat then Ret (word (take n (drop o bs))) else Undef "uninitialised".

(** [struct elfhdr] and [struct proghdr]: the fields that [exec] uses. *)
Definition SIZEOF_ELFHDR : Z := 52.
Definition elf_magic bs := field bs 0 4.
Definition elf_entry bs := field bs 24 4.
Definition elf_phoff bs := field bs 28 4.
Definition elf_phnum bs := field bs 44 2.
Definition SIZEOF_PROGHDR : Z := 32.
Definition ph_type bs := field bs 0 4.
Definition ph_offset bs := field bs 4 4.
Definition ph_va bs := field bs 8 4.
Definition ph_filesz bs := field bs 16 4.
Definition ph_memsz bs := field bs 20 4.

Section Exec.
Context {D : Type} (nsect kend data : Z).
Context (dev_read : Z -> option (Z -> D -> outcome (Z * list Z * D))).

Abbreviation kernel := (kernel D).
Abbreviation fs := (fs D).

(** ** Loading the segments *)

(** [readi] into the page at [pa]. *)
Definition seg_read (i : nat) : read_fun fs := fun pa off n '(m, s) =>
  '(r, bs, s) ← readi nsect dev_read i off n s;
  Ret (r, (set_mem (wr_bytes (mem m) pa bs) m, s)).

(** The loop over [n] program headers; [None] is the jump to [bad]. *)
Fixpoint load_segments (n : nat) (i : nat) (pgdir off sz : Z) (m : kst) (s : fs)
  : outcome (option Z * (kst * fs)) :=
  match n with
  | O => Ret (Some sz, (m, s))
  | S n =>
    '(r, ph, s) ← readi nsect dev_read i (u32 off) SIZEOF_PROGHDR s;
    if negb (r =? SIZEOF_PROGHDR) then Ret (None, (m, s))
    else
      type ← ph_type ph; memsz ← ph_memsz ph; filesz ← ph_filesz ph; va ← ph_va ph; offset ← ph_offset ph;
      if negb (type =? ELF_PROG_LOAD) then load_segments n i pgdir (i32 (off + SIZEOF_PROGHDR)) sz m s
      else if memsz <? filesz then Ret (None, (m, s))
      else
        '(r, m) ← allocuvm kend pgdir sz (u32 (va + memsz)) m;
        let sz := u32 r in
        if sz =? 0 then Ret (None, (m, s))
        else
          '(r, (m, s)) ← loaduvm (seg_read i) pgdir va offset filesz m s;
          if r <? 0 then Ret (None, (m, s))
          else load_segments n i pgdir (i32 (off + SIZEOF_PROGHDR)) sz m s
  end.

(** ** The stack *)

(** [copyout] of bytes that are not in the model's memory (the caller's
    memory, the kernel stack). *)
Fixpoint copyout_bytes (fuel : nat) (pgdir va : Z) (bs : list Z) (s : kst) : outcome (Z * kst) :=
  match fuel with
  | O => Undef "loop bound"
  | S fuel =>
    match bs with
    | [] => Ret (0, s)
    | _ :: _ =>
      let va0 := PGROUNDDOWN va in
      pa0 ← uva2ka pgdir va0 s;
      if pa0 =? 0 then Ret (-1, s)
      else
        let n := u32 (PGSIZE - (va - va0)) in
        let n := if Z.of_nat (length bs) <? n then Z.of_nat (length bs) else n in
        let s := set_mem (wr_bytes (mem s) (pa0 + (va - va0)) (take (Z.to_nat n) bs)) s in
        copyout_bytes fuel pgdir (u32 (va0 + PGSIZE)) (drop (Z.to_nat n) bs) s
    end
  end.
Definition copyout_list (pgdir va : Z) (bs : list Z) (s : kst) : outcome (Z * kst) :=
  copyout_bytes (length bs / Z.to_nat PGSIZE + 3) pgdir va bs s.

(** Push argument strings; the last stack pointer and the addresses. *)
Fixpoint push_args (pgdir : Z) (argc : nat) (argv : list (list Z)) (sp : Z) (ptrs : list Z) (s : kst)
  : outcome (option (Z * list Z) * kst) :=
  match argv with
  | [] => Ret (Some (sp, ptrs), s)
  | a :: argv =>
    if (MAXARG <=? argc)%nat then Ret (None, s)
    else
      let sp := u32 (sp - (Z.of_nat (length a) + 1)) in
      let sp := u32 (Z.land sp (Z.lnot 3)) in
      '(r, s) ← copyout_list pgdir sp (a ++ [0]) s;
      if r <? 0 then Ret (None, s)
      else push_args pgdir (S argc) argv sp (ptrs ++ [sp]) s
  end.

(** [ustack]: the words below the strings. *)
Definition frame_words (sp : Z) (ptrs : list Z) : list Z :=
  let argc := Z.of_nat (length ptrs) in
  [0xffffffff; argc; u32 (sp - (argc + 1) * 4)] ++ ptrs ++ [0].

(** The stack pointer of the new program, or [None] for [bad]. *)
Definition build_stack (pgdir sz : Z) (argv : list (list Z)) (s : kst) : outcome (option Z * kst) :=
  '(r, s) ← push_args pgdir 0 argv sz [] s;
  match r with
  | None => Ret (None, s)
  | Some (sp, ptrs) =>
    let ws := frame_words sp ptrs in
    let sp := u32 (sp - 4 * Z.of_nat (length ws)) in
    '(r, s) ← copyout_list pgdir sp (ws ≫= bytes32) s;
    Ret (if r <? 0 then None else Some sp, s)
  end.

(** ** [exec] *)

(** The name of the program: what follows the last slash. *)
Fixpoint last_elem (last path : list Z) : list Z :=
  match path with
  | [] => last
  | c :: path => last_elem (if c =? SLASH then path else last) path
  end.

Definition bad (pgdir : Z) (ip : option nat) (k : kernel) : outcome (Z * kernel) :=
  k ← (if pgdir =? 0 then Ret k else m ← freevm kend pgdir (km k); Ret (set_km m k));
  k ← match ip with
      | None => Ret k
      | Some i => s ← iunlockput nsect i (fsys k); Ret (set_fsys s k)
      end;
  Ret (-1, k).

(** From the commit to the new image on. *)
Definition commit (path : list Z) (pgdir sz entry sp : Z) (k : kernel) : outcome (Z * kernel) :=
  '(me, p) ← curp (pt k);
  let oldpgdir := Proc.pgdir p in
  let k := upd_pt (updp me (fun p =>
    p_tf (tf_set_esp sp (tf_set_eip entry (tf p))) (p_sz sz (p_pgdir pgdir
      (p_name (overlay (safestrcpy (at_list (last_elem path path)) 16) (name p)) p))))) k in
  if pgdir =? 0 then Panic "switchuvm: no pgdir"
  else m ← freevm kend oldpgdir (km k); Ret (0, set_km m k).

Definition exec (path : list Z) (argv : list (list Z)) (k : kernel) : outcome (Z * kernel) :=
  c ← my_cwd k;
  '(r, s) ← namei nsect path c (fsys k);
  match r with
  | None => Ret (-1, set_fsys s k)
  | Some i =>
    s ← ilock nsect i s;
    '(r, elf, s) ← readi nsect dev_read i 0 SIZEOF_ELFHDR s;
    let k := set_fsys s k in
    if u32 r <? SIZEOF_ELFHDR then bad 0 (Some i) k
    else
      magic ← elf_magic elf;
      if negb (magic =? ELF_MAGIC) then bad 0 (Some i) k
      else
        entry ← elf_entry elf; phoff ← elf_phoff elf; phnum ← elf_phnum elf;
        '(pgdir, m) ← setupkvm data (km k);
        let k := set_km m k in
        if pgdir =? 0 then bad 0 (Some i) k
        else
          '(r, (m, s)) ← load_segments (Z.to_nat phnum) i pgdir (i32 phoff) 0 (km k) (fsys k);
          let k := set_fsys s (set_km m k) in
          match r with
          | None => bad pgdir (Some i) k
          | Some sz =>
            s ← iunlockput nsect i (fsys k);
            let k := set_fsys s k in
            let sz := PGROUNDUP sz in
            '(r, m) ← allocuvm kend pgdir sz (u32 (sz + PGSIZE)) (km k);
            let k := set_km m k in
            let sz := u32 r in
            if sz =? 0 then bad pgdir None k
            else
              '(r, m) ← build_stack pgdir sz argv (km k);
              let k := set_km m k in
              match r with
              | None => bad pgdir None k
              | Some sp => commit path pgdir sz entry sp k
              end
          end
  end.

(** ** [sys_exec] *)

(** The strings of [argv], or [None] for the return value -1. *)
Fixpoint fetch_argv (n : nat) (uargv : Z) (k : kernel) : outcome (option (list (list Z))) :=
  match n with
  | O => Ret None
  | S n =>
    r ← karg (fun d sz _ => fetchint d sz uargv) k;
    match r with
    | None => Ret None
    | Some uarg =>
      if uarg =? 0 then Ret (Some [])
      else
        l ← karg (fun d sz _ => fetchstr d sz (u32 uarg)) k;
        match l with
        | None => Ret None
        | Some len =>
          a ← karg (fun d _ _ => uread d (Z.to_nat len) (u32 uarg)) k;
          rest ← fetch_argv n (u32 (uargv + 4)) k;
          Ret (match rest with Some r => Some (a :: r) | None => None end)
        end
    end
  end.

Definition sys_exec (k : kernel) : outcome (Z * kernel) :=
  path ← kargstr 0 k;
  match path with
  | None => Ret (-1, k)
  | Some path =>
    uargv ← kargint 1 k;
    match uargv with
    | None => Ret (-1, k)
    | Some uargv =>
      argv ← fetch_argv MAXARG (u32 uargv) k;
      match argv with
      | None => Ret (-1, k)
      | Some argv => exec path argv k
      end
    end
  end.

End Exec.

(** ** What [main] finds on its stack *)

(** The page of the process at [base], in the frame [f]. *)
Record user_page (kend : Z) (fl : list Z) (d base f : Z) (s : kst) : Prop := {
  up_wf : wfdir kend fl (mem s) d;
  up_base : 0 <= base /\ base + PGSIZE <= USERTOP /\ base mod PGSIZE = 0;
  up_flags : has (pte_val (mem s) d base) PTE_P = true /\ has (pte_val (mem s) d base) PTE_U = true;
  up_frame : PTE_ADDR (pte_val (mem s) d base) = f /\ f mod PGSIZE = 0 /\ f <> 0;
  up_apart : f ∉ pt_pages (mem s) d
}.

Section Stack.
Context {kend : Z} {fl : list Z} {d base f : Z}.

Abbreviation upage := (user_page kend fl d base f).

Lemma upage_write s m : upage s -> same_outside [f] (mem s) m -> upage (set_mem m s).
Proof.
  intros [W B F [Fr [Fa F0]] A] S. assert (is_u32 base) by (unfold is_u32, USERTOP, PGSIZE in *; lia).
  assert (G : pt_agree (mem s) m d).
  { eapply pt_agree_outside; [exact S|exact W|by apply Forall_singleton|].
    intros p Hp ->%list_elem_of_singleton. done. }
  split; cbn [mem set_mem]; rewrite ?(pt_agree_val _ _ _ _ G) by done; try done.
  - eapply pdes_wf; [by apply pt_agree_pdes|done|done].
  - by rewrite (pdes_pages (mem s)) by (by apply pt_agree_pdes).
Qed.

(** The walk to an address of the page. *)
Lemma upage_walk s va : upage s -> base <= va < base + PGSIZE ->
  exists a, walkpgdir d va false s = Ret (a, s) /\ a <> 0 /\ load32 (mem s) a = pte_val (mem s) d base.
Proof.
  intros [W B [P U] _ _] Hv. assert (H1 : is_u32 base) by (unfold is_u32, USERTOP, PGSIZE in *; lia).
  assert (H2 : is_u32 va) by (unfold is_u32, USERTOP, PGSIZE in *; lia).
  assert (E : va / PGSIZE = base / PGSIZE) by (unfold PGSIZE in *; dm).
  assert (EP : PDX va = PDX base) by (by rewrite !PDX_div, E by done).
  assert (ET : PTX va = PTX base) by (by rewrite !PTX_div, E by done).
  unfold pte_val, pte_slot in *. unfold walkpgdir. rewrite EP, ET. fold (pde (mem s) d (PDX base)).
  destruct (has (pde (mem s) d (PDX base)) PTE_P) eqn:Ep; [|done].
  exists (tab (mem s) d (PDX base) + 4 * PTX base). split; [done|]. split; [|done].
  destruct (wf_tab_good _ _ _ _ _ W (PDX_range base H1) Ep) as [(_ & ? & _) _]. pose proof (PTX_range base H1). lia.
Qed.

Lemma upage_ka s : upage s -> uva2ka d base s = Ret f.
Proof.
  intros H. destruct (upage_walk s base H) as (a & E & Ha & L); [unfold PGSIZE; lia|]. destruct H as [_ _ [P U] [F _] _].
  unfold uva2ka. rewrite E. cbn [mbind outcome_bind]. rewrite (proj2 (Z.eqb_neq a 0)) by done. by rewrite L, P, U, F.
Qed.

Lemma upage_translate s va : upage s -> base <= va < base + PGSIZE -> translate d va s = Ret (f + (va - base)).
Proof.
  intros H Hv. destruct (upage_walk s va H Hv) as (a & E & Ha & L). destruct H as [_ B [P U] [F _] _].
  unfold translate. rewrite E. cbn [mbind outcome_bind]. rewrite (proj2 (Z.eqb_neq a 0)) by done. rewrite L, P, F.
  simpl. do 2 f_equal. unfold PGSIZE in *. dm.
Qed.

Lemma upage_uread n va s : upage s -> base <= va -> va + Z.of_nat n <= base + PGSIZE ->
  uread d n va s = Ret (bytes_at (mem s) (f + (va - base)) (Z.of_nat n)).
Proof.
  intros H. revert va. induction n as [|n IH]; intros va H1 H2; [done|]. cbn [uread]. unfold uload8.
  rewrite (upage_translate s va H) by lia. cbn [mbind outcome_bind].
  rewrite u32_small by (destruct (up_base _ _ _ _ _ _ H); unfold is_u32, USERTOP, PGSIZE in *; lia).
  rewrite IH by lia. cbn [mbind outcome_bind]. f_equal. unfold bytes_at.
  replace (Z.of_nat (S n)) with (1 + Z.of_nat n) by lia. rewrite seqZ_app by lia. rewrite fmap_app. simpl. rewrite Z.add_0_r.
  f_equal. rewrite <- (fmap_add_seqZ 1 0), <- list_fmap_compose. apply list_fmap_ext. intros i j _. unfold compose. f_equal. lia.
Qed.

(** Reading back bytes that were written. *)
Lemma bytes_at_wr m a l : Forall is_u8 l -> bytes_at (wr_bytes m a l) a (Z.of_nat (length l)) = l.
Proof.
  intros H. apply list_eq_same_length with (n := length l); [done|by unfold bytes_at; rewrite length_fmap, length_seqZ; lia|].
  intros i x y Hi Hx Hy. unfold bytes_at in Hx. rewrite list_lookup_fmap, lookup_seqZ_lt in Hx by lia. simpl in Hx. injection Hx as <-.
  rewrite rd8_wr_bytes by done. rewrite decide_True by lia. replace (Z.to_nat _) with i by lia. by apply nth_lookup_Some.
Qed.

Lemma bytes_at_ext m m' a n : (forall x, a <= x < a + n -> rd8 m' x = rd8 m x) -> bytes_at m' a n = bytes_at m a n.
Proof. intros H. apply list_fmap_ext. intros i x Hx. apply lookup_seqZ in Hx as [-> Hx]. apply H. lia. Qed.

Lemma copyout_page va bs s : upage s -> Forall is_u8 bs -> base <= va -> va + Z.of_nat (length bs) <= base + PGSIZE ->
  exists s', copyout_list d va bs s = Ret (0, s') /\ upage s' /\ mem s' = wr_bytes (mem s) (f + (va - base)) bs /\
    same_outside [f] (mem s) (mem s').
Proof.
  intros H Hb H1 H2. unfold copyout_list. replace (length bs / Z.to_nat PGSIZE + 3)%nat with (S (S (S (length bs / Z.to_nat PGSIZE)))) by lia.
  cbn [copyout_bytes]. destruct bs as [|b bs]; [by exists s|]. set (l := b :: bs) in *.
  pose proof (up_base _ _ _ _ _ _ H) as (B1 & B2 & B3).
  replace (PGROUNDDOWN va) with base by (rewrite PGROUNDDOWN_div by (unfold is_u32, USERTOP, PGSIZE in *; lia); unfold PGSIZE in *; subst l; simpl in *; dm).
  rewrite (upage_ka s H). cbn [mbind outcome_bind]. destruct (up_frame _ _ _ _ _ _ H) as (_ & _ & F0).
  rewrite (proj2 (Z.eqb_neq f 0)) by done. rewrite u32_small by (unfold is_u32, PGSIZE in *; subst l; simpl in *; lia).
  assert (E : (if Z.of_nat (length l) <? PGSIZE - (va - base) then Z.of_nat (length l) else PGSIZE - (va - base)) = Z.of_nat (length l))
    by (destruct (Z.ltb_spec (Z.of_nat (length l)) (PGSIZE - (va - base))); lia).
  rewrite E, Nat2Z.id, take_ge, drop_ge by lia.
  assert (S : same_outside [f] (mem s) (wr_bytes (mem s) (f + (va - base)) l)).
  { intros x Hx. rewrite rd8_wr_bytes by done. rewrite decide_False; [done|]. intros Hy. apply (Hx f); [left|]. unfold in_page. lia. }
  eexists. split; [reflexivity|]. split; [by apply upage_write|]. done.
Qed.

(** Bytes that a string takes on the stack. *)
Definition padded (a : list Z) : Z := 4 * ((Z.of_nat (length a) + 4) / 4).
Definition need (argv : list (list Z)) : Z := foldr (fun a n => padded a + n) 0 argv.

Lemma need_nonneg argv : 0 <= need argv.
Proof. induction argv as [|a argv IH]; simpl; [lia|]. unfold padded. dm. Qed.

Lemma land_lnot3 x : is_u32 x -> u32 (Z.land x (Z.lnot 3)) = 4 * (x / 4).
Proof.
  intros H. rewrite <- Z.ldiff_land. change 3 with (Z.ones 2). rewrite Z.ldiff_ones_r, Z.shiftl_mul_pow2, Z.shiftr_div_pow2 by lia.
  change (2 ^ 2) with 4. rewrite u32_small; [lia|]. unfold is_u32 in *. dm.
Qed.

(** The address of a string below [sp]. *)
Lemma string_address a sp : sp mod 4 = 0 -> padded a <= sp -> sp <= USERTOP ->
  u32 (Z.land (u32 (sp - (Z.of_nat (length a) + 1))) (Z.lnot 3)) = sp - padded a.
Proof.
  intros H1 H2 H3. rewrite land_lnot3 by apply u32_range.
  rewrite u32_small by (unfold is_u32, padded, USERTOP in *; dm). unfold padded in *. dm.
Qed.

Lemma push_args_spec argv : forall argc sp ptrs s,
  upage s -> sp mod 4 = 0 -> base + need argv <= sp <= base + PGSIZE -> (argc + length argv <= MAXARG)%nat ->
  Forall (Forall is_u8) argv ->
  exists s' new, push_args d argc argv sp ptrs s = Ret (Some (sp - need argv, ptrs ++ new), s') /\ upage s' /\
    length new = length argv /\ same_outside [f] (mem s) (mem s') /\
    (forall x, f + (sp - base) <= x -> rd8 (mem s') x = rd8 (mem s) x) /\
    (forall i a p, argv !! i = Some a -> new !! i = Some p -> sp - need argv <= p /\ p + Z.of_nat (length a) + 1 <= sp /\
       bytes_at (mem s') (f + (p - base)) (Z.of_nat (length a) + 1) = a ++ [0]).
Proof.
  induction argv as [|a argv IH]; intros argc sp ptrs s H H4 Hs Hc Hb.
  { exists s, []. simpl. rewrite app_nil_r, Z.sub_0_r. split_and!; try done. }
  apply Forall_cons in Hb as [Ha Hb]. cbn [need foldr] in *. fold (need argv) in *. cbn [length] in Hc.
  pose proof (need_nonneg argv) as Hn. destruct (up_base _ _ _ _ _ _ H) as (B1 & B2 & B3).
  assert (Hp : Z.of_nat (length a) + 1 <= padded a) by (unfold padded; dm).
  cbn [push_args]. rewrite (proj2 (Nat.leb_gt _ _)) by lia. rewrite string_address by (done || lia).
  destruct (copyout_page (sp - padded a) (a ++ [0]) s H) as (s1 & E1 & H1 & M1 & S1).
  { apply Forall_app. split; [done|]. apply Forall_singleton. unfold is_u8. lia. } { lia. }
  { rewrite length_app. simpl. lia. }
  rewrite E1. cbn [mbind outcome_bind].
  destruct (IH (S argc) (sp - padded a) (ptrs ++ [sp - padded a]) s1 H1) as (s' & new & E & H' & L & S' & U & G); [|lia|lia|done|].
  { unfold padded. rewrite Zminus_mod, H4. rewrite Z.mul_comm, Z.mod_mul by lia. done. }
  exists s', ((sp - padded a) :: new). cbn [Z.ltb]. change (0 <? 0) with false. cbv iota. rewrite E. split_and!; try done.
  - do 4 f_equal; [lia|]. by rewrite <- app_assoc.
  - simpl. by rewrite L.
  - by eapply same_outside_trans.
  - intros x Hx. rewrite U, M1 by lia. rewrite rd8_wr_bytes, decide_False; [done| |].
    + rewrite length_app. simpl. lia.
    + apply Forall_app. split; [done|]. apply Forall_singleton. unfold is_u8. lia.
  - intros [|i] a' p Hi Hp'; simpl in Hi, Hp'.
    + injection Hi as <-. injection Hp' as <-. split; [lia|]. split; [lia|].
      rewrite (bytes_at_ext (mem s1)) by (intros x Hx; apply U; lia). rewrite M1.
      replace (Z.of_nat (length a) + 1) with (Z.of_nat (length (a ++ [0]))) by (rewrite length_app; simpl; lia).
      apply bytes_at_wr. apply Forall_app. split; [done|]. apply Forall_singleton. unfold is_u8. lia.
    + destruct (G i a' p Hi Hp') as (G1 & G2 & G3). split; [lia|]. split; [lia|done].
Qed.

End Stack.

Lemma bytes32_u8 v : Forall is_u8 (bytes32 v).
Proof. unfold bytes32. repeat apply Forall_cons_2; auto with xv6. Qed.

Lemma length_words (ws : list Z) : length (ws ≫= bytes32) = (4 * length ws)%nat.
Proof. induction ws as [|w ws IH]; [done|]. rewrite bind_cons, length_app, IH. simpl length. lia. Qed.

Lemma words_u8 (ws : list Z) : Forall is_u8 (ws ≫= bytes32).
Proof. induction ws as [|w ws IH]; [done|]. rewrite bind_cons. apply Forall_app. split; [apply bytes32_u8|done]. Qed.

Lemma length_frame_words sp ptrs : length (frame_words sp ptrs) = (length ptrs + 4)%nat.
Proof. unfold frame_words. rewrite !length_app. simpl. lia. Qed.

(** C19. What [main] finds on its stack.  When the arguments with their
    pointers fit in the page below [sz], [exec] succeeds in placing them: the
    new stack pointer lies in that page, the words at it are a return address
    of all ones, the number of arguments, the address of the array [argv] that
    follows, the pointers and a null pointer; the i-th pointer is the address
    of the i-th argument, terminated by a zero and above the array; only the
    frame of the page is written. *)
Theorem exec_stack kend fl d f s sz argv :
  user_page kend fl d (sz - PGSIZE) f s -> (length argv <= MAXARG)%nat -> Forall (Forall is_u8) argv ->
  need argv + 4 * (Z.of_nat (length argv) + 4) <= PGSIZE ->
  exists sp s' ptrs, build_stack d sz argv s = Ret (Some sp, s') /\
    sz - PGSIZE <= sp /\ sp mod 4 = 0 /\ length ptrs = length argv /\ same_outside [f] (mem s) (mem s') /\
    uread d (4 * (length argv + 4)) sp s' =
      Ret (([0xffffffff; Z.of_nat (length argv); sp + 12] ++ ptrs ++ [0]) ≫= bytes32) /\
    forall i a p, argv !! i = Some a -> ptrs !! i = Some p ->
      sp + 4 * (Z.of_nat (length argv) + 4) <= p /\ p + Z.of_nat (length a) < sz /\
      uread d (length a + 1) p s' = Ret (a ++ [0]).
Proof.
  intros H Hc Hb Hn. destruct (up_base _ _ _ _ _ _ H) as (B1 & B2 & B3). set (base := sz - PGSIZE) in *.
  pose proof (need_nonneg argv) as Hn0. assert (H4 : sz mod 4 = 0) by (unfold base, PGSIZE in *; dm).
  destruct (push_args_spec argv 0 sz [] s H H4) as (s1 & ptrs & E1 & H1 & L & S1 & U & G); [unfold base; lia|lia|done|].
  set (ws := frame_words (sz - need argv) ptrs). assert (Lw : length ws = (length argv + 4)%nat) by (unfold ws; rewrite length_frame_words; lia).
  set (sp := sz - need argv - 4 * Z.of_nat (length ws)).
  assert (Hu : u32 (sz - need argv - 4 * Z.of_nat (length ws)) = sp) by (apply u32_small; unfold is_u32, sp, base, USERTOP, PGSIZE in *; lia).
  destruct (copyout_page sp (ws ≫= bytes32) s1 H1) as (s' & E2 & H2 & M2 & S2); [apply words_u8|unfold sp, base in *; lia| |].
  { rewrite length_words. unfold sp, base in *. lia. }
  exists sp, s', ptrs. change ([] ++ ptrs) with ptrs in E1.
  assert (E : build_stack d sz argv s = Ret (Some sp, s')).
  { unfold build_stack. rewrite E1. cbn [mbind outcome_bind]. fold ws. rewrite Hu, E2. done. }
  split; [exact E|]. split; [unfold sp, base in *; lia|]. split; [|split; [done|split; [by eapply same_outside_trans|split]]].
  - assert (Hm : (need argv) mod 4 = 0).
    { clear. induction argv as [|a argv IH]; [done|]. cbn [need foldr]. fold (need argv). unfold padded. dm. }
    unfold sp. dm.
  - replace ([4294967295; Z.of_nat (length argv); sp + 12] ++ ptrs ++ [0]) with ws.
    + rewrite (upage_uread _ _ _ H2) by (unfold sp, base in *; lia). rewrite M2. f_equal.
      replace (4 * (length argv + 4))%nat with (length (ws ≫= bytes32)) by (rewrite length_words; lia). apply bytes_at_wr, words_u8.
    + unfold ws, frame_words. rewrite L. f_equal. do 2 f_equal. f_equal.
      rewrite u32_small; [unfold sp; lia|]. unfold is_u32, base, USERTOP, PGSIZE in *. lia.
  - intros i a p Hi Hp. destruct (G i a p Hi Hp) as (G1 & G2 & G3). split; [unfold sp; lia|]. split; [lia|].
    rewrite (upage_uread _ _ _ H2) by (unfold base in *; lia). f_equal.
    replace (Z.of_nat (length a + 1)) with (Z.of_nat (length a) + 1) by lia. rewrite <- G3. apply bytes_at_ext.
    intros x Hx. rewrite M2, rd8_wr_bytes by apply words_u8. rewrite decide_False; [done|]. rewrite length_words. unfold sp in *. lia.
Qed.

(** A process with one page. *)
Lemma demo_user_page : user_page 0x110000 demo_fl demo_dir (4096 - PGSIZE) demo_frame demo_vm.
Proof.
  assert (E : pte_val (mem demo_vm) demo_dir (4096 - PGSIZE) = entry demo_frame PTE_U).
  { change (mem demo_vm) with demo_mem. rewrite (proj2 demo_wf) by (by vm_compute). reflexivity. }
  split; [exact (proj1 demo_wf)|unfold PGSIZE, USERTOP; split_and!; [lia|lia|reflexivity]| | |].
  { rewrite E. split; reflexivity. } { rewrite E. split_and!; [reflexivity|reflexivity|discriminate]. }
  rewrite elem_of_pt_pages. intros [H|(i & Hi & _ & H)]; [discriminate H|]. revert i Hi H.
  assert (B : forallb (fun i => negb (demo_frame =? tab (mem demo_vm) demo_dir i)) (seqZ 0 1024) = true) by (by vm_compute).
  intros i Hi H. rewrite forallb_forall in B. specialize (B i). rewrite <- H, Z.eqb_refl in B.
  discriminate B. apply list_elem_of_In, elem_of_seqZ. lia.
Qed.

Definition demo_argv : list (list Z) := [[101; 99; 104; 111]; [104; 105]].
Lemma demo_argv_u8 : Forall (Forall is_u8) demo_argv.
Proof. repeat constructor; unfold is_u8; lia. Qed.

Lemma exec_stack_witness :
  exists sp s' ptrs, build_stack demo_dir 4096 demo_argv demo_vm = Ret (Some sp, s') /\ length ptrs = 2%nat /\
    forall p, ptrs !! 1%nat = Some p -> uread demo_dir 3 p s' = Ret [104; 105; 0].
Proof.
  destruct (exec_stack 0x110000 demo_fl demo_dir demo_frame demo_vm 4096 demo_argv demo_user_page)
    as (sp & s' & ptrs & E & _ & _ & L & _ & _ & G).
  - unfold MAXARG, demo_argv. simpl. lia.
  - exact demo_argv_u8.
  - vm_compute. congruence.
  - exists sp, s', ptrs. split; [exact E|]. split; [exact L|]. intros p Hp. apply (G 1%nat [104; 105] p eq_refl Hp).
Defined.

(** ** Two holes *)

(** A program file "p" whose only segment has the address 0x100000 of the
    kernel and a size that makes the end of the segment wrap around to 8. *)
Definition evil_code : list Z := [1; 2; 3; 4; 5; 6; 7; 8].
Definition evil_segment : list Z :=
  [1; 84; 0x100000; 0; 8; 2 ^ 32 - 0x100000 + 8; 0; 0] ≫= bytes32.
Definition evil_file : list Z :=
  bytes32 ELF_MAGIC ++ replicate 24 0 ++ bytes32 52 ++ replicate 12 0 ++ [1; 0] ++ replicate 6 0 ++ evil_segment ++ evil_code.

Definition evil_entries : list Z := dirent 1 [46] ++ dirent 1 [46; 46] ++ dirent 2 [112].
Definition evil_disk : memory := wr_bytes (wr_bytes (wr8 demo_sb (blk 4) 127) (blk 5) evil_entries) (blk 6) evil_file.
Definition evil_fs : fs unit :=
  FS evil_disk (Inode 1 1 1 2 T_DIR 0 0 1 48 (5 :: replicate 12 0) ::
                Inode 1 2 1 2 T_FILE 0 0 1 92 (6 :: replicate 12 0) :: replicate 48 inode_zero) tt.
Definition evil_kernel : kernel unit :=
  Kernel (Ptable [Proc 4096 demo_dir 0 RUNNING 1 None tf_zero 0 0 (replicate NOFILE None) (Some 0%nat) (replicate 16 0) 0 mq_zero]
      2 None [] [] (Some 0%nat)) demo_vm evil_fs (replicate NFILE file_zero) ∅.


Lemma evil_exec : exists a, exec 64 0x110000 0x108000 (fun _ => None) [112] [] evil_kernel = Ret a /\
  (a.1 =? 0) && bool_decide (bytes_at (mem (km a.2)) 0x100000 8 = evil_code) = true.
Proof. apply ends_in_true. vm_compute. reflexivity. Qed.


(** A program with one page and a stack page above it. *)
Definition demo_two_pages : kst :=
  Kst (store32 (store32 (store32 ∅ 0x300000 (entry 0x301000 (Z.lor PTE_W PTE_U)))
    0x301000 (entry 0x302000 (Z.lor PTE_W PTE_U))) 0x301004 (entry 0x303000 (Z.lor PTE_W PTE_U))) 0 (replicate 512 0) 0 0 1.

Lemma demo_big_argument : exists a, build_stack 0x300000 8192 [replicate 5000 65] demo_two_pages = Ret a /\
  match a.1 with Some sp => (0 <? sp) && (sp <? 4096) | None => false end &&
  (rd8 (mem a.2) (0x302000 + 4000) =? 65) = true.
Proof. apply ends_in_true. vm_compute. reflexivity. Qed.

(** There is no page between the program and its stack: an argument longer
    than a page is stored over the program, and [build_stack] succeeds. *)
Lemma exec_overruns_program :
  rd8 (mem demo_two_pages) (0x302000 + 4000) = 0 /\
  exists sp s', build_stack 0x300000 8192 [replicate 5000 65] demo_two_pages = Ret (Some sp, s') /\
    0 < sp < 4096 /\ rd8 (mem s') (0x302000 + 4000) = 65.
Proof.
  split; [vm_compute; reflexivity|]. destruct demo_big_argument as ([[sp|] s'] & E & B); [|done].
  apply andb_true_iff in B as [B B3%Z.eqb_eq]. apply andb_true_iff in B as [B1%Z.ltb_lt B2%Z.ltb_lt].
  exists sp, s'. split; [exact E|]. cbn [snd] in B3. lia.
Qed.
