(* ===== verification/Sysproc.v ===== *)
(** * Process system calls and the dispatcher (kernel/sysproc.c, kernel/syscall.c)

    The handlers that are not about files, and [syscall], which calls the
    handler for the number in [eax] and stores its return value there.  A
    handler returns a value, leaves the process asleep inside the call
    ([Blocked], continued by the resumption functions of the components) or
    ends the process ([Exited]). *)

From S2P Require Import Prelude Memory Kalloc Vm Proc Mlfq Sem Pipe Fs File Syscall ProcOps SysFile Exec.

Inductive sysres := Value (r : Z) | Blocked | Exited.

(** The kernel with the tick counter, the semaphores and the variables
    [sem] of the threads inside [sem_wait]. *)
Record machine (D : Type) := Machine { kern : kernel D; ticks : Z; sems : semst; locals : gmap Z Z }.
Arguments Machine {D}. Arguments kern {D}. Arguments ticks {D}. Arguments sems {D}. Arguments locals {D}.

(** System call numbers ([include/syscall.h]). *)
Definition SYS_fork : Z := 1.
Definition SYS_exit : Z := 2.
Definition SYS_wait : Z := 3.
Definition SYS_pipe : Z := 4.
Definition SYS_write : Z := 5.
Definition SYS_read : Z := 6.
Definition SYS_close : Z := 7.
Definition SYS_kill : Z := 8.
Definition SYS_exec : Z := 9.
Definition SYS_open : Z := 10.
Definition SYS_mknod : Z := 11.
Definition SYS_unlink : Z := 12.
Definition SYS_fstat : Z := 13.
Definition SYS_link : Z := 14.
Definition SYS_mkdir : Z := 15.
Definition SYS_chdir : Z := 16.
Definition SYS_dup : Z := 17.
Definition SYS_getpid : Z := 18.
Definition SYS_sbrk : Z := 19.
Definition SYS_sleep : Z := 20.
Definition SYS_uptime : Z := 21.
Definition SYS_clone : Z := 22.
Definition SYS_join : Z := 23.
Definition SYS_getprocinfo : Z := 24.
Definition SYS_boostproc : Z := 25.
Definition SYS_mprotect : Z := 26.
Definition SYS_munprotect : Z := 27.
Definition SYS_dump_allocated : Z := 28.
Definition SYS_sem_init : Z := 29.
Definition SYS_sem_wait : Z := 30.
Definition SYS_sem_post : Z := 31.
Definition SYS_sem_destroy : Z := 32.
Definition SYS_getfilenum : Z := 33.

Section Sysproc.
Context {D : Type} (nsect kend data : Z).
(** Places chosen by the linker: code, the process table, [ticks], [sem_list]
    and the variable [sem] in the frame of each thread. *)
Context (trapret forkret : Z) (proc_addr : nat -> Z) (ticks_addr : Z) (sem_addr : Z -> Z) (local : nat -> Z).
Context (dev_read : Z -> option (Z -> D -> outcome (Z * list Z * D))).
Context (dev_write : Z -> option (list Z -> Z -> D -> outcome (Z * D))).

Abbreviation kernel := (kernel D).
Abbreviation machine := (machine D).

Definition set_kern (k : kernel) (m : machine) : machine := Machine k (ticks m) (sems m) (locals m).
Definition set_ticks (t : Z) (m : machine) : machine := Machine (kern m) t (sems m) (locals m).

Definition handler : Type := machine -> outcome (sysres * machine).

(** Handlers that work on the kernel only. *)
Definition on_kernel (f : kernel -> outcome (Z * kernel)) : handler := fun m =>
  '(r, k) ← f (kern m); Ret (Value r, set_kern k m).
Definition on_kernel' {A} (f : kernel -> outcome (result A * kernel)) : handler := fun m =>
  '(r, k) ← f (kern m);
  Ret (match r with Returns r => Value r | Sleeps _ => Blocked end, set_kern k m).

(** Fetch an integer argument first; -1 when that fails. *)
Definition with_int (n : Z) (f : Z -> handler) : handler := fun m =>
  a ← kargint n (kern m);
  match a with None => Ret (Value (-1), m) | Some a => f a m end.
Definition with_ptr (n size : Z) (f : Z -> handler) : handler := fun m =>
  a ← kargptr n size (kern m);
  match a with None => Ret (Value (-1), m) | Some a => f a m end.

(** ** kernel/sysproc.c *)

Definition sys_fork : handler := on_kernel (fork kend data trapret forkret).
Definition sys_exit : handler := fun m => k ← exit nsect kend proc_addr (kern m); Ret (Exited, set_kern k m).
Definition sys_wait : handler := on_kernel' (wait kend proc_addr).

Definition sys_kill : handler := with_int 0 (fun n m =>
  let (r, t) := kill n (pt (kern m)) in Ret (Value r, set_kern (set_pt t (kern m)) m)).

Definition sys_getpid : handler := fun m => '(_, p) ← curp (pt (kern m)); Ret (Value (pid p), m).

Definition sys_sbrk : handler := with_int 0 (fun n m =>
  let k := kern m in
  '(me, p) ← curp (pt k);
  '(r, sz', s) ← growproc kend (pgdir p) (sz p) n (km k);
  let m := set_kern (upd_pt (updp me (p_sz sz')) (set_km s k)) m in
  Ret (Value (if r <? 0 then -1 else i32 (sz p)), m)).

(** From the test of the loop in [sys_sleep] to the next sleep or the end. *)
Definition sys_sleep_try (ticks0 n : Z) : handler := fun m =>
  if u32 (ticks m - ticks0) <? u32 n then
    '(_, p) ← curp (pt (kern m));
    if negb (killed p =? 0) then Ret (Value (-1), m)
    else t ← sleep ticks_addr false (pt (kern m)); Ret (Blocked, set_kern (set_pt t (kern m)) m)
  else Ret (Value 0, m).
Definition sys_sleep : handler := with_int 0 (fun n m => sys_sleep_try (ticks m) n m).
(** A process that was woken up runs again. *)
Definition sys_sleep_resume (ticks0 n : Z) : handler := fun m =>
  t ← sleep_return (pt (kern m)); sys_sleep_try ticks0 n (set_kern (set_pt t (kern m)) m).

Definition sys_uptime : handler := fun m => Ret (Value (i32 (ticks m)), m).

Definition sys_clone : handler :=
  with_ptr 0 0 (fun fcn => with_int 1 (fun arg1 => with_int 2 (fun arg2 => with_ptr 3 PGSIZE (fun stack m =>
    '(_, p) ← curp (pt (kern m));
    if negb (stack mod PGSIZE =? 0) || (sz p <? u32 (stack + PGSIZE)) then Ret (Value (-1), m)
    else on_kernel (clone trapret forkret fcn arg1 arg2 stack) m)))).

Definition sys_join : handler := with_ptr 0 4 (fun stack => on_kernel' (join kend proc_addr stack)).

(** Values of [enum procstate]. *)
Definition state_num (s : procstate) : Z :=
  match s with UNUSED => 0 | EMBRYO => 1 | SLEEPING => 2 | RUNNABLE => 3 | RUNNING => 4 | ZOMBIE => 5 end.

(** What [getprocinfo] stores for entry [i], at offsets into [struct pstat]:
    arrays of 64 words at 0, 256, 512 and 768, of 64 by 4 words at 1024 and 2048. *)
Definition stat_stores (i : Z) (p : proc) : list (Z * Z) :=
  [(4 * i, 1); (256 + 4 * i, pid p); (512 + 4 * i, level (sched_info p)); (768 + 4 * i, state_num (state p))] ++
  imap (fun j t => (1024 + 16 * i + 4 * Z.of_nat j, t)) (Proc.ticks (sched_info p)) ++
  imap (fun j t => (2048 + 16 * i + 4 * Z.of_nat j, t)) (wait_ticks (sched_info p)).

Definition stat_entry (a lvl i : Z) (k : kernel) : outcome kernel :=
  x ← mlfq_get (pt k) lvl i;
  '(_, p) ← deref (pt k) x;
  if i <? Z.of_nat NPROC then iterM (fun '(o, v) => kwrite (bytes32 v) (a + o)) (stat_stores i p) k
  else Undef "array index out of bounds".

(** [getprocinfo] on the structure at the address [a]. *)
Definition getprocinfo_at (a : Z) (k : kernel) : outcome (Z * kernel) :=
  if a =? 0 then Ret (-1, k)
  else
    k ← iterM (fun lvl k => n ← aget (mlfq_size (pt k)) lvl; iterM (stat_entry a lvl) (seqZ 0 n) k) [3; 2; 1; 0] k;
    Ret (0, k).

Definition sys_getprocinfo : handler := with_ptr 0 3072 (fun a => on_kernel (getprocinfo_at a)).

Definition sys_boostproc : handler := fun m =>
  '(r, t) ← boostproc (pt (kern m)); Ret (Value r, set_kern (set_pt t (kern m)) m).

(** [sizeof(void* ) < 0] is the size 0. *)
Definition sys_protect (f : Z -> Z -> Z -> kst -> outcome (Z * kst)) : handler :=
  with_ptr 0 0 (fun addr => with_int 1 (fun len => on_kernel (fun k =>
    '(_, p) ← curp (pt k); '(r, s) ← f (pgdir p) addr len (km k); Ret (r, set_km s k)))).
Definition sys_mprotect : handler := sys_protect mprotect.
Definition sys_munprotect : handler := sys_protect munprotect.

Definition sys_dump_allocated : handler :=
  with_ptr 0 0 (fun frames => with_int 1 (fun len => on_kernel (fun k =>
    l ← dump_allocated (km k) len;
    match l with
    | None => Ret (-1, k)
    | Some l => k ← kwrite (l ≫= bytes32) frames k; Ret (0, k)
    end))).

(** The pointer is not checked. *)
Definition sys_sem_init : handler := with_int 0 (fun a => with_int 1 (fun count m =>
  let '(i, r, s) := sem_init count (sems m) in
  k ← match i with Some i => kwrite (bytes32 i) (u32 a) (kern m) | None => Ret (kern m) end;
  Ret (Value r, Machine k (ticks m) s (locals m)))).

(** The state that the operations of semaphores work on. *)
Definition on_sems {A} (f : semw -> outcome (A * semw)) (m : machine) : outcome (A * machine) :=
  '(r, w) ← f (Semw (sems m) (pt (kern m)) (locals m));
  Ret (r, Machine (set_pt (tbl w) (kern m)) (ticks m) (sst w) (words w)).

Definition sem_res (r : wait_result) : sysres := match r with Some r => Value r | None => Blocked end.
Definition sys_sem_wait : handler := with_int 0 (fun id m =>
  '(r, m) ← on_sems (sem_wait sem_addr local id) m; Ret (sem_res r, m)).
Definition sys_sem_wait_resume (id : Z) : handler := fun m =>
  '(r, m) ← on_sems (sem_wait_resume local id) m; Ret (sem_res r, m).
Definition sys_sem_post : handler := with_int 0 (fun id m =>
  '(r, m) ← on_sems (sem_post sem_addr id) m; Ret (Value r, m)).
Definition sys_sem_destroy : handler := with_int 0 (fun id m =>
  '(r, s) ← sem_destroy id (sems m); Ret (Value r, Machine (kern m) (ticks m) s (locals m))).

Definition sys_getfilenum : handler := with_int 0 (fun n m => Ret (Value (getfilenum n (pt (kern m))), m)).

(** ** kernel/syscall.c *)

Definition syscalls (num : Z) : option handler :=
  if num =? SYS_chdir then Some (on_kernel (sys_chdir nsect))
  else if num =? SYS_close then Some (on_kernel (sys_close nsect kend))
  else if num =? SYS_dup then Some (on_kernel sys_dup)
  else if num =? SYS_exec then Some (on_kernel (sys_exec nsect kend data dev_read))
  else if num =? SYS_exit then Some sys_exit
  else if num =? SYS_fork then Some sys_fork
  else if num =? SYS_fstat then Some (on_kernel (sys_fstat nsect))
  else if num =? SYS_getpid then Some sys_getpid
  else if num =? SYS_kill then Some sys_kill
  else if num =? SYS_link then Some (on_kernel (sys_link nsect dev_read dev_write))
  else if num =? SYS_mkdir then Some (on_kernel (sys_mkdir nsect dev_read dev_write))
  else if num =? SYS_mknod then Some (on_kernel (sys_mknod nsect dev_read dev_write))
  else if num =? SYS_open then Some (on_kernel (sys_open nsect kend dev_read dev_write))
  else if num =? SYS_pipe then Some (on_kernel (sys_pipe nsect kend))
  else if num =? SYS_read then Some (on_kernel' (sys_read nsect dev_read))
  else if num =? SYS_sbrk then Some sys_sbrk
  else if num =? SYS_sleep then Some sys_sleep
  else if num =? SYS_unlink then Some (on_kernel (sys_unlink nsect dev_read dev_write))
  else if num =? SYS_wait then Some sys_wait
  else if num =? SYS_write then Some (on_kernel' (sys_write nsect dev_write))
  else if num =? SYS_uptime then Some sys_uptime
  else if num =? SYS_clone then Some sys_clone
  else if num =? SYS_join then Some sys_join
  else if num =? SYS_getprocinfo then Some sys_getprocinfo
  else if num =? SYS_boostproc then Some sys_boostproc
  else if num =? SYS_mprotect then Some sys_mprotect
  else if num =? SYS_munprotect then Some sys_munprotect
  else if num =? SYS_dump_allocated then Some sys_dump_allocated
  else if num =? SYS_sem_init then Some sys_sem_init
  else if num =? SYS_sem_wait then Some sys_sem_wait
  else if num =? SYS_sem_post then Some sys_sem_post
  else if num =? SYS_sem_destroy then Some sys_sem_destroy
  else if num =? SYS_getfilenum then Some sys_getfilenum
  else None.

Definition set_eax (r : Z) (m : machine) : outcome machine :=
  '(me, _) ← curp (pt (kern m));
  Ret (set_kern (upd_pt (updp me (fun p => p_tf (tf_set_eax (u32 r) (tf p)) p)) (kern m)) m).

Definition syscall : handler := fun m =>
  '(_, p) ← curp (pt (kern m));
  match syscalls (i32 (tf_eax (tf p))) with
  | Some h =>
    '(r, m) ← h m;
    match r with
    | Value v => m ← set_eax v m; Ret (r, m)
    | _ => Ret (r, m)
    end
  | None => m ← set_eax (-1) m; Ret (Value (-1), m)
  end.

End Sysproc.
