(* ===== verification/Console.v ===== *)
(** * The console (kernel/console.c, kernel/kbd.c, kernel/kbd.h)

    Printing numbers and formats, the screen, the keyboard, and the line
    discipline: characters typed go to the line being edited, a finished line
    can be read.  The ring of 128 bytes with three wrapping 32-bit indices
    implements an editor with a queue of finished bytes and a line. *)

From S2P Require Import Prelude Memory Proc Pipe.

(** ** [printint] *)

Definition digits : list Z := [48; 49; 50; 51; 52; 53; 54; 55; 56; 57; 97; 98; 99; 100; 101; 102].

(** [do buf[i++] = digits[x % base]; while((x /= base) != 0)], least
    significant digit first; a 32-bit number has at most 32 digits. *)
Fixpoint digit_loop (fuel : nat) (dig : list Z) (x base : Z) : outcome (list Z) :=
  match fuel with
  | O => Undef "loop bound"
  | S fuel =>
    d ← aget dig (x mod base);
    if x / base =? 0 then Ret [d] else l ← digit_loop fuel dig (x / base) base; Ret (d :: l)
  end.

(** The characters in the order they are printed; [buf] has 16 of them. *)
Definition printint_with (dig : list Z) (xx base : Z) (sign : bool) : outcome (list Z) :=
  let neg := sign && (xx <? 0) in
  let x := if neg then u32 (- xx) else u32 xx in
  l ← digit_loop 32 dig x base;
  let l := if neg then l ++ [45] else l in
  if (length l <=? 16)%nat then Ret (rev l) else Undef "array index out of bounds".

Definition printint : Z -> Z -> bool -> outcome (list Z) := printint_with digits.

(** ** [cprintf] *)

(** An argument: a word, or a string ([None]: a null pointer). *)
Inductive arg := Word (w : Z) | Str (s : option (list Z)).
Definition null_text : list Z := [40; 110; 117; 108; 108; 41].

Fixpoint cprintf (fmt : list Z) (args : list arg) : outcome (list Z) :=
  match fmt with
  | [] => Ret []
  | c :: fmt =>
    if negb (c =? 37) then l ← cprintf fmt args; Ret (c :: l)
    else
      match fmt with
      | [] => Ret []
      | c :: fmt =>
        if c =? 100 then
          match args with
          | Word w :: args => n ← printint (i32 w) 10 true; l ← cprintf fmt args; Ret (n ++ l)
          | _ => Undef "argument"
          end
        else if (c =? 120) || (c =? 112) then
          match args with
          | Word w :: args => n ← printint (i32 w) 16 false; l ← cprintf fmt args; Ret (n ++ l)
          | _ => Undef "argument"
          end
        else if c =? 115 then
          match args with
          | Str s :: args => l ← cprintf fmt args; Ret (default null_text s ++ l)
          | _ => Undef "argument"
          end
        else if c =? 37 then l ← cprintf fmt args; Ret (37 :: l)
        else l ← cprintf fmt args; Ret (37 :: c :: l)
      end
  end.

(** ** The screen *)

Definition BACKSPACE : Z := 0x100.

(** [crt], 25 rows of 80 cells, and the cursor. *)
Record screen := Screen { crt : list Z; pos : Z }.

Definition scroll (s : screen) : screen :=
  if 24 <=? pos s / 80 then
    let p := pos s - 80 in
    let crt := take (Z.to_nat (23 * 80)) (drop 80 (crt s)) ++ drop (Z.to_nat (23 * 80)) (crt s) in
    Screen (take (Z.to_nat p) crt ++ replicate (Z.to_nat (24 * 80 - p)) 0 ++ drop (Z.to_nat (24 * 80)) crt) p
  else s.

Definition cgaputc (c : Z) (s : screen) : outcome screen :=
  s ← (if c =? 10 then Ret (Screen (crt s) (pos s + (80 - Z.rem (pos s) 80)))
       else if c =? BACKSPACE then Ret (Screen (crt s) (if 0 <? pos s then pos s - 1 else pos s))
       else
         m ← aset (crt s) (pos s) (Z.lor (Z.land c 0xff) 0x0700);
         Ret (Screen m (pos s + 1)));
  let s := scroll s in
  m ← aset (crt s) (pos s) (Z.lor 32 0x0700);
  Ret (Screen m (pos s)).

(** What goes to the serial port and to the screen. *)
Record display := Display { serial : list Z; scr : screen }.
Definition consputc (c : Z) (d : display) : outcome display :=
  s ← cgaputc c (scr d);
  Ret (Display (serial d ++ (if c =? BACKSPACE then [8; 32; 8] else [c])) s).

(** ** The line discipline *)

Definition INPUT_BUF : Z := 128.
Definition CTRL (x : Z) : Z := x - 64.

Record input := Input { ibuf : list Z; ir : Z; iw : Z; ie : Z }.
Definition input_init : input := Input (replicate (Z.to_nat INPUT_BUF) 0) 0 0 0.
Definition i_e v i := Input (ibuf i) (ir i) (iw i) v.

(** The loop of control-U; [fuel] covers the bytes of the buffer. *)
Fixpoint kill_line (fuel : nat) (i : input) (d : display) : outcome (input * display) :=
  match fuel with
  | O => Undef "loop bound"
  | S fuel =>
    if negb (ie i =? iw i) then
      b ← aget (ibuf i) (u32 (ie i - 1) mod INPUT_BUF);
      if negb (b =? 10) then d ← consputc BACKSPACE d; kill_line fuel (i_e (u32 (ie i - 1)) i) d
      else Ret (i, d)
    else Ret (i, d)
  end.

(** One character, already fetched; whether sleeping readers are woken. *)
Definition consoleintr1 (c : Z) (i : input) (d : display) : outcome (bool * input * display) :=
  if c =? CTRL 80 then Ret (false, i, d)
  else if c =? CTRL 85 then '(i, d) ← kill_line (S (Z.to_nat INPUT_BUF)) i d; Ret (false, i, d)
  else if (c =? CTRL 72) || (c =? 0x7f) then
    if negb (ie i =? iw i) then d ← consputc BACKSPACE d; Ret (false, i_e (u32 (ie i - 1)) i, d)
    else Ret (false, i, d)
  else if negb (c =? 0) && (u32 (ie i - ir i) <? INPUT_BUF) then
    let c := if c =? 13 then 10 else c in
    l ← aset (ibuf i) (ie i mod INPUT_BUF) (u8 c);
    let i := Input l (ir i) (iw i) (u32 (ie i + 1)) in
    d ← consputc c d;
    if (c =? 10) || (c =? CTRL 68) || (ie i =? u32 (ir i + INPUT_BUF))
    then Ret (true, Input (ibuf i) (ir i) (ie i) (ie i), d)
    else Ret (false, i, d)
  else Ret (false, i, d).

(** The characters that [getc] gives until it returns a negative number. *)
Fixpoint consoleintr (cs : list Z) (i : input) (d : display) : outcome (bool * input * display) :=
  match cs with
  | [] => Ret (false, i, d)
  | c :: cs =>
    if c <? 0 then Ret (false, i, d)
    else
      '(w1, i, d) ← consoleintr1 c i d;
      '(w2, i, d) ← consoleintr cs i d;
      Ret (w1 || w2, i, d)
  end.

(** [consoleread] for [n] of [target] bytes: the bytes stored, and the return
    value or, when the reader sleeps, how many bytes are left. *)
Fixpoint consoleread_loop (killed : bool) (n : nat) (target : Z) (i : input)
  : outcome (result nat * list Z * input) :=
  match n with
  | O => Ret (Returns target, [], i)
  | S m =>
    if ir i =? iw i then
      if killed then Ret (Returns (-1), [], i) else Ret (Sleeps n, [], i)
    else
      c ← aget (ibuf i) (ir i mod INPUT_BUF);
      let j := Input (ibuf i) (u32 (ir i + 1)) (iw i) (ie i) in
      if c =? CTRL 68 then
        Ret (Returns (target - Z.of_nat n), [], if Z.of_nat n <? target then i else j)
      else if c =? 10 then Ret (Returns (target - Z.of_nat m), [c], j)
      else '(r, l, i) ← consoleread_loop killed m target j; Ret (r, c :: l, i)
  end.
Definition consoleread (killed : bool) (n : Z) (i : input) : outcome (result nat * list Z * input) :=
  consoleread_loop killed (Z.to_nat n) (Z.max 0 n) i.

Fixpoint consolewrite (buf : list Z) (d : display) : outcome display :=
  match buf with
  | [] => Ret d
  | b :: buf => d ← consputc (Z.land b 0xff) d; consolewrite buf d
  end.

(** ** The screen stays inside its memory *)

Definition wfscreen (s : screen) : Prop := length (crt s) = 2000%nat /\ 0 <= pos s < 1920.

Lemma scroll_wf m p : length m = 2000%nat -> 0 <= p <= 1920 -> wfscreen (scroll (Screen m p)).
Proof.
  intros Hl Hp. unfold scroll, wfscreen. cbn [pos crt]. destruct (Z.leb_spec 24 (p / 80)) as [H|H]; cbn [pos crt].
  - assert (p = 1920) as -> by dm. rewrite !length_app, length_replicate, !length_take, !length_drop, !length_app, !length_take, !length_drop, Hl.
    split; [lia|lia].
  - split; [done|]. dm.
Qed.

Lemma cgaputc_wf c s : wfscreen s -> exists s', cgaputc c s = Ret s' /\ wfscreen s'.
Proof.
  intros [Hl Hp]. unfold cgaputc.
  assert (G : forall m p, length m = 2000%nat -> 0 <= p <= 1920 ->
    exists s', (m' ← aset (crt (scroll (Screen m p))) (pos (scroll (Screen m p))) (Z.lor 32 0x0700);
                Ret (Screen m' (pos (scroll (Screen m p))))) = Ret s' /\ wfscreen s').
  { intros m p Hm Hq. destruct (scroll_wf m p Hm Hq) as [W1 W2]. rewrite aset_Ret by (rewrite W1; lia). cbn [mbind outcome_bind].
    eexists. split; [done|]. split; [cbn [crt]; by rewrite length_insert|done]. }
  destruct (c =? 10); [|destruct (c =? BACKSPACE)]; cbn [mbind outcome_bind].
  - apply G; [done|]. rewrite Z.rem_mod_nonneg by lia. dm.
  - apply G; [done|]. destruct (Z.ltb_spec 0 (pos s)); lia.
  - rewrite aset_Ret by (rewrite Hl; lia). cbn [mbind outcome_bind]. apply G; [by rewrite length_insert|lia].
Qed.

Lemma consputc_wf c d : wfscreen (scr d) -> exists d', consputc c d = Ret d' /\ wfscreen (scr d').
Proof.
  intros H. destruct (cgaputc_wf c (scr d) H) as (s & E & W). unfold consputc. rewrite E. cbn [mbind outcome_bind].
  eexists. split; [done|exact W].
Qed.

(** ** The ring as a queue and a line *)

(** [n] bytes of the ring from the index [a] on. *)
Definition ring (l : list Z) (a : Z) (n : nat) : list Z :=
  (fun j => nth (Z.to_nat ((a + Z.of_nat j) mod INPUT_BUF)) l 0) <$> seq 0 n.

(** Finished bytes that were not read, and the line being edited. *)
Definition editor : Type := list Z * list Z.

Record represents (i : input) (q : editor) : Prop := {
  rp_len : length (ibuf i) = 128%nat;
  rp_r : is_u32 (ir i);
  rp_w : iw i = u32 (ir i + Z.of_nat (length q.1));
  rp_e : ie i = u32 (iw i + Z.of_nat (length q.2));
  rp_room : (length q.1 + length q.2 <= 128)%nat;
  rp_bytes : ring (ibuf i) (ir i) (length q.1 + length q.2) = q.1 ++ q.2;
  rp_line : Forall (fun b => b <> 10) q.2
}.

(** What a character does. *)
Definition type_char (c : Z) (q : editor) : bool * editor :=
  let '(ready, line) := q in
  if c =? CTRL 80 then (false, q)
  else if c =? CTRL 85 then (false, (ready, []))
  else if (c =? CTRL 72) || (c =? 0x7f) then (false, (ready, take (length line - 1) line))
  else if negb (c =? 0) && (length ready + length line <? 128)%nat then
    let c := if c =? 13 then 10 else c in
    let line := line ++ [c] in
    if (c =? 10) || (c =? CTRL 68) || (length ready + length line =? 128)%nat
    then (true, (ready ++ line, [])) else (false, (ready, line))
  else (false, q).

(** What a read of [n] bytes takes from the finished ones. *)
Fixpoint take_ready (killed : bool) (n : nat) (target : Z) (q : list Z) : result nat * list Z * list Z :=
  match n, q with
  | O, _ => (Returns target, [], q)
  | S _, [] => (if killed then Returns (-1) else Sleeps n, [], q)
  | S m, c :: q' =>
    if c =? CTRL 68 then (Returns (target - Z.of_nat n), [], if Z.of_nat n <? target then q else q')
    else if c =? 10 then (Returns (target - Z.of_nat m), [c], q')
    else let '(r, l, q) := take_ready killed m target q' in (r, c :: l, q)
  end.

Lemma ring_ext l l' a n : (forall j, (j < n)%nat ->
  nth (Z.to_nat ((a + Z.of_nat j) mod INPUT_BUF)) l' 0 = nth (Z.to_nat ((a + Z.of_nat j) mod INPUT_BUF)) l 0) ->
  ring l' a n = ring l a n.
Proof. intros H. apply list_fmap_ext. intros i j Hj. apply lookup_seq in Hj as [-> Hj]. apply H. lia. Qed.

Lemma ring_S l a n : ring l a (S n) = ring l a n ++ [nth (Z.to_nat ((a + Z.of_nat n) mod INPUT_BUF)) l 0].
Proof. unfold ring. rewrite seq_S, fmap_app. done. Qed.

Lemma ring_shift l a n : ring l a (S n) = nth (Z.to_nat (a mod INPUT_BUF)) l 0 :: ring l (u32 (a + 1)) n.
Proof.
  unfold ring. cbn [seq]. rewrite fmap_cons, Z.add_0_r, <- fmap_S_seq, <- list_fmap_compose. f_equal.
  apply list_fmap_ext. intros i j _. unfold compose. do 2 f_equal. unfold u32, INPUT_BUF. dm.
Qed.

Lemma u32_mod128 x : u32 x mod INPUT_BUF = x mod INPUT_BUF.
Proof. unfold u32, INPUT_BUF. dm. Qed.

Lemma aget_ring i x : length (ibuf i) = 128%nat -> aget (ibuf i) (x mod INPUT_BUF) = Ret (nth (Z.to_nat (x mod INPUT_BUF)) (ibuf i) 0).
Proof.
  intros Hl. pose proof (Z.mod_pos_bound x INPUT_BUF eq_refl) as B. unfold INPUT_BUF in *. apply aget_Ret. split; [lia|].
  destruct (lookup_lt_is_Some_2 (ibuf i) (Z.to_nat (x mod 128))) as [y Hy]; [lia|]. by rewrite nth_lookup, Hy.
Qed.

(** The byte that follows the represented ones. *)
Lemma ring_snoc l a n b : length l = 128%nat -> (n < 128)%nat ->
  ring (<[Z.to_nat ((a + Z.of_nat n) mod INPUT_BUF) := b]> l) a (S n) = ring l a n ++ [b].
Proof.
  intros Hl Hn. rewrite ring_S. f_equal.
  - apply ring_ext. intros j Hj. rewrite !nth_lookup, list_lookup_insert_ne; [done|].
    unfold INPUT_BUF. intros E. apply Z2Nat.inj in E; dm.
  - f_equal. rewrite nth_lookup, list_lookup_insert_eq; [done|]. unfold INPUT_BUF. dm.
Qed.

Lemma represents_line i ready line : represents i (ready, line) -> 
  u32 (ie i - ir i) = Z.of_nat (length ready + length line) /\
  u32 (ie i) = ie i /\ ie i mod INPUT_BUF = (ir i + Z.of_nat (length ready + length line)) mod INPUT_BUF.
Proof.
  intros [_ Hr Hw He Hn _ _]. cbn [fst snd] in *. rewrite He, Hw. unfold u32, is_u32, INPUT_BUF in *.
  split; [|split]; dm.
Qed.

(** Dropping the last character of the line. *)
Lemma represents_back i ready line : represents i (ready, line) -> line <> [] ->
  represents (i_e (u32 (ie i - 1)) i) (ready, take (length line - 1) line) /\
  nth (Z.to_nat (u32 (ie i - 1) mod INPUT_BUF)) (ibuf i) 0 <> 10.
Proof.
  intros R Hne. pose proof (represents_line _ _ _ R) as (L1 & _ & L3). destruct R as [Hl Hr Hw He Hn Hb Hnl]. cbn [fst snd] in *.
  destruct (exists_last Hne) as (line' & b & ->). rewrite length_app in *. cbn [length] in *.
  replace (length line' + 1 - 1)%nat with (length line') by lia. rewrite take_app_length.
  apply Forall_app in Hnl as [Hnl Hb10]. apply Forall_cons in Hb10 as [Hb10 _].
  replace (length ready + (length line' + 1))%nat with (S (length ready + length line')) in Hb by lia.
  rewrite ring_S, app_assoc in Hb. apply app_inj_tail in Hb as [Hb Hlast]. split.
  - split; cbn [ibuf ir iw ie i_e fst snd]; try done; [|lia].
    rewrite He. unfold u32. clear. dm.
  - rewrite u32_mod128. replace ((ie i - 1) mod INPUT_BUF) with ((ir i + Z.of_nat (length ready + length line')) mod INPUT_BUF);
      [rewrite Hlast; exact Hb10|]. unfold INPUT_BUF in *. clear -L3. dm.
Qed.

Lemma line_empty i ready line : represents i (ready, line) -> (ie i =? iw i) = true <-> line = [].
Proof.
  intros [_ _ Hw He Hn _ _]. cbn [fst snd] in *. rewrite Z.eqb_eq, He. pose proof (u32_range (ir i + Z.of_nat (length ready))) as B.
  rewrite <- Hw in B. unfold u32, is_u32 in *. split.
  - intros H. destruct line; [done|]. cbn [length] in *. dm.
  - intros ->. simpl. rewrite Z.add_0_r. by apply Z.mod_small.
Qed.

Lemma kill_line_spec fuel : forall i d ready line,
  represents i (ready, line) -> (length line < fuel)%nat -> wfscreen (scr d) ->
  exists i' d', kill_line fuel i d = Ret (i', d') /\ represents i' (ready, []) /\ wfscreen (scr d').
Proof.
  induction fuel as [|fuel IH]; intros i d ready line R Hf Hs; [lia|]. cbn [kill_line].
  pose proof (line_empty _ _ _ R) as E. destruct (ie i =? iw i); cbn [negb].
  - exists i, d. destruct E as [E _]. rewrite E in R by done. done.
  - assert (Hne : line <> []) by (intros ->; by destruct E as [_ E]; specialize (E eq_refl)).
    destruct (represents_back _ _ _ R Hne) as [R' Hb]. rewrite aget_ring by apply R. cbn [mbind outcome_bind].
    rewrite (proj2 (Z.eqb_neq _ _)) by done. cbn [negb]. destruct (consputc_wf BACKSPACE d Hs) as (d1 & -> & Hs1). cbn [mbind outcome_bind].
    apply (IH _ d1 _ _ R'); [|done]. rewrite length_take. destruct line; [done|]. cbn [length] in *. lia.
Qed.

(** A character at the end of the line. *)
Lemma represents_snoc i ready line c : represents i (ready, line) -> (length ready + length line < 128)%nat -> c <> 10 ->
  represents (Input (<[Z.to_nat (ie i mod INPUT_BUF) := c]> (ibuf i)) (ir i) (iw i) (u32 (ie i + 1))) (ready, line ++ [c]).
Proof.
  intros R Hn Hc. pose proof (represents_line _ _ _ R) as (L1 & L2 & L3). destruct R as [Hl Hr Hw He _ Hb Hnl].
  split; cbn [ibuf ir iw ie fst snd] in *; rewrite ?length_insert, ?length_app; cbn [length]; try done; [|lia| |].
  - rewrite He. unfold u32. clear. dm.
  - replace (length ready + (length line + 1))%nat with (S (length ready + length line)) by lia.
    rewrite L3, ring_snoc by done. by rewrite Hb, app_assoc.
  - apply Forall_app. split; [done|]. by apply Forall_cons.
Qed.

(** The line is finished. *)
Lemma represents_finish i ready line c : represents i (ready, line) -> (length ready + length line < 128)%nat ->
  let e := u32 (ie i + 1) in
  represents (Input (<[Z.to_nat (ie i mod INPUT_BUF) := c]> (ibuf i)) (ir i) e e) (ready ++ line ++ [c], []).
Proof.
  intros R Hn. pose proof (represents_line _ _ _ R) as (L1 & L2 & L3). destruct R as [Hl Hr Hw He _ Hb Hnl].
  split; cbn [ibuf ir iw ie fst snd] in *; rewrite ?length_insert, ?length_app; cbn [length]; try done; [| |lia|].
  - rewrite He, Hw. unfold u32. clear. dm.
  - rewrite Z.add_0_r. by rewrite u32_u32.
  - replace (length ready + (length line + 1) + 0)%nat with (S (length ready + length line)) by lia.
    rewrite L3, ring_snoc by done. by rewrite Hb, app_nil_r, app_assoc.
Qed.

Lemma consoleintr1_spec c i d q : represents i q -> wfscreen (scr d) -> is_u8 c ->
  exists i' d', consoleintr1 c i d = Ret ((type_char c q).1, i', d') /\ represents i' (type_char c q).2 /\ wfscreen (scr d').
Proof.
  destruct q as [ready line]. intros R Hs Hc. pose proof (represents_line _ _ _ R) as (L1 & L2 & L3).
  unfold consoleintr1, type_char. destruct (c =? CTRL 80); [by exists i, d|].
  destruct (c =? CTRL 85).
  { destruct (kill_line_spec (S (Z.to_nat INPUT_BUF)) i d ready line R) as (i' & d' & E & R' & S');
      [pose proof (rp_room _ _ R) as H; cbn [fst snd] in H; unfold INPUT_BUF; lia|done|].
    rewrite E. cbn [mbind outcome_bind]. by exists i', d'. }
  destruct ((c =? CTRL 72) || (c =? 127)).
  { pose proof (line_empty _ _ _ R) as E. destruct (ie i =? iw i); cbn [negb].
    - destruct E as [E _]. rewrite E in * by done. by exists i, d.
    - assert (Hne : line <> []) by (intros ->; by destruct E as [_ E]; specialize (E eq_refl)).
      destruct (consputc_wf BACKSPACE d Hs) as (d1 & -> & Hs1). cbn [mbind outcome_bind].
      eexists _, d1. split; [done|]. split; [by apply represents_back|done]. }
  rewrite L1. replace (Z.of_nat (length ready + length line) <? INPUT_BUF) with (length ready + length line <? 128)%nat
    by (unfold INPUT_BUF; destruct (Nat.ltb_spec (length ready + length line) 128), (Z.ltb_spec (Z.of_nat (length ready + length line)) 128); lia).
  destruct (negb (c =? 0)); [|by exists i, d]. cbn [andb].
  destruct (Nat.ltb_spec (length ready + length line) 128) as [Hn|Hn]; [|by exists i, d].
  set (c' := if c =? 13 then 10 else c). assert (Hc' : is_u8 c') by (unfold c'; destruct (c =? 13); [unfold is_u8; lia|done]).
  cbv zeta. rewrite aset_Ret by (rewrite (rp_len _ _ R); unfold INPUT_BUF; dm). cbn [mbind outcome_bind].
  rewrite (u8_small c') by done. destruct (consputc_wf c' d Hs) as (d1 & -> & Hs1). cbn [mbind outcome_bind ie ir ibuf iw].
  replace (u32 (ie i + 1) =? u32 (ir i + INPUT_BUF)) with (length ready + length (line ++ [c']) =? 128)%nat.
  - destruct ((c' =? 10) || _ || _) eqn:F.
    + eexists _, d1. split; [done|]. split; [by apply represents_finish|done].
    + eexists _, d1. split; [done|]. split; [|done]. apply represents_snoc; [done|done|]. intros ->. done.
  - rewrite length_app. cbn [length]. destruct R as [_ Hr Hw He _ _ _]. cbn [fst snd] in *. rewrite He, Hw.
    unfold u32, is_u32, INPUT_BUF in *. clear -Hr Hn.
    destruct (Nat.eqb_spec (length ready + (length line + 1)) 128), (Z.eqb_spec ((((ir i + Z.of_nat (length ready)) mod 2 ^ 32 + Z.of_nat (length line)) mod 2 ^ 32 + 1) mod 2 ^ 32) ((ir i + 128) mod 2 ^ 32)); try done; dm.
Qed.

(** Taking the first finished byte. *)
Lemma represents_take i c ready line : represents i (c :: ready, line) ->
  aget (ibuf i) (ir i mod INPUT_BUF) = Ret c /\
  represents (Input (ibuf i) (u32 (ir i + 1)) (iw i) (ie i)) (ready, line).
Proof.
  intros [Hl Hr Hw He Hn Hb Hnl]. cbn [fst snd length] in *. rewrite aget_ring by done.
  change (S (length ready) + length line)%nat with (S (length ready + length line)) in Hb. rewrite ring_shift in Hb.
  rewrite <- app_comm_cons in Hb. injection Hb as Hc Hb. split; [by rewrite Hc|].
  split; cbn [ibuf ir iw ie fst snd]; try done; [apply u32_range| |lia]. rewrite Hw. unfold u32. clear. dm.
Qed.

Lemma ready_empty i ready line : represents i (ready, line) -> (ir i =? iw i) = true <-> ready = [].
Proof.
  intros [_ Hr Hw _ Hn _ _]. cbn [fst snd] in *. rewrite Z.eqb_eq, Hw. unfold u32, is_u32 in *. split.
  - intros H. destruct ready; [done|]. cbn [length] in *. dm.
  - intros ->. simpl. rewrite Z.add_0_r. symmetry. by apply Z.mod_small.
Qed.

Lemma consoleread_loop_spec killed n target : forall i ready line, represents i (ready, line) ->
  exists i', consoleread_loop killed n target i = Ret ((take_ready killed n target ready).1, i') /\
    represents i' ((take_ready killed n target ready).2, line).
Proof.
  induction n as [|n IH]; intros i ready line R; [by exists i|]. cbn [consoleread_loop].
  pose proof (ready_empty _ _ _ R) as E. destruct (ir i =? iw i).
  - destruct E as [E _]. rewrite E in * by done. exists i. by destruct killed.
  - destruct ready as [|c ready]; [by destruct E as [_ E]; specialize (E eq_refl)|].
    destruct (represents_take _ _ _ _ R) as [G R']. rewrite G. cbn [mbind outcome_bind take_ready].
    destruct (c =? CTRL 68); [eexists; split; [done|]; simpl; by destruct (Z.of_nat (S n) <? target)|].
    destruct (c =? 10); [by eexists|]. destruct (IH _ _ _ R') as (i' & E' & R2). rewrite E'. cbn [mbind outcome_bind].
    destruct (take_ready killed n target ready) as [[r l] q]. by exists i'.
Qed.

(** Characters typed one after the other. *)
Fixpoint type_chars (cs : list Z) (q : editor) : bool * editor :=
  match cs with
  | [] => (false, q)
  | c :: cs => let '(w1, q) := type_char c q in let '(w2, q) := type_chars cs q in (w1 || w2, q)
  end.

Lemma consoleintr_spec cs : forall i d q, represents i q -> wfscreen (scr d) -> Forall is_u8 cs ->
  exists i' d', consoleintr cs i d = Ret ((type_chars cs q).1, i', d') /\ represents i' (type_chars cs q).2 /\ wfscreen (scr d').
Proof.
  induction cs as [|c cs IH]; intros i d q R Hs Hc; [by exists i, d|]. apply Forall_cons in Hc as [Hc Hcs]. cbn [consoleintr type_chars].
  rewrite (proj2 (Z.ltb_ge c 0)) by (unfold is_u8 in Hc; lia).
  destruct (consoleintr1_spec c i d q R Hs Hc) as (i1 & d1 & -> & R1 & S1). cbn [mbind outcome_bind].
  destruct (type_char c q) as [w1 q1]. cbn [fst snd] in *. destruct (IH i1 d1 q1 R1 S1 Hcs) as (i2 & d2 & -> & R2 & S2).
  cbn [mbind outcome_bind]. destruct (type_chars cs q1) as [w2 q2]. by exists i2, d2.
Qed.

Lemma represents_init : represents input_init ([], []).
Proof. split; try done; cbn; try lia; unfold is_u32; lia. Qed.

(** C38. The line discipline implements an editor with a queue of finished
    bytes and a line.  The empty ring represents the empty editor; from a ring
    that represents an editor and a well-formed screen, handling any
    characters returns, with the ring representing what the characters do to
    the editor, the readers woken exactly when a line was finished, and the
    screen memory never indexed outside its 25 rows; reading returns what can
    be taken from the finished bytes: it stops after a newline or before an
    end of file, and sleeps only when nothing is finished. *)
Theorem console_editor i q d cs killed n target :
  represents i q -> wfscreen (scr d) -> Forall is_u8 cs ->
  represents input_init ([], []) /\
  (exists i' d', consoleintr cs i d = Ret ((type_chars cs q).1, i', d') /\
     represents i' (type_chars cs q).2 /\ wfscreen (scr d')) /\
  (exists i', consoleread_loop killed n target i = Ret ((take_ready killed n target q.1).1, i') /\
     represents i' ((take_ready killed n target q.1).2, q.2)).
Proof.
  intros R Hs Hc. split; [exact represents_init|]. split; [by apply consoleintr_spec|].
  destruct q as [ready line]. by apply consoleread_loop_spec.
Qed.

(** The user types "lz", rubs out the last letter, and types "s" and enter. *)
Definition demo_display : display := Display [] (Screen (replicate 2000 0) 0).
Definition demo_keys : list Z := [108; 122; 127; 115; 13].

Lemma console_editor_witness :
  exists i' d', consoleintr demo_keys input_init demo_display = Ret (true, i', d') /\ represents i' ([108; 115; 10], []).
Proof.
  assert (K : Forall is_u8 demo_keys) by (repeat constructor; unfold is_u8; lia).
  assert (S : wfscreen (scr demo_display)) by (split; [reflexivity|cbn; lia]).
  destruct (console_editor input_init ([], []) demo_display demo_keys false 0 0 represents_init S K) as (_ & (i' & d' & E & R & _) & _).
  exists i', d'. split; [exact E|exact R].
Defined.
