(* ===== verification/Kbd.v ===== *)
(** * Keyboard and serial input (kernel/kbd.c, kernel/kbd.h, kernel/uart.c)

    The keyboard sends codes of pressed and released keys; [kbdgetc] keeps the
    modifiers and translates codes into characters for the console. *)

From S2P Require Import Prelude Memory Console.

Definition KBS_DIB : Z := 0x01.
Definition SHIFT : Z := 1.
Definition CTL : Z := 2.
Definition ALT : Z := 4.
Definition CAPSLOCK : Z := 8.
Definition NUMLOCK : Z := 16.
Definition SCROLLLOCK : Z := 32.
Definition E0ESC : Z := 64.

(** An array of 256 bytes, given by its beginning and some other elements. *)
Definition keymap (l : list Z) (others : list (Z * Z)) : list Z :=
  foldr (fun '(k, v) m => <[Z.to_nat k := u8 v]> m) (map u8 l ++ replicate (256 - length l) 0) others.

Definition shiftcode : list Z :=
  keymap [] [(0x1D, CTL); (0x2A, SHIFT); (0x36, SHIFT); (0x38, ALT); (0x9D, CTL); (0xB8, ALT)].
Definition togglecode : list Z := keymap [] [(0x3A, CAPSLOCK); (0x45, NUMLOCK); (0x46, SCROLLLOCK)].

Definition normalmap : list Z := keymap
  [0; 27; 49; 50; 51; 52; 53; 54; 55; 56; 57; 48; 45; 61; 8; 9;
   113; 119; 101; 114; 116; 121; 117; 105; 111; 112; 91; 93; 10; 0; 97; 115;
   100; 102; 103; 104; 106; 107; 108; 59; 39; 96; 0; 92; 122; 120; 99; 118;
   98; 110; 109; 44; 46; 47; 0; 42; 0; 32; 0; 0; 0; 0; 0; 0;
   0; 0; 0; 0; 0; 0; 0; 55; 56; 57; 45; 52; 53; 54; 43; 49;
   50; 51; 48; 46]
  [(151, 224); (156, 10); (181, 47); (200, 226); (201, 230); (203, 228); (205, 229); (207, 225); (208, 227); (209, 231); (210, 232); (211, 233)].

Definition shiftmap : list Z := keymap
  [0; 27; 33; 64; 35; 36; 37; 94; 38; 42; 40; 41; 95; 43; 8; 9;
   81; 87; 69; 82; 84; 89; 85; 73; 79; 80; 123; 125; 10; 0; 65; 83;
   68; 70; 71; 72; 74; 75; 76; 58; 34; 126; 0; 124; 90; 88; 67; 86;
   66; 78; 77; 60; 62; 63; 0; 42; 0; 32; 0; 0; 0; 0; 0; 0;
   0; 0; 0; 0; 0; 0; 0; 55; 56; 57; 45; 52; 53; 54; 43; 49;
   50; 51; 48; 46]
  [(151, 224); (156, 10); (181, 47); (200, 226); (201, 230); (203, 228); (205, 229); (207, 225); (208, 227); (209, 231); (210, 232); (211, 233)].

Definition ctlmap : list Z := keymap
  [0; 0; 0; 0; 0; 0; 0; 0; 0; 0; 0; 0; 0; 0; 0; 0;
   17; 23; 5; 18; 20; 25; 21; 9; 15; 16; 0; 0; 13; 0; 1; 19;
   4; 6; 7; 8; 10; 11; 12; 0; 0; 0; 0; 28; 26; 24; 3; 22;
   2; 14; 13; 0; 0; -17]
  [(151, 224); (156, 13); (181, -17); (200, 226); (201, 230); (203, 228); (205, 229); (207, 225); (208, 227); (209, 231); (210, 232); (211, 233)].

Definition charcode : list (list Z) := [normalmap; shiftmap; ctlmap; ctlmap].

(** [kbdgetc] when the status port gives [st] and the data port [data]: the
    character and the new [shift]. *)
Definition kbdgetc (st data shift : Z) : outcome (Z * Z) :=
  if Z.land st KBS_DIB =? 0 then Ret (-1, shift)
  else if data =? 0xE0 then Ret (0, Z.lor shift E0ESC)
  else if negb (Z.land data 0x80 =? 0) then
    let data := if negb (Z.land shift E0ESC =? 0) then data else Z.land data 0x7F in
    s ← aget shiftcode data;
    Ret (0, u32 (Z.land shift (Z.lnot (Z.lor s E0ESC))))
  else
    let esc := negb (Z.land shift E0ESC =? 0) in
    let data := if esc then Z.lor data 0x80 else data in
    let shift := if esc then u32 (Z.land shift (Z.lnot E0ESC)) else shift in
    s ← aget shiftcode data;
    let shift := Z.lor shift s in
    t ← aget togglecode data;
    let shift := Z.lxor shift t in
    m ← aget charcode (Z.land shift (Z.lor CTL SHIFT));
    c ← aget m data;
    let c :=
      if negb (Z.land shift CAPSLOCK =? 0) then
        if (97 <=? c) && (c <=? 122) then c + (65 - 97)
        else if (65 <=? c) && (c <=? 90) then c + (97 - 65)
        else c
      else c in
    Ret (c, shift).

(** The characters that [kbdgetc] gives for what the ports deliver, until the
    controller has nothing. *)
Fixpoint kbd_chars (ports : list (Z * Z)) (shift : Z) : outcome (list Z * Z) :=
  match ports with
  | [] => Ret ([], shift)
  | (st, data) :: ports =>
    '(c, shift) ← kbdgetc st data shift;
    if c <? 0 then Ret ([], shift)
    else '(l, shift) ← kbd_chars ports shift; Ret (c :: l, shift)
  end.

Definition kbdintr (ports : list (Z * Z)) (shift : Z) (i : input) (d : display)
  : outcome (bool * Z * input * display) :=
  '(cs, shift) ← kbd_chars ports shift;
  '(w, i, d) ← consoleintr cs i d;
  Ret (w, shift, i, d).

(** [uartgetc] when the line status register gives [st]. *)
Definition uartgetc (uart : bool) (st data : Z) : Z :=
  if negb uart then -1 else if Z.land st 0x01 =? 0 then -1 else data.

Fixpoint uart_chars (uart : bool) (ports : list (Z * Z)) : list Z :=
  match ports with
  | [] => []
  | (st, data) :: ports => let c := uartgetc uart st data in if c <? 0 then [] else c :: uart_chars uart ports
  end.

Definition uartintr (uart : bool) (ports : list (Z * Z)) (i : input) (d : display) : outcome (bool * input * display) :=
  consoleintr (uart_chars uart ports) i d.

(** ** Every code is translated *)

Definition kbd_ok (st data shift : Z) : bool :=
  match kbdgetc st data shift with
  | Ret (c, shift') => (-1 <=? c) && (c <? 256) && (0 <=? shift') && (shift' <? 128)
  | _ => false
  end.

Lemma kbd_ok_all : forallb (fun data => forallb (fun shift => kbd_ok 1 data shift) (seqZ 0 128)) (seqZ 0 256) = true.
Proof. vm_compute. reflexivity. Qed.

Lemma kbdgetc_ok st data shift : is_u8 data -> 0 <= shift < 128 ->
  exists c shift', kbdgetc st data shift = Ret (c, shift') /\ -1 <= c < 256 /\ 0 <= shift' < 128.
Proof.
  intros Hd Hs. destruct (Z.land st KBS_DIB =? 0) eqn:E; [exists (-1), shift; unfold kbdgetc; rewrite E; split; [done|lia]|].
  assert (K : kbd_ok 1 data shift = true).
  { pose proof (forall_range _ 0 256 kbd_ok_all data) as H. cbv beta in H.
    apply (forall_range (fun shift => kbd_ok 1 data shift) 0 128); [apply H; exact Hd|exact Hs]. }
  unfold kbd_ok, kbdgetc in *. rewrite E. change (Z.land 1 KBS_DIB =? 0) with false in K. cbv iota in K.
  match type of K with match ?o with _ => _ end = true => destruct o as [[c s']|?|?]; [|done..] end.
  exists c, s'. split; [done|]. repeat (apply andb_true_iff in K as [K ?]). lia.
Qed.

Lemma kbd_chars_ok ports : forall shift, Forall (fun p => is_u8 p.2) ports -> 0 <= shift < 128 ->
  exists cs shift', kbd_chars ports shift = Ret (cs, shift') /\ Forall is_u8 cs /\ 0 <= shift' < 128.
Proof.
  induction ports as [|[st data] ports IH]; intros shift Hp Hs; [by exists [], shift|].
  apply Forall_cons in Hp as [Hd Hp]. cbn [kbd_chars snd] in *. destruct (kbdgetc_ok st data shift Hd Hs) as (c & s1 & -> & Hc & H1).
  cbn [mbind outcome_bind]. destruct (Z.ltb_spec c 0); [by exists [], s1|].
  destruct (IH s1 Hp H1) as (cs & s2 & -> & Hcs & H2). cbn [mbind outcome_bind]. exists (c :: cs), s2.
  split; [done|]. split; [|done]. apply Forall_cons. split; [unfold is_u8; lia|done].
Qed.

(** The letter keys with the modifiers. *)
Definition is_char (o : outcome (Z * Z)) (c shift : Z) : bool :=
  match o with Ret (c', shift') => (c' =? c) && (shift' =? shift) | _ => false end.
Lemma is_char_true o c shift : is_char o c shift = true -> o = Ret (c, shift).
Proof. destruct o as [[c' s']|?|?]; [|done..]. intros [->%Z.eqb_eq ->%Z.eqb_eq]%andb_true_iff. done. Qed.

Definition letter_ok (data : Z) : bool :=
  let l := nth (Z.to_nat data) normalmap 0 in
  if (97 <=? l) && (l <=? 122) then
    is_char (kbdgetc 1 data 0) (l) (0) && is_char (kbdgetc 1 data SHIFT) (l - 32) (SHIFT) &&
    is_char (kbdgetc 1 data CTL) (l - 96) (CTL) && is_char (kbdgetc 1 data CAPSLOCK) (l - 32) (CAPSLOCK) &&
    is_char (kbdgetc 1 data (SHIFT + CAPSLOCK)) (l) (SHIFT + CAPSLOCK)
  else true.
Lemma letter_ok_all : forallb letter_ok (seqZ 0 128) = true.
Proof. vm_compute. reflexivity. Qed.

(** C39. Keyboard input is well formed: for every byte the controller delivers
    and every set of modifiers, [kbdgetc] looks up its tables inside their
    bounds, returns -1 or a byte and keeps [shift] a set of the seven flags, so
    an interrupt always passes the line discipline a sequence of characters
    and returns; a letter key gives the letter, with shift or caps lock the
    capital, with both the letter again, and with control the control
    character. *)
Theorem keyboard_input ports shift i q d :
  Forall (fun p => is_u8 p.2) ports -> 0 <= shift < 128 -> represents i q -> wfscreen (scr d) ->
  (exists cs w shift' i' d', kbd_chars ports shift = Ret (cs, shift') /\ Forall is_u8 cs /\ 0 <= shift' < 128 /\
     kbdintr ports shift i d = Ret (w, shift', i', d') /\ represents i' (type_chars cs q).2 /\ wfscreen (scr d')) /\
  forall data l, 0 <= data < 128 -> nth (Z.to_nat data) normalmap 0 = l -> 97 <= l <= 122 ->
    kbdgetc 1 data 0 = Ret (l, 0) /\ kbdgetc 1 data SHIFT = Ret (l - 32, SHIFT) /\
    kbdgetc 1 data CAPSLOCK = Ret (l - 32, CAPSLOCK) /\ kbdgetc 1 data (SHIFT + CAPSLOCK) = Ret (l, SHIFT + CAPSLOCK) /\
    kbdgetc 1 data CTL = Ret (l - 96, CTL).
Proof.
  intros Hp Hs R W. split.
  - destruct (kbd_chars_ok ports shift Hp Hs) as (cs & s1 & E & Hc & H1).
    destruct (consoleintr_spec cs i d q R W Hc) as (i' & d' & E2 & R' & W').
    exists cs, (type_chars cs q).1, s1, i', d'. unfold kbdintr. rewrite E. cbn [mbind outcome_bind]. rewrite E2. done.
  - intros data l Hd <- Hl. pose proof (forall_range _ 0 128 letter_ok_all data Hd) as K. unfold letter_ok in K.
    rewrite (proj2 (Z.leb_le _ _)), (proj2 (Z.leb_le _ _)) in K by lia. cbn [andb] in K.
    repeat (apply andb_true_iff in K as [K ?]). repeat match goal with H : is_char _ _ _ = true |- _ => apply is_char_true in H end. done.
Qed.

(** Shift down, "a", shift up, "b": the characters are "A" and "b". *)
Definition demo_ports : list (Z * Z) := [(1, 0x2A); (1, 0x1E); (1, 0xAA); (1, 0x30); (0, 0)].
Lemma keyboard_input_witness :
  exists cs w shift' i' d', kbd_chars demo_ports 0 = Ret (cs, shift') /\
    kbdintr demo_ports 0 input_init demo_display = Ret (w, shift', i', d') /\ represents i' (type_chars cs ([], [])).2.
Proof.
  assert (P : Forall (fun p => is_u8 p.2) demo_ports) by (repeat constructor; cbn; lia).
  assert (S : wfscreen (scr demo_display)) by (split; [reflexivity|cbn; lia]).
  destruct (keyboard_input demo_ports 0 input_init ([], []) demo_display P ltac:(lia) represents_init S)
    as [(cs & w & s' & i' & d' & E1 & _ & _ & E2 & R & _) _].
  exists cs, w, s', i', d'. split; [exact E1|]. split; [exact E2|exact R].
Defined.
