(* ===== verification/Ulib.v ===== *)
(** * User library: strings, numbers and formats (user/ulib.c, user/printf.c)

    Strings are lists of bytes without their terminator; [gets] reads from a
    sequence of results of [read].  The theorems relate printing and reading
    numbers, and the formats of the library to those of the kernel. *)

From S2P Require Import Prelude Memory Console.

(** ** Strings *)

Definition strcmp (p q : list Z) : Z :=
  (fix go (p q : list Z) : Z :=
    match p, q with
    | [], _ => - u8 (hd 0 q)
    | c :: p', _ => if c =? hd 0 q then go p' (tl q) else u8 c - u8 (hd 0 q)
    end) p q.

(** The rest of the string from the first [c] on. *)
Fixpoint strchr (s : list Z) (c : Z) : option (list Z) :=
  match s with
  | [] => None
  | x :: s' => if x =? c then Some s else strchr s' c
  end.

(** [while('0' <= *s && *s <= '9') n = n*10 + *s++ - '0'] *)
Fixpoint atoi_loop (s : list Z) (n : Z) : Z :=
  match s with
  | c :: s => if (48 <=? c) && (c <=? 57) then atoi_loop s (i32 (n * 10 + c - 48)) else n
  | [] => n
  end.
Definition atoi (s : list Z) : Z := atoi_loop s 0.

(** [while(n-- > 0) *dst++ = *src++], whatever the overlap. *)
Fixpoint umemmove (n : nat) (m : memory) (dst src : Z) : memory :=
  match n with
  | O => m
  | S n => umemmove n (wr8 m dst (rd8 m src)) (dst + 1) (src + 1)
  end.

(** [gets] with room for [max] bytes: the line and the input that is left.  An
    element of the input is a byte that [read] delivers; the end of the list
    is a [read] that returns less than 1. *)
Fixpoint gets_loop (room : nat) (inp : list Z) : list Z * list Z :=
  match room, inp with
  | S room, c :: inp =>
    if (c =? 10) || (c =? 13) then ([c], inp)
    else let '(l, rest) := gets_loop room inp in (c :: l, rest)
  | _, _ => ([], inp)
  end.
Definition gets (max : Z) (inp : list Z) : list Z * list Z := gets_loop (Z.to_nat (max - 1)) inp.

(** ** [printf] *)

Definition DIGITS : list Z := [48; 49; 50; 51; 52; 53; 54; 55; 56; 57; 65; 66; 67; 68; 69; 70].
Definition uprintint : Z -> Z -> bool -> outcome (list Z) := printint_with DIGITS.

(** [state]: the last character was a percent sign. *)
Fixpoint printf (fmt : list Z) (state : bool) (ap : list arg) : outcome (list Z) :=
  match fmt with
  | [] => Ret []
  | c :: fmt =>
    if negb state then
      if c =? 37 then printf fmt true ap else l ← printf fmt false ap; Ret (c :: l)
    else if c =? 100 then
      match ap with
      | Word w :: ap => n ← uprintint (i32 w) 10 true; l ← printf fmt false ap; Ret (n ++ l)
      | _ => Undef "argument"
      end
    else if (c =? 120) || (c =? 112) then
      match ap with
      | Word w :: ap => n ← uprintint (i32 w) 16 false; l ← printf fmt false ap; Ret (n ++ l)
      | _ => Undef "argument"
      end
    else if c =? 115 then
      match ap with
      | Str s :: ap => l ← printf fmt false ap; Ret (default null_text s ++ l)
      | _ => Undef "argument"
      end
    else if c =? 99 then
      match ap with
      | Word w :: ap => l ← printf fmt false ap; Ret (u8 w :: l)
      | _ => Undef "argument"
      end
    else if c =? 37 then l ← printf fmt false ap; Ret (c :: l)
    else l ← printf fmt false ap; Ret (37 :: c :: l)
  end.

(** ** Digits *)

(** The value of a digit, and of digits with the least significant first. *)
Definition digit_value (c : Z) : Z := if c <=? 57 then c - 48 else if c <=? 70 then c - 55 else c - 87.
Definition number (base : Z) (l : list Z) : Z := foldr (fun c n => digit_value c + base * n) 0 l.

(** A table of digits. *)
Definition digit_table (dig : list Z) : Prop :=
  length dig = 16%nat /\ forall i c, dig !! i = Some c -> digit_value c = Z.of_nat i /\ is_u8 c /\ ((i < 10)%nat -> 48 <= c <= 57).

Lemma table_ok dig : forallb (fun i => let c := nth i dig 0 in
    (digit_value c =? Z.of_nat i) && (0 <=? c) && (c <? 256) && ((10 <=? i)%nat || (48 <=? c) && (c <=? 57))) (seq 0 16) = true ->
  length dig = 16%nat -> digit_table dig.
Proof.
  intros H Hl. split; [done|]. intros i c Hi. rewrite forallb_forall in H. specialize (H i).
  rewrite (nth_lookup_Some _ _ _ _ Hi) in H. pose proof (lookup_lt_Some _ _ _ Hi).
  assert (K : In i (seq 0 16)) by (apply in_seq; lia). specialize (H K). cbv zeta in H.
  apply andb_true_iff in H as [H H4]. apply andb_true_iff in H as [H H3]. apply andb_true_iff in H as [H1 H2].
  apply Z.eqb_eq in H1. apply Z.leb_le in H2. apply Z.ltb_lt in H3. unfold is_u8. split; [done|]. split; [lia|]. intros Hn.
  apply orb_true_iff in H4 as [H4|H4]; [apply Nat.leb_le in H4; lia|]. apply andb_true_iff in H4 as [H4 H5]. lia.
Qed.

Lemma digits_table : digit_table digits.
Proof. apply table_ok; reflexivity. Qed.
Lemma DIGITS_table : digit_table DIGITS.
Proof. apply table_ok; reflexivity. Qed.

(** All characters of a decimal number are digits. *)
Definition decimal (l : list Z) : Prop := Forall (fun c => 48 <= c <= 57) l.

Lemma digit_loop_spec dig base : digit_table dig -> 2 <= base <= 16 ->
  forall k fuel x, (1 <= k <= fuel)%nat -> 0 <= x < base ^ Z.of_nat k ->
  exists l, digit_loop fuel dig x base = Ret l /\ number base l = x /\ (1 <= length l <= k)%nat /\ (base <= 10 -> decimal l).
Proof.
  intros [Hl Ht] Hb. induction k as [|k IH]; intros fuel x Hk Hx; [lia|]. destruct fuel as [|fuel]; [lia|]. cbn [digit_loop].
  pose proof (Z.mod_pos_bound x base ltac:(lia)) as Hm.
  destruct (lookup_lt_is_Some_2 dig (Z.to_nat (x mod base))) as [c Hc]; [lia|].
  destruct (Ht _ _ Hc) as (V & _ & Dc). rewrite Z2Nat.id in V by lia.
  rewrite (proj2 (aget_Ret _ _ c)) by (split; [lia|done]). cbn [mbind outcome_bind].
  pose proof (Z.div_mod x base ltac:(lia)) as E.
  destruct (Z.eqb_spec (x / base) 0) as [E0|E0].
  - exists [c]. split; [done|]. cbn [number foldr length]. split; [lia|]. split; [lia|]. intros Hd. apply Forall_singleton, Dc. lia.
  - assert (Hk0 : (1 <= k)%nat).
    { destruct k; [|lia]. change (base ^ Z.of_nat 1) with (base ^ 1) in Hx. rewrite Z.pow_1_r in Hx. by rewrite Z.div_small in E0 by lia. }
    destruct (IH fuel (x / base)) as (l & -> & N & L & Dl); [lia| |].
    { split; [apply Z.div_pos; lia|]. apply Z.div_lt_upper_bound; [lia|]. rewrite Nat2Z.inj_succ, Z.pow_succ_r in Hx by lia. lia. }
    cbn [mbind outcome_bind]. exists (c :: l). split; [done|]. cbn [number foldr length]. fold (number base l). split; [lia|].
    split; [lia|]. intros Hd. apply Forall_cons. split; [apply Dc; lia|by apply Dl].
Qed.

(** Reading a printed number back: an optional sign, then digits, the most
    significant first. *)
Definition read_number (base : Z) (s : list Z) : Z :=
  match s with
  | c :: s' => if c =? 45 then - number base (rev s') else number base (rev s)
  | [] => 0
  end.

Lemma printint_spec dig xx : digit_table dig -> is_i32 xx ->
  (exists l, printint_with dig xx 10 true = Ret ((if xx <? 0 then [45] else []) ++ rev l) /\
     number 10 l = Z.abs xx /\ (1 <= length l <= 10)%nat /\ decimal l) /\
  (exists l, printint_with dig xx 16 false = Ret (rev l) /\ number 16 l = u32 xx /\ (1 <= length l <= 8)%nat).
Proof.
  intros Hd Hx. unfold is_i32 in Hx. pose proof (u32_range xx) as Hu. split.
  - unfold printint_with. cbn [andb]. set (x := if xx <? 0 then _ else _).
    assert (Ex : x = Z.abs xx) by (unfold x; destruct (Z.ltb_spec xx 0); rewrite u32_small by (unfold is_u32; lia); lia).
    destruct (digit_loop_spec dig 10 Hd ltac:(lia) 10 32 x ltac:(lia)) as (l & -> & N & L & Dl).
    { rewrite Ex. change (10 ^ Z.of_nat 10) with 10000000000. lia. }
    cbn [mbind outcome_bind]. exists l. split; [|split; [lia|split; [lia|apply Dl; lia]]].
    destruct (xx <? 0); rewrite ?length_app; cbn [length]; rewrite (proj2 (Nat.leb_le _ _)) by lia; [|done].
    by rewrite rev_app_distr.
  - unfold printint_with. cbn [andb].
    destruct (digit_loop_spec dig 16 Hd ltac:(lia) 8 32 (u32 xx) ltac:(lia)) as (l & -> & N & L & _); [exact Hu|].
    cbn [mbind outcome_bind]. exists l. rewrite (proj2 (Nat.leb_le _ _)) by lia. done.
Qed.

Lemma number_app base l c : number base (l ++ [c]) = number base l + base ^ Z.of_nat (length l) * digit_value c.
Proof.
  induction l as [|x l IH]; [simpl; lia|]. cbn [app number foldr length]. fold (number base (l ++ [c])) (number base l).
  rewrite IH, Nat2Z.inj_succ, Z.pow_succ_r by lia. lia.
Qed.

Lemma atoi_decimal l : forall n, decimal l -> 0 <= n -> n * 10 ^ Z.of_nat (length l) + number 10 l < 2 ^ 31 ->
  atoi_loop (rev l) n = n * 10 ^ Z.of_nat (length l) + number 10 l.
Proof.
  induction l as [|c l IH] using rev_ind; intros n Hd Hn Hb; [simpl; lia|]. apply Forall_app in Hd as [Hd Hc]. apply Forall_cons in Hc as [Hc _].
  rewrite rev_app_distr. cbn [rev app atoi_loop]. rewrite (proj2 (Z.leb_le 48 c)), (proj2 (Z.leb_le c 57)) by lia. cbn [andb].
  rewrite number_app, length_app, Nat.add_1_r, Nat2Z.inj_succ, Z.pow_succ_r in * by lia.
  assert (V : digit_value c = c - 48) by (unfold digit_value; by rewrite (proj2 (Z.leb_le c 57)) by lia). rewrite V in *.
  assert (P : 1 <= 10 ^ Z.of_nat (length l)) by (apply (Z.pow_le_mono_r 10 0); lia).
  assert (N0 : 0 <= number 10 l).
  { clear -Hd. induction Hd as [|x l Hx Hd IH]; [done|]. cbn [number foldr]. fold (number 10 l). unfold digit_value. rewrite (proj2 (Z.leb_le x 57)) by lia. lia. }
  rewrite i32_small by (unfold is_i32; nia). rewrite IH by (done || nia). lia.
Qed.

Lemma digit_loop_ext dig dig' base fuel : forall x, 0 < base -> (forall i, 0 <= i < base -> aget dig i = aget dig' i) ->
  digit_loop fuel dig x base = digit_loop fuel dig' x base.
Proof.
  induction fuel as [|fuel IH]; intros x Hb H; [done|]. cbn [digit_loop]. rewrite (H (x mod base)) by (apply Z.mod_pos_bound; lia).
  destruct (aget dig' (x mod base)); cbn [mbind outcome_bind]; [|done..]. case_match; [done|]. by rewrite IH.
Qed.

(** The tables agree on the decimal digits. *)
Lemma uprintint_decimal xx : uprintint xx 10 true = printint xx 10 true.
Proof.
  unfold uprintint, printint, printint_with. rewrite (digit_loop_ext DIGITS digits); [done|lia|].
  intros i Hi. assert (K : forallb (fun i => bool_decide (nth (Z.to_nat i) DIGITS 0 = nth (Z.to_nat i) digits 0)) (seqZ 0 10) = true) by reflexivity.
  pose proof (forall_range _ 0 10 K i Hi) as E. apply bool_decide_eq_true in E.
  assert (A : forall l, length l = 16%nat -> aget l i = Ret (nth (Z.to_nat i) l 0)).
  { intros l Hl. apply aget_Ret. split; [lia|]. destruct (lookup_lt_is_Some_2 l (Z.to_nat i)) as [y Hy]; [lia|]. by rewrite nth_lookup, Hy. }
  by rewrite !A, E.
Qed.

(** C40. Numbers survive printing and reading: [printint] of the kernel and of
    the library return for every 32-bit number, the smallest included, with at
    most 11 characters, the same ones in decimal; reading them back gives the
    number, [atoi] gives it when it is not negative, and in hexadecimal the
    unsigned value comes back. *)
Theorem number_roundtrip xx : is_i32 xx ->
  exists s h h', printint xx 10 true = Ret s /\ uprintint xx 10 true = Ret s /\ (length s <= 11)%nat /\
    read_number 10 s = xx /\ (0 <= xx -> atoi s = xx) /\
    printint xx 16 false = Ret h /\ uprintint xx 16 false = Ret h' /\
    number 16 (rev h) = u32 xx /\ number 16 (rev h') = u32 xx.
Proof.
  intros Hx. destruct (printint_spec digits xx digits_table Hx) as [(l & E & N & L & Dl) (h & Eh & Nh & _)].
  destruct (printint_spec DIGITS xx DIGITS_table Hx) as [_ (h' & Eh' & Nh' & _)].
  exists ((if xx <? 0 then [45] else []) ++ rev l), (rev h), (rev h'). pose proof (uprintint_decimal xx) as U.
  unfold printint, uprintint in *. rewrite E in *. rewrite U, Eh, Eh', !rev_involutive. split_and!; try reflexivity; try assumption.
  - rewrite length_app, length_rev. destruct (xx <? 0); cbn [length]; lia.
  - destruct (Z.ltb_spec xx 0).
    + cbn [app read_number]. rewrite Z.eqb_refl, rev_involutive. lia.
    + cbn [app]. destruct (rev l) as [|c s] eqn:Er; [apply (f_equal length) in Er; rewrite length_rev in Er; cbn in Er; lia|].
      assert (Hc : decimal (c :: s)) by (rewrite <- Er; by apply Forall_rev). apply Forall_cons in Hc as [Hc _].
      unfold read_number. rewrite (proj2 (Z.eqb_neq c 45)) by lia. rewrite <- Er, rev_involutive. lia.
  - intros H0. rewrite (proj2 (Z.ltb_ge xx 0)) by lia. cbn [app]. unfold atoi, is_i32 in *. rewrite atoi_decimal by (done || lia). lia.
Qed.

Lemma number_roundtrip_witness : exists s, printint (-2147483648) 10 true = Ret s /\ read_number 10 s = -2147483648.
Proof.
  destruct (number_roundtrip (-2147483648)) as (s & h & h' & E & _ & _ & R & _); [unfold is_i32; lia|].
  exists s. split; [exact E|exact R].
Defined.

(** ** The two formatters *)

#[local] Opaque printint_with.

(** A format without the directives [%x], [%p] and [%c], in which they differ. *)
Fixpoint plain (fmt : list Z) (state : bool) : bool :=
  match fmt with
  | [] => true
  | c :: fmt =>
    if state then negb ((c =? 120) || (c =? 112) || (c =? 99)) && plain fmt false
    else plain fmt (c =? 37)
  end.

(** On such formats the library prints what the kernel prints. *)
Lemma printf_cprintf n : forall fmt ap, (length fmt <= n)%nat -> plain fmt false = true -> printf fmt false ap = cprintf fmt ap.
Proof.
  induction n as [|n IH]; intros [|c fmt] ap Hn Hp; cbn [length] in Hn; try reflexivity; [lia|]. cbn [printf cprintf plain negb] in *.
  destruct (c =? 37) eqn:Ec; cbn [negb]; [|rewrite IH by (lia || exact Hp); reflexivity].
  destruct fmt as [|d fmt]; [done|]. cbn [printf plain length negb] in *. apply andb_true_iff in Hp as [Hd Hp].
  apply negb_true_iff, orb_false_iff in Hd as [Hxp Hc]. rewrite Hxp, Hc.
  assert (IH' : forall ap, printf fmt false ap = cprintf fmt ap) by (intros; apply IH; [lia|exact Hp]). clear IH.
  destruct (d =? 100).
  { destruct ap as [|[w|s] ap]; [reflexivity| |reflexivity]. rewrite IH'. pose proof (uprintint_decimal (i32 w)) as U.
    unfold uprintint, printint in *. rewrite U. reflexivity. }
  destruct (d =? 115).
  { destruct ap as [|[w|s] ap]; [reflexivity|reflexivity|]. rewrite IH'. reflexivity. }
  rewrite IH'. destruct (Z.eqb_spec d 37) as [->|]; reflexivity.
Qed.
