(* ===== verification/Umalloc.v ===== *)
(** * The user-level allocator (user/umalloc.c)

    The free blocks form a circular list, threaded through the blocks and
    sorted by address, that starts at the static header [base].  The memory of
    the process is a byte memory of which the first [brk] bytes are mapped;
    every access to a header is checked against it.  The theorem is about all
    runs of a program that allocates, frees and writes into its own blocks. *)

From stdpp Require Import sorting.
From S2P Require Import Prelude Memory Vm.

(** ** State *)

Record ustate := UState { um : memory; brk : Z; freep : Z }.
Definition set_um m st := UState m (brk st) (freep st).
Definition set_freep v st := UState (um st) (brk st) v.

(** The size of the union [header]: two words. *)
Definition HDR : Z := 8.

(** Reads and writes of a word of the process; an unmapped address faults. *)
Definition uget (st : ustate) (a : Z) : outcome Z :=
  if decide (0 <= a /\ a + 4 <= brk st) then Ret (load32 (um st) a) else Undef "page fault".
Definition uput (a v : Z) (st : ustate) : outcome ustate :=
  if decide (0 <= a /\ a + 4 <= brk st) then Ret (set_um (store32 (um st) a v) st) else Undef "page fault".

(** The fields [s.ptr] and [s.size] of a header. *)
Definition get_ptr (st : ustate) (p : Z) : outcome Z := uget st p.
Definition get_size (st : ustate) (p : Z) : outcome Z := uget st (p + 4).
Definition put_ptr (p v : Z) (st : ustate) : outcome ustate := uput p v st.
Definition put_size (p v : Z) (st : ustate) : outcome ustate := uput (p + 4) v st.

(** The number of rounds a walk around the list may need: every block has a
    header of its own below [brk]. *)
Definition rounds (st : ustate) : nat := Z.to_nat (brk st / HDR) + 1.

(** ** [free] *)

Fixpoint free_loop (fuel : nat) (st : ustate) (bp p : Z) : outcome Z :=
  match fuel with
  | O => Undef "loop bound"
  | S fuel =>
    nx ← get_ptr st p;
    if (p <? bp) && (bp <? nx) then Ret p
    else if (nx <=? p) && ((p <? bp) || (bp <? nx)) then Ret p
    else free_loop fuel st bp nx
  end.

(** The block [bp] joins its upper neighbour, or points to it. *)
Definition join_upper (bp p : Z) (st : ustate) : outcome ustate :=
  nx ← get_ptr st p;
  bsz ← get_size st bp;
  if u32 (bp + HDR * bsz) =? nx then
    nsz ← get_size st nx;
    st ← put_size bp (u32 (bsz + nsz)) st;
    nx ← get_ptr st p;
    nn ← get_ptr st nx;
    put_ptr bp nn st
  else put_ptr bp nx st.

(** The block [p] joins [bp], or points to it. *)
Definition join_lower (bp p : Z) (st : ustate) : outcome ustate :=
  psz ← get_size st p;
  if u32 (p + HDR * psz) =? bp then
    bsz ← get_size st bp;
    st ← put_size p (u32 (psz + bsz)) st;
    bn ← get_ptr st bp;
    put_ptr p bn st
  else put_ptr p bp st.

Definition free (ap : Z) (st : ustate) : outcome ustate :=
  let bp := u32 (ap - HDR) in
  p ← free_loop (rounds st) st bp (freep st);
  st ← join_upper bp p st;
  st ← join_lower bp p st;
  Ret (set_freep p st).

(** ** [morecore] and [malloc]

    The system call [sbrk] of a process of [brk] bytes, as [growproc] of the
    kernel decides it: [grant brk n] tells whether there are pages for [n] more
    bytes.  [base] is the address of the static header. *)

Definition NOMEM : Z := 2 ^ 32 - 1.

Definition grow (grant : Z -> Z -> bool) (sz n : Z) : Z :=
  if 0 <? n then
    if (USERTOP <? u32 (sz + n)) || negb (grant sz n) then 0
    else if u32 (sz + n) <? sz then sz else u32 (sz + n)
  else if n <? 0 then
    if sz <=? u32 (sz + n) then sz else u32 (sz + n)
  else sz.

Definition sbrk (grant : Z -> Z -> bool) (n : Z) (st : ustate) : Z * ustate :=
  let n := i32 n in
  let sz := grow grant (brk st) n in
  if negb (n =? 0) && (sz =? 0) then (NOMEM, st) else (brk st, UState (um st) sz (freep st)).

Definition morecore (grant : Z -> Z -> bool) (nu : Z) (st : ustate) : outcome (Z * ustate) :=
  let nu := if nu <? 4096 then 4096 else nu in
  let '(p, st) := sbrk grant (u32 (nu * HDR)) st in
  if p =? NOMEM then Ret (0, st)
  else
    st ← put_size p nu st;
    st ← free (u32 (p + HDR)) st;
    Ret (freep st, st).

(** The block [p] is large enough: take all of it or its tail. *)
Definition carve (nunits prevp p size : Z) (st : ustate) : outcome (Z * ustate) :=
  if size =? nunits then
    nx ← get_ptr st p;
    st ← put_ptr prevp nx st;
    Ret (u32 (p + HDR), set_freep prevp st)
  else
    st ← put_size p (u32 (size - nunits)) st;
    rest ← get_size st p;
    let p := u32 (p + HDR * rest) in
    st ← put_size p nunits st;
    Ret (u32 (p + HDR), set_freep prevp st).

Fixpoint malloc_loop (fuel : nat) (grant : Z -> Z -> bool) (nunits prevp p : Z) (st : ustate)
  : outcome (Z * ustate) :=
  match fuel with
  | O => Undef "loop bound"
  | S fuel =>
    size ← get_size st p;
    if nunits <=? size then carve nunits prevp p size st
    else if p =? freep st then
      '(hp, st) ← morecore grant nunits st;
      if hp =? 0 then Ret (0, st)
      else nx ← get_ptr st hp; malloc_loop fuel grant nunits hp nx st
    else nx ← get_ptr st p; malloc_loop fuel grant nunits p nx st
  end.

Definition units (nbytes : Z) : Z := u32 (nbytes + HDR - 1) / HDR + 1.

Definition malloc (grant : Z -> Z -> bool) (base nbytes : Z) (st : ustate) : outcome (Z * ustate) :=
  let nunits := units nbytes in
  st ← (if freep st =? 0 then
          st ← put_ptr base base (set_freep base st);
          put_size base 0 st
        else Ret st);
  let prevp := freep st in
  p ← get_ptr st prevp;
  malloc_loop (rounds st + rounds st + 4) grant nunits prevp p st.

(** ** The list of free blocks

    A block is an address and a number of units; [l] lists the free blocks
    after [base]. *)

Abbreviation block := (Z * Z)%type.
Definition bend (b : block) : Z := b.1 + 8 * b.2.
Definition inb (b : block) (x : Z) : Prop := b.1 <= x < bend b.
Definition covers (l : list block) (x : Z) : Prop := exists b, b ∈ l /\ inb b x.
Definition before (b c : block) : Prop := bend b < c.1.
Definition apart (b c : block) : Prop := bend b <= c.1 \/ bend c <= b.1.

Definition hd_addr (l : list block) (e : Z) : Z := match l with [] => e | b :: _ => b.1 end.
Fixpoint chain (m : memory) (l : list block) (e : Z) : Prop :=
  match l with
  | [] => True
  | b :: l' => load32 m b.1 = hd_addr l' e /\ load32 m (b.1 + 4) = b.2 /\ chain m l' e
  end.

Record rep (base : Z) (st : ustate) (l al : list block) : Prop := {
  r_base : 0 < base /\ base + 8 <= brk st <= USERTOP;
  r_in : forall b, b ∈ l \/ b ∈ al -> base + 8 <= b.1 /\ 1 <= b.2 /\ bend b <= brk st;
  r_sorted : StronglySorted before l;
  r_apart : forall x c, covers l x -> c ∈ al -> ~ inb c x;
  r_live : StronglySorted apart al;
  r_chain : chain (um st) ((base, 0) :: l) base;
  r_sizes : forall b, b ∈ al -> load32 (um st) (b.1 + 4) = b.2;
  r_freep : freep st ∈ base :: l.*1 }.

(** What an operation may change: the headers of the free list, and the free
    blocks [l]. *)
Definition frame (base : Z) (l : list block) (m m' : memory) : Prop :=
  forall x, ~ (base <= x < base + 8) -> ~ covers l x -> rd8 m' x = rd8 m x.

Lemma chain_app m l1 l2 e : chain m (l1 ++ l2) e <-> chain m l1 (hd_addr l2 e) /\ chain m l2 e.
Proof.
  induction l1 as [|b l1 IH]; simpl; [tauto|]. rewrite IH.
  assert (hd_addr (l1 ++ l2) e = hd_addr l1 (hd_addr l2 e)) as -> by (by destruct l1). tauto.
Qed.

Lemma nodes_agree m m' l e :
  (forall c, c ∈ l -> load32 m' c.1 = load32 m c.1 /\ load32 m' (c.1 + 4) = load32 m (c.1 + 4)) ->
  chain m l e -> chain m' l e.
Proof.
  induction l as [|b l IH]; simpl; [done|]. intros E (H1 & H2 & H3).
  destruct (E b) as [-> ->]; [left|]. split_and!; auto. apply IH; [|done]. intros c Hc. apply E. by right.
Qed.

Lemma chain_store m a v l e :
  (forall c, c ∈ l -> a + 4 <= c.1 \/ c.1 + 8 <= a) -> chain m l e -> chain (store32 m a v) l e.
Proof.
  intros E. apply nodes_agree. intros c Hc. specialize (E c Hc). rewrite !load32_store32_ne by lia. done.
Qed.

Lemma chain_node m l e i c :
  chain m l e -> l !! i = Some c -> load32 m c.1 = hd_addr (drop (S i) l) e /\ load32 m (c.1 + 4) = c.2.
Proof.
  revert i. induction l as [|b l IH]; intros i; [done|]. intros (H1 & H2 & H3).
  destruct i as [|i]; simpl; [intros [= <-]; rewrite drop_0; done|]. by apply IH.
Qed.

Lemma uget_ok st a : 0 <= a -> a + 4 <= brk st -> uget st a = Ret (load32 (um st) a).
Proof. intros. unfold uget. by rewrite decide_True. Qed.
Lemma uput_ok st a v : 0 <= a -> a + 4 <= brk st -> uput a v st = Ret (set_um (store32 (um st) a v) st).
Proof. intros. unfold uput. by rewrite decide_True. Qed.

Lemma sorted_lookup {A} (R : A -> A -> Prop) l i j b c :
  StronglySorted R l -> (i < j)%nat -> l !! i = Some b -> l !! j = Some c -> R b c.
Proof.
  intros HS. revert i j. induction HS as [|a l HS IH Ha]; intros i j Hij Hi Hj; [done|].
  destruct j as [|j]; [lia|]. destruct i as [|i]; simpl in *; [|by apply (IH i j); [lia|..]].
  inversion Hi; subst. rewrite Forall_forall in Ha. apply Ha. by eapply list_elem_of_lookup_2.
Qed.

Section Nodes.
Context (base : Z) (st : ustate) (l al : list block) (H : rep base st l al).
Abbreviation N := ((base, 0) :: l).

Lemma node_range c : c ∈ N -> base <= c.1 /\ 0 <= c.2 /\ c.1 + 8 <= brk st /\ bend c <= brk st.
Proof.
  pose proof (r_base _ _ _ _ H). intros [->|Hc]%elem_of_cons; [unfold bend; simpl; lia|].
  destruct (r_in _ _ _ _ H c (or_introl Hc)). unfold bend in *. lia.
Qed.

Lemma node_sorted i j b c :
  (i < j)%nat -> N !! i = Some b -> N !! j = Some c -> b.1 + 8 <= c.1 /\ bend b < c.1 /\ base + 8 <= c.1 /\ 1 <= c.2.
Proof.
  intros Hij Hi Hj. destruct j as [|j]; [lia|]. simpl in Hj.
  destruct (r_in _ _ _ _ H c (or_introl (list_elem_of_lookup_2 _ _ _ Hj))).
  destruct i as [|i]; simpl in Hi; [inversion Hi; subst; unfold bend; simpl; lia|].
  destruct (r_in _ _ _ _ H b (or_introl (list_elem_of_lookup_2 _ _ _ Hi))).
  assert (before b c) by (eapply sorted_lookup; [apply H|..]; [|done..]; lia). unfold before, bend in *. lia.
Qed.

Lemma node_address (i : nat) c : N !! i = Some c -> base + 8 * Z.of_nat i <= c.1.
Proof.
  revert c. induction i as [|i IH]; intros c Hi; [inversion Hi; subst; simpl; lia|].
  destruct (lookup_lt_is_Some_2 N i) as [b Hb]; [apply lookup_lt_Some in Hi; lia|].
  specialize (IH b Hb). destruct (node_sorted i (S i) b c); [lia|done..|]. lia.
Qed.

Lemma nodes_bound : (length N < rounds st)%nat.
Proof.
  destruct (lookup_lt_is_Some_2 N (length l)) as [c Hc]; [simpl; lia|].
  pose proof (node_address _ _ Hc). destruct (node_range c (list_elem_of_lookup_2 _ _ _ Hc)) as (_ & _ & Hc' & _).
  pose proof (r_base _ _ _ _ H). unfold rounds, HDR. simpl length.
  assert (Z.of_nat (length l) + 1 <= brk st / 8) by dm. lia.
Qed.

Lemma get_next i c :
  N !! i = Some c -> get_ptr st c.1 = Ret (hd_addr (drop (S i) N) base) /\ get_size st c.1 = Ret c.2.
Proof.
  intros Hi. destruct (node_range c (list_elem_of_lookup_2 _ _ _ Hi)). pose proof (r_base _ _ _ _ H).
  destruct (chain_node _ _ _ _ _ (r_chain _ _ _ _ H) Hi) as [E1 E2].
  unfold get_ptr, get_size. rewrite !uget_ok by lia. by rewrite E1, E2.
Qed.

Lemma next_inner i c : N !! S i = Some c -> hd_addr (drop (S i) N) base = c.1.
Proof. intros Hi. by rewrite (drop_S _ _ _ Hi). Qed.
Lemma next_last i : (length N <= S i)%nat -> hd_addr (drop (S i) N) base = base.
Proof. intros Hi. by rewrite drop_ge. Qed.

(** ** Searching the place of a block *)

Definition dist (i t : nat) : nat := if decide (i <= t)%nat then (t - i)%nat else (length N - i + t)%nat.

Lemma node_side bp t pt i c :
  N !! t = Some pt -> pt.1 < bp -> (forall c, N !! S t = Some c -> bp < c.1) -> N !! i = Some c ->
  if decide (i <= t)%nat then c.1 < bp else bp < c.1.
Proof.
  intros Ht Hp Hn Hi. pose proof (lookup_lt_Some _ _ _ Hi). case_decide.
  - destruct (decide (i = t)) as [->|]; [rewrite Ht in Hi; by inversion Hi; subst|].
    destruct (node_sorted i t c pt); [lia|done..|]. lia.
  - destruct (lookup_lt_is_Some_2 N (S t)) as [e He]; [lia|]. specialize (Hn e He).
    destruct (decide (S t = i)) as [<-|]; [rewrite Hi in He; by inversion He; subst|].
    destruct (node_sorted (S t) i e c); [lia|done..|]. lia.
Qed.

Lemma free_loop_spec bp t pt :
  N !! t = Some pt -> pt.1 < bp -> (forall c, N !! S t = Some c -> bp < c.1) ->
  forall fuel i c, N !! i = Some c -> (dist i t < fuel)%nat -> free_loop fuel st bp c.1 = Ret pt.1.
Proof.
  intros Ht Hp Hn. induction fuel as [|fuel IH]; [lia|]. intros i c Hi Hd. cbn [free_loop].
  destruct (get_next i c Hi) as [-> _]. cbn [mbind outcome_bind].
  pose proof (lookup_lt_Some _ _ _ Hi) as Li. pose proof (lookup_lt_Some _ _ _ Ht) as Lt.
  destruct (node_range pt (list_elem_of_lookup_2 _ _ _ Ht)).
  destruct (node_range c (list_elem_of_lookup_2 _ _ _ Hi)).
  pose proof (node_side bp t pt i c Ht Hp Hn Hi) as Si.
  assert (i = t -> c = pt) as Eq by (intros ->; congruence).
  destruct (decide (S i < length N)%nat) as [Hin|Hout].
  - destruct (lookup_lt_is_Some_2 N (S i) Hin) as [d Hd']. rewrite (next_inner _ _ Hd').
    destruct (node_sorted i (S i) c d) as (S1 & _); [lia|done..|].
    pose proof (node_side bp t pt (S i) d Ht Hp Hn Hd') as Sd.
    destruct (Z.leb_spec d.1 c.1); [lia|]. cbn [andb].
    destruct (decide (i = t)) as [E|Ne].
    { rewrite (Eq E) in *. repeat case_decide; try lia. do 2 (zcase; try lia). done. }
    replace ((c.1 <? bp) && (bp <? d.1)) with false by (repeat case_decide; try lia; do 2 (zcase; try lia); done).
    apply (IH (S i)); [done|]. unfold dist in *. repeat case_decide; lia.
  - rewrite next_last by lia. destruct (Z.ltb_spec bp base); [lia|]. rewrite andb_false_r, orb_false_r.
    destruct (Z.leb_spec base c.1); [|lia]. cbn [andb]. destruct (decide (i = t)) as [E|Ne].
    { rewrite (Eq E). zcase; [done|lia]. }
    zcase; [case_decide; lia|]. apply (IH O (base, 0)); [done|]. unfold dist in *. repeat case_decide; lia.
Qed.
End Nodes.

(** ** Joining neighbours *)

Definition glue (b : block) (l : list block) : list block :=
  match l with
  | c :: l' => if bend b =? c.1 then (b.1, b.2 + c.2) :: l' else b :: l
  | [] => [b]
  end.

Lemma hd_glue b l e : hd_addr (glue b l) e = b.1.
Proof. destruct l as [|c l]; simpl; [done|]. by zcase. Qed.

Lemma covers_cons b l x : covers (b :: l) x <-> inb b x \/ covers l x.
Proof.
  unfold covers. split.
  - intros (c & [->|Hc]%elem_of_cons & Hx); eauto.
  - intros [Hx|(c & Hc & Hx)]; [exists b|exists c]; split; auto; [left|by right].
Qed.

Lemma covers_app l1 l2 x : covers (l1 ++ l2) x <-> covers l1 x \/ covers l2 x.
Proof.
  induction l1 as [|b l1 IH]; simpl; [|rewrite !covers_cons, IH; tauto].
  split; [by right|]. intros [(b & Hb & _)|]; [by apply elem_of_nil in Hb|done].
Qed.

Lemma covers_glue b l x :
  0 <= b.2 -> (forall c, c ∈ l -> 0 <= c.2) -> covers (glue b l) x <-> inb b x \/ covers l x.
Proof.
  intros Hb Hl. destruct l as [|c l]; simpl; [by rewrite covers_cons|]. specialize (Hl c (list_elem_of_here _ _)).
  zcase; rewrite !covers_cons; [|done]. unfold inb, bend in *. simpl. split.
  - intros [Hx|Hx]; [|tauto]. destruct (decide (x < b.1 + 8 * b.2)); [left|right; left]; lia.
  - intros [Hx|[Hx|Hx]]; [left|left|tauto]; lia.
Qed.

Lemma glue_elem b l c :
  c ∈ glue b l -> c = b \/ c ∈ l \/ exists d, d ∈ l /\ bend b = d.1 /\ c = (b.1, b.2 + d.2).
Proof.
  destruct l as [|d l]; simpl; [rewrite list_elem_of_singleton; auto|]. zcase.
  - intros [->|Hc]%elem_of_cons; [right; right; exists d; split_and!; [left|done..]|right; left; by right].
  - intros [->|Hc]%elem_of_cons; auto.
Qed.

Lemma glue_sorted b l :
  (forall c, c ∈ l -> bend b <= c.1 /\ 1 <= c.2) -> StronglySorted before l -> StronglySorted before (glue b l).
Proof.
  intros Hl HS. destruct l as [|c l]; simpl; [repeat constructor|].
  inversion HS as [|?? HS' HF]; subst. destruct (Hl c (list_elem_of_here _ _)). rewrite Forall_forall in HF.
  zcase.
  - constructor; [done|]. apply Forall_forall. intros d Hd. specialize (HF d Hd). unfold before, bend in *. simpl in *. lia.
  - constructor; [done|]. apply Forall_cons. split; [unfold before; lia|].
    apply Forall_forall. intros d Hd. specialize (HF d Hd). unfold before, bend in *. lia.
Qed.

Ltac umem := cbn [um set_um]; repeat first [rewrite load32_store32_eq | rewrite load32_store32_ne by lia].
Ltac ustep := unfold get_ptr, get_size, put_ptr, put_size in *; cbn [mbind outcome_bind];
  repeat (first [rewrite uget_ok by (cbn; lia) | rewrite uput_ok by (cbn; lia)]; cbn [mbind outcome_bind um brk set_um]).

Definition same_heap (st st' : ustate) (a n : Z) : Prop :=
  brk st' = brk st /\ freep st' = freep st /\ forall x, ~ (a <= x < a + n) -> rd8 (um st') x = rd8 (um st) x.

Lemma same_store st a n x v :
  a <= x -> x + 4 <= a + n -> same_heap st (set_um (store32 (um st) x v) st) a n.
Proof. intros. split_and!; [done..|]. intros y Hy. apply rd8_store32_ne. lia. Qed.
Lemma same_heap_trans st1 st2 st3 a n : same_heap st1 st2 a n -> same_heap st2 st3 a n -> same_heap st1 st3 a n.
Proof.
  intros (E1 & E2 & E3) (F1 & F2 & F3). split_and!; [congruence..|]. intros x Hx. by rewrite F3, E3.
Qed.

Lemma join_upper_spec st N1 pt b l2 base :
  chain (um st) (N1 ++ [pt]) (hd_addr l2 base) -> chain (um st) l2 base -> load32 (um st) (b.1 + 4) = b.2 ->
  (forall c, c ∈ N1 ++ [pt] -> 0 <= c.1 /\ c.1 + 8 <= b.1) -> 1 <= b.2 -> 0 <= base < b.1 -> bend b <= brk st <= USERTOP ->
  (forall c, c ∈ l2 -> bend b <= c.1 /\ 1 <= c.2 /\ bend c <= brk st) ->
  exists st', join_upper b.1 pt.1 st = Ret st' /\ chain (um st') (N1 ++ [pt]) (hd_addr l2 base)
    /\ chain (um st') (glue b l2) base /\ same_heap st st' b.1 8.
Proof.
  intros C1 C2 Hs H1 Hb Hbase Hhi H2. unfold USERTOP in *.
  pose proof C1 as (_ & Hp & _)%chain_app. destruct (H1 pt) as [P0 P1]; [apply elem_of_app; right; left|].
  pose proof (u32_small (bend b)) as Ub. unfold is_u32, bend in *.
  unfold join_upper. ustep. rewrite Hs, Hp. unfold HDR in *. rewrite Ub by lia.
  assert (forall v v', chain (store32 (store32 (um st) (b.1 + 4) v) b.1 v') (N1 ++ [pt]) (hd_addr l2 base)) as C1'.
  { intros. do 2 (apply chain_store; [intros c Hc; specialize (H1 c Hc); lia|]). done. }
  destruct l2 as [|c l2]; simpl.
  - destruct (Z.eqb_spec (b.1 + 8 * b.2) base); [lia|]. ustep. eexists. split; [done|]. split; [|split].
    + apply chain_store; [|done]. intros c Hc. specialize (H1 c Hc). lia.
    + simpl. umem. rewrite u32_small by (unfold is_u32; lia). done.
    + apply same_store; lia.
  - destruct (H2 c (list_elem_of_here _ _)) as (B1 & B2 & B3). destruct C2 as (L1 & L2 & C2).
    assert (forall x v, b.1 <= x <= b.1 + 4 -> forall m, chain m l2 base -> chain (store32 m x v) l2 base) as Fr.
    { intros x v Hx m. apply chain_store. intros d Hd. destruct (H2 d); [by right|]. lia. }
    unfold bend. zcase; ustep.
    + umem. rewrite Hp. cbn [hd_addr mbind outcome_bind]. ustep. umem. rewrite L1, L2.
      eexists. split; [done|]. split; [apply C1'|split].
      * cbn [chain fst snd]. umem. rewrite u32_u32, (u32_small (b.2 + c.2)) by (unfold is_u32; lia).
        rewrite u32_small by (rewrite <- L1; apply load32_range). split_and!; [done..|]. by do 2 (apply Fr; [lia|]).
      * eapply same_heap_trans; [apply same_store|apply (same_store (set_um _ st))]; lia.
    + eexists. split; [done|]. split; [|split].
      * apply chain_store; [|done]. intros d Hd. specialize (H1 d Hd). lia.
      * cbn [chain hd_addr]. umem. rewrite u32_small by (unfold is_u32; lia). split_and!; try done. by apply Fr; [lia|].
      * apply same_store; lia.
Qed.

Lemma join_lower_spec st N1 pt c l e base :
  chain (um st) (N1 ++ [pt]) e -> chain (um st) (c :: l) base ->
  (forall d, d ∈ N1 -> d.1 + 8 <= pt.1) -> 0 <= pt.1 -> 0 <= pt.2 -> pt.1 + 8 <= c.1 -> bend pt <= c.1 -> 1 <= c.2 ->
  bend c <= brk st <= USERTOP -> (forall d, d ∈ l -> bend c <= d.1) ->
  exists st', join_lower c.1 pt.1 st = Ret st' /\ chain (um st') (N1 ++ glue pt (c :: l)) base /\ same_heap st st' pt.1 8.
Proof.
  intros (C1 & _ & Hs & _)%chain_app C2 H1 P0 P1 P2 P3 Hc Hhi H2. unfold USERTOP in *.
  pose proof C2 as (L1 & L2 & C3). pose proof (u32_small (bend pt)) as Ub. unfold is_u32, bend in *.
  unfold join_lower. ustep. rewrite Hs. unfold HDR. rewrite Ub by lia.
  assert (forall x v m, pt.1 <= x <= pt.1 + 4 -> chain m N1 pt.1 -> chain (store32 m x v) N1 pt.1) as F1.
  { intros x v m Hx. apply chain_store. intros d Hd. specialize (H1 d Hd). lia. }
  assert (forall x v m, pt.1 <= x <= pt.1 + 4 -> chain m (c :: l) base -> chain (store32 m x v) (c :: l) base) as F2.
  { intros x v m Hx. apply chain_store. intros d [->|Hd]%elem_of_cons; [lia|]. specialize (H2 d Hd). lia. }
  cbn [glue]. unfold bend. zcase; ustep.
  - umem. rewrite L1, L2. eexists. split; [done|]. split.
    + apply chain_app. cbn [hd_addr fst]. split; [by do 2 (apply F1; [lia|])|].
      cbn [chain fst snd]. umem. rewrite u32_u32, (u32_small (pt.2 + c.2)) by (unfold is_u32; lia).
      rewrite u32_small by (rewrite <- L1; apply load32_range).
      split_and!; [done..|]. apply (F2 pt.1 (hd_addr l base) (store32 (um st) (pt.1 + 4) (pt.2 + c.2))); [lia|].
      by apply F2; [lia|].
    + eapply same_heap_trans; [apply same_store|apply (same_store (set_um _ st))]; lia.
  - eexists. split; [done|]. split; [|apply same_store; lia].
    apply chain_app. cbn [hd_addr]. split; [by apply F1; [lia|]|].
    split_and!; [|by umem|]; [cbn [hd_addr]; umem; apply u32_small; unfold is_u32; lia|]. by apply F2; [lia|].
Qed.

(** ** [free] puts a block back *)

Lemma apart_points b c : 1 <= b.2 -> 1 <= c.2 -> (forall x, inb b x -> ~ inb c x) <-> apart b c.
Proof.
  intros Hb Hc. unfold apart, inb, bend. split.
  - intros E. specialize (E (Z.max b.1 c.1)). lia.
  - intros E x. lia.
Qed.

Lemma split_at b l :
  (forall c, c ∈ l -> apart b c /\ 1 <= c.2) -> StronglySorted before l ->
  exists l1 l2, l = l1 ++ l2 /\ (forall c, c ∈ l1 -> bend c <= b.1) /\ (forall c, c ∈ l2 -> bend b <= c.1).
Proof.
  induction l as [|c l IH]; intros Hl HS.
  { exists [], []. split_and!; [done|intros c Hc; by apply elem_of_nil in Hc..]. }
  inversion HS as [|?? HS' HF]; subst. rewrite Forall_forall in HF. destruct (Hl c (list_elem_of_here _ _)) as [[A|A] Pc].
  - exists [], (c :: l). split_and!; [done|intros d Hd; by apply elem_of_nil in Hd|].
    intros d [->|Hd]%elem_of_cons; [done|]. specialize (HF d Hd). unfold before, bend in *. lia.
  - destruct IH as (l1 & l2 & -> & H1 & H2); [intros d Hd; apply Hl; by right|done|].
    exists (c :: l1), l2. split_and!; [done| |done]. intros d [->|Hd]%elem_of_cons; auto.
Qed.

(** A node is the static header or a block inside the heap. *)
Definition ok (base top : Z) (c : block) : Prop := base + 8 <= c.1 /\ 1 <= c.2 /\ bend c <= top.

Lemma glue_ok base top b l c :
  b = (base, 0) \/ ok base top b -> (forall c, c ∈ l -> ok base top c) -> c ∈ glue b l -> c = (base, 0) \/ ok base top c.
Proof.
  intros Hb Hl [->|[Hc|(d & Hd & E & ->)]]%glue_elem; auto.
  specialize (Hl d Hd). unfold ok, bend in *. destruct Hb as [->|Hb]; simpl in *; [lia|right; lia].
Qed.

Lemma glue_inside base top b l c :
  ok base top b -> (forall c, c ∈ l -> ok base top c) -> c ∈ glue b l -> ok base top c.
Proof.
  intros Hb Hl Hc. destruct (glue_ok base top b l c) as [->|?]; auto. exfalso.
  apply glue_elem in Hc as [<-|[Hc%Hl|(d & _ & _ & [= ? ?])]]; unfold ok in *; simpl in *; lia.
Qed.

Lemma glue_head b l : exists c l', glue b l = c :: l' /\ c.1 = b.1.
Proof. destruct l as [|c l]; simpl; [|zcase]; eauto. Qed.

Lemma length_glue b l : (length (glue b l) <= S (length l))%nat.
Proof. destruct l as [|c l]; simpl; [lia|]. zcase; simpl; lia. Qed.

Lemma glue_contains b l :
  (forall c, c ∈ l -> 0 <= c.2) -> exists c, c ∈ glue b l /\ c.1 = b.1 /\ bend b <= bend c.
Proof.
  intros Hl. destruct l as [|c l]; simpl; [exists b; split; [left|lia]|].
  specialize (Hl c (list_elem_of_here _ _)). zcase; eexists; (split; [left|]); unfold bend; simpl; lia.
Qed.

Lemma glue_tail b l c : 0 <= b.2 -> c ∈ l -> exists d, d ∈ glue b l /\ d.1 <= c.1 /\ bend c <= bend d.
Proof.
  intros Hb. destruct l as [|e l]; [by intros ?%elem_of_nil|]. cbn [glue].
  zcase; intros [->|Hc]%elem_of_cons.
  - eexists. split; [left|]. unfold bend in *. simpl. lia.
  - exists c. split; [by right|]. lia.
  - exists e. split; [right; left|]. lia.
  - exists c. split; [right; by right|]. lia.
Qed.

Section Free.
Context (base : Z) (st : ustate) (l al : list block) (b : block) (H : rep base st l al).
Context (Hb : ok base (brk st) b) (Hfree : forall x, inb b x -> ~ covers l x /\ ~ covers al x).

Lemma block_apart c : c ∈ l \/ c ∈ al -> apart b c.
Proof.
  intros Hc. destruct (r_in _ _ _ _ H c Hc) as (_ & Hp & _). destruct Hb as (_ & Hp' & _).
  apply apart_points; [done..|]. intros x Hx Hx'. destruct (Hfree x Hx) as [N1 N2].
  destruct Hc; [apply N1|apply N2]; exists c; done.
Qed.

Lemma free_nodes : exists N1 pt l2,
  (base, 0) :: l = N1 ++ pt :: l2 /\ (forall c, c ∈ N1 ++ [pt] -> 0 <= c.1 /\ c.1 + 8 <= b.1 /\ bend c <= b.1)
  /\ (forall c, c ∈ l2 -> bend b <= c.1 /\ ok base (brk st) c).
Proof.
  pose proof (r_base _ _ _ _ H) as Hr. destruct Hb as (B1 & B2 & B3).
  destruct (split_at b l) as (l1 & l2 & -> & H1 & H2); [|apply H|].
  { intros c Hc. split; [by apply block_apart; left|]. apply (r_in _ _ _ _ H c (or_introl Hc)). }
  destruct (exists_last (l := (base, 0) :: l1)) as (N1 & pt & E); [done|].
  exists N1, pt, l2. split_and!.
  - rewrite app_comm_cons, E, <- app_assoc. done.
  - rewrite <- E. intros c [->|Hc]%elem_of_cons; [unfold bend; simpl; lia|].
    destruct (r_in _ _ _ _ H c) as (C1 & C2 & C3); [left; apply elem_of_app; by left|].
    specialize (H1 c Hc). unfold bend in *. lia.
  - intros c Hc. split; [auto|]. apply (r_in _ _ _ _ H c). left. apply elem_of_app. by right.
Qed.

Lemma nodes_sorted : StronglySorted before ((base, 0) :: l).
Proof.
  constructor; [apply H|]. apply Forall_forall. intros c Hc.
  destruct (r_in _ _ _ _ H c (or_introl Hc)). unfold before, bend. simpl. lia.
Qed.
Lemma nodes_ok c : c ∈ (base, 0) :: l -> c = (base, 0) \/ ok base (brk st) c.
Proof. intros [->|Hc]%elem_of_cons; [auto|right]. apply (r_in _ _ _ _ H c (or_introl Hc)). Qed.
Lemma node_words c x : c ∈ (base, 0) :: l -> c.1 <= x < c.1 + 8 -> base <= x < base + 8 \/ covers l x.
Proof.
  intros [->|Hc]%elem_of_cons Hx; [by left|right]. exists c. split; [done|].
  destruct (r_in _ _ _ _ H c (or_introl Hc)) as (_ & ? & _). unfold inb, bend. lia.
Qed.
End Free.

Lemma covers_base base l x : covers ((base, 0) :: l) x <-> covers l x.
Proof. rewrite covers_cons. unfold inb, bend. simpl. split; [intros [?|?]; [lia|done]|auto]. Qed.

Lemma rep_intro base st nodes al :
  0 < base /\ base + 8 <= brk st <= USERTOP -> chain (um st) nodes base -> StronglySorted before nodes ->
  (forall c, c ∈ nodes -> c = (base, 0) \/ ok base (brk st) c) -> (base, 0) ∈ nodes -> freep st ∈ nodes.*1 ->
  (forall c, c ∈ al -> ok base (brk st) c /\ load32 (um st) (c.1 + 4) = c.2) -> StronglySorted apart al ->
  (forall x c, covers nodes x -> c ∈ al -> ~ inb c x) ->
  exists l, nodes = (base, 0) :: l /\ rep base st l al.
Proof.
  intros Hr Hc HS Hn Hb Hf Ha Hl Hx.
  assert (exists l, nodes = (base, 0) :: l) as [l ->].
  { destruct nodes as [|c l]; [by apply elem_of_nil in Hb|]. apply elem_of_cons in Hb as [<-|Hb]; [by exists l|].
    inversion HS as [|?? HS' HF]; subst. rewrite Forall_forall in HF. specialize (HF _ Hb).
    destruct (Hn c (list_elem_of_here _ _)) as [->|(N1 & N2 & N3)]; [by exists l|].
    unfold before, bend in *. simpl in *. lia. }
  exists l. split; [done|]. inversion HS as [|?? HS' HF]; subst. split; try done.
  - intros c [Hc'|Hc']; [|by apply Ha]. destruct (Hn c) as [->|?]; [by right| |done].
    rewrite Forall_forall in HF. specialize (HF _ Hc'). unfold before, bend in HF. simpl in HF. lia.
  - intros x c Hx'. apply Hx. by apply covers_base.
  - intros c Hc'. by apply Ha.
Qed.

Lemma base_glued base N1 pt l2 L :
  (base, 0) ∈ N1 ++ pt :: l2 -> (forall c, c ∈ l2 -> base < c.1) -> (forall c, c ∈ L -> base < c.1) ->
  (base, 0) ∈ N1 ++ glue pt L.
Proof.
  intros [Hb|[<-|Hb]%elem_of_cons]%elem_of_app H2 HL; apply elem_of_app; [by left|right|].
  - destruct L as [|c L]; simpl; [left|]. specialize (HL c (list_elem_of_here _ _)).
    unfold bend. simpl. zcase; [lia|left].
  - specialize (H2 _ Hb). simpl in H2. lia.
Qed.

Lemma covers_glued N1 pt b l2 x :
  0 <= pt.2 -> 0 <= b.2 -> (forall c, c ∈ l2 -> 0 <= c.2) ->
  covers (N1 ++ glue pt (glue b l2)) x <-> inb b x \/ covers (N1 ++ pt :: l2) x.
Proof.
  intros Hp Hb H2. rewrite !covers_app, covers_cons, !covers_glue; [tauto|done..|].
  intros c [->|[Hc|(d & Hd & _ & ->)]]%glue_elem; auto. specialize (H2 d Hd). simpl. lia.
Qed.

Lemma sorted_glued top N1 pt b l2 :
  StronglySorted before (N1 ++ pt :: l2) -> (forall c, c ∈ N1 ++ [pt] -> bend c <= b.1) -> 1 <= b.2 -> 0 <= pt.2 ->
  (forall c, c ∈ l2 -> bend b <= c.1 /\ 1 <= c.2 /\ bend c <= top) -> StronglySorted before (N1 ++ glue pt (glue b l2)).
Proof.
  intros (Hx & S1 & S2)%StronglySorted_app H1 Hb Hp H2. inversion S2 as [|?? S3 HF]; subst.
  assert (forall c, c ∈ glue b l2 -> b.1 <= c.1 /\ 1 <= c.2) as G.
  { intros c [->|[Hc|(d & Hd & _ & ->)]]%glue_elem; [lia| |]; [destruct (H2 c Hc)|destruct (H2 d Hd)]; unfold bend in *; simpl; lia. }
  assert (bend pt <= b.1) by (apply H1; apply elem_of_app; right; left).
  apply StronglySorted_app. split_and!; [|done|].
  - intros c d Hc Hd. assert (before c pt) by (apply Hx; [done|left]).
    apply glue_elem in Hd as [->|[Hd|(e & He & _ & ->)]]; unfold before in *; [done| |done].
    destruct (G d Hd). unfold bend in *. lia.
  - apply glue_sorted; [intros c Hc; specialize (G c Hc); lia|]. apply glue_sorted; [|done]. intros c Hc. by destruct (H2 c Hc) as (? & ? & _).
Qed.

Lemma load32_frame m m' a : (forall x, a <= x < a + 4 -> rd8 m' x = rd8 m x) -> load32 m' a = load32 m a.
Proof. intros E. apply load32_ext. intros x Hx. apply E. lia. Qed.

Lemma find_place base st l al b N1 pt l2 :
  rep base st l al -> (base, 0) :: l = N1 ++ pt :: l2 -> pt.1 < b -> (forall c, c ∈ l2 -> b < c.1) ->
  free_loop (rounds st) st b (freep st) = Ret pt.1.
Proof.
  intros H E Hp H2. pose proof (r_freep _ _ _ _ H) as Hf.
  change (base :: l.*1) with (((base, 0) :: l).*1) in Hf.
  apply list_elem_of_fmap in Hf as (c & -> & Hc). apply list_elem_of_lookup in Hc as [i Hi].
  pose proof (nodes_bound _ _ _ _ H) as Hn. pose proof (lookup_lt_Some _ _ _ Hi) as Li.
  eapply (free_loop_spec _ _ _ _ H b (length N1) pt); [| |intros d Hd|exact Hi|].
  - rewrite E. by apply list_lookup_middle.
  - done.
  - apply H2. rewrite E, lookup_app_r in Hd by lia. replace (S (length N1) - length N1)%nat with 1%nat in Hd by lia.
    simpl in Hd. by eapply list_elem_of_lookup_2.
  - assert (length N1 < length ((base, 0%Z) :: l))%nat by (rewrite E, length_app; simpl; lia).
    unfold dist. case_decide; lia.
Qed.

Lemma join_spec base st N1 pt b l2 :
  chain (um st) (N1 ++ pt :: l2) base -> load32 (um st) (b.1 + 4) = b.2 -> StronglySorted before (N1 ++ pt :: l2) ->
  0 < base -> brk st <= USERTOP -> ok base (brk st) b -> 0 <= pt.2 -> (forall c, c ∈ N1 ++ pt :: l2 -> c = (base, 0) \/ ok base (brk st) c) ->
  (forall c, c ∈ N1 ++ [pt] -> 0 <= c.1 /\ c.1 + 8 <= b.1 /\ bend c <= b.1) ->
  (forall c, c ∈ l2 -> bend b <= c.1 /\ ok base (brk st) c) ->
  exists st', (st ← join_upper b.1 pt.1 st; join_lower b.1 pt.1 st) = Ret st'
    /\ chain (um st') (N1 ++ glue pt (glue b l2)) base /\ brk st' = brk st
    /\ forall x, ~ inb b x -> ~ (pt.1 <= x < pt.1 + 8) -> rd8 (um st') x = rd8 (um st) x.
Proof.
  intros C Hs NS Hr Ht Hb P4 NO H1 H2. pose proof Hb as (B1 & B2 & B3).
  change (pt :: l2) with ([pt] ++ l2) in C. rewrite app_assoc in C. apply chain_app in C as [C1 C2].
  destruct (H1 pt) as (P1 & P2 & P3); [apply elem_of_app; right; left|].
  assert (forall c, c ∈ l2 -> bend b <= c.1 /\ 1 <= c.2 /\ bend c <= brk st) as H2'.
  { intros c Hc. destruct (H2 c Hc) as (? & ? & ? & ?). done. }
  destruct (join_upper_spec st N1 pt b l2 base) as (st1 & -> & U1 & U2 & U3 & U4 & U5);
    [done..|intros c Hc; specialize (H1 c Hc); lia|lia|lia|lia|done|].
  cbn [mbind outcome_bind]. destruct (glue_head b l2) as (h & L & G & Gh). rewrite G in *. rewrite <- Gh.
  assert (h ∈ glue b l2) as Hh by (rewrite G; left).
  assert (forall c, c ∈ glue b l2 -> ok base (brk st) c) as GO.
  { intros c Hc. eapply glue_inside; [done| |done]. intros d Hd. by apply H2. }
  destruct (join_lower_spec st1 N1 pt h L (hd_addr l2 base) base) as (st2 & -> & V1 & V2 & V3 & V4); try done.
  all: try (rewrite ?Gh, ?U3; destruct (GO h Hh) as (? & ? & ?); lia).
  - intros d Hd. apply StronglySorted_app in NS as (NS & _). specialize (NS d pt Hd (list_elem_of_here _ _)).
    destruct (NO d) as [->|(D1 & D2 & D3)]; [apply elem_of_app; by left| |unfold before, bend in *; lia].
    destruct (NO pt) as [->|(D1 & D2 & D3)]; [apply elem_of_app; right; left|..]; unfold before, bend in *; simpl in *; lia.
  - intros d Hd. apply StronglySorted_app in NS as (_ & _ & NS). inversion NS as [|?? NS' _]; subst.
    assert (StronglySorted before (h :: L)) as GS.
    { rewrite <- G. apply glue_sorted; [|done]. intros c Hc. by destruct (H2' c Hc) as (? & ? & _). }
    inversion GS as [|?? _ HF]; subst. rewrite Forall_forall in HF. specialize (HF d Hd). unfold before in HF. lia.
  - exists st2. rewrite <- G. split_and!; [done|by rewrite G|congruence|]. intros x X1 X2. rewrite V4, U5; [done| |done].
    unfold inb, bend in *. lia.
Qed.

Lemma glued_large N1 pt b l2 :
  0 <= pt.2 -> (forall c, c ∈ l2 -> 0 <= c.2) -> exists c, c ∈ N1 ++ glue pt (glue b l2) /\ b.2 <= c.2.
Proof.
  intros Hp H2. destruct (glue_contains b l2 H2) as (c & Hc & C1 & C2).
  destruct (glue_tail pt (glue b l2) c Hp Hc) as (d & Hd & D1 & D2).
  exists d. split; [apply elem_of_app; by right|]. unfold bend in *. lia.
Qed.

Section Freed.
Context (base : Z) (st st' : ustate) (l al : list block) (b pt : block) (N1 l2 : list block).
Context (H : rep base st l al) (Hb : ok base (brk st) b) (Hfree : forall x, inb b x -> ~ covers l x /\ ~ covers al x).
Context (E : (base, 0) :: l = N1 ++ pt :: l2) (P4 : 0 <= pt.2).
Context (H1 : forall c, c ∈ N1 ++ [pt] -> 0 <= c.1 /\ c.1 + 8 <= b.1 /\ bend c <= b.1).
Context (H2 : forall c, c ∈ l2 -> bend b <= c.1 /\ ok base (brk st) c).
Context (C : chain (um st') (N1 ++ glue pt (glue b l2)) base) (Hk : brk st' = brk st).
Context (Fr : frame base (b :: l) (um st) (um st')).

Lemma freed_covers x : covers (N1 ++ glue pt (glue b l2)) x <-> inb b x \/ covers l x.
Proof.
  destruct Hb as (_ & ? & _). rewrite covers_glued, <- E, covers_base; [done|done|lia|].
  intros c Hc. destruct (H2 c Hc) as (_ & _ & ? & _). lia.
Qed.

Lemma freed_upper c : c ∈ glue b l2 -> ok base (brk st) c.
Proof. apply glue_inside; [done|]. intros d Hd. by apply H2. Qed.

Lemma freed_rep :
  exists l', N1 ++ glue pt (glue b l2) = (base, 0) :: l' /\ rep base (set_freep pt.1 st') l' al.
Proof.
  pose proof (r_base _ _ _ _ H) as Hr. pose proof (nodes_sorted _ _ _ _ H) as NS. pose proof (nodes_ok _ _ _ _ H) as NO.
  rewrite E in NS, NO. assert (pt ∈ N1 ++ pt :: l2) as Hpt by (apply elem_of_app; right; left).
  destruct Hb as (B1 & B2 & B3). apply rep_intro; cbn [um brk freep set_freep]; rewrite ?Hk; try done.
  - apply (sorted_glued (brk st)); try done; [intros c Hc; by apply H1|].
    intros c Hc. destruct (H2 c Hc) as (? & _ & ? & ?). done.
  - intros c [Hc|Hc]%elem_of_app; [apply NO; apply elem_of_app; by left|].
    eapply glue_ok; [by apply NO|apply freed_upper|exact Hc].
  - apply (base_glued _ _ _ l2); [rewrite <- E; left|intros c Hc; destruct (H2 c Hc) as (_ & ? & _); lia|].
    intros c Hc. destruct (freed_upper c Hc). lia.
  - rewrite fmap_app. apply elem_of_app. right. destruct (glue_head pt (glue b l2)) as (h & L & -> & <-). left.
  - intros c Hc. destruct (r_in _ _ _ _ H c (or_intror Hc)) as (K1 & K2 & K3). split; [done|].
    rewrite <- (r_sizes _ _ _ _ H c Hc). apply load32_frame. intros x Hx. apply Fr; [lia|].
    rewrite covers_cons. assert (inb c x) by (unfold inb, bend; lia). intros [Hx'|Hx'].
    + destruct (Hfree x Hx') as [_ []]. by exists c.
    + by apply (r_apart _ _ _ _ H x c).
  - apply H.
  - intros x c [Hx|Hx]%freed_covers Hc; [|by apply (r_apart _ _ _ _ H x c)].
    intros Hx'. destruct (Hfree x Hx) as [_ []]. by exists c.
Qed.
End Freed.

Lemma free_spec base st l al b :
  rep base st l al -> ok base (brk st) b -> load32 (um st) (b.1 + 4) = b.2 ->
  (forall x, inb b x -> ~ covers l x /\ ~ covers al x) ->
  exists st' l', free (b.1 + 8) st = Ret st' /\ rep base st' l' al /\ brk st' = brk st
    /\ frame base (b :: l) (um st) (um st') /\ (forall x, covers l' x <-> inb b x \/ covers l x)
    /\ (length l' <= S (length l))%nat /\ (exists c, c ∈ l' /\ b.2 <= c.2).
Proof.
  intros H Hb Hs Hfree. pose proof (r_base _ _ _ _ H) as Hr. pose proof Hb as (B1 & B2 & B3).
  destruct (free_nodes _ _ _ _ _ H Hb Hfree) as (N1 & pt & l2 & E & H1 & H2).
  pose proof (nodes_sorted _ _ _ _ H) as NS. pose proof (nodes_ok _ _ _ _ H) as NO.
  pose proof (r_chain _ _ _ _ H) as NC. rewrite E in NS, NO, NC.
  assert (pt ∈ N1 ++ pt :: l2) as Hpt by (apply elem_of_app; right; left).
  destruct (H1 pt) as (P1 & P2 & P3); [apply elem_of_app; right; left|].
  assert (0 <= pt.2) as P4 by (destruct (NO pt Hpt) as [->|(_ & ? & _)]; simpl; lia).
  destruct (join_spec base st N1 pt b l2) as (st' & J & C & Hk & Hm); try done; try lia.
  assert (frame base (b :: l) (um st) (um st')) as Fr.
  { intros x X1 X2. rewrite covers_cons in X2. apply Hm; [tauto|]. intros X3.
    destruct (node_words _ _ _ _ H pt x); [by rewrite E|done..|tauto]. }
  destruct (freed_rep base st st' l al b pt N1 l2) as (l' & El & R); try done.
  exists (set_freep pt.1 st'), l'. split_and!; [|done|done|done| | |].
  - unfold free. replace (u32 (b.1 + 8 - HDR)) with b.1
      by (unfold HDR, USERTOP in *; rewrite u32_small; [|unfold is_u32, bend in *]; lia).
    rewrite (find_place _ _ _ _ b.1 _ _ _ H E); [|lia|intros c Hc; destruct (H2 c Hc); unfold bend in *; lia].
    cbn [mbind outcome_bind] in *. destruct (join_upper b.1 pt.1 st) as [st1| |]; [|done..]. cbn [mbind outcome_bind] in *. by rewrite J.
  - intros x. rewrite <- (freed_covers base st l b pt N1 l2), El, covers_base; done.
  - apply (f_equal length) in El, E. rewrite length_app in El, E. cbn [length] in El, E.
    pose proof (length_glue pt (glue b l2)). pose proof (length_glue b l2). lia.
  - destruct (glued_large N1 pt b l2) as (c & Hc & Hle); [done|intros c Hc; destruct (H2 c Hc) as (_ & _ & ? & _); lia|].
    exists c. split; [|done]. rewrite El in Hc. apply elem_of_cons in Hc as [->|]; [simpl in *; lia|done].
Qed.

(** ** [malloc] searches and carves *)

Section Search.
Context (grant : Z -> Z -> bool) (base : Z) (st : ustate) (l al : list block) (H : rep base st l al) (nu : Z) (Hnu : 1 <= nu).
Abbreviation N := ((base, 0) :: l).
Context (f : nat) (fp : block) (Hf : N !! f = Some fp) (Hfp : freep st = fp.1).

Definition nxt (i : nat) : nat := if decide (S i < length N)%nat then S i else O.

Lemma nxt_node i c : N !! i = Some c -> exists d, N !! nxt i = Some d /\ get_ptr st c.1 = Ret d.1.
Proof.
  intros Hi. destruct (get_next _ _ _ _ H i c Hi) as [-> _]. unfold nxt. case_decide as Hd.
  - destruct (lookup_lt_is_Some_2 N (S i) Hd) as [d Hd']. exists d. split; [done|]. by rewrite (next_inner base l i d).
  - exists (base, 0). split; [done|]. rewrite next_last by lia. done.
Qed.

Lemma same_node i j c d : N !! i = Some c -> N !! j = Some d -> c.1 = d.1 -> i = j.
Proof.
  intros Hi Hj E. destruct (lt_eq_lt_dec i j) as [[?|?]|?]; [|done|]; exfalso.
  - destruct (node_sorted _ _ _ _ H i j c d); [lia|done..|lia].
  - destruct (node_sorted _ _ _ _ H j i d c); [lia|done..|lia].
Qed.

Definition after_grow (fuel : nat) : outcome (Z * ustate) :=
  '(hp, st) ← morecore grant nu st;
  if hp =? 0 then Ret (0, st) else nx ← get_ptr st hp; malloc_loop fuel grant nu hp nx st.

(** From the node after [i] up to [freep]: the first block that is large
    enough is carved, or there is none and the heap grows. *)
Lemma search_spec d : forall fuel i c e,
  N !! i = Some c -> N !! nxt i = Some e -> dist base l (nxt i) f = d -> (d < fuel)%nat ->
  (exists j pv b, N !! j = Some pv /\ N !! S j = Some b /\ nu <= b.2
     /\ malloc_loop fuel grant nu c.1 e.1 st = carve nu pv.1 b.1 b.2 st)
  \/ ((forall k b, N !! k = Some b -> (dist base l (nxt i) k <= d)%nat -> b.2 < nu)
     /\ malloc_loop fuel grant nu c.1 e.1 st = after_grow (fuel - d - 1)).
Proof.
  induction d as [|d IH]; intros fuel i c e Hi He Hd Hfuel; (destruct fuel as [|fuel]; [lia|]);
    pose proof (lookup_lt_Some _ _ _ He) as Le; pose proof (lookup_lt_Some _ _ _ Hf) as Lf;
    pose proof (lookup_lt_Some _ _ _ Hi) as Li; cbn [malloc_loop];
    destruct (get_next _ _ _ _ H (nxt i) e He) as [_ ->]; cbn [mbind outcome_bind];
    (destruct (Z.leb_spec nu e.2) as [Hbig|Hsmall];
     [left; exists i, c, e; split_and!; [done| |done..]; unfold nxt in *; case_decide; [done|];
        exfalso; inversion He; subst; simpl in *; lia|]).
  - right. assert (nxt i = f) as Ef by (unfold dist in Hd; case_decide; lia).
    assert (e.1 = fp.1) as Ee by (rewrite Ef in He; congruence). rewrite Hfp, Ee, Z.eqb_refl.
    split; [|replace (S fuel - 0 - 1)%nat with fuel by lia; done].
    intros k b Hk Hle. assert (k = nxt i) as -> by (unfold dist in Hle; pose proof (lookup_lt_Some _ _ _ Hk); case_decide; lia).
    congruence.
  - assert (nxt i <> f) as Nf by (intros E; rewrite E in Hd; unfold dist in Hd; case_decide; lia).
    destruct (Z.eqb_spec e.1 (freep st)) as [Ee|_]; [exfalso; apply Nf, (same_node _ _ e fp He Hf); congruence|].
    destruct (nxt_node _ _ He) as (e' & He' & ->). cbn [mbind outcome_bind].
    destruct (IH fuel (nxt i) e e' He He') as [HL|[HR1 HR2]]; [|lia|by left|right].
    { unfold dist, nxt in *. repeat case_decide; try lia. }
    split; [|rewrite HR2; f_equal; lia]. intros k b Hk Hle. destruct (decide (k = nxt i)) as [->|]; [congruence|].
    apply (HR1 k b Hk). pose proof (lookup_lt_Some _ _ _ Hk). unfold dist, nxt in *. repeat case_decide; try lia.
Qed.
End Search.

Definition carved (base : Z) (st st' : ustate) (l al : list block) (new : block) : Prop :=
  ok base (brk st) new /\ brk st' = brk st /\ frame base l (um st) (um st')
  /\ exists l', rep base st' l' (new :: al) /\ forall x, covers l x <-> inb new x \/ covers l' x.

(** The list [nodes] and the block [new] divide the free blocks. *)
Lemma carved_intro base st m p l al nodes new :
  rep base st l al -> ok base (brk st) new -> chain m nodes base -> StronglySorted before nodes ->
  (forall c, c ∈ nodes -> c = (base, 0) \/ ok base (brk st) c) -> (base, 0) ∈ nodes -> p ∈ nodes.*1 ->
  load32 m (new.1 + 4) = new.2 -> frame base l (um st) m ->
  (forall x, covers l x <-> inb new x \/ covers nodes x) -> (forall x, covers nodes x -> ~ inb new x) ->
  carved base st (set_freep p (set_um m st)) l al new.
Proof.
  intros H Hn C HS NO Nb Np Hs Fr Cov Dis.
  destruct (rep_intro base (set_freep p (set_um m st)) nodes (new :: al)) as (l' & -> & R); try done.
  - apply H.
  - intros c [->|Hc]%elem_of_cons; [done|]. pose proof (r_in _ _ _ _ H c (or_intror Hc)) as (K1 & K2 & K3). split; [done|].
    rewrite <- (r_sizes _ _ _ _ H c Hc). apply load32_frame. intros x Hx. apply Fr; [lia|].
    intros Hx'. apply (r_apart _ _ _ _ H x c Hx' Hc). unfold inb, bend. lia.
  - constructor; [apply H|]. apply Forall_forall. intros c Hc.
    pose proof (r_in _ _ _ _ H c (or_intror Hc)) as (K1 & K2 & K3). destruct Hn as (_ & ? & _).
    apply apart_points; [done..|]. intros x Hx. apply (r_apart _ _ _ _ H); [|done]. apply Cov. by left.
  - intros x c Hx [->|Hc]%elem_of_cons; [by apply Dis|]. apply (r_apart _ _ _ _ H); [|done]. apply Cov. by right.
  - split_and!; try done. exists l'. split; [done|]. intros x. rewrite Cov, covers_base. done.
Qed.

Lemma sorted_disjoint N1 b l2 x :
  StronglySorted before (N1 ++ b :: l2) -> (forall c, c ∈ N1 ++ b :: l2 -> 0 <= c.2) ->
  covers (N1 ++ l2) x -> ~ inb b x.
Proof.
  intros (S1 & _ & S2)%StronglySorted_app P (c & [Hc|Hc]%elem_of_app & Hx) Hx'.
  - specialize (S1 c b Hc (list_elem_of_here _ _)). unfold before, inb in *. lia.
  - inversion S2 as [|?? _ HF]; subst. rewrite Forall_forall in HF. specialize (HF c Hc). unfold before, inb in *. lia.
Qed.

Section Carve.
Context (base : Z) (st : ustate) (l al N1 : list block) (pv b : block) (l2 : list block).
Context (H : rep base st l al) (E : (base, 0) :: l = N1 ++ pv :: b :: l2) (Hb : 1 <= b.2).

Lemma carve_ok c : c ∈ N1 ++ pv :: b :: l2 -> c = (base, 0) \/ ok base (brk st) c.
Proof. rewrite <- E. apply (nodes_ok _ _ _ _ H). Qed.
Lemma carve_sorted : StronglySorted before (N1 ++ pv :: b :: l2).
Proof. rewrite <- E. apply (nodes_sorted _ _ _ _ H). Qed.

Lemma carve_spaced :
  (forall c, c ∈ N1 -> c.1 + 8 <= pv.1) /\ pv.1 + 8 <= b.1 /\ bend pv < b.1 /\ (forall c, c ∈ l2 -> bend b < c.1)
  /\ 0 < pv.1 /\ ok base (brk st) b /\ brk st <= USERTOP /\ 0 <= pv.2.
Proof.
  pose proof (r_base _ _ _ _ H) as Hr.
  assert (N1 ++ pv :: b :: l2 = (N1 ++ [pv]) ++ b :: l2) as E2 by (rewrite <- app_assoc; done).
  assert (((base, 0) :: l) !! length N1 = Some pv) as Lp by (rewrite E; by apply list_lookup_middle).
  assert (((base, 0) :: l) !! S (length N1) = Some b) as Lb.
  { rewrite E, E2. apply list_lookup_middle. rewrite length_app. simpl. lia. }
  destruct (node_sorted _ _ _ _ H _ _ pv b (Nat.lt_succ_diag_r _) Lp Lb) as (S1 & S2 & _).
  destruct (node_range _ _ _ _ H pv (list_elem_of_lookup_2 _ _ _ Lp)).
  split_and!; try done; try lia.
  - intros c Hc. apply list_elem_of_lookup in Hc as [i Hi]. pose proof (lookup_lt_Some _ _ _ Hi).
    destruct (node_sorted _ _ _ _ H i (length N1) c pv) as (S3 & _); [done| |done|done].
    rewrite E. by apply lookup_app_l_Some.
  - intros c Hc. pose proof carve_sorted as NS. rewrite E2 in NS. apply StronglySorted_app in NS as (_ & _ & NS).
    inversion NS as [|?? _ HF]; subst. rewrite Forall_forall in HF. by apply HF.
  - destruct (carve_ok b) as [->|?]; [apply elem_of_app; right; right; left|simpl in *; lia|done].
Qed.

Lemma carve_chain : chain (um st) N1 pv.1 /\ load32 (um st) (pv.1 + 4) = pv.2 /\ load32 (um st) pv.1 = b.1
  /\ load32 (um st) b.1 = hd_addr l2 base /\ load32 (um st) (b.1 + 4) = b.2 /\ chain (um st) l2 base.
Proof.
  pose proof (r_chain _ _ _ _ H) as NC. rewrite E in NC. apply chain_app in NC as (C1 & (L1 & L2 & L3 & L4 & C2)). done.
Qed.

Lemma carve_base nodes : (base, 0) ∈ N1 ++ pv :: nodes.
Proof.
  apply elem_of_app. destruct N1 as [|c N1']; simpl in E; inversion E; subst; [right; left|left; left].
Qed.

Lemma carve_disjoint x : covers (N1 ++ pv :: l2) x -> ~ inb b x.
Proof.
  intros Hx. apply (sorted_disjoint (N1 ++ [pv]) b l2); [|intros c Hc|]; rewrite <- ?app_assoc in *; [apply carve_sorted| |done].
  destruct (carve_ok c Hc) as [->|(_ & ? & _)]; simpl; lia.
Qed.

Lemma carve_shrink c : c.1 = b.1 -> bend c <= bend b -> StronglySorted before (N1 ++ pv :: c :: l2).
Proof.
  intros E1 E2. pose proof carve_sorted as (NS1 & NS2 & NS3)%StronglySorted_app.
  inversion NS3 as [|?? NS4 HF]; subst. inversion NS4 as [|?? NS5 HF2]; subst. apply Forall_cons in HF as [HF1 HF3].
  apply StronglySorted_app. split_and!; [|done|constructor; [constructor; [done|]|apply Forall_cons; split; [|done]]].
  - intros d e Hd [->|[->|He]%elem_of_cons]%elem_of_cons; [apply NS1; [done|left]| |apply NS1; [done|right; by right]].
    unfold before. rewrite E1. apply (NS1 d b Hd). right. left.
  - eapply Forall_impl; [exact HF2|]. intros d Hd. unfold before in *. lia.
  - unfold before in *. lia.
Qed.

Lemma carve_whole : exists st', carve b.2 pv.1 b.1 b.2 st = Ret (b.1 + 8, st') /\ carved base st st' l al b.
Proof.
  destruct carve_spaced as (S1 & S2 & S3 & S4 & S5 & S6 & S7 & S8). destruct carve_chain as (C1 & L1 & L2 & L3 & L4 & C2).
  pose proof S6 as (O1 & O2 & O3). unfold bend, USERTOP in *.
  unfold carve. rewrite Z.eqb_refl. ustep. rewrite L3.
  unfold HDR. rewrite (u32_small (b.1 + 8)) by (unfold is_u32; lia). eexists. split; [done|].
  eapply carved_intro with (nodes := N1 ++ pv :: l2); try done.
  - apply chain_app. split; [apply chain_store; [|done]; intros c Hc; specialize (S1 c Hc); lia|].
    cbn [chain]. umem. split_and!; [rewrite <- L3; apply u32_small, load32_range|done|].
    apply chain_store; [|done]. intros c Hc. specialize (S4 c Hc). lia.
  - pose proof carve_sorted as NS. apply StronglySorted_app in NS as (NS1 & NS2 & NS3). inversion NS3 as [|?? NS4 HF]; subst.
    inversion NS4; subst. apply StronglySorted_app. split_and!; [|done|constructor; [done|]].
    + intros c d Hc Hd. apply NS1; [done|]. apply elem_of_cons in Hd as [->|Hd]; [left|right; by right].
    + by apply Forall_cons in HF as [_ HF].
  - intros c Hc. apply carve_ok. apply elem_of_app in Hc as [Hc|[->|Hc]%elem_of_cons]; apply elem_of_app; [by left|right; left|right; right; by right].
  - apply carve_base.
  - rewrite fmap_app. apply elem_of_app. right. left.
  - umem. done.
  - intros x X1 X2. apply rd8_store32_ne. intros X3. destruct (node_words _ _ _ _ H pv x); [|lia|lia|done].
    rewrite E. apply elem_of_app. right. left.
  - intros x. rewrite <- covers_base, E, !covers_app, !covers_cons. tauto.
  - apply carve_disjoint.
Qed.
Lemma carve_tail nu : 1 <= nu < b.2 ->
  exists st' new, carve nu pv.1 b.1 b.2 st = Ret (new.1 + 8, st') /\ new.2 = nu /\ carved base st st' l al new.
Proof.
  intros Hnu. destruct carve_spaced as (S1 & S2 & S3 & S4 & S5 & S6 & S7 & S8).
  destruct carve_chain as (C1 & L1 & L2 & L3 & L4 & C2). pose proof S6 as (O1 & O2 & O3). unfold bend, USERTOP in *.
  unfold carve. destruct (Z.eqb_spec b.2 nu); [lia|]. ustep. umem.
  unfold HDR. rewrite !(u32_small (b.2 - nu)), (u32_small (b.1 + 8 * (b.2 - nu))) by (unfold is_u32; lia).
  ustep. rewrite (u32_small (_ + 8)) by (unfold is_u32; lia).
  eexists (set_freep pv.1 (set_um _ st)), (b.1 + 8 * (b.2 - nu), nu). split; [reflexivity|]. split; [done|].
  eapply carved_intro with (nodes := N1 ++ pv :: (b.1, b.2 - nu) :: l2); try done.
  - unfold ok, bend. simpl. lia.
  - apply chain_app. split; [do 2 (apply chain_store; [intros c Hc; specialize (S1 c Hc); lia|]); done|].
    cbn [chain fst snd hd_addr]. umem. rewrite u32_small by (unfold is_u32; lia). split_and!; try done.
    do 2 (apply chain_store; [intros c Hc; specialize (S4 c Hc); lia|]). done.
  - apply carve_shrink; unfold bend; simpl; lia.
  - intros c [Hc|[->|[->|Hc]%elem_of_cons]%elem_of_cons]%elem_of_app; [apply carve_ok..| |apply carve_ok].
    + apply elem_of_app. by left.
    + apply elem_of_app. right. left.
    + right. unfold ok, bend. simpl. lia.
    + apply elem_of_app. right. right. by right.
  - apply carve_base.
  - rewrite fmap_app. apply elem_of_app. right. left.
  - simpl. umem. apply u32_small. unfold is_u32. lia.
  - intros x X1 X2. assert (~ inb b x) as X3.
    { intros X3. apply X2. rewrite <- (covers_base base), E, covers_app, !covers_cons. tauto. }
    unfold inb, bend in X3. rewrite !rd8_store32_ne by lia. done.
  - intros x. rewrite <- covers_base, E, !covers_app, !covers_cons.
    assert (inb b x <-> inb (b.1 + 8 * (b.2 - nu), nu) x \/ inb (b.1, b.2 - nu) x); [|tauto].
    unfold inb, bend. simpl. lia.
  - intros x Hx Hn. rewrite covers_app, !covers_cons in Hx.
    assert (inb b x) as Hx' by (unfold inb, bend in *; simpl in *; lia).
    destruct (decide (inb (b.1, b.2 - nu) x)) as [Hd|Hd]; [unfold inb, bend in *; simpl in *; lia|].
    revert Hx'. apply carve_disjoint. rewrite covers_app, covers_cons. tauto.
Qed.
End Carve.

Lemma carve_spec base st l al j pv b nu :
  rep base st l al -> ((base, 0) :: l) !! j = Some pv -> ((base, 0) :: l) !! S j = Some b -> 1 <= nu <= b.2 ->
  exists st' new, carve nu pv.1 b.1 b.2 st = Ret (new.1 + 8, st') /\ new.2 = nu /\ carved base st st' l al new.
Proof.
  intros H Hj HSj Hnu. assert ((base, 0) :: l = take j ((base, 0) :: l) ++ pv :: b :: drop (S (S j)) ((base, 0) :: l)) as E.
  { rewrite <- (drop_S _ b (S j)), <- (drop_S _ pv j) by done. by rewrite take_drop. }
  destruct (decide (b.2 = nu)) as [<-|].
  - destruct (carve_whole _ _ _ _ _ _ _ _ H E) as (st' & -> & C); [lia|]. by exists st', b.
  - apply (carve_tail _ _ _ _ _ _ _ _ H E); lia.
Qed.

(** ** Growing the heap *)

(** The representation reads only the headers. *)
Lemma rep_headers base st l al m top :
  rep base st l al -> brk st <= top <= USERTOP ->
  (forall c x, c = (base, 0) \/ c ∈ l \/ c ∈ al -> c.1 <= x < c.1 + 8 -> rd8 m x = rd8 (um st) x) ->
  rep base (UState m top (freep st)) l al.
Proof.
  intros H Ht E. pose proof (r_base _ _ _ _ H) as Hr. split; cbn [um brk freep]; try apply H.
  - lia.
  - intros b Hb. destruct (r_in _ _ _ _ H b Hb) as (? & ? & ?). lia.
  - apply (nodes_agree (um st)); [|apply H]. intros c Hc. apply elem_of_cons in Hc.
    split; apply load32_frame; intros x Hx; apply (E c); try lia; tauto.
  - intros b Hb. rewrite <- (r_sizes _ _ _ _ H b Hb). apply load32_frame. intros x Hx. apply (E b); [tauto|lia].
Qed.

Definition more (nu : Z) : Z := HDR * Z.max nu 4096.
Definition refused (grant : Z -> Z -> bool) (st : ustate) (nu : Z) : Prop :=
  USERTOP < brk st + more nu \/ grant (brk st) (more nu) = false.

Lemma sbrk_spec grant n st :
  0 < n < 2 ^ 31 -> 0 < brk st <= USERTOP ->
  sbrk grant n st = if decide (USERTOP < brk st + n \/ grant (brk st) n = false) then (NOMEM, st)
                    else (brk st, UState (um st) (brk st + n) (freep st)).
Proof.
  unfold USERTOP. intros Hn Hb. unfold sbrk. rewrite i32_small by (unfold is_i32; lia).
  unfold grow. destruct (Z.ltb_spec 0 n); [|lia]. destruct (Z.eqb_spec n 0); [lia|]. cbn [negb andb].
  rewrite u32_small by (unfold is_u32; lia). unfold USERTOP.
  destruct (Z.ltb_spec 0xA0000 (brk st + n)); cbn [orb].
  - rewrite decide_True by auto. done.
  - destruct (grant (brk st) n); cbn [negb].
    + rewrite decide_False by (intros [?|?]; [lia|done]). destruct (Z.ltb_spec (brk st + n) (brk st)); [lia|]. zcase; [lia|]. done.
    + rewrite decide_True by auto. done.
Qed.

Definition grown (base : Z) (st st' : ustate) (l l' al : list block) : Prop :=
  rep base st' l' al /\ brk st <= brk st' /\ (length l' <= S (length l))%nat
  /\ (forall x, x < brk st -> ~ (base <= x < base + 8) -> ~ covers l x -> rd8 (um st') x = rd8 (um st) x)
  /\ (forall x, covers l' x -> covers l x \/ brk st <= x).

Lemma morecore_spec grant base st l al nu :
  rep base st l al -> 1 <= nu -> more nu < 2 ^ 31 ->
  (morecore grant nu st = Ret (0, st) /\ refused grant st nu)
  \/ exists st' l', morecore grant nu st = Ret (freep st', st') /\ freep st' <> 0
       /\ grown base st st' l l' al /\ exists c, c ∈ l' /\ nu <= c.2.
Proof.
  intros H Hnu Hm. pose proof (r_base _ _ _ _ H) as Hr. unfold morecore.
  assert ((if nu <? 4096 then 4096 else nu) = Z.max nu 4096) as -> by (zcase; lia).
  replace (u32 (Z.max nu 4096 * HDR)) with (more nu)
    by (unfold more, HDR in *; rewrite u32_small; [lia|]; unfold is_u32; lia).
  assert (8 * 4096 <= more nu /\ more nu = 8 * Z.max nu 4096) as [Hm1 Hm2] by (unfold more, HDR; lia).
  rewrite sbrk_spec by lia. fold (refused grant st nu). case_decide as Hd; [left; done|right].
  assert (brk st + more nu <= USERTOP) as Ht by (unfold refused in Hd; lia).
  destruct (Z.eqb_spec (brk st) NOMEM) as [E|_]; [unfold NOMEM, USERTOP in *; lia|].
  unfold put_size. rewrite uput_ok by (cbn; lia). cbn [mbind outcome_bind um set_um brk freep].
  set (st1 := UState (store32 (um st) (brk st + 4) (Z.max nu 4096)) (brk st + more nu) (freep st)).
  assert (rep base st1 l al) as R1.
  { apply rep_headers; [done|lia|]. intros c x Hc Hx. apply rd8_store32_ne.
    assert (c.1 + 8 <= brk st); [|lia]. destruct Hc as [->|Hc]; [simpl; lia|].
    destruct (r_in _ _ _ _ H c Hc) as (? & ? & ?). unfold bend in *. lia. }
  destruct (free_spec base st1 l al (brk st, Z.max nu 4096) R1) as (st' & l' & F & R & Hk & Fr & Cov & Len & c & Hc & Hle).
  - unfold ok, bend. cbn. lia.
  - cbn. rewrite load32_store32_eq. apply u32_small. unfold is_u32, USERTOP in *. lia.
  - intros x Hx. unfold inb, bend in Hx. cbn in Hx. split; intros (c & Hc & Hc').
    all: destruct (r_in _ _ _ _ H c (ltac:(tauto))) as (_ & _ & ?); unfold inb in Hc'; lia.
  - exists st', l'. cbn [fst snd] in *. unfold HDR. rewrite u32_small by (unfold is_u32, USERTOP in *; lia).
    match goal with |- context [free _ ?s] => change s with st1 end. rewrite F.
    split; [done|]. split; [|split; [|exists c; split; [done|lia]]].
    + pose proof (r_freep _ _ _ _ R) as Hf. intros E. rewrite E in Hf. apply elem_of_cons in Hf as [<-|Hf]; [lia|].
      apply list_elem_of_fmap in Hf as (d & Ed & Hd'). destruct (r_in _ _ _ _ R d (or_introl Hd')). lia.
    + split_and!; [done|rewrite Hk; cbn; lia|done| |].
      * intros x X1 X2 X3. rewrite (Fr x X2); [apply rd8_store32_ne; lia|]. rewrite covers_cons. unfold inb. cbn. intros [?|?]; [lia|done].
      * intros x [X|X]%Cov; [right; unfold inb in X; cbn in X; lia|by left].
Qed.

(** ** [malloc] *)

Definition served (base : Z) (st st' : ustate) (l al : list block) (new : block) : Prop :=
  exists l', rep base st' l' (new :: al) /\ brk st <= brk st'
  /\ (forall x, x < brk st -> ~ (base <= x < base + 8) -> ~ covers l x -> rd8 (um st') x = rd8 (um st) x)
  /\ (forall x, inb new x \/ covers l' x -> covers l x \/ brk st <= x).

Lemma carved_served base st st1 st2 l l1 al new :
  grown base st st1 l l1 al -> carved base st1 st2 l1 al new -> served base st st2 l al new.
Proof.
  intros (G1 & G2 & G3 & G4 & G5) (C1 & C2 & C3 & l2 & C4 & C5). exists l2. split_and!; [done|lia| |].
  - intros x X1 X2 X3. rewrite (C3 x X2), G4; try done. intros [X|X]%G5; [done|lia].
  - intros x X. apply G5, C5. done.
Qed.

Lemma grown_refl base st l al : rep base st l al -> grown base st st l l al.
Proof. intros H. split_and!; auto; lia. Qed.

Lemma freep_node base st l al : rep base st l al -> exists f fp, ((base, 0) :: l) !! f = Some fp /\ freep st = fp.1.
Proof.
  intros H. pose proof (r_freep _ _ _ _ H) as Hf. change (base :: l.*1) with (((base, 0) :: l).*1) in Hf.
  apply list_elem_of_fmap in Hf as (c & -> & Hc). apply list_elem_of_lookup in Hc as [i Hi]. eauto.
Qed.

(** One round of the search, from [freep] back to it. *)
Lemma round_spec grant base st l al nu fuel :
  rep base st l al -> 1 <= nu -> (length l < fuel)%nat ->
  exists p, get_ptr st (freep st) = Ret p /\
  ((exists st' new, malloc_loop fuel grant nu (freep st) p st = Ret (new.1 + 8, st') /\ new.2 = nu /\ carved base st st' l al new)
   \/ ((forall b, b ∈ l -> b.2 < nu) /\ exists fuel', (fuel - length l - 1 <= fuel')%nat
        /\ malloc_loop fuel grant nu (freep st) p st = after_grow grant st nu fuel')).
Proof.
  intros H Hnu Hfuel. destruct (freep_node _ _ _ _ H) as (f & fp & Hf & Hfp).
  destruct (nxt_node _ _ _ _ H f fp Hf) as (e & He & Hp). rewrite Hfp. exists e.1. split; [done|].
  pose proof (lookup_lt_Some _ _ _ Hf) as Lf. cbn [length] in Lf.
  assert (dist base l (nxt base l f) f <= length l)%nat as Hd by (unfold dist, nxt; cbn [length]; repeat case_decide; lia).
  destruct (search_spec grant base st l al H nu Hnu f fp Hf Hfp _ fuel f fp e Hf He eq_refl)
    as [(j & pv & b & Hj & HSj & Hb & ->)|[Hs ->]]; [lia| |].
  - left. apply (carve_spec base st l al j); [done..|lia].
  - right. split; [|eexists; split; [|done]; lia]. intros b [k Hk]%list_elem_of_lookup.
    apply (Hs (S k) b Hk). pose proof (lookup_lt_Some _ _ _ Hk). unfold dist, nxt; cbn [length]; repeat case_decide; lia.
Qed.

Lemma malloc_rep grant base st l al nu fuel :
  rep base st l al -> 1 <= nu -> more nu < 2 ^ 31 -> (length l + length l + 3 < fuel)%nat ->
  exists p, get_ptr st (freep st) = Ret p /\
  ((malloc_loop fuel grant nu (freep st) p st = Ret (0, st) /\ refused grant st nu /\ forall b, b ∈ l -> b.2 < nu)
   \/ exists st' new, malloc_loop fuel grant nu (freep st) p st = Ret (new.1 + 8, st') /\ new.2 = nu /\ served base st st' l al new).
Proof.
  intros H Hnu Hm Hfuel.
  destruct (round_spec grant base st l al nu fuel H Hnu) as (p & Hp & Hround); [lia|]. exists p. split; [done|].
  destruct Hround as [(st' & new & -> & Hn & C)|(Hsmall & fuel' & Hf' & ->)].
  { right. exists st', new. split_and!; [done..|]. eapply carved_served; [by apply grown_refl|done]. }
  unfold after_grow.
  destruct (morecore_spec grant base st l al nu H Hnu Hm) as [[-> Hr]|(st1 & l1 & -> & Hne & G & c & Hc & Hle)];
    cbn [mbind outcome_bind]; [left; done|right].
  destruct (Z.eqb_spec (freep st1) 0); [done|]. pose proof G as (G1 & G2 & G3 & _).
  destruct (round_spec grant base st1 l1 al nu fuel' G1 Hnu) as (p1 & -> & Hround); [lia|]. cbn [mbind outcome_bind].
  destruct Hround as [(st2 & new & -> & Hn & C)|(Hs & _)]; [|specialize (Hs c Hc); lia].
  exists st2, new. split_and!; [done..|]. by eapply carved_served.
Qed.

(** ** Programs that use the allocator

    [live]: the results of [malloc] that were not freed, with the sizes asked
    for.  [mine]: the other memory of the program, as addresses and sizes. *)

Definition MAXREQ : Z := 2 ^ 31 - 16.
Definition blk (b : Z * Z) : block := (b.1 - 8, units b.2).
Definition within (b : Z * Z) (x : Z) : Prop := b.1 <= x < b.1 + b.2.

Inductive ureach (grant : Z -> Z -> bool) (base : Z) : ustate -> list (Z * Z) -> list (Z * Z) -> Prop :=
| ur_start m top :
    0 < base -> base + 8 <= top <= USERTOP ->
    ureach grant base (UState m top 0) [] [(0, base); (base + 8, top - (base + 8))]
| ur_malloc st live mine n r st' :
    ureach grant base st live mine -> 0 <= n <= MAXREQ -> malloc grant base n st = Ret (r, st') ->
    ureach grant base st' (if decide (r = 0) then live else (r, n) :: live) mine
| ur_free st l1 b l2 mine st' :
    ureach grant base st (l1 ++ b :: l2) mine -> free b.1 st = Ret st' -> ureach grant base st' (l1 ++ l2) mine
| ur_write st live mine b x v :
    ureach grant base st live mine -> b ∈ live ++ mine -> within b x ->
    ureach grant base (set_um (wr8 (um st) x v) st) live mine
| ur_sbrk st live mine n :
    ureach grant base st live mine -> 0 <= n -> brk st + n <= USERTOP ->
    ureach grant base (UState (um st) (brk st + n) (freep st)) live ((brk st, n) :: mine).

Definition apart_mine (base top : Z) (l al : list block) (mine : list (Z * Z)) : Prop :=
  forall o x, o ∈ mine -> within o x -> x < top /\ ~ (base <= x < base + 8) /\ ~ covers l x /\ ~ covers al x.

Definition heap (base : Z) (st : ustate) (live mine : list (Z * Z)) (l : list block) : Prop :=
  rep base st l (blk <$> live) /\ apart_mine base (brk st) l (blk <$> live) mine /\ forall b, b ∈ live -> 0 <= b.2 <= MAXREQ.

(** Before the first [malloc], or the list is in place. *)
Definition heapish (base : Z) (st : ustate) (live mine : list (Z * Z)) : Prop :=
  (freep st = 0 /\ live = [] /\ 0 < base /\ base + 8 <= brk st <= USERTOP /\ apart_mine base (brk st) [] [] mine)
  \/ exists l, heap base st live mine l.

Lemma units_spec n : 0 <= n <= MAXREQ -> 1 <= units n /\ n + 8 <= 8 * units n /\ more (units n) < 2 ^ 31.
Proof.
  unfold MAXREQ, units, more, HDR. intros Hn. rewrite u32_small by (unfold is_u32; lia).
  split_and!; [dm|dm|]. destruct (Z.max_spec ((n + 8 - 1) / 8 + 1) 4096) as [[_ ->]|[_ ->]]; dm.
Qed.

Lemma units_mono n n' : 0 <= n <= n' -> n' <= MAXREQ -> units n <= units n'.
Proof. unfold MAXREQ, units, HDR. intros. rewrite !u32_small by (unfold is_u32; lia). dm. Qed.

Lemma freep_pos base st l al : rep base st l al -> 0 < freep st.
Proof.
  intros R. pose proof (r_base _ _ _ _ R). pose proof (r_freep _ _ _ _ R) as [->|Hf]%elem_of_cons; [lia|].
  apply list_elem_of_fmap in Hf as (d & -> & Hd'). destruct (r_in _ _ _ _ R d (or_introl Hd')). lia.
Qed.

Lemma malloc_listed grant base st l al n :
  rep base st l al -> 0 <= n <= MAXREQ ->
  (malloc grant base n st = Ret (0, st) /\ refused grant st (units n) /\ forall b, b ∈ l -> b.2 < units n)
  \/ exists st' r, malloc grant base n st = Ret (r, st') /\ 8 < r /\ served base st st' l al (blk (r, n)).
Proof.
  intros H Hn. destruct (units_spec n Hn) as (U1 & _ & U2). unfold malloc.
  pose proof (freep_pos _ _ _ _ H). destruct (Z.eqb_spec (freep st) 0); [lia|]. cbn [mbind outcome_bind].
  pose proof (nodes_bound _ _ _ _ H) as Hb. cbn [length] in Hb.
  destruct (malloc_rep grant base st l al (units n) (rounds st + rounds st + 4) H U1 U2) as (p & -> & M); [lia|].
  cbn [mbind outcome_bind]. destruct M as [?|(st' & new & E & En & S)]; [by left|right].
  exists st', (new.1 + 8). assert (blk (new.1 + 8, n) = new) as ->.
  { unfold blk. cbn. rewrite <- En. destruct new. cbn. f_equal. lia. }
  split_and!; [done| |done]. destruct S as (l' & R & _). destruct (r_in _ _ _ _ R new) as (? & _); [right; left|].
  pose proof (r_base _ _ _ _ R). lia.
Qed.

Definition kept (st st' : ustate) (l : list (Z * Z)) : Prop :=
  forall b x, b ∈ l -> within b x -> rd8 (um st') x = rd8 (um st) x.

(** The first call initialises the header. *)
Lemma heap_init grant base st live mine n :
  heapish base st live mine -> exists st0 l, heap base st0 live mine l /\ malloc grant base n st = malloc grant base n st0
    /\ brk st0 = brk st /\ forall x, ~ (base <= x < base + 8) -> rd8 (um st0) x = rd8 (um st) x.
Proof.
  intros [(Hf & -> & Hb & Ht & Ha)|[l Hl]]; [|exists st, l; done].
  set (st0 := UState (store32 (store32 (um st) base base) (base + 4) 0) (brk st) base).
  exists st0, []. split_and!; [split_and!| |done|].
  - split; cbn [um brk freep st0]; [lia|intros b [X|X]; by apply elem_of_nil in X|constructor| |constructor| | |left].
    + intros x c _ X. by apply elem_of_nil in X.
    + cbn [chain hd_addr fst snd]. umem. split_and!; [|done..]. apply u32_small. unfold is_u32, USERTOP in *. lia.
    + intros b X. by apply elem_of_nil in X.
  - exact Ha.
  - intros b X. by apply elem_of_nil in X.
  - unfold malloc. rewrite Hf. cbn [Z.eqb]. unfold put_ptr, put_size. rewrite uput_ok by (cbn; lia). cbn [mbind outcome_bind].
    rewrite uput_ok by (cbn; lia). cbn [mbind outcome_bind]. change (freep st0) with base.
    destruct (Z.eqb_spec base 0); [lia|]. done.
  - intros x Hx. cbn [um st0]. rewrite !rd8_store32_ne by lia. done.
Qed.

Lemma within_blk b x : 0 <= b.2 <= MAXREQ -> within b x -> inb (blk b) x.
Proof. intros Hb. destruct (units_spec b.2 Hb) as (_ & U & _). unfold within, inb, bend, blk. cbn. lia. Qed.

Lemma heap_kept base st live mine l b x :
  heap base st live mine l -> b ∈ live ++ mine -> within b x ->
  x < brk st /\ ~ (base <= x < base + 8) /\ ~ covers l x.
Proof.
  intros (R & A & M) [Hb|Hb]%elem_of_app Hx; [|destruct (A b x Hb Hx) as (? & ? & ? & _); done].
  pose proof (within_blk b x (M b Hb) Hx) as Hi. assert (blk b ∈ blk <$> live) as Hb' by (by apply list_elem_of_fmap_2).
  destruct (r_in _ _ _ _ R (blk b) (or_intror Hb')) as (I1 & I2 & I3). split_and!.
  - unfold inb in Hi. lia.
  - unfold inb in Hi. lia.
  - intros Hc. by apply (r_apart _ _ _ _ R x (blk b)).
Qed.

Lemma heap_live_mine base st live mine l b o x :
  heap base st live mine l -> b ∈ live -> o ∈ mine -> within b x -> ~ within o x.
Proof.
  intros (R & A & M) Hb Ho Hx Hx'. destruct (A o x Ho Hx') as (_ & _ & _ & []).
  exists (blk b). split; [by apply list_elem_of_fmap_2|]. by apply within_blk; [apply M|].
Qed.

Lemma heap_served base st st' live mine l n r :
  heap base st live mine l -> 0 <= n <= MAXREQ -> served base st st' l (blk <$> live) (blk (r, n)) ->
  (exists l', heap base st' ((r, n) :: live) mine l') /\ kept st st' (live ++ mine).
Proof.
  intros Hp Hn (l' & R' & Hk & Fr & Cov). pose proof Hp as (R & A & M). split.
  - exists l'. split_and!; [done| |intros b [->|Hb]%elem_of_cons; auto].
    intros o x Ho Hx. destruct (A o x Ho Hx) as (A1 & A2 & A3 & A4). split_and!; [lia|done| |].
    + intros X. destruct (Cov x (or_intror X)); [done|lia].
    + rewrite fmap_cons, covers_cons. intros [X|X]; [|done]. destruct (Cov x (or_introl X)); [done|lia].
  - intros b x Hb Hx. destruct (heap_kept _ _ _ _ _ b x Hp Hb Hx) as (X1 & X2 & X3). by apply Fr.
Qed.

Lemma malloc_step grant base st live mine n :
  heapish base st live mine -> 0 <= n <= MAXREQ ->
  exists r st', malloc grant base n st = Ret (r, st') /\ kept st st' (live ++ mine)
    /\ (exists l, heap base st' (if decide (r = 0) then live else (r, n) :: live) mine l)
    /\ (r = 0 \/ 8 < r) /\ (r = 0 -> refused grant st (units n)).
Proof.
  intros Hh Hn. destruct (heap_init grant base st live mine n Hh) as (st0 & l & Hp & -> & Hk & Hm).
  assert (kept st st0 (live ++ mine)) as K0.
  { intros b x Hb Hx. destruct (heap_kept _ _ _ _ _ b x Hp Hb Hx) as (X1 & X2 & X3). by apply Hm. }
  destruct (malloc_listed grant base st0 l (blk <$> live) n (proj1 Hp) Hn) as [(-> & Hr & _)|(st' & r & -> & Hr & S)].
  - exists 0, st0. split_and!; [done|done| |by left|].
    + exists l. done.
    + intros _. unfold refused in *. by rewrite <- Hk.
  - destruct (heap_served _ _ _ _ _ _ _ _ Hp Hn S) as [Hp' K]. exists r, st'. split_and!; [done| | |by right|lia].
    + intros b x Hb Hx. rewrite (K b x Hb Hx). by apply (K0 b).
    + rewrite decide_False by lia. done.
Qed.

Lemma rep_release base st l a1 b a2 :
  rep base st l (a1 ++ b :: a2) ->
  rep base st l (a1 ++ a2) /\ ok base (brk st) b /\ load32 (um st) (b.1 + 4) = b.2
  /\ (forall x, inb b x -> ~ covers l x /\ ~ covers (a1 ++ a2) x).
Proof.
  intros R. assert (forall c, c ∈ a1 ++ a2 -> c ∈ a1 ++ b :: a2) as Sub.
  { intros c [Hc|Hc]%elem_of_app; apply elem_of_app; [by left|right; by right]. }
  assert (b ∈ a1 ++ b :: a2) as Hb by (apply elem_of_app; right; left).
  pose proof (r_live _ _ _ _ R) as (S1 & S2 & S3)%StronglySorted_app. inversion S3 as [|?? S4 HF]; subst.
  split_and!; [split; try apply R| | |].
  - intros c [Hc|Hc]; apply (r_in _ _ _ _ R); auto.
  - intros x c Hx Hc. apply (r_apart _ _ _ _ R); auto.
  - apply StronglySorted_app. split_and!; [|done..]. intros c d Hc Hd. apply S1; [done|by right].
  - intros c Hc. apply (r_sizes _ _ _ _ R). auto.
  - apply (r_in _ _ _ _ R b). by right.
  - by apply (r_sizes _ _ _ _ R).
  - intros x Hx. split; [intros X; by apply (r_apart _ _ _ _ R x b)|]. intros (c & Hc & Hx').
    assert (apart b c) as Ap.
    { apply elem_of_app in Hc as [Hc|Hc]; [|rewrite Forall_forall in HF; by apply HF].
      destruct (S1 c b Hc (list_elem_of_here _ _)) as [?|?]; [by right|by left]. }
    unfold inb in *. destruct Ap; lia.
Qed.

Lemma free_step base st l1 b l2 mine l :
  heap base st (l1 ++ b :: l2) mine l ->
  exists st' l', free b.1 st = Ret st' /\ heap base st' (l1 ++ l2) mine l' /\ kept st st' ((l1 ++ l2) ++ mine)
    /\ exists c, c ∈ l' /\ units b.2 <= c.2.
Proof.
  intros (R & A & M). rewrite fmap_app, fmap_cons in R, A.
  destruct (rep_release _ _ _ _ _ _ R) as (R1 & Ob & Sb & Fb). rewrite <- fmap_app in R1, Fb.
  destruct (free_spec _ _ _ _ _ R1 Ob Sb Fb) as (st' & l' & F & R' & Hk & Fr & Cov & _ & c & Hc).
  replace ((blk b).1 + 8) with b.1 in F by (unfold blk; cbn; lia).
  assert (forall o x, o ∈ mine -> within o x -> x < brk st /\ ~ (base <= x < base + 8) /\ ~ covers l x /\ ~ inb (blk b) x /\ ~ covers (blk <$> l1 ++ l2) x) as A'.
  { intros o x Ho Hx. destruct (A o x Ho Hx) as (A1 & A2 & A3 & A4). rewrite covers_app, covers_cons in A4.
    rewrite fmap_app, covers_app. tauto. }
  assert (forall d, d ∈ l1 ++ l2 -> 0 <= d.2 <= MAXREQ) as M'.
  { intros d [Hd|Hd]%elem_of_app; apply M, elem_of_app; [by left|right; by right]. }
  exists st', l'. split_and!; [done|split_and!; [done| |done]| |by exists c].
  - intros o x Ho Hx. destruct (A' o x Ho Hx) as (A1 & A2 & A3 & A4 & A5). rewrite Hk, Cov. tauto.
  - intros d x Hd Hx. assert (heap base st (l1 ++ l2) mine l) as Hp.
    { split_and!; [done| |done]. intros o y Ho Hy. destruct (A' o y Ho Hy). tauto. }
    destruct (heap_kept _ _ _ _ _ d x Hp Hd Hx) as (X1 & X2 & X3). apply Fr; [done|]. rewrite covers_cons. intros [X|X]; [|done].
    apply elem_of_app in Hd as [Hd|Hd]; [|destruct (A' d x Hd Hx); tauto].
    destruct (Fb x X) as [_ []]. exists (blk d). split; [by apply list_elem_of_fmap_2|]. by apply within_blk; [apply M'|].
Qed.

Lemma live_same al a c x : StronglySorted apart al -> a ∈ al -> c ∈ al -> inb a x -> inb c x -> a = c.
Proof.
  intros HS [i Hi]%list_elem_of_lookup [j Hj]%list_elem_of_lookup Ha Hc.
  destruct (lt_eq_lt_dec i j) as [[?|<-]|?]; [|congruence|]; exfalso; unfold inb in *.
  - destruct (sorted_lookup apart al i j a c); [done..|lia|lia].
  - destruct (sorted_lookup apart al j i c a); [done..|lia|lia].
Qed.

Lemma write_header base st live mine l b c x :
  heap base st live mine l -> b ∈ live ++ mine -> within b x -> c = (base, 0) \/ c ∈ l \/ c ∈ blk <$> live -> ~ (c.1 <= x < c.1 + 8).
Proof.
  intros Hp Hb Hx Hc Hy. destruct (heap_kept _ _ _ _ _ b x Hp Hb Hx) as (X1 & X2 & X3). pose proof Hp as (R & A & M).
  destruct Hc as [->|Hc]; [done|]. destruct (r_in _ _ _ _ R c Hc) as (_ & Hs & _).
  assert (inb c x) as Hi by (unfold inb, bend; lia). destruct Hc as [Hc|Hc]; [apply X3; by exists c|].
  apply elem_of_app in Hb as [Hb|Hb]; [|destruct (A b x Hb Hx) as (_ & _ & _ & []); by exists c].
  assert (blk b = c) as <-; [|unfold blk, within in *; cbn in *; lia].
  eapply live_same; [apply R|by apply list_elem_of_fmap_2|done|by apply within_blk; [apply M|]|done].
Qed.

Lemma ureach_heap grant base st live mine : ureach grant base st live mine -> heapish base st live mine.
Proof.
  induction 1 as [m top Hb Ht|st live mine n r st' _ IH Hn E|st l1 b l2 mine st' _ IH E|st live mine b x v _ IH Hb Hx|st live mine n _ IH Hn Ht].
  - left. split_and!; cbn; try done; try lia. intros o x Ho Hx. unfold within in Hx.
    apply elem_of_cons in Ho as [->|[->|Ho]%elem_of_cons]; cbn in Hx; [| |by apply elem_of_nil in Ho].
    all: split_and!; try lia; intros (c & Hc & _); by apply elem_of_nil in Hc.
  - right. destruct (malloc_step grant base st live mine n IH Hn) as (r' & st1 & E' & _ & Hp & _). rewrite E in E'. by inversion E'; subst.
  - right. destruct IH as [(_ & E' & _)|[l Hp]]; [by destruct l1|].
    destruct (free_step _ _ _ _ _ _ _ Hp) as (st1 & l' & E' & Hp' & _). rewrite E in E'. inversion E'; subst. by exists l'.
  - destruct IH as [(Hf & -> & IH)|[l Hp]]; [left; done|right]. exists l. pose proof Hp as (R & A & M). split_and!; [|done..].
    apply (rep_headers base st l (blk <$> live)); [done|pose proof (r_base _ _ _ _ R); lia|].
    intros c y Hc Hy. apply rd8_wr8_ne. intros <-. by apply (write_header _ _ _ _ _ b c x Hp Hb Hx).
  - assert (forall l al o x, apart_mine base (brk st) l al mine -> base + 8 <= brk st ->
      (forall c, c ∈ l \/ c ∈ al -> bend c <= brk st) ->
      o ∈ (brk st, n) :: mine -> within o x -> x < brk st + n /\ ~ (base <= x < base + 8) /\ ~ covers l x /\ ~ covers al x) as K.
    { intros l al o x A Hb2 Hin [->|Ho]%elem_of_cons Hx; [|destruct (A o x Ho Hx) as (? & ? & ?); split_and!; try tauto; lia].
      unfold within in Hx. cbn in Hx. split_and!; [lia|lia| |]; intros (c & Hc & Hi); unfold inb in Hi.
      all: assert (bend c <= brk st) by (apply Hin; tauto); lia. }
    destruct IH as [(Hf & -> & Hb & Hb2 & A)|[l (R & A & M)]]; [left|right].
    + split_and!; cbn [brk freep]; try done; try lia. intros o x. apply K; [done|lia|]. intros c [X|X]; by apply elem_of_nil in X.
    + pose proof (r_base _ _ _ _ R). exists l. split_and!; [apply rep_headers; [done|cbn; lia|done]| |done].
      intros o x. apply K; [done|lia|]. intros c Hc. destruct (r_in _ _ _ _ R c Hc) as (_ & _ & ?). done.
Qed.

Lemma heap_inside base st live mine l b :
  heap base st live mine l -> b ∈ live -> base + 8 < b.1 /\ b.1 + b.2 <= brk st.
Proof.
  intros (R & A & M) Hb. destruct (units_spec b.2 (M b Hb)) as (U1 & U2 & _).
  destruct (r_in _ _ _ _ R (blk b)) as (I1 & I2 & I3); [right; by apply list_elem_of_fmap_2|].
  unfold bend, blk in *. cbn in *. lia.
Qed.

Lemma heap_disjoint base st live mine l i j b c :
  heap base st live mine l -> i <> j -> live !! i = Some b -> live !! j = Some c ->
  b.1 + b.2 <= c.1 \/ c.1 + c.2 <= b.1.
Proof.
  intros (R & A & M) Hij Hi Hj.
  destruct (units_spec b.2) as (B1 & B2 & _); [apply M; by eapply list_elem_of_lookup_2|].
  destruct (units_spec c.2) as (C1 & C2 & _); [apply M; by eapply list_elem_of_lookup_2|].
  assert (apart (blk b) (blk c)) as Ap; [|unfold apart, bend, blk in Ap; cbn in Ap; lia].
  destruct (decide (i < j)%nat).
  - eapply (sorted_lookup apart _ i j); [apply R|done|by rewrite list_lookup_fmap, ?Hi, ?Hj..].
  - assert (apart (blk c) (blk b)) as [?|?]; [|by right|by left].
    eapply (sorted_lookup apart _ j i); [apply R|lia|by rewrite list_lookup_fmap, ?Hi, ?Hj..].
Qed.

(** C5. In every run of a program that calls [malloc] and [free], writes into
    its blocks and grows its own memory, whatever the kernel grants: the live
    blocks lie in the process, are disjoint from each other and from the other
    memory of the program; every [malloc] of at most 2^31 - 16 bytes returns,
    changes no byte of the program, and gives a new block of the size asked
    for, or 0 when the kernel refused to grow the process; every [free] of a
    live block returns and changes no other byte of the program, and the
    memory it frees can be allocated again without the kernel. *)
Theorem malloc_free (grant : Z -> Z -> bool) (base : Z) (st : ustate) (live mine : list (Z * Z))
  (Hreach : ureach grant base st live mine) :
  (forall i j b c, i <> j -> live !! i = Some b -> live !! j = Some c -> b.1 + b.2 <= c.1 \/ c.1 + c.2 <= b.1)
  /\ (forall b, b ∈ live -> base + 8 < b.1 /\ b.1 + b.2 <= brk st /\ forall o x, o ∈ mine -> within b x -> ~ within o x)
  /\ (forall n, 0 <= n <= MAXREQ -> exists r st', malloc grant base n st = Ret (r, st') /\ kept st st' (live ++ mine)
        /\ (r = 0 /\ refused grant st (units n)
            \/ 0 < r /\ r + n <= brk st' /\ forall b x, b ∈ live ++ mine -> within b x -> ~ within (r, n) x))
  /\ (forall l1 b l2, live = l1 ++ b :: l2 -> exists st', free b.1 st = Ret st' /\ kept st st' ((l1 ++ l2) ++ mine)
        /\ forall n, 0 <= n <= b.2 -> exists r st'', malloc grant base n st' = Ret (r, st'') /\ r <> 0).
Proof.
  pose proof (ureach_heap _ _ _ _ _ Hreach) as Hh.
  split_and!.
  - intros i j b c Hij Hi Hj. destruct Hh as [(_ & -> & _)|[l Hp]]; [done|]. by eapply heap_disjoint.
  - intros b Hb. destruct Hh as [(_ & -> & _)|[l Hp]]; [by apply elem_of_nil in Hb|]. split_and!.
    1,2: apply (heap_inside _ _ _ _ _ _ Hp Hb).
    intros o x Ho Hx. by eapply heap_live_mine.
  - intros n Hn. destruct (malloc_step grant base st live mine n Hh Hn) as (r & st' & E & K & [l Hp] & Hr & Href).
    exists r, st'. split_and!; [done..|]. destruct Hr as [->|Hr]; [left; auto|right].
    rewrite decide_False in Hp by lia. destruct (heap_inside _ _ _ _ _ (r, n) Hp) as [_ ?]; [left|]. cbn in *.
    split_and!; [lia|done|]. intros b x [Hb|Hb]%elem_of_app Hx Hx'.
    + apply list_elem_of_lookup in Hb as [j Hj].
      pose proof (heap_disjoint _ _ _ _ _ 0 (S j) (r, n) b Hp ltac:(lia) eq_refl Hj). unfold within in *. cbn in *. lia.
    + eapply (heap_live_mine _ _ _ _ _ (r, n) b x Hp); [left|done..].
  - intros l1 b l2 ->. destruct Hh as [(_ & E & _)|[l Hp]]; [by destruct l1|].
    destruct (free_step _ _ _ _ _ _ _ Hp) as (st' & l' & E & (R & A & M) & K & c & Hc & Hle).
    exists st'. split_and!; [done..|]. intros n Hn. assert (b.2 <= MAXREQ) by (apply Hp, elem_of_app; right; left).
    destruct (malloc_listed grant base st' l' _ n R) as [(_ & _ & Hs)|(st'' & r & E' & Hr & _)]; [lia| |].
    + specialize (Hs c Hc). pose proof (units_mono n b.2 Hn). lia.
    + exists r, st''. split; [done|lia].
Qed.

Definition demo_grant (sz n : Z) : bool := sz + n <=? 2 ^ 16.
Definition demo_mine (top : Z) : list (Z * Z) := [(0, 0x1000); (0x1008, top - 0x1008)].

(** Two allocations, the first is freed, and a third one. *)
Definition demo_run (st : ustate) : outcome (Z * Z * Z * ustate) :=
  '(r1, st) ← malloc demo_grant 0x1000 16 st;
  '(r2, st) ← malloc demo_grant 0x1000 8 st;
  st ← free r1 st;
  '(r3, st) ← malloc demo_grant 0x1000 40 st;
  Ret (r1, r2, r3, st).
Definition demo_served (x : Z * Z * Z * ustate) : bool :=
  let '(r1, r2, r3, _) := x in negb (r1 =? 0) && negb (r2 =? 0) && negb (r3 =? 0).

Lemma demo_run_returns : ends_in (demo_run (UState ∅ 0x2000 0)) demo_served = true.
Proof. vm_compute. reflexivity. Qed.

Lemma demo_run_reach m top x :
  0x1008 <= top <= USERTOP -> demo_run (UState m top 0) = Ret x -> demo_served x = true ->
  exists st r2 r3, ureach demo_grant 0x1000 st [(r3, 40); (r2, 8)] (demo_mine top).
Proof.
  intros Ht E Hr. destruct x as [[[r1 r2] r3] st].
  apply andb_prop in Hr as [[Hr1 Hr2]%andb_prop Hr3].
  apply negb_true_iff, Z.eqb_neq in Hr1, Hr2, Hr3. unfold demo_run in E.
  apply bind_Ret_inv in E as ([p1 st1] & E1 & E). apply bind_Ret_inv in E as ([p2 st2] & E2 & E).
  apply bind_Ret_inv in E as (st3 & E3 & E). apply bind_Ret_inv in E as ([p3 st4] & E4 & E).
  inversion E; subst. exists st, r2, r3.
  assert (ureach demo_grant 0x1000 st1 [(r1, 16)] (demo_mine top)) as U1.
  { eapply ur_malloc in E1; [|apply ur_start; lia|unfold MAXREQ; lia]. by rewrite decide_False in E1. }
  assert (ureach demo_grant 0x1000 st2 [(r2, 8); (r1, 16)] (demo_mine top)) as U2.
  { eapply ur_malloc in E2; [|exact U1|unfold MAXREQ; lia]. by rewrite decide_False in E2. }
  assert (ureach demo_grant 0x1000 st3 [(r2, 8)] (demo_mine top)) as U3 by exact (ur_free _ _ _ [(r2, 8)] (r1, 16) [] _ _ U2 E3).
  eapply ur_malloc in E4; [|exact U3|unfold MAXREQ; lia]. by rewrite decide_False in E4.
Qed.

Lemma demo_reach : exists st r2 r3, ureach demo_grant 0x1000 st [(r3, 40); (r2, 8)] (demo_mine 0x2000).
Proof.
  destruct (ends_in_true _ _ demo_run_returns) as (x & E & Hr).
  apply (demo_run_reach ∅ 0x2000 x); [unfold USERTOP; lia|exact E|exact Hr].
Qed.

Lemma malloc_free_witness : exists st r2 r3, ureach demo_grant 0x1000 st [(r3, 40); (r2, 8)] (demo_mine 0x2000)
  /\ (r3 + 40 <= r2 \/ r2 + 8 <= r3)
  /\ exists st', free r2 st = Ret st' /\ exists r st'', malloc demo_grant 0x1000 8 st' = Ret (r, st'') /\ r <> 0.
Proof.
  destruct demo_reach as (st & r2 & r3 & U). exists st, r2, r3. split; [exact U|].
  destruct (malloc_free demo_grant 0x1000 st _ _ U) as (H1 & H2 & H3 & H4). split.
  - apply (H1 0%nat 1%nat (r3, 40) (r2, 8)); [discriminate|reflexivity|reflexivity].
  - destruct (H4 [(r3, 40)] (r2, 8) [] eq_refl) as (st' & E & _ & F). exists st'. split; [exact E|].
    apply F. simpl. lia.
Defined.

(** A request near 2^32 wraps around: [malloc] returns a block without a payload. *)
Lemma malloc_wraps : units 0xFFFFFFFF = 1.
Proof. reflexivity. Qed.
