(* ===== verification/Threads.v ===== *)
(** * The thread library (thread_create and thread_join of user/ulib.c)

    A thread gets a stack of one page out of a block of two pages from
    [malloc]; the table [threads] remembers which block belongs to which stack,
    so that [thread_join] can free it.  The heap is that of Umalloc.v.  What
    the system calls [clone] and [join] return is an argument: [clone] gives a
    process number or -1, [join] the number and the stack of a thread that
    ended, one that was given to [clone] before.

    The theorems: in every run of a program that also uses the heap itself,
    stacks are whole pages inside blocks that nobody else has, a join frees
    exactly the block of its thread, and creating fails only without memory, as
    long as the table has room. *)

From S2P Require Import Prelude Memory Kalloc Vm Umalloc.

Definition MAX_THREADS : nat := 64.

(** [threads], pairs of [allocated] and [stack], and the heap. *)
Record tstate := TState { threads : list (Z * Z); hp : ustate }.

Definition threads_boot : list (Z * Z) := replicate MAX_THREADS (0, 0).

(** [while (test threads[i]) ++i;] an access beyond the table is undefined. *)
Fixpoint slot_loop (fuel : nat) (th : list (Z * Z)) (go : Z * Z -> bool) (i : Z) : outcome Z :=
  match fuel with
  | O => Undef "loop bound"
  | S fuel => p ← aget th i; if go p then slot_loop fuel th go (i + 1) else Ret i
  end.
Definition find_slot (th : list (Z * Z)) (go : Z * Z -> bool) : outcome Z := slot_loop (MAX_THREADS + 1) th go 0.

(** [thread_create] up to the call of [clone]: the stack for it, or [None]
    when there is no memory. *)
Definition thread_setup (grant : Z -> Z -> bool) (base : Z) (s : tstate) : outcome (option Z * tstate) :=
  '(allocated, u) ← malloc grant base (2 * PGSIZE) (hp s);
  if allocated =? 0 then Ret (None, TState (threads s) u)
  else
    let stack := u32 (Z.land (allocated + PGSIZE - 1) (Z.lnot (PGSIZE - 1))) in
    i ← find_slot (threads s) (fun p => negb (p.1 =? 0));
    th ← aset (threads s) i (allocated, stack);
    Ret (Some stack, TState th u).

Definition thread_create (grant : Z -> Z -> bool) (base : Z) (clone : Z -> Z) (s : tstate) : outcome (Z * tstate) :=
  '(o, s) ← thread_setup grant base s;
  Ret (match o with Some stack => clone stack | None => -1 end, s).

(** [thread_join] when [join] returned [pid] and stored [stack]. *)
Definition thread_join (pid stack : Z) (s : tstate) : outcome (Z * tstate) :=
  if pid <? 0 then Ret (-1, s)
  else
    i ← find_slot (threads s) (fun p => negb (p.2 =? stack));
    p ← aget (threads s) i;
    th ← aset (threads s) i (0, 0);
    u ← free p.1 (hp s);
    Ret (pid, TState th u).

(** ** Runs *)

(** The blocks of the table. *)
Definition tblocks (th : list (Z * Z)) : list (Z * Z) :=
  (fun p => (p.1, 2 * PGSIZE)) <$> filter (fun p => p.1 <> 0) th.

(** The states of a program with running threads on the stacks [run], blocks
    [own] that it allocated itself, and other memory [mine]. *)
Inductive threaded (grant : Z -> Z -> bool) (base : Z) : tstate -> list Z -> list (Z * Z) -> list (Z * Z) -> Prop :=
| th_start u mine :
    ureach grant base u [] mine -> threaded grant base (TState threads_boot u) [] [] mine
| th_create s run own mine clone o s' :
    threaded grant base s run own mine -> thread_setup grant base s = Ret (o, s') ->
    threaded grant base s' (match o with Some stack => if clone stack <? 0 then run else stack :: run | None => run end) own mine
| th_join s run1 stack run2 own mine pid s' :
    threaded grant base s (run1 ++ stack :: run2) own mine -> 0 <= pid -> thread_join pid stack s = Ret (pid, s') ->
    threaded grant base s' (run1 ++ run2) own mine
| th_malloc s run own mine n r u :
    threaded grant base s run own mine -> 0 <= n <= MAXREQ -> malloc grant base n (hp s) = Ret (r, u) ->
    threaded grant base (TState (threads s) u) run (if decide (r = 0) then own else (r, n) :: own) mine
| th_free s run o1 b o2 mine u :
    threaded grant base s run (o1 ++ b :: o2) mine -> free b.1 (hp s) = Ret u ->
    threaded grant base (TState (threads s) u) run (o1 ++ o2) mine
| th_write s run own mine b x v :
    threaded grant base s run own mine -> b ∈ tblocks (threads s) ++ own ++ mine -> within b x ->
    threaded grant base (TState (threads s) (set_um (wr8 (um (hp s)) x v) (hp s))) run own mine.

(** ** The invariant *)

(** A slot is empty, or has a block and the first page boundary in it. *)
Definition slot_ok (p : Z * Z) : Prop :=
  p = (0, 0) \/ 0 < p.1 <= USERTOP /\ p.2 = PGSIZE * ((p.1 + PGSIZE - 1) / PGSIZE).

Record tinv (grant : Z -> Z -> bool) (base : Z) (s : tstate) (run : list Z) (own mine : list (Z * Z)) : Prop := {
  ti_length : length (threads s) = MAX_THREADS;
  ti_slots : Forall slot_ok (threads s);
  ti_heap : exists live, live ≡ₚ tblocks (threads s) ++ own /\ ureach grant base (hp s) live mine;
  ti_run : NoDup run /\ forall stack, stack ∈ run -> exists a, (a, stack) ∈ threads s /\ a <> 0
}.

(** ** The search for a slot *)

Lemma slot_loop_spec fuel th go i :
  0 <= i <= Z.of_nat (length th) -> (length th - Z.to_nat i < fuel)%nat ->
  (exists j p, i <= Z.of_nat j /\ th !! j = Some p /\ go p = false /\ slot_loop fuel th go i = Ret (Z.of_nat j) /\
     forall k q, i <= Z.of_nat k < Z.of_nat j -> th !! k = Some q -> go q = true) \/
  (forall k q, i <= Z.of_nat k -> th !! k = Some q -> go q = true) /\ forall x, slot_loop fuel th go i <> Ret x.
Proof.
  revert i. induction fuel as [|fuel IH]; intros i Hi Hf; [lia|]. cbn [slot_loop].
  destruct (th !! Z.to_nat i) as [p|] eqn:E.
  - rewrite (proj2 (aget_Ret th i p)) by (split; [lia|done]). cbn [mbind outcome_bind].
    pose proof (lookup_lt_Some _ _ _ E). destruct (go p) eqn:Eg.
    + destruct (IH (i + 1)) as [(j & q & H1 & H2 & H3 & H4 & H5)|[H1 H2]]; [lia..| |].
      * left. exists j, q. split_and!; try done; [lia|]. intros k q' Hk Hq.
        destruct (decide (Z.of_nat k = i)) as [<-|]; [|apply (H5 k q'); [lia|done]].
        rewrite Nat2Z.id in E. congruence.
      * right. split; [|done]. intros k q Hk Hq.
        destruct (decide (Z.of_nat k = i)) as [<-|]; [|apply (H1 k q); [lia|done]].
        rewrite Nat2Z.id in E. congruence.
    + left. exists (Z.to_nat i), p. rewrite Z2Nat.id by lia. split_and!; try done. lia.
  - right. apply lookup_ge_None in E. split.
    + intros k q Hk Hq. apply lookup_lt_Some in Hq. lia.
    + intros x. destruct (aget th i) as [y| |] eqn:Ea; [|done..]. apply aget_Ret in Ea as [_ Ea].
      apply lookup_lt_Some in Ea. lia.
Qed.

(** ** Blocks *)

Definition disjoint (b c : Z * Z) : Prop := b.1 + b.2 <= c.1 \/ c.1 + c.2 <= b.1.

(** What the heap promises about live blocks. *)
Lemma live_blocks grant base u live mine :
  ureach grant base u live mine ->
  (forall b, b ∈ live -> 8 < b.1 /\ b.1 + b.2 <= brk u) /\ brk u <= USERTOP /\
  (forall b c l, live ≡ₚ b :: c :: l -> disjoint b c).
Proof.
  intros [(_ & -> & Hb & Ht & _)|[l Hp]]%ureach_heap.
  { split_and!; [by intros b ?%elem_of_nil|lia|]. intros b c l Hl. by apply Permutation_nil in Hl. }
  pose proof (r_base _ _ _ _ (proj1 Hp)) as Hr. split_and!; [|lia|].
  - intros b Hbl. pose proof (heap_inside _ _ _ _ _ b Hp Hbl). lia.
  - intros b c l' Hl. assert (b ∈ live) as (l1 & l2 & ->)%list_elem_of_split by (rewrite Hl; set_solver).
    rewrite <- Permutation_middle in Hl. apply Permutation_cons_inv in Hl.
    assert (c ∈ l1 ++ l2) as [(i & Hi)%list_elem_of_lookup_1|(i & Hi)%list_elem_of_lookup_1]%elem_of_app by (rewrite Hl; set_solver).
    + apply (heap_disjoint _ _ _ _ _ (length l1) i b c Hp).
      * apply lookup_lt_Some in Hi. lia.
      * by apply list_lookup_middle.
      * rewrite lookup_app_l; [done|by eapply lookup_lt_Some].
    + apply (heap_disjoint _ _ _ _ _ (length l1) (length l1 + S i) b c Hp); [lia|by apply list_lookup_middle|].
      rewrite lookup_app_r by lia. by replace (length l1 + S i - length l1)%nat with (S i) by lia.
Qed.

Lemma live_free grant base u live mine b rest :
  ureach grant base u live mine -> live ≡ₚ b :: rest ->
  exists u' live', free b.1 u = Ret u' /\ live' ≡ₚ rest /\ ureach grant base u' live' mine.
Proof.
  intros Hu Hl. assert (b ∈ live) as (l1 & l2 & ->)%list_elem_of_split by (rewrite Hl; set_solver).
  destruct (ureach_heap _ _ _ _ _ Hu) as [(_ & E & _)|[l Hp]]; [by destruct l1|].
  destruct (free_step _ _ _ _ _ _ _ Hp) as (u' & l' & E & _). exists u', (l1 ++ l2). split; [done|]. split.
  - rewrite <- Permutation_middle in Hl. by apply Permutation_cons_inv in Hl.
  - by eapply ur_free.
Qed.

Lemma tblocks_app t1 t2 : tblocks (t1 ++ t2) = tblocks t1 ++ tblocks t2.
Proof. unfold tblocks. by rewrite filter_app, fmap_app. Qed.

Lemma tblocks_cons p t : tblocks (p :: t) = if decide (p.1 = 0) then tblocks t else (p.1, 2 * PGSIZE) :: tblocks t.
Proof.
  unfold tblocks. rewrite filter_cons. destruct (decide (p.1 = 0)) as [E|E].
  - by rewrite decide_False by tauto.
  - by rewrite decide_True by done.
Qed.

(** Filling and clearing a slot. *)
Lemma tblocks_fill th i p q :
  th !! i = Some p -> p.1 = 0 -> q.1 <> 0 -> tblocks (<[i := q]> th) ≡ₚ (q.1, 2 * PGSIZE) :: tblocks th.
Proof.
  intros Hi Hp Hq. pose proof (lookup_lt_Some _ _ _ Hi). rewrite insert_take_drop by done.
  rewrite <- (take_drop_middle th i p) at 3 by done. rewrite !tblocks_app, !tblocks_cons.
  rewrite (decide_False (P := q.1 = 0)), (decide_True (P := p.1 = 0)) by done. symmetry. apply Permutation_middle.
Qed.

Lemma tblocks_clear th i p :
  th !! i = Some p -> p.1 <> 0 -> tblocks th ≡ₚ (p.1, 2 * PGSIZE) :: tblocks (<[i := (0, 0)]> th).
Proof.
  intros Hi Hp. rewrite <- (tblocks_fill (<[i := (0, 0)]> th) i (0, 0) p); [|by apply list_lookup_insert_eq; eapply lookup_lt_Some|done|done].
  by rewrite list_insert_insert_eq, list_insert_id.
Qed.

(** ** Slots *)

Lemma slot_stack p :
  slot_ok p -> p.1 <> 0 ->
  0 < p.1 <= USERTOP /\ p.2 mod PGSIZE = 0 /\ p.1 <= p.2 /\ p.2 + PGSIZE <= p.1 + 2 * PGSIZE.
Proof. unfold slot_ok, PGSIZE. intros [->|[H ->]] Hne; [done|]. dm. Qed.

Section inv.
  Context (grant : Z -> Z -> bool) (base : Z) (s : tstate) (run : list Z) (own mine : list (Z * Z)).
  Context (H : tinv grant base s run own mine).

Lemma slots_disjoint i j p q :
  i <> j -> threads s !! i = Some p -> threads s !! j = Some q -> p.1 <> 0 -> q.1 <> 0 ->
  disjoint (p.1, 2 * PGSIZE) (q.1, 2 * PGSIZE).
Proof.
  intros Hij Hi Hj Hp Hq. destruct (ti_heap _ _ _ _ _ _ H) as (live & Hl & Hu).
  apply (proj2 (proj2 (live_blocks _ _ _ _ _ Hu))
    _ _ (tblocks (<[j := (0, 0)]> (<[i := (0, 0)]> (threads s))) ++ own)).
  rewrite Hl, (tblocks_clear _ i p Hi Hp), (tblocks_clear (<[i := (0, 0)]> (threads s)) j q); [done| |done].
  by rewrite list_lookup_insert_ne.
Qed.

(** A stack names its slot. *)
Lemma stack_slot i j p q :
  threads s !! i = Some p -> threads s !! j = Some q -> p.1 <> 0 -> p.2 = q.2 -> i = j.
Proof.
  intros Hi Hj Hp Hpq. pose proof (ti_slots _ _ _ _ _ _ H) as Hs. rewrite Forall_lookup in Hs.
  pose proof (slot_stack p (Hs i p Hi) Hp) as Sp.
  destruct (decide (q.1 = 0)) as [Hq|Hq].
  { destruct (Hs j q Hj) as [->|[Hq' _]]; [|lia]. cbn in *. lia. }
  pose proof (slot_stack q (Hs j q Hj) Hq) as Sq.
  destruct (decide (i = j)) as [|Hij]; [done|].
  pose proof (slots_disjoint i j p q Hij Hi Hj Hp Hq) as D. unfold disjoint, PGSIZE in *. cbn in D. lia.
Qed.
End inv.

(** ** Operations *)

(** [find_slot] finds the first slot that stops it. *)
Lemma find_slot_spec th go :
  length th = MAX_THREADS ->
  (exists j p, th !! j = Some p /\ go p = false /\ find_slot th go = Ret (Z.of_nat j) /\
     forall k q, (k < j)%nat -> th !! k = Some q -> go q = true) \/
  (forall k q, th !! k = Some q -> go q = true) /\ forall x, find_slot th go <> Ret x.
Proof.
  intros Hl. destruct (slot_loop_spec (MAX_THREADS + 1) th go 0) as [(j & p & _ & H1 & H2 & H3 & H4)|[H1 H2]]; [lia|lia|left|right].
  - exists j, p. split_and!; try done. intros k q Hk. apply H4. lia.
  - split; [|done]. intros k q. apply H1. lia.
Qed.

Lemma stack_formula a :
  0 < a <= USERTOP -> u32 (Z.land (a + PGSIZE - 1) (Z.lnot (PGSIZE - 1))) = PGSIZE * ((a + PGSIZE - 1) / PGSIZE).
Proof.
  intros Ha. rewrite land_page_mask. apply u32_small. unfold is_u32, PGSIZE, USERTOP in *. dm.
Qed.

Section steps.
  Context (grant : Z -> Z -> bool) (base : Z) (s : tstate) (run : list Z) (own mine : list (Z * Z)).
  Context (H : tinv grant base s run own mine).

(** The call of [malloc] in [thread_create]. *)
Lemma setup_malloc :
  exists r u live, malloc grant base (2 * PGSIZE) (hp s) = Ret (r, u) /\ live ≡ₚ tblocks (threads s) ++ own /\
    ureach grant base u (if decide (r = 0) then live else (r, 2 * PGSIZE) :: live) mine /\
    (r = 0 -> refused grant (hp s) (units (2 * PGSIZE))) /\ (r <> 0 -> 0 < r <= USERTOP).
Proof.
  destruct (ti_heap _ _ _ _ _ _ H) as (live & Hl & Hu).
  assert (0 <= 2 * PGSIZE <= MAXREQ) as Hn by (unfold PGSIZE, MAXREQ; lia).
  destruct (malloc_step grant base _ _ _ _ (ureach_heap _ _ _ _ _ Hu) Hn) as (r & u & E & _ & _ & _ & Hr).
  pose proof (ur_malloc _ _ _ _ _ _ _ _ Hu Hn E) as Hu'. exists r, u, live. split_and!; try done.
  intros Hne. rewrite decide_False in Hu' by done. destruct (live_blocks _ _ _ _ _ Hu') as (H1 & H2 & _).
  destruct (H1 (r, 2 * PGSIZE)) as [H3 H4]; [left|]. unfold PGSIZE in *. cbn in *. lia.
Qed.

(** [thread_create] before [clone]. *)
Lemma setup_spec :
  (exists u, thread_setup grant base s = Ret (None, TState (threads s) u) /\ refused grant (hp s) (units (2 * PGSIZE)) /\
     tinv grant base (TState (threads s) u) run own mine) \/
  (exists j p a stack u, thread_setup grant base s = Ret (Some stack, TState (<[j := (a, stack)]> (threads s)) u) /\
     threads s !! j = Some p /\ p.1 = 0 /\ (forall k q, (k < j)%nat -> threads s !! k = Some q -> q.1 <> 0) /\
     a <> 0 /\ stack ∉ run /\ tinv grant base (TState (<[j := (a, stack)]> (threads s)) u) run own mine) \/
  (forall k q, threads s !! k = Some q -> q.1 <> 0) /\ forall x, thread_setup grant base s <> Ret x.
Proof.
  destruct setup_malloc as (r & u & live & E & Hl & Hu & Hr0 & Hr1). unfold thread_setup. rewrite E. cbn [mbind outcome_bind].
  pose proof (ti_length _ _ _ _ _ _ H) as Hlen.
  destruct (Z.eqb_spec r 0) as [->|Hne].
  { left. exists u. split_and!; [done|by apply Hr0|]. destruct H as [T1 T2 _ T4]. split; try done. by exists live. }
  rewrite decide_False in Hu by done. specialize (Hr1 Hne). rewrite stack_formula by done.
  set (stack := PGSIZE * _). right.
  destruct (find_slot_spec (threads s) (fun p => negb (p.1 =? 0)) Hlen) as [(j & p & Hj & Hp & -> & Hbefore)|[H1 H2]].
  - left. apply negb_false_iff, Z.eqb_eq in Hp. pose proof (lookup_lt_Some _ _ _ Hj).
    cbn [mbind outcome_bind]. rewrite aset_Ret by lia. cbn [mbind outcome_bind]. rewrite Nat2Z.id.
    assert (tinv grant base (TState (<[j := (r, stack)]> (threads s)) u) run own mine) as Hinv.
    { destruct H as [T1 T2 _ [T3 T4]]. split; cbn [threads hp].
      - by rewrite length_insert.
      - apply Forall_insert; [done|]. right. done.
      - exists ((r, 2 * PGSIZE) :: live). split; [|done]. by rewrite (tblocks_fill _ j p), Hl.
      - split; [done|]. intros st (a & Ha & Hane)%T4. exists a. split; [|done].
        apply list_elem_of_lookup in Ha as [k Hk]. apply list_elem_of_lookup. exists k.
        rewrite list_lookup_insert_ne; [done|]. intros ->. rewrite Hj in Hk. injection Hk as ->. done. }
    exists j, p, r, stack, u. split_and!; try done.
    + intros k q Hk Hq. specialize (Hbefore k q Hk Hq). cbn in Hbefore. by destruct (Z.eqb_spec q.1 0).
    + intros (a & Ha & Hane)%(proj2 (ti_run _ _ _ _ _ _ H)). apply list_elem_of_lookup in Ha as [k Hk].
      assert (k <> j) as Hkj by (intros ->; rewrite Hj in Hk; injection Hk as ->; done).
      apply Hkj. apply (stack_slot _ _ _ _ _ _ Hinv k j (a, stack) (r, stack)); try done; cbn [threads].
      * by rewrite list_lookup_insert_ne.
      * by apply list_lookup_insert_eq.
  - right. split.
    + intros k q Hq. specialize (H1 k q Hq). cbn in H1. by destruct (Z.eqb_spec q.1 0).
    + intros x. destruct (find_slot _ _) as [y| |] eqn:Ef; [by destruct (H2 y)|done..].
Qed.

Lemma join_step stack pid :
  stack ∈ run -> 0 <= pid ->
  exists j a u, threads s !! j = Some (a, stack) /\ a <> 0 /\ free a (hp s) = Ret u /\
    thread_join pid stack s = Ret (pid, TState (<[j := (0, 0)]> (threads s)) u) /\
    forall run', NoDup run' -> (forall x, x ∈ run' -> x ∈ run /\ x <> stack) ->
      tinv grant base (TState (<[j := (0, 0)]> (threads s)) u) run' own mine.
Proof.
  intros Hrun Hpid. destruct (ti_run _ _ _ _ _ _ H) as [_ Hin]. destruct (Hin _ Hrun) as (a & Ha & Hane).
  apply list_elem_of_lookup in Ha as [i Hi]. pose proof (ti_length _ _ _ _ _ _ H) as Hlen.
  destruct (find_slot_spec (threads s) (fun p => negb (p.2 =? stack)) Hlen) as [(j & p & Hj & Hp & Ef & _)|[H1 _]].
  2: { specialize (H1 i _ Hi). cbn in H1. by rewrite Z.eqb_refl in H1. }
  apply negb_false_iff, Z.eqb_eq in Hp.
  assert (i = j) as <- by (by apply (stack_slot _ _ _ _ _ _ H i j (a, stack) p)).
  rewrite Hi in Hj. injection Hj as <-. pose proof (lookup_lt_Some _ _ _ Hi).
  destruct (ti_heap _ _ _ _ _ _ H) as (live & Hl & Hu).
  destruct (live_free grant base (hp s) live mine (a, 2 * PGSIZE) (tblocks (<[i := (0, 0)]> (threads s)) ++ own))
    as (u & live' & Eu & Hl' & Hu'); [done|by rewrite Hl, (tblocks_clear _ i (a, stack))|].
  exists i, a, u. split_and!; try done.
  - unfold thread_join. rewrite (proj2 (Z.ltb_ge _ _)), Ef by lia. cbn [mbind outcome_bind].
    rewrite (aget_Some _ _ _ Hi). cbn [mbind outcome_bind]. rewrite aset_Ret by lia. cbn [mbind outcome_bind fst] in *.
    rewrite Eu. by rewrite Nat2Z.id.
  - intros run' Hnd Hsub. destruct H as [T1 T2 _ _]. split; cbn [threads hp].
    + by rewrite length_insert.
    + apply Forall_insert; [done|by left].
    + by exists live'.
    + split; [done|]. intros x Hx. destruct (Hsub x Hx) as [Hxr Hne]. destruct (Hin x Hxr) as (a' & Ha' & Hn').
      exists a'. split; [|done]. apply list_elem_of_lookup in Ha' as [k Hk]. apply list_elem_of_lookup. exists k.
      rewrite list_lookup_insert_ne; [done|]. intros <-. rewrite Hi in Hk. by injection Hk as -> ->.
Qed.
End steps.

Lemma threads_boot_blocks : tblocks threads_boot = [].
Proof. reflexivity. Qed.

Lemma threaded_inv grant base s run own mine :
  threaded grant base s run own mine -> tinv grant base s run own mine.
Proof.
  induction 1 as [u mine Hu|s run own mine clone o s' _ IH E|s run1 stack run2 own mine pid s' _ IH Hpid E
    |s run own mine n r u _ IH Hn E|s run o1 b o2 mine u _ IH E|s run own mine b x v _ IH Hb Hx].
  - split; [done| | |].
    + apply Forall_replicate. by left.
    + exists []. cbn [threads hp]. by rewrite threads_boot_blocks.
    + split; [constructor|]. by intros ? ?%elem_of_nil.
  - destruct (setup_spec _ _ _ _ _ _ IH) as [(u & E' & _ & T)|[(j & p & a & stack & u & E' & Hj & _ & _ & Ha & Hs & T)|[_ E']]];
      [| |by apply E' in E]; rewrite E' in E; injection E as <- <-; [done|].
    destruct (clone stack <? 0); [done|]. destruct T as [T1 T2 T3 [T4 T5]]. split; try done. split; [by constructor|].
    intros x [->|Hx]%elem_of_cons; [|by apply T5]. exists a. split; [|done]. apply list_elem_of_lookup. exists j.
    apply list_lookup_insert_eq. by eapply lookup_lt_Some.
  - assert (stack ∈ run1 ++ stack :: run2) as Hin by set_solver.
    destruct (join_step _ _ _ _ _ _ IH stack pid Hin Hpid) as (j & a & u & _ & _ & _ & E' & T).
    rewrite E' in E. injection E as <-. destruct (ti_run _ _ _ _ _ _ IH) as [Hnd _].
    rewrite <- Permutation_middle in Hnd. apply NoDup_cons in Hnd as [Hni Hnd]. apply T; [done|]. intros x Hx.
    split; [set_solver|]. by intros ->.
  - destruct IH as [T1 T2 (live & Hl & Hu) T4]. split; try done. cbn [threads hp].
    exists (if decide (r = 0) then live else (r, n) :: live). split; [|by eapply ur_malloc].
    case_decide; [done|]. rewrite Hl. apply Permutation_middle.
  - destruct IH as [T1 T2 (live & Hl & Hu) T4]. split; try done. cbn [threads hp].
    destruct (live_free grant base (hp s) live mine b (tblocks (threads s) ++ o1 ++ o2)) as (u' & live' & E' & Hl' & Hu'); [done| |].
    { rewrite Hl, !app_assoc. symmetry. apply Permutation_middle. }
    rewrite E in E'. injection E' as <-. by exists live'.
  - destruct IH as [T1 T2 (live & Hl & Hu) T4]. split; try done. cbn [threads hp]. exists live. split; [done|].
    apply (ur_write _ _ _ _ _ b x v Hu); [|done]. rewrite elem_of_app. rewrite !elem_of_app in Hb. rewrite Hl, elem_of_app. tauto.
Qed.


(** ** Example: one thread *)

Definition demo_threads : tstate := TState threads_boot (UState ∅ 0x2000 0).

Lemma demo_setup_returns :
  ends_in (thread_setup demo_grant 0x1000 demo_threads) (fun x => bool_decide (x.1 = Some 0x9000 \/ x.1 = Some 0x8000)) = true.
Proof. vm_compute. reflexivity. Qed.

Lemma demo_threaded : exists s stack, threaded demo_grant 0x1000 s [stack] [] (demo_mine 0x2000).
Proof.
  destruct (ends_in_true _ _ demo_setup_returns) as ([o s] & E & Ho%bool_decide_eq_true).
  pose proof (th_create demo_grant 0x1000 demo_threads [] [] (demo_mine 0x2000) (fun _ => 3) o s) as T.
  destruct Ho as [Ho|Ho]; cbn [fst] in Ho; subst o; exists s; eexists; apply T; try exact E;
    apply th_start, ur_start; unfold USERTOP; lia.
Qed.

