(* ===== verification/Sh.v ===== *)
(** * The shell (user/sh.c)

    The parser works on a line of text [buf] without its terminator; a pointer
    into the text is a position, and [es] is the length of [buf].  A [panic] of
    the shell ends the process that parses.  The commands that the parser
    builds hold positions, as the C structures hold pointers, and
    [nulterminate] cuts the text at the ends of the words. *)

From S2P Require Import Prelude Ulib SysFile.

(** ** Commands *)

Definition MAXARGS : nat := 10.

(** [W] is the type of words: a pair of pointers while parsing. *)
Inductive cmd (W : Type) :=
| EXEC (argv : list W)
| REDIR (c : cmd W) (file : W) (mode fd : Z)
| PIPE (left right : cmd W)
| LIST (left right : cmd W)
| BACK (c : cmd W).
Arguments EXEC {W} argv.
Arguments REDIR {W} c file mode fd.
Arguments PIPE {W} left right.
Arguments LIST {W} left right.
Arguments BACK {W} c.
Abbreviation pcmd := (cmd (nat * nat)).

(** ** Tokens *)

Definition whitespace : list Z := [32; 9; 13; 10; 11].
Definition symbols : list Z := [60; 124; 62; 38; 59; 40; 41].

Definition occurs (c : Z) (s : list Z) : bool := match strchr s c with Some _ => true | None => false end.
Definition char_at (buf : list Z) (s : nat) : Z := default 0 (buf !! s).

(** The length of the longest prefix of characters with [P]. *)
Fixpoint span (P : Z -> bool) (l : list Z) : nat :=
  match l with
  | c :: l => if P c then S (span P l) else O
  | [] => O
  end.

(** [while(s < es && strchr(whitespace, *s)) s++] *)
Definition skip_ws (buf : list Z) (s : nat) : nat := (s + span (fun c => occurs c whitespace) (drop s buf))%nat.

Definition in_word (c : Z) : bool := negb (occurs c whitespace) && negb (occurs c symbols).
Definition word_end (buf : list Z) (s : nat) : nat := (s + span in_word (drop s buf))%nat.

(** The token at [s]: its kind, where it starts and ends, and the position
    after the white space that follows. *)
Definition gettoken (buf : list Z) (s : nat) : Z * nat * nat * nat :=
  let q := skip_ws buf s in
  let c := char_at buf q in
  let '(ret, e) :=
    if c =? 0 then (c, q)
    else if occurs c [124; 40; 41; 59; 38; 60] then (c, S q)
    else if c =? 62 then
      if char_at buf (S q) =? 62 then (43, S (S q)) else (c, S q)
    else (97, word_end buf q) in
  (ret, q, e, skip_ws buf e).

Definition peek (buf : list Z) (s : nat) (toks : list Z) : bool * nat :=
  let s := skip_ws buf s in
  (negb (char_at buf s =? 0) && occurs (char_at buf s) toks, s).

(** ** The parser *)

Fixpoint parseredirs (fuel : nat) (c : pcmd) (buf : list Z) (s : nat) : outcome (pcmd * nat) :=
  match fuel with
  | O => Undef "loop bound"
  | S fuel =>
    let '(b, s) := peek buf s [60; 62] in
    if negb b then Ret (c, s)
    else
      let '(tok, _, _, s) := gettoken buf s in
      let '(tok2, q, eq, s) := gettoken buf s in
      if negb (tok2 =? 97) then Panic "missing file for redirection"
      else
        let c :=
          if tok =? 60 then REDIR c (q, eq) O_RDONLY 0
          else if tok =? 62 then REDIR c (q, eq) (Z.lor O_WRONLY O_CREATE) 1
          else if tok =? 43 then REDIR c (q, eq) (Z.lor O_WRONLY O_CREATE) 1
          else c in
        parseredirs fuel c buf s
  end.

(** [cmd->argv[argc] = q; cmd->eargv[argc] = eq] on the command that the
    redirections of [ret] enclose. *)
Fixpoint add_arg (ret : pcmd) (q eq : nat) : pcmd :=
  match ret with
  | EXEC av => EXEC (av ++ [(q, eq)])
  | REDIR c f m d => REDIR (add_arg c q eq) f m d
  | c => c
  end.

(** The loop of [parseexec] over the arguments. *)
Fixpoint parseargs (fuel : nat) (ret : pcmd) (argc : nat) (buf : list Z) (s : nat) : outcome (pcmd * nat) :=
  match fuel with
  | O => Undef "loop bound"
  | S fuel =>
    let '(b, s) := peek buf s [124; 41; 38; 59] in
    if b then Ret (ret, s)
    else
      let '(tok, q, eq, s) := gettoken buf s in
      if tok =? 0 then Ret (ret, s)
      else if negb (tok =? 97) then Panic "syntax"
      else
        let ret := add_arg ret q eq in
        let argc := S argc in
        if (MAXARGS <=? argc)%nat then Panic "too many args"
        else
          '(ret, s) ← parseredirs (S (length buf)) ret buf s;
          parseargs fuel ret argc buf s
  end.

(** [while(peek(ps, es, "&"))] of [parseline]. *)
Fixpoint parsebacks (fuel : nat) (c : pcmd) (buf : list Z) (s : nat) : outcome (pcmd * nat) :=
  match fuel with
  | O => Undef "loop bound"
  | S fuel =>
    let '(b, s) := peek buf s [38] in
    if negb b then Ret (c, s)
    else let '(_, _, _, s) := gettoken buf s in parsebacks fuel (BACK c) buf s
  end.

Fixpoint parseline (fuel : nat) (buf : list Z) (s : nat) : outcome (pcmd * nat) :=
  match fuel with
  | O => Undef "loop bound"
  | S fuel =>
    '(c, s) ← parsepipe fuel buf s;
    '(c, s) ← parsebacks (S (length buf)) c buf s;
    let '(b, s) := peek buf s [59] in
    if b then
      let '(_, _, _, s) := gettoken buf s in
      '(r, s) ← parseline fuel buf s;
      Ret (LIST c r, s)
    else Ret (c, s)
  end
with parsepipe (fuel : nat) (buf : list Z) (s : nat) : outcome (pcmd * nat) :=
  match fuel with
  | O => Undef "loop bound"
  | S fuel =>
    '(c, s) ← parseexec fuel buf s;
    let '(b, s) := peek buf s [124] in
    if b then
      let '(_, _, _, s) := gettoken buf s in
      '(r, s) ← parsepipe fuel buf s;
      Ret (PIPE c r, s)
    else Ret (c, s)
  end
with parseexec (fuel : nat) (buf : list Z) (s : nat) : outcome (pcmd * nat) :=
  match fuel with
  | O => Undef "loop bound"
  | S fuel =>
    let '(b, s) := peek buf s [40] in
    if b then parseblock fuel buf s
    else
      '(ret, s) ← parseredirs (S (length buf)) (EXEC []) buf s;
      parseargs (S (length buf)) ret 0 buf s
  end
with parseblock (fuel : nat) (buf : list Z) (s : nat) : outcome (pcmd * nat) :=
  match fuel with
  | O => Undef "loop bound"
  | S fuel =>
    let '(b, s) := peek buf s [40] in
    if negb b then Panic "parseblock"
    else
      let '(_, _, _, s) := gettoken buf s in
      '(c, s) ← parseline fuel buf s;
      let '(b, s) := peek buf s [41] in
      if negb b then Panic "syntax - missing )"
      else
        let '(_, _, _, s) := gettoken buf s in
        parseredirs (S (length buf)) c buf s
  end.

(** ** [nulterminate] *)

Definition cut (buf : list Z) (e : nat) : list Z := <[e := 0]> buf.

(** The text with the NUL after it, cut at the ends of the words of [c]. *)
Fixpoint nulterminate (c : pcmd) (buf : list Z) : list Z :=
  match c with
  | EXEC av => foldl (fun buf a => cut buf a.2) buf av
  | REDIR c f _ _ => cut (nulterminate c buf) f.2
  | PIPE l r | LIST l r => nulterminate r (nulterminate l buf)
  | BACK c => nulterminate c buf
  end.

(** [parsecmd]: the command and the text that its words point into.  A round
    of [parseline], [parsepipe], [parseexec] and [parseblock] takes a
    character off the text. *)
Definition parsecmd (buf : list Z) : outcome (pcmd * list Z) :=
  '(c, s) ← parseline (4 * length buf + 4) buf 0;
  let '(_, s) := peek buf s [] in
  if negb (Nat.eqb s (length buf)) then Panic "syntax"
  else Ret (c, nulterminate c (buf ++ [0])).

(** ** Words in the text *)

(** A word of the text: maximal to the right, of word characters. *)
Definition word (buf : list Z) (w : nat * nat) : Prop :=
  (w.1 < w.2 <= length buf)%nat /\ (forall i, (w.1 <= i < w.2)%nat -> in_word (char_at buf i) = true)
  /\ ((w.2 < length buf)%nat -> in_word (char_at buf w.2) = false).

Fixpoint words {W} (c : cmd W) : list W :=
  match c with
  | EXEC av => av
  | REDIR c f _ _ => words c ++ [f]
  | PIPE l r | LIST l r => words l ++ words r
  | BACK c => words c
  end.

(** The arguments leave room for the null pointer after them. *)
Fixpoint fits {W} (c : cmd W) : Prop :=
  match c with
  | EXEC av => (length av < MAXARGS)%nat
  | REDIR c _ _ _ | BACK c => fits c
  | PIPE l r | LIST l r => fits l /\ fits r
  end.

Lemma span_le P l : (span P l <= length l)%nat.
Proof. induction l as [|c l IH]; simpl; [lia|]. destruct (P c); lia. Qed.

Lemma span_all P l i : (i < span P l)%nat -> P (default 0 (l !! i)) = true.
Proof.
  revert i. induction l as [|c l IH]; intros i; simpl; [lia|]. destruct (P c) eqn:E; [|lia].
  destruct i as [|i]; simpl; [done|]. intros. apply IH. lia.
Qed.

Lemma span_stop P l : (span P l < length l)%nat -> P (default 0 (l !! span P l)) = false.
Proof.
  induction l as [|c l IH]; simpl; [lia|]. destruct (P c) eqn:E; [|done]. intros. apply IH. lia.
Qed.

Lemma char_drop buf s i : default 0 (drop s buf !! i) = char_at buf (s + i).
Proof. unfold char_at. by rewrite lookup_drop. Qed.

Lemma skip_ws_spec buf s : (s <= length buf)%nat ->
  (s <= skip_ws buf s <= length buf)%nat
  /\ ((skip_ws buf s < length buf)%nat -> occurs (char_at buf (skip_ws buf s)) whitespace = false).
Proof.
  intros Hs. unfold skip_ws. pose proof (span_le (fun c => occurs c whitespace) (drop s buf)) as Hl.
  rewrite length_drop in Hl. split; [lia|]. intros H.
  rewrite <- char_drop. apply (span_stop (fun c => occurs c whitespace)). rewrite length_drop. lia.
Qed.

Lemma span_0 P l : (0 < length l)%nat -> P (default 0 (l !! 0%nat)) = false -> span P l = O.
Proof. destruct l as [|c l]; simpl; [lia|]. by intros _ ->. Qed.

Lemma skip_ws_skip buf s : (s <= length buf)%nat -> skip_ws buf (skip_ws buf s) = skip_ws buf s.
Proof.
  intros Hs. destruct (skip_ws_spec buf s Hs) as [H1 H2]. set (t := skip_ws buf s) in *. unfold skip_ws at 1.
  destruct (decide (t < length buf)%nat) as [Ht|Ht].
  - rewrite span_0; [lia|rewrite length_drop; lia|]. rewrite char_drop, Nat.add_0_r. auto.
  - rewrite drop_ge by lia. simpl. lia.
Qed.

Lemma char_end buf s : (length buf <= s)%nat -> char_at buf s = 0.
Proof. intros. unfold char_at. by rewrite lookup_ge_None_2. Qed.

Lemma occurs_cons c x l : occurs c (x :: l) = (x =? c) || occurs c l.
Proof. unfold occurs. simpl. destruct (x =? c); done. Qed.
Lemma occurs_nil c : occurs c [] = false.
Proof. done. Qed.
#[export] Hint Rewrite occurs_cons occurs_nil : words.

(** What [gettoken] returns. *)
Lemma gettoken_spec buf s : Forall (fun c => c <> 0) buf -> (s <= length buf)%nat ->
  let '(t, q, e, s') := gettoken buf s in
  (s <= q <= e)%nat /\ (e <= s' <= length buf)%nat /\ q = skip_ws buf s /\ s' = skip_ws buf e
  /\ (char_at buf q <> 0 -> (q < e)%nat) /\ (t = 97 -> word buf (q, e)).
Proof.
  intros Hz Hs. unfold gettoken. set (q := skip_ws buf s). destruct (skip_ws_spec buf s Hs) as [Q1 Q2]. fold q in Q1, Q2.
  assert (char_at buf q <> 0 -> (q < length buf)%nat) as Hq.
  { intros H. destruct (decide (q < length buf)%nat); [done|]. by rewrite char_end in H by lia. }
  assert (forall e, (q <= e <= length buf)%nat -> (s <= q <= e)%nat /\ (e <= skip_ws buf e <= length buf)%nat) as K.
  { intros e He. destruct (skip_ws_spec buf e); lia. }
  destruct (Z.eqb_spec (char_at buf q) 0) as [E|Hne].
  { destruct (K q) as [K1 K2]; [lia|]. split_and!; try done; lia. }
  specialize (Hq Hne). destruct (occurs (char_at buf q) [124; 40; 41; 59; 38; 60]) eqn:Eo.
  { destruct (K (S q)) as [K1 K2]; [lia|]. split_and!; try lia; try done. intros E. rewrite E in Eo. done. }
  destruct (Z.eqb_spec (char_at buf q) 62) as [E|Hn62].
  { destruct (Z.eqb_spec (char_at buf (S q)) 62) as [E2|_].
    - assert (S q < length buf)%nat by (destruct (decide (S q < length buf)%nat); [done|]; rewrite char_end in E2 by lia; done).
      destruct (K (S (S q))) as [K1 K2]; [lia|]. split_and!; try lia; done.
    - destruct (K (S q)) as [K1 K2]; [lia|]. split_and!; try lia; done. }
  assert (in_word (char_at buf q) = true) as Hw.
  { unfold in_word. rewrite (Q2 Hq). simpl. apply negb_true_iff. unfold symbols. autorewrite with words in *.
    repeat (apply orb_false_iff in Eo as [? Eo]). repeat (apply orb_false_iff; split; [first [done|by apply Z.eqb_neq]|]). done. }
  pose proof (span_le in_word (drop q buf)) as Hl. rewrite length_drop in Hl.
  assert (0 < span in_word (drop q buf))%nat as Hpos.
  { destruct (drop q buf) as [|c l] eqn:E; [apply (f_equal length) in E; rewrite length_drop in E; simpl in E; lia|].
    assert (c = char_at buf q) as -> by (pose proof (char_drop buf q 0) as C; rewrite E, Nat.add_0_r in C; done).
    simpl. rewrite Hw. lia. }
  destruct (K (word_end buf q)) as [K1 K2]; [unfold word_end; lia|]. split_and!; try lia; try done.
  { unfold word_end. lia. }
  intros _. split_and!; cbn [fst snd]; unfold word_end in *; [lia..| |].
  - intros i Hi. replace i with (q + (i - q))%nat by lia. rewrite <- char_drop. apply span_all. lia.
  - intros He. rewrite <- char_drop. apply span_stop. rewrite length_drop. lia.
Qed.

(** ** The parser ends *)

Definition settles {A} (o : outcome A) (P : A -> Prop) : Prop :=
  match o with Ret a => P a | Panic _ => True | Undef _ => False end.

Lemma settles_bind {A B} (o : outcome A) (f : A -> outcome B) P Q :
  settles o P -> (forall a, P a -> settles (f a) Q) -> settles (o ≫= f) Q.
Proof. destruct o; simpl; auto. Qed.

Lemma peek_spec buf s toks : (s <= length buf)%nat ->
  let '(b, s') := peek buf s toks in
  (s <= s' <= length buf)%nat /\ skip_ws buf s' = s' /\ (b = true -> char_at buf s' <> 0).
Proof.
  intros Hs. unfold peek. destruct (skip_ws_spec buf s Hs) as [H1 _]. split; [lia|]. split; [by apply skip_ws_skip|].
  intros [H _]%andb_prop. by apply negb_true_iff, Z.eqb_neq in H.
Qed.

Section Parser.
Context (buf : list Z) (Hz : Forall (fun c => c <> 0) buf).

(** A token after a [peek] that found one takes at least a character. *)
Lemma peek_token s toks : (s <= length buf)%nat ->
  let '(b, s1) := peek buf s toks in
  (s <= s1 <= length buf)%nat /\
  let '(t, q, e, s2) := gettoken buf s1 in
  (s1 <= s2 <= length buf)%nat /\ (b = true -> (s1 < s2)%nat) /\ (t = 97 -> word buf (q, e)) /\ (t <> 0 -> (s1 < s2)%nat).
Proof.
  intros Hs. pose proof (peek_spec buf s toks Hs) as HP. destruct (peek buf s toks) as [b s1]. destruct HP as (P1 & P2 & P3).
  split; [done|]. pose proof (gettoken_spec buf s1 Hz) as HT. destruct (gettoken buf s1) as [[[t q] e] s2] eqn:E.
  destruct HT as (T1 & T2 & T3 & T4 & T5 & T6); [lia|]. rewrite P2 in T3. subst q. split_and!; try lia; auto.
  - intros Hb. specialize (T5 (P3 Hb)). lia.
  - intros Ht. assert (char_at buf s1 <> 0) as Hc; [|specialize (T5 Hc); lia].
    intros Hc. unfold gettoken in E. rewrite P2, Hc in E. simpl in E. inversion E; subst. done.
Qed.

(** The arguments of the command that redirections enclose. *)
Fixpoint nargs {W} (c : cmd W) : option nat :=
  match c with
  | EXEC av => Some (length av)
  | REDIR c _ _ _ => nargs c
  | _ => None
  end.

(** A command whose words are in the text, parsed up to a position. *)
Definition good (lo : nat) (p : pcmd * nat) : Prop :=
  (lo <= p.2 <= length buf)%nat /\ Forall (word buf) (words p.1) /\ fits p.1.

Lemma good_weaken lo lo' o : (lo <= lo')%nat -> settles o (good lo') -> settles o (good lo).
Proof. destruct o as [[c s]| |]; simpl; try done. intros Hl (G1 & G2 & G3). by split_and!; cbn in *; try lia. Qed.

Lemma parseredirs_good fuel c s :
  good s (c, s) -> (length buf - s < fuel)%nat ->
  settles (parseredirs fuel c buf s) (fun p => good s p /\ nargs p.1 = nargs c).
Proof.
  revert c s. induction fuel as [|fuel IH]; intros c s (G1 & G2 & G3) Hf; [lia|]. cbn [fst snd] in *. cbn [parseredirs].
  pose proof (peek_token s [60; 62]) as HP. destruct (peek buf s [60; 62]) as [b s1].
  destruct HP as [P1 HP]; [lia|]. destruct b; cbn [negb]; [|by split_and!; cbn in *; try lia].
  destruct (gettoken buf s1) as [[[t q] e] s2]. destruct HP as (P2 & P3 & _). specialize (P3 eq_refl).
  pose proof (gettoken_spec buf s2 Hz) as HT. destruct (gettoken buf s2) as [[[t2 q2] e2] s3].
  destruct HT as (T1 & T2 & T3 & T4 & T5 & T6); [lia|].
  destruct (Z.eqb_spec t2 97) as [->|]; cbn [negb]; [|done]. specialize (T6 eq_refl).
  assert (forall c' : pcmd, Forall (word buf) (words c') -> fits c' -> nargs c' = nargs c ->
    settles (parseredirs fuel c' buf s3) (fun p => good s p /\ nargs p.1 = nargs c)) as K.
  { intros c' W F E. assert (settles (parseredirs fuel c' buf s3) (fun p => good s3 p /\ nargs p.1 = nargs c')) as HI
      by (apply IH; [by split_and!; cbn in *; try lia|lia]).
    destruct (parseredirs fuel c' buf s3) as [[c'' s'']| |]; simpl in *; [|done..].
    destruct HI as [(I1 & I2 & I3) I4]. split; [|congruence]. by split_and!; cbn in *; try lia. }
  repeat case_match; apply K; try done; cbn; apply Forall_app; split; try done; by apply Forall_cons.
Qed.

Lemma words_add_arg (c : pcmd) q e k : nargs c = Some k -> word buf (q, e) -> Forall (word buf) (words c) ->
  Forall (word buf) (words (add_arg c q e)) /\ nargs (add_arg c q e) = Some (S k).
Proof.
  induction c as [av|c IH| | |]; cbn; try done; intros Hk Hw Hf.
  - inversion Hk; subst. rewrite length_app. simpl. split; [|f_equal; lia]. apply Forall_app. split; [done|]. by apply Forall_cons.
  - apply Forall_app in Hf as [Hf1 Hf2]. destruct (IH Hk Hw Hf1). split; [|done]. by apply Forall_app.
Qed.

Lemma fits_nargs (c : pcmd) k : nargs c = Some k -> (k < MAXARGS)%nat -> fits c.
Proof. induction c as [av|c IH| | |]; cbn; try done; congruence. Qed.

Lemma parseargs_good fuel c argc s :
  good s (c, s) -> nargs c = Some argc -> (argc < MAXARGS)%nat -> (length buf - s < fuel)%nat ->
  settles (parseargs fuel c argc buf s) (good s).
Proof.
  revert c argc s. induction fuel as [|fuel IH]; intros c argc s (G1 & G2 & G3) Hn Ha Hf; [lia|]. cbn [fst snd] in *.
  cbn [parseargs]. pose proof (peek_token s [124; 41; 38; 59]) as HP. destruct (peek buf s [124; 41; 38; 59]) as [b s1].
  destruct HP as [P1 HP]; [lia|]. destruct b; [by split_and!; cbn in *; try lia|].
  destruct (gettoken buf s1) as [[[t q] e] s2]. destruct HP as (P2 & _ & P3 & P4).
  destruct (Z.eqb_spec t 0) as [->|Ht]; [by split_and!; cbn in *; try lia|]. specialize (P4 Ht).
  destruct (Z.eqb_spec t 97) as [->|]; cbn [negb]; [|done]. specialize (P3 eq_refl).
  destruct (Nat.leb_spec MAXARGS (S argc)); [done|]. destruct (words_add_arg c q e argc Hn P3 G2) as [W N].
  eapply settles_bind.
  { apply (parseredirs_good (S (length buf)) _ s2); [|lia]. split_and!; cbn; [lia..|done|by eapply fits_nargs]. }
  intros [c' s'] [(I1 & I2 & I3) I4]. cbn [fst snd] in *.
  apply (good_weaken _ s'); [lia|]. apply IH; [by split_and!; cbn in *; try lia|by rewrite I4|lia|lia].
Qed.

Lemma parsebacks_good fuel c s :
  good s (c, s) -> (length buf - s < fuel)%nat -> settles (parsebacks fuel c buf s) (good s).
Proof.
  revert c s. induction fuel as [|fuel IH]; intros c s (G1 & G2 & G3) Hf; [lia|]. cbn [fst snd] in *. cbn [parsebacks].
  pose proof (peek_token s [38]) as HP. destruct (peek buf s [38]) as [b s1].
  destruct HP as [P1 HP]; [lia|]. destruct b; cbn [negb]; [|by split_and!; cbn in *; try lia].
  destruct (gettoken buf s1) as [[[t q] e] s2]. destruct HP as (P2 & P3 & _). specialize (P3 eq_refl).
  apply (good_weaken _ s2); [lia|]. apply IH; [by split_and!; cbn in *; try lia|lia].
Qed.
Definition parses (f : nat -> list Z -> nat -> outcome (pcmd * nat)) (k fuel : nat) : Prop :=
  forall s, (s <= length buf)%nat -> (4 * (length buf - s) + k <= fuel)%nat -> settles (f fuel buf s) (good s).

Lemma parseline_step fuel : parses parsepipe 3 fuel -> parses parseline 4 fuel -> parses parseline 4 (S fuel).
Proof.
  intros HP HL s Hs Hf. cbn [parseline]. eapply settles_bind; [apply HP; lia|]. intros [c s1] (G1 & G2 & G3). cbn [fst snd] in *.
  eapply settles_bind; [apply (parsebacks_good _ c s1); [by split_and!; cbn in *; try lia|lia]|].
  intros [c2 s2] (I1 & I2 & I3). cbn [fst snd] in *.
  pose proof (peek_token s2 [59]) as Hp. destruct (peek buf s2 [59]) as [b s3].
  destruct Hp as [P1 Hp]; [lia|]. destruct b; [|by split_and!; cbn in *; try lia].
  destruct (gettoken buf s3) as [[[t q] e] s4]. destruct Hp as (P2 & P3 & _). specialize (P3 eq_refl).
  eapply settles_bind; [apply HL; lia|]. intros [r s5] (J1 & J2 & J3). cbn [fst snd] in *.
  split_and!; cbn; try lia; [by apply Forall_app|done..].
Qed.

Lemma parsepipe_step fuel : parses parseexec 2 fuel -> parses parsepipe 3 fuel -> parses parsepipe 3 (S fuel).
Proof.
  intros HP HL s Hs Hf. cbn [parsepipe]. eapply settles_bind; [apply HP; lia|]. intros [c s2] (G1 & G2 & G3). cbn [fst snd] in *.
  pose proof (peek_token s2 [124]) as Hp. destruct (peek buf s2 [124]) as [b s3].
  destruct Hp as [P1 Hp]; [lia|]. destruct b; [|by split_and!; cbn in *; try lia].
  destruct (gettoken buf s3) as [[[t q] e] s4]. destruct Hp as (P2 & P3 & _). specialize (P3 eq_refl).
  eapply settles_bind; [apply HL; lia|]. intros [r s5] (J1 & J2 & J3). cbn [fst snd] in *.
  split_and!; cbn; try lia; [by apply Forall_app|done..].
Qed.

Lemma parseexec_step fuel : parses parseblock 1 fuel -> parses parseexec 2 (S fuel).
Proof.
  intros HB s Hs Hf. cbn [parseexec]. pose proof (peek_spec buf s [40] Hs) as HP. destruct (peek buf s [40]) as [b s1].
  destruct HP as [P1 _]. destruct b; [apply (good_weaken _ s1); [lia|]; apply HB; lia|].
  apply (good_weaken _ s1); [lia|]. eapply settles_bind.
  { apply (parseredirs_good _ (EXEC []) s1); [|lia]. split_and!; cbn; try lia; [done|unfold MAXARGS; lia]. }
  intros [c s2] [(G1 & G2 & G3) G4]. cbn [fst snd] in *. apply (good_weaken _ s2); [lia|].
  apply parseargs_good; [by split_and!; cbn in *; try lia|done|unfold MAXARGS; lia|lia].
Qed.

Lemma parseblock_step fuel : parses parseline 4 fuel -> parses parseblock 1 (S fuel).
Proof.
  intros HL s Hs Hf. cbn [parseblock]. pose proof (peek_token s [40]) as Hp. destruct (peek buf s [40]) as [b s1].
  destruct Hp as [P1 Hp]; [lia|]. destruct b; cbn [negb]; [|done].
  destruct (gettoken buf s1) as [[[t q] e] s2]. destruct Hp as (P2 & P3 & _). specialize (P3 eq_refl).
  eapply settles_bind; [apply HL; lia|]. intros [c s3] (G1 & G2 & G3). cbn [fst snd] in *.
  pose proof (peek_token s3 [41]) as Hp. destruct (peek buf s3 [41]) as [b s4].
  destruct Hp as [Q1 Hp]; [lia|]. destruct b; cbn [negb]; [|done].
  destruct (gettoken buf s4) as [[[t' q'] e'] s5]. destruct Hp as (Q2 & Q3 & _).
  apply (good_weaken _ s5); [lia|]. 
  assert (settles (parseredirs (S (length buf)) c buf s5) (fun p => good s5 p /\ nargs p.1 = nargs c)) as HR.
  { apply parseredirs_good; [by split_and!; cbn in *; try lia|lia]. }
  destruct (parseredirs (S (length buf)) c buf s5) as [[c'' s'']| |]; simpl in *; tauto.
Qed.

Lemma parser_ends fuel : parses parseline 4 fuel /\ parses parsepipe 3 fuel /\ parses parseexec 2 fuel /\ parses parseblock 1 fuel.
Proof.
  induction fuel as [|fuel (IL & IP & IE & IB)]; [split_and!; intros s Hs Hf; lia|].
  split_and!; [by apply parseline_step|by apply parsepipe_step|by apply parseexec_step|by apply parseblock_step].
Qed.
End Parser.

(** ** The words after [nulterminate] *)

(** The C string at a position of a text. *)
Definition cstring (txt : list Z) (q : nat) : list Z :=
  take (span (fun c => negb (c =? 0)) (drop q txt)) (drop q txt).

(** The characters of a word of the line. *)
Definition word_text (buf : list Z) (w : nat * nat) : list Z := take (w.2 - w.1) (drop w.1 buf).

Lemma foldl_cut (av : list (nat * nat)) txt i :
  foldl (fun buf a => cut buf a.2) txt av !! i = if decide (i ∈ av.*2) then (fun _ => 0) <$> txt !! i else txt !! i.
Proof.
  revert txt. induction av as [|a av IH]; intros txt; [done|]. cbn [foldl]. rewrite fmap_cons, IH. unfold cut.
  rewrite list_lookup_insert. destruct (decide (i ∈ av.*2)) as [Hi|Hi].
  - rewrite (decide_True (P := i ∈ _)) by (by right). case_decide as Hd; [|done]. destruct Hd as [-> Hd].
    destruct (lookup_lt_is_Some_2 txt i Hd) as [x ->]. done.
  - destruct (decide (a.2 = i)) as [<-|Hn].
    + rewrite (decide_True (P := a.2 ∈ _)) by left. destruct (decide (a.2 < length txt)%nat) as [Hl|Hl].
      * rewrite decide_True by done. destruct (lookup_lt_is_Some_2 txt a.2 Hl) as [x ->]. done.
      * rewrite decide_False by tauto. rewrite lookup_ge_None_2 by lia. done.
    + rewrite decide_False by tauto. rewrite decide_False; [done|]. intros [?|?]%elem_of_cons; [congruence|done].
Qed.

Lemma nulterminate_words c txt : nulterminate c txt = foldl (fun buf a => cut buf a.2) txt (words c).
Proof.
  revert txt. induction c as [av|c IH f m d|l IHl r IHr|l IHl r IHr|c IH]; intros txt; cbn [nulterminate words].
  - done.
  - rewrite foldl_app, IH. done.
  - by rewrite foldl_app, IHl, IHr.
  - by rewrite foldl_app, IHl, IHr.
  - apply IH.
Qed.

Lemma cstring_spec txt q n :
  (forall i, (i < n)%nat -> exists c, txt !! (q + i)%nat = Some c /\ c <> 0) -> txt !! (q + n)%nat = Some 0 ->
  cstring txt q = take n (drop q txt).
Proof.
  intros Hi Hn. unfold cstring. f_equal.
  assert (forall l, (forall i, (i < n)%nat -> exists c, l !! i = Some c /\ c <> 0) -> l !! n = Some 0 ->
    span (fun c => negb (c =? 0)) l = n) as K.
  { clear. induction n as [|n IH]; intros l Hi Hn.
    - destruct l; inversion Hn; subst. done.
    - destruct l as [|c l]; [done|]. destruct (Hi O) as (c' & E & Hc); [lia|]. inversion E; subst. simpl.
      destruct (Z.eqb_spec c' 0); [done|]. simpl. f_equal. apply IH; [|done]. intros i Hl. apply (Hi (S i)). lia. }
  apply K; [|by rewrite lookup_drop]. intros i Hl. rewrite lookup_drop. auto.
Qed.

Lemma word_cut buf ws w :
  Forall (fun c => c <> 0) buf -> Forall (word buf) ws -> w ∈ ws ->
  cstring (foldl (fun b a => cut b a.2) (buf ++ [0]) ws) w.1 = word_text buf w.
Proof.
  intros Hz Hw Hin. rewrite Forall_forall in Hw. destruct (Hw w Hin) as (W1 & W2 & W3).
  set (txt := foldl _ _ _).
  assert (forall i, (w.1 <= i < w.2)%nat -> txt !! i = buf !! i) as Same.
  { intros i Hi. unfold txt. rewrite foldl_cut. rewrite lookup_app_l by lia. rewrite decide_False; [done|].
    intros (v & -> & Hv)%list_elem_of_fmap. destruct (Hw v Hv) as (V1 & V2 & V3). specialize (W2 v.2 Hi).
    rewrite V3 in W2 by lia. done. }
  assert (txt !! w.2 = Some 0) as End.
  { unfold txt. rewrite foldl_cut, decide_True by (by apply list_elem_of_fmap_2).
    destruct (lookup_lt_is_Some_2 (buf ++ [0]) w.2) as [x ->]; [rewrite length_app; simpl; lia|]. done. }
  rewrite (cstring_spec txt w.1 (w.2 - w.1)).
  - unfold word_text. apply list_eq. intros i. destruct (decide (i < w.2 - w.1)%nat) as [Hi|Hi].
    + rewrite !lookup_take_lt, !lookup_drop by lia. apply Same. lia.
    + rewrite !lookup_take_ge by lia. done.
  - intros i Hi. rewrite Same by lia. destruct (lookup_lt_is_Some_2 buf (w.1 + i)) as [x Hx]; [lia|].
    exists x. split; [done|]. rewrite Forall_forall in Hz. apply Hz. by eapply list_elem_of_lookup_2.
  - by replace (w.1 + (w.2 - w.1))%nat with w.2 by lia.
Qed.

Lemma parsecmd_strings buf : Forall (fun c => c <> 0) buf ->
  settles (parsecmd buf) (fun '(c, txt) => fits c /\ Forall (word buf) (words c)
    /\ forall w, w ∈ words c -> cstring txt w.1 = word_text buf w).
Proof.
  intros Hbuf. unfold parsecmd. destruct (parser_ends buf Hbuf (4 * length buf + 4)) as (HL & _).
  eapply settles_bind; [apply HL; lia|]. intros [c s] (G1 & G2 & G3). cbn [fst snd] in *.
  destruct (peek buf s []) as [b s']. destruct (negb (Nat.eqb s' (length buf))); [done|].
  split_and!; [done..|]. intros w Hw. rewrite nulterminate_words. by apply word_cut.
Qed.


(** A line with every construct: [(a>f;b)|c&]. *)
Definition demo_line : list Z := [40; 97; 62; 102; 59; 98; 41; 124; 99; 38; 10].
Lemma demo_line_parses : ends_in (parsecmd demo_line) (fun r => (length (words r.1) =? 4)%nat) = true.
Proof. vm_compute. reflexivity. Qed.

