(* ===== verification/ShText.v ===== *)
(** * The language of the shell: printing and parsing

    [show] writes a command as text, with parentheses where the grammar of
    user/sh.c needs them; the theorem states that the parser of Sh.v reads the
    text back as the same command. *)

From S2P Require Import Prelude Ulib SysFile Sh.

(** ** Printing *)

(** The level of a construct: line, background, pipeline, simple command. *)
Definition level {W} (c : cmd W) : nat :=
  match c with LIST _ _ => 0 | BACK _ => 1 | PIPE _ _ => 2 | EXEC _ | REDIR _ _ _ _ => 3 end.

Definition redir_sign (mode : Z) : Z := if mode =? O_RDONLY then 60 else 62.

Fixpoint show (lv : nat) (c : cmd (list Z)) : list Z :=
  let text :=
    match c with
    | EXEC av => concat (map (fun w => 32 :: w) av)
    | REDIR c f m _ => show 3 c ++ redir_sign m :: f
    | PIPE l r => show 3 l ++ 124 :: show 2 r
    | LIST l r => show 1 l ++ 59 :: show 0 r
    | BACK c => show 1 c ++ [38]
    end in
  if (level c <? lv)%nat then 40 :: text ++ [41] else text.

(** Commands that can be written: words of word characters, at most nine
    arguments, input from a file on 0 and output to a file on 1. *)
Definition nice_word (w : list Z) : Prop := w <> [] /\ Forall (fun c => in_word c = true /\ c <> 0) w.
Fixpoint nice (c : cmd (list Z)) : Prop :=
  match c with
  | EXEC av => Forall nice_word av /\ (length av < MAXARGS)%nat
  | REDIR c f m d => nice c /\ nice_word f /\ (m = O_RDONLY /\ d = 0 \/ m = Z.lor O_WRONLY O_CREATE /\ d = 1)
  | PIPE l r | LIST l r => nice l /\ nice r
  | BACK c => nice c
  end.

Fixpoint cmd_map {V W} (f : V -> W) (c : cmd V) : cmd W :=
  match c with
  | EXEC av => EXEC (f <$> av)
  | REDIR c w m d => REDIR (cmd_map f c) (f w) m d
  | PIPE l r => PIPE (cmd_map f l) (cmd_map f r)
  | LIST l r => LIST (cmd_map f l) (cmd_map f r)
  | BACK c => BACK (cmd_map f c)
  end.

(** ** Tokens of a text *)

Section Text.
Context (buf : list Z) (Hz : Forall (fun c => c <> 0) buf).

(** The text from position [p] on is [rest]. *)
Definition at_ (p : nat) (rest : list Z) : Prop := (p <= length buf)%nat /\ drop p buf = rest.

Lemma at_step p a rest : at_ p (a ++ rest) -> at_ (p + length a) rest.
Proof.
  intros [Hp E]. assert (length (drop p buf) = length a + length rest)%nat as L by (rewrite E; apply length_app).
  rewrite length_drop in L. split; [lia|]. rewrite <- drop_drop, E. apply drop_app_length.
Qed.
Lemma at_cons p c rest : at_ p (c :: rest) -> at_ (S p) rest.
Proof. intros H. replace (S p) with (p + length [c])%nat by (simpl; lia). by apply at_step. Qed.
Lemma at_char p c rest : at_ p (c :: rest) -> char_at buf p = c /\ c <> 0 /\ (p < length buf)%nat.
Proof.
  intros [Hp E]. pose proof (char_drop buf p 0) as C. rewrite E, Nat.add_0_r in C. simpl in C.
  assert (length (drop p buf) = S (length rest)) as L by (rewrite E; done). rewrite length_drop in L.
  split_and!; [done| |lia]. rewrite Forall_forall in Hz. apply Hz.
  assert (c ∈ drop p buf) as Hc by (rewrite E; left). rewrite <- (take_drop p buf). apply elem_of_app. by right.
Qed.

Definition ws (c : Z) : bool := occurs c whitespace.
(** [s] and [p] differ by white space. *)
Definition before (s p : nat) : Prop := (s <= length buf)%nat /\ skip_ws buf s = p.

Lemma before_at p rest : at_ p rest -> match rest with [] => True | c :: _ => ws c = false end -> before p p.
Proof.
  intros [Hp E] Hr. split; [done|]. unfold skip_ws. rewrite E. destruct rest as [|c rest]; simpl; [lia|].
  unfold ws in Hr. rewrite Hr. lia.
Qed.
Lemma before_space p rest : at_ p (32 :: rest) -> match rest with [] => True | c :: _ => ws c = false end -> before p (S p).
Proof.
  intros [Hp E] Hr. split; [done|]. unfold skip_ws. rewrite E. simpl. destruct rest as [|c rest]; simpl; [lia|].
  unfold ws in Hr. rewrite Hr. lia.
Qed.
Lemma before_skip s p : before s p -> before p p.
Proof. intros [H1 <-]. split; [destruct (skip_ws_spec buf s H1); lia|]. by apply skip_ws_skip. Qed.
Lemma before_self s : (s <= length buf)%nat -> before (skip_ws buf s) (skip_ws buf s).
Proof. intros. by apply (before_skip s). Qed.

Lemma peek_at s p c rest toks : before s p -> at_ p (c :: rest) -> peek buf s toks = (occurs c toks, p).
Proof.
  intros [H1 <-] Ha. unfold peek. destruct (at_char _ _ _ Ha) as (-> & Hc & _).
  destruct (Z.eqb_spec c 0); [done|]. done.
Qed.
Lemma peek_end s p toks : before s p -> at_ p [] -> peek buf s toks = (false, p).
Proof.
  intros [H1 <-] [Hp E]. unfold peek. rewrite char_end; [done|].
  apply (f_equal length) in E. rewrite length_drop in E. simpl in E. lia.
Qed.

Lemma token_symbol s p c rest :
  before s p -> at_ p (c :: rest) -> occurs c [124; 40; 41; 59; 38; 60] = true ->
  gettoken buf s = (c, p, S p, skip_ws buf (S p)).
Proof.
  intros [H1 <-] Ha Ho. unfold gettoken. destruct (at_char _ _ _ Ha) as (-> & Hc & _).
  destruct (Z.eqb_spec c 0); [done|]. by rewrite Ho.
Qed.

Lemma token_greater s p c rest :
  before s p -> at_ p (62 :: c :: rest) -> c <> 62 -> gettoken buf s = (62, p, S p, skip_ws buf (S p)).
Proof.
  intros [H1 <-] Ha Hc. unfold gettoken. destruct (at_char _ _ _ Ha) as (-> & _).
  destruct (at_char _ _ _ (at_cons _ _ _ Ha)) as (-> & _). simpl. destruct (Z.eqb_spec c 62); done.
Qed.

Lemma span_prefix P (w rest : list Z) :
  Forall (fun c => P c = true) w -> match rest with [] => True | c :: _ => P c = false end -> span P (w ++ rest) = length w.
Proof.
  intros Hw Hr. induction Hw as [|c w Hc Hw IH]; simpl; [|by rewrite Hc, IH].
  destruct rest as [|c rest]; simpl; [done|]. by rewrite Hr.
Qed.

Lemma in_word_symbols c : in_word c = true -> occurs c whitespace = false /\ occurs c symbols = false.
Proof. unfold in_word. intros [H1 H2]%andb_prop. by apply negb_true_iff in H1, H2. Qed.

Lemma token_word s p w rest :
  before s p -> at_ p (w ++ rest) -> nice_word w -> match rest with [] => True | c :: _ => in_word c = false end ->
  gettoken buf s = (97, p, (p + length w)%nat, skip_ws buf (p + length w)) /\ word_text buf (p, p + length w)%nat = w.
Proof.
  intros [H1 <-] Ha [Hn Hw] Hr. set (p := skip_ws buf s) in *. split.
  - destruct w as [|c w]; [done|]. simpl in Ha. destruct (at_char _ _ _ Ha) as (Ec & Hc & _).
    inversion Hw as [|?? [Wc _] _]; subst. destruct (in_word_symbols _ Wc) as [_ Hs].
    unfold gettoken. fold p. destruct (Z.eqb_spec (char_at buf p) 0); [done|].
    unfold symbols in Hs. autorewrite with words in Hs. repeat (apply orb_false_iff in Hs as [? Hs]).
    replace (occurs (char_at buf p) [124; 40; 41; 59; 38; 60]) with false.
    2:{ autorewrite with words. symmetry. repeat (apply orb_false_iff; split; [done|]). done. }
    destruct (Z.eqb_spec (char_at buf p) 62) as [E|_]; [rewrite E in *; done|].
    unfold word_end. destruct Ha as [_ ->]. change (?x :: ?l ++ ?r) with ((x :: l) ++ r).
    rewrite span_prefix; [done| |done]. eapply Forall_impl; [exact Hw|]. by intros c' [Hc' _].
  - unfold word_text. simpl. replace (p + length w - p)%nat with (length w) by lia. destruct Ha as [_ ->]. apply take_app_length.
Qed.

(** ** Redirections and arguments *)

Definition wrap {W} (rs : list (W * Z * Z)) (c : cmd W) : cmd W :=
  foldl (fun c '(f, m, d) => REDIR c f m d) c rs.
Definition show_redirs (rs : list (list Z * Z * Z)) : list Z := concat (map (fun '(f, m, _) => redir_sign m :: f) rs).
Definition nice_redir (r : list Z * Z * Z) : Prop :=
  let '(f, m, d) := r in nice_word f /\ (m = O_RDONLY /\ d = 0 \/ m = Z.lor O_WRONLY O_CREATE /\ d = 1).
Definition redir_text (r : (nat * nat) * Z * Z) : list Z * Z * Z := let '(w, m, d) := r in (word_text buf w, m, d).

Definition stops (toks : list Z) (rest : list Z) : Prop :=
  match rest with [] => True | c :: _ => occurs c toks = true end.

(** Reading from [s] is reading from [q]. *)
Definition reads (s q : nat) : Prop := (s <= length buf)%nat /\ skip_ws buf s = skip_ws buf q.

Lemma symbol_cases c toks :
  (forall x, x ∈ toks -> x ∈ symbols) -> occurs c toks = true -> in_word c = false /\ ws c = false /\ c ∈ toks.
Proof.
  intros Hsub Ho. assert (c ∈ toks) as Hc.
  { clear Hsub. induction toks as [|x toks IH]; [done|]. rewrite occurs_cons in Ho.
    apply orb_prop in Ho as [->%Z.eqb_eq|Ho]; [left|right; auto]. }
  specialize (Hsub c Hc). unfold symbols in Hsub.
  split_and!; [| |done]; repeat (apply elem_of_cons in Hsub as [->|Hsub]; [done|]); by apply elem_of_nil in Hsub.
Qed.

Lemma in_word_hd w c w' : nice_word w -> w = c :: w' -> in_word c = true /\ ws c = false /\ occurs c symbols = false.
Proof.
  intros [_ Hw] ->. inversion Hw as [|?? [Wc _] _]; subst. destruct (in_word_symbols _ Wc) as [H1 H2]. done.
Qed.

Lemma reads_at s q rest : reads s q -> at_ q rest -> match rest with [] => True | c :: _ => ws c = false end -> before s q.
Proof. intros [H1 H2] Ha Hr. split; [done|]. rewrite H2. by destruct (before_at q rest Ha Hr). Qed.

Lemma reads_skip q : (q <= length buf)%nat -> reads (skip_ws buf q) q.
Proof. intros Hq. split; [destruct (skip_ws_spec buf q Hq); lia|by apply skip_ws_skip]. Qed.

(** The sign and the file of a redirection. *)
Lemma redir_tokens s q f m d rest :
  nice_redir (f, m, d) -> before s q -> at_ q (redir_sign m :: f ++ rest) ->
  match rest with [] => True | c :: _ => in_word c = false end ->
  exists s2 q2 e s3, gettoken buf s = (redir_sign m, q2, e, s2)
    /\ gettoken buf s2 = (97, S q, (S q + length f)%nat, s3) /\ reads s3 (S q + length f) /\ word_text buf (S q, (S q + length f)%nat) = f.
Proof.
  intros [Hf Hm] Hs Ha Hr. destruct f as [|c f]; [by destruct Hf|]. destruct (in_word_hd _ c f Hf eq_refl) as (Wc & Ws & Wy).
  pose proof (at_cons _ _ _ Ha) as Ha2. assert (before (S q) (S q)) as Hb by (by eapply before_at).
  assert (skip_ws buf (S q) = S q) as E by (by destruct Hb).
  destruct (token_word (S q) (S q) (c :: f) rest Hb Ha2 Hf Hr) as [T2 T3].
  assert (gettoken buf s = (redir_sign m, q, S q, skip_ws buf (S q))) as T1.
  { unfold redir_sign in *. destruct (m =? O_RDONLY); [by eapply token_symbol|].
    eapply token_greater; [done|exact Ha|]. intros ->. done. }
  rewrite E in T1. eexists _, _, _, _. split; [exact T1|]. split; [exact T2|]. split; [|exact T3].
  apply reads_skip. apply (at_step _ (c :: f) rest Ha2).
Qed.

Lemma stops_symbol toks rest : (forall x, x ∈ toks -> x ∈ symbols) -> stops toks rest ->
  match rest with [] => True | c :: _ => in_word c = false /\ ws c = false end.
Proof. destruct rest as [|c rest]; [done|]. intros Hs Ho. by destruct (symbol_cases c toks Hs Ho) as (? & ? & _). Qed.

Lemma delims_symbols x : x ∈ [124; 41; 38; 59] -> x ∈ symbols.
Proof. unfold symbols. rewrite !elem_of_cons. tauto. Qed.

Lemma redirs_stop rs rest : stops [124; 41; 38; 59] rest ->
  match show_redirs rs ++ rest with [] => True | c :: _ => in_word c = false /\ ws c = false end.
Proof.
  intros Hst. destruct rs as [|[[f m] d] rs]; [by apply (stops_symbol [124; 41; 38; 59]); [apply delims_symbols|]|].
  simpl. unfold redir_sign. by destruct (m =? O_RDONLY).
Qed.

Lemma parseredirs_none fuel c s q :
  reads s q -> (q <= length buf)%nat -> (forall c rest, at_ (skip_ws buf q) (c :: rest) -> occurs c [60; 62] = false) ->
  parseredirs (S fuel) c buf s = Ret (c, skip_ws buf q).
Proof.
  intros [H1 H2] Hq Hno. destruct (skip_ws_spec buf q Hq) as [Q1 _]. cbn [parseredirs].
  assert (before s (skip_ws buf q)) as Hb by done. destruct (drop (skip_ws buf q) buf) as [|x r] eqn:E.
  - by rewrite (peek_end s _ [60; 62] Hb (conj (proj2 Q1) E)).
  - rewrite (peek_at s _ x r [60; 62] Hb (conj (proj2 Q1) E)). by rewrite (Hno x r (conj (proj2 Q1) E)).
Qed.

Lemma parseredirs_show rs : forall fuel c s q rest,
  Forall nice_redir rs -> reads s q -> at_ q (show_redirs rs ++ rest) -> stops [124; 41; 38; 59] rest -> (length rs < fuel)%nat ->
  exists rs', parseredirs fuel c buf s = Ret (wrap rs' c, (q + length (show_redirs rs))%nat) /\ redir_text <$> rs' = rs.
Proof.
  induction rs as [|[[f m] d] rs IH]; intros fuel c s q rest Hn Hs Ha Hst Hf; (destruct fuel as [|fuel]; [simpl in Hf; lia|]).
  - exists []. change (show_redirs []) with (@nil Z) in *. cbn [app length wrap foldl] in *. rewrite Nat.add_0_r. split; [|done].
    assert (before q q) as [_ E] by (eapply before_at; [exact Ha|]; pose proof (redirs_stop [] rest Hst) as R; simpl in R; destruct rest; [done|by destruct R]).
    rewrite (parseredirs_none fuel c s q Hs (proj1 Ha)); [by rewrite E|]. rewrite E. intros x r Hx.
    destruct Ha as [_ Ha], Hx as [_ Hx]. rewrite <- Ha, Hx in Hst. simpl in Hst.
    destruct (symbol_cases x [124; 41; 38; 59] delims_symbols Hst) as (_ & _ & Hin).
    repeat (apply elem_of_cons in Hin as [->|Hin]; [done|]). by apply elem_of_nil in Hin.
  - inversion Hn as [|?? Hr Hn']; subst. assert (show_redirs ((f, m, d) :: rs) ++ rest = redir_sign m :: f ++ show_redirs rs ++ rest) as Es
      by (unfold show_redirs; simpl; by rewrite <- app_assoc). rewrite Es in Ha.
    assert (before s q) as Hb by (eapply reads_at; [done|exact Ha|]; unfold redir_sign; by destruct (m =? O_RDONLY)).
    destruct (redir_tokens q q f m d (show_redirs rs ++ rest) Hr (before_skip _ _ Hb) Ha) as (s2 & q2 & e & s3 & T1 & T2 & T3 & T4).
    { pose proof (redirs_stop rs rest Hst) as R. destruct (show_redirs rs ++ rest); [done|by destruct R]. }
    cbn [parseredirs]. rewrite (peek_at s q _ _ [60; 62] Hb Ha).
    replace (occurs (redir_sign m) [60; 62]) with true by (unfold redir_sign; by destruct (m =? O_RDONLY)). cbn [negb].
    rewrite T1, T2. cbn [negb Z.eqb Pos.eqb].
    assert (at_ (S q + length f) (show_redirs rs ++ rest)) as Ha2 by (apply at_step; by eapply at_cons).
    set (c2 := REDIR c (S q, (S q + length f)%nat) m d).
    replace (if redir_sign m =? 60 then _ else _) with c2.
    2:{ unfold c2, redir_sign. destruct Hr as [_ [[-> ->]|[-> ->]]]; done. }
    destruct (IH fuel c2 s3 (S q + length f)%nat rest Hn' T3 Ha2 Hst) as (rs' & E & Er); [simpl in Hf; lia|].
    exists ((S q, (S q + length f)%nat, m, d) :: rs'). rewrite E. split.
    + f_equal. f_equal. change (show_redirs ((f, m, d) :: rs)) with ((redir_sign m :: f) ++ show_redirs rs).
      rewrite length_app. cbn [length]. lia.
    + rewrite fmap_cons, Er. cbn [redir_text]. by rewrite T4.
Qed.

Definition show_args (av : list (list Z)) : list Z := concat (map (fun w => 32 :: w) av).

Lemma parseargs_end fuel ret argc s q rest :
  reads s q -> at_ q rest -> stops [124; 41; 38; 59] rest -> parseargs (S fuel) ret argc buf s = Ret (ret, q).
Proof.
  intros Hs Ha Hst. pose proof (stops_symbol _ rest delims_symbols Hst) as Hd.
  assert (before s q) as Hb by (eapply reads_at; [done|exact Ha|]; destruct rest; [done|by destruct Hd]).
  cbn [parseargs]. destruct rest as [|c rest].
  - rewrite (peek_end s q _ Hb Ha). destruct (before_skip _ _ Hb) as [_ E]. unfold gettoken. rewrite E.
    destruct Ha as [H1 H2]. rewrite char_end by (apply (f_equal length) in H2; rewrite length_drop in H2; simpl in H2; lia).
    simpl. by rewrite E.
  - rewrite (peek_at s q c rest _ Hb Ha). simpl in Hst. by rewrite Hst.
Qed.

Lemma not_symbol c toks : (forall x, x ∈ toks -> x ∈ symbols) -> occurs c symbols = false -> occurs c toks = false.
Proof.
  intros Hsub Hc. destruct (occurs c toks) eqn:E; [|done]. exfalso.
  destruct (symbol_cases c toks Hsub E) as (_ & _ & Hin). specialize (Hsub c Hin). revert Hc. clear -Hsub.
  unfold symbols in *. repeat (apply elem_of_cons in Hsub as [->|Hsub]; [done|]). by apply elem_of_nil in Hsub.
Qed.
Lemma signs_symbols x : x ∈ [60; 62] -> x ∈ symbols.
Proof. unfold symbols. rewrite !elem_of_cons. tauto. Qed.

(** The first word of a list of arguments. *)
Lemma first_word s q w more :
  reads s q -> at_ q (32 :: w ++ more) -> nice_word w ->
  before s (S q) /\ at_ (S q) (w ++ more) /\ skip_ws buf q = S q
  /\ forall c rest, at_ (S q) (c :: rest) -> occurs c symbols = false.
Proof.
  intros Hs Ha Hw. pose proof (at_cons _ _ _ Ha) as Ha2. destruct w as [|c w]; [by destruct Hw|].
  destruct (in_word_hd _ c w Hw eq_refl) as (Wc & Ws & Wy).
  assert (before q (S q)) as [_ E] by (eapply before_space; [exact Ha|done]). destruct Hs as [H1 H2].
  split_and!; [split; [done|congruence]|done|done|]. intros c' rest' [_ E']. destruct Ha2 as [_ E2]. simpl in E2. congruence.
Qed.

(** One argument. *)
Lemma parseargs_step fuel l argc s q w more :
  reads s q -> at_ q (32 :: w ++ more) -> nice_word w -> match more with [] => True | c :: _ => in_word c = false end ->
  (S argc < MAXARGS)%nat -> let e := (S q + length w)%nat in
  parseargs (S fuel) (EXEC l) argc buf s =
    ('(ret, s) ← parseredirs (S (length buf)) (EXEC (l ++ [(S q, e)])) buf (skip_ws buf e); parseargs fuel ret (S argc) buf s)
  /\ word_text buf (S q, e) = w /\ at_ e more.
Proof.
  intros Hs Ha Hw Hm Hc e. destruct (first_word s q w more Hs Ha Hw) as (Hb & Ha2 & _ & Hfirst).
  destruct (token_word (S q) (S q) w more (before_skip _ _ Hb) Ha2 Hw Hm) as [T1 T2].
  split_and!; [|done|by apply at_step]. cbn [parseargs]. destruct w as [|c w]; [by destruct Hw|].
  rewrite (peek_at s (S q) c (w ++ more) _ Hb Ha2), (not_symbol c _ delims_symbols (Hfirst c (w ++ more) Ha2)), T1.
  cbn [Z.eqb negb Pos.eqb add_arg]. destruct (Nat.leb_spec MAXARGS (S argc)); [lia|done].
Qed.

Lemma parseargs_show av : forall w fuel l argc s q rs rest,
  Forall nice_word (w :: av) -> Forall nice_redir rs -> reads s q -> at_ q (show_args (w :: av) ++ show_redirs rs ++ rest) ->
  stops [124; 41; 38; 59] rest -> (argc + length (w :: av) < MAXARGS)%nat -> (S (length av) < fuel)%nat -> (length rs <= length buf)%nat ->
  exists av' rs', parseargs fuel (EXEC l) argc buf s = Ret (wrap rs' (EXEC (l ++ av')), (q + length (show_args (w :: av) ++ show_redirs rs))%nat)
    /\ word_text buf <$> av' = w :: av /\ redir_text <$> rs' = rs.
Proof.
  induction av as [|w2 av IH]; intros w fuel l argc s q rs rest Hn Hr Hs Ha Hst Hc Hf Hlen; (destruct fuel as [|fuel]; [lia|]);
    inversion Hn as [|?? Hw Hn']; subst; cbn [length] in *.
  - assert (show_args [w] = 32 :: w) as Es by (unfold show_args; simpl; by rewrite app_nil_r). rewrite Es in *.
    pose proof (redirs_stop rs rest Hst) as R.
    destruct (parseargs_step fuel l argc s q w (show_redirs rs ++ rest)) as (-> & Et & Ha3); [done..| |lia|].
    { destruct (show_redirs rs ++ rest); [done|by destruct R]. }
    destruct (parseredirs_show rs (S (length buf)) (EXEC (l ++ [(S q, (S q + length w)%nat)])) _ _ rest Hr (reads_skip _ (proj1 Ha3)) Ha3 Hst)
      as (rs' & -> & Er); [lia|]. cbn [mbind outcome_bind]. pose proof (at_step _ _ _ Ha3) as Ha4. destruct fuel as [|fuel]; [lia|].
    rewrite (parseargs_end fuel _ _ _ (S q + length w + length (show_redirs rs))%nat rest); [|split; [apply Ha4|done]|done|done].
    eexists [_], rs'. split; [f_equal; f_equal; simpl; rewrite length_app; lia|]. split; [|done]. by rewrite fmap_cons, Et.
  - change (show_args (w :: w2 :: av)) with (32 :: w ++ show_args (w2 :: av)) in *. rewrite <- app_comm_cons, <- app_assoc in Ha.
    destruct (parseargs_step fuel l argc s q w (show_args (w2 :: av) ++ show_redirs rs ++ rest)) as (-> & Et & Ha3); [done..|lia|].
    set (e := (S q + length w)%nat) in *. assert (nice_word w2) as Hw2 by (by inversion Hn').
    destruct (first_word (skip_ws buf e) e w2 (show_args av ++ show_redirs rs ++ rest) (reads_skip _ (proj1 Ha3))) as (_ & Ha4 & E4 & Hfirst); [|done|].
    { change (show_args (w2 :: av)) with (32 :: w2 ++ show_args av) in Ha3. by rewrite <- app_comm_cons, <- app_assoc in Ha3. }
    rewrite (parseredirs_none _ _ _ e (reads_skip _ (proj1 Ha3)) (proj1 Ha3)).
    2:{ rewrite E4. intros c r Hcr. apply (not_symbol c _ signs_symbols). by apply (Hfirst c r). }
    cbn [mbind outcome_bind].
    destruct (IH w2 fuel (l ++ [(S q, e)]) (S argc) (skip_ws buf e) e rs rest) as (av' & rs' & -> & Ev & Er); try done; try lia; [by apply reads_skip, Ha3|].
    exists ((S q, e) :: av'), rs'. rewrite <- app_assoc. split; [f_equal; f_equal; unfold e; cbn [app length]; rewrite !length_app; lia|].
    split; [|done]. by rewrite fmap_cons, Et, Ev.
Qed.

(** ** The levels of the grammar *)

Definition reads_as (f : nat -> list Z -> nat -> outcome (pcmd * nat)) (k : nat) (text toks : list Z) (c : cmd (list Z)) : Prop :=
  forall fuel s q rest, reads s q -> at_ q (text ++ rest) -> stops toks rest -> (4 * (length buf - q) + k <= fuel)%nat ->
  exists c', f fuel buf s = Ret (c', (q + length text)%nat) /\ cmd_map (word_text buf) c' = c.

Definition parseback (fuel : nat) (b : list Z) (s : nat) : outcome (pcmd * nat) :=
  '(c, s) ← parsepipe fuel b s; parsebacks (S (length b)) c b s.

Definition simple_ok (c : cmd (list Z)) : Prop := forall rs, Forall nice_redir rs ->
  reads_as parseexec 2 (show 3 c ++ show_redirs rs) [124; 41; 38; 59] (wrap rs c).
Definition pipe_ok (c : cmd (list Z)) : Prop := reads_as parsepipe 3 (show 2 c) [41; 38; 59] c.
Definition back_ok (c : cmd (list Z)) : Prop := forall n,
  reads_as parseback 3 (show 1 c ++ replicate n 38) [41; 59] (Nat.iter n BACK c).
Definition line_ok (c : cmd (list Z)) : Prop := reads_as parseline 4 (show 0 c) [41] c.

Lemma cmd_map_wrap rs c :
  cmd_map (word_text buf) (wrap rs c) = wrap (redir_text <$> rs) (cmd_map (word_text buf) c).
Proof. revert c. induction rs as [|[[f m] d] rs IH]; intros c; [done|]. cbn [wrap foldl] in *. apply IH. Qed.

Lemma redirs_length rs rest q : at_ q (show_redirs rs ++ rest) -> (length rs <= length buf - q)%nat.
Proof.
  intros [Hq E]. apply (f_equal length) in E. rewrite length_drop, length_app in E.
  assert (length rs <= length (show_redirs rs))%nat; [|lia]. clear. induction rs as [|[[f m] d] rs IH]; [done|].
  unfold show_redirs in *. cbn [map concat]. rewrite length_app. cbn [length]. lia.
Qed.
Lemma args_length av rest q : at_ q (show_args av ++ rest) -> (length av <= length buf - q)%nat.
Proof.
  intros [Hq E]. apply (f_equal length) in E. rewrite length_drop, length_app in E.
  assert (length av <= length (show_args av))%nat; [|lia]. clear. induction av as [|w av IH]; [done|].
  unfold show_args in *. cbn [map concat]. rewrite length_app. cbn [length]. lia.
Qed.

Lemma exec_ok av : nice (EXEC av) -> simple_ok (EXEC av).
Proof.
  intros [Hw Hc] rs Hr fuel s q rest Hs Ha Hst Hf. change (show 3 (EXEC av)) with (show_args av) in *.
  rewrite <- app_assoc in Ha. destruct fuel as [|fuel]; [lia|]. cbn [parseexec].
  pose proof (at_step _ _ _ Ha) as Ha2. pose proof (redirs_length _ _ _ Ha2) as Hlr. pose proof (args_length _ _ _ Ha) as Hla.
  destruct av as [|w av].
  - cbn [show_args map concat app length] in *. rewrite Nat.add_0_r in Ha2. pose proof (redirs_stop rs rest Hst) as R.
    assert (before s q) as Hb by (eapply reads_at; [done|exact Ha|]; destruct (show_redirs rs ++ rest); [done|by destruct R]).
    assert (peek buf s [40] = (false, q)) as ->.
    { destruct rs as [|[[f m] d] rs]; [destruct rest as [|c rest]|].
      - by apply peek_end.
      - rewrite (peek_at s q c rest _ Hb Ha). f_equal. simpl in Hst.
        destruct (symbol_cases c _ delims_symbols Hst) as (_ & _ & Hin).
        repeat (apply elem_of_cons in Hin as [->|Hin]; [done|]). by apply elem_of_nil in Hin.
      - rewrite (peek_at s q (redir_sign m) _ _ Hb Ha). f_equal. unfold redir_sign. by destruct (m =? O_RDONLY). }
    destruct (parseredirs_show rs (S (length buf)) (EXEC []) q q rest Hr) as (rs' & -> & Er); [split; [apply Ha|done]|done..|lia|].
    cbn [mbind outcome_bind]. pose proof (at_step _ _ _ Ha) as Ha3.
    rewrite (parseargs_end _ _ _ _ (q + length (show_redirs rs))%nat rest); [|split; [apply Ha3|done]|done|done].
    eexists. split; [done|]. by rewrite cmd_map_wrap, Er.
  - inversion Hw as [|?? Hw1 Hw2]; subst. set (more := show_args av ++ show_redirs rs ++ rest).
    assert (at_ q (32 :: w ++ more)) as Ha'
      by (change (show_args (w :: av)) with (32 :: w ++ show_args av) in Ha; by rewrite <- app_comm_cons, <- app_assoc in Ha).
    destruct (first_word s q w more Hs Ha' Hw1) as (Hb & Ha3 & E & Hfirst).
    assert (reads (S q) q) as Hs' by (split; [apply Ha3|]; destruct (before_skip _ _ Hb) as [_ ->]; by rewrite E).
    assert (peek buf s [40] = (false, S q)) as ->.
    { destruct w as [|c w]; [by destruct Hw1|]. rewrite (peek_at s (S q) c (w ++ more) _ Hb Ha3). f_equal.
      apply (not_symbol c); [|by apply (Hfirst c (w ++ more))]. intros x ->%list_elem_of_singleton. unfold symbols. rewrite !elem_of_cons. tauto. }
    rewrite (parseredirs_none _ _ _ q Hs' (proj1 Ha)).
    2:{ rewrite E. intros c r Hcr. apply (not_symbol c _ signs_symbols). by apply (Hfirst c r). }
    cbn [mbind outcome_bind].
    destruct (parseargs_show av w (S (length buf)) [] 0 (skip_ws buf q) q rs rest) as (av' & rs' & -> & Ev & Er); try done; cbn [length] in *; try lia.
    { by apply reads_skip, Ha. }
    eexists. split; [done|]. rewrite cmd_map_wrap, Er. cbn [cmd_map app]. by rewrite Ev.
Qed.

(** A separator that the parser looks for, and one that it does not find. *)
Lemma peek_found s q c rest toks :
  reads s q -> at_ q (c :: rest) -> occurs c symbols = true -> peek buf s toks = (occurs c toks, q).
Proof.
  intros Hs Ha Hc. destruct (symbol_cases c symbols (fun x Hx => Hx) Hc) as (_ & Hws & _).
  apply (peek_at s q c rest); [|done]. by eapply reads_at.
Qed.

Lemma peek_stops s q rest toks toks' :
  reads s q -> at_ q rest -> stops toks rest -> (forall x, x ∈ toks -> x ∈ symbols /\ occurs x toks' = false) -> peek buf s toks' = (false, q).
Proof.
  intros Hs Ha Hst Hd. destruct rest as [|c rest].
  - apply peek_end; [|done]. by eapply reads_at.
  - simpl in Hst. destruct (symbol_cases c toks (fun x Hx => proj1 (Hd x Hx)) Hst) as (_ & Hws & Hin).
    rewrite (peek_at s q c rest); [|by eapply reads_at|done]. f_equal. by apply Hd.
Qed.

Lemma token_sep s q c rest :
  reads s q -> at_ q (c :: rest) -> c ∈ [124; 40; 41; 59; 38] ->
  gettoken buf s = (c, q, S q, skip_ws buf (S q)) /\ reads (skip_ws buf (S q)) (S q) /\ at_ (S q) rest.
Proof.
  intros Hs Ha Hin. pose proof (at_cons _ _ _ Ha) as Ha2. split_and!; [|by apply reads_skip, Ha2|done].
  apply (token_symbol s q c rest); [eapply reads_at; [done|exact Ha|]|done|];
    repeat (apply elem_of_cons in Hin as [->|Hin]; [done|]); by apply elem_of_nil in Hin.
Qed.

Ltac in_list := intros ? Hin; repeat (apply elem_of_cons in Hin as [->|Hin]; [split; [unfold symbols; rewrite !elem_of_cons; tauto|done]|]); by apply elem_of_nil in Hin.

Lemma paren_ok c : (level c < 3)%nat -> line_ok c -> simple_ok c.
Proof.
  intros Hl HL rs Hr fuel s q rest Hs Ha Hst Hf.
  assert (show 3 c = 40 :: show 0 c ++ [41]) as Es by (destruct c; simpl in *; try done; lia). rewrite Es in *.
  assert ((40 :: show 0 c ++ [41]) ++ show_redirs rs = 40 :: show 0 c ++ 41 :: show_redirs rs) as E2 by (simpl; by rewrite <- app_assoc).
  rewrite E2 in *. rewrite <- app_comm_cons, <- app_assoc, <- app_comm_cons in Ha.
  destruct (at_char _ _ _ Ha) as (_ & _ & Hq). destruct fuel as [|[|fuel]]; [lia..|]. cbn [parseexec parseblock].
  rewrite (peek_found s q 40 _ [40] Hs Ha eq_refl). cbn [negb].
  assert (reads q q) as Hqq by (split; [apply Ha|done]).
  replace (occurs 40 [40]) with true by done. cbn [negb]. rewrite (peek_found q q 40 _ [40] Hqq Ha eq_refl).
  replace (occurs 40 [40]) with true by done. cbn [negb].
  destruct (token_sep q q 40 _ Hqq Ha) as (-> & Hs2 & Ha2); [rewrite !elem_of_cons; tauto|].
  destruct (HL fuel _ _ _ Hs2 Ha2 eq_refl) as (c' & -> & Ec); [lia|]. cbn [mbind outcome_bind].
  pose proof (at_step _ _ _ Ha2) as Ha3. set (p := (S q + length (show 0 c))%nat) in *.
  assert (reads p p) as Hpp by (split; [apply Ha3|done]).
  rewrite (peek_found p p 41 _ [41] Hpp Ha3 eq_refl). replace (occurs 41 [41]) with true by done. cbn [negb].
  destruct (token_sep p p 41 _ Hpp Ha3) as (-> & Hs4 & Ha4); [rewrite !elem_of_cons; tauto|].
  destruct (parseredirs_show rs (S (length buf)) c' _ _ rest Hr Hs4 Ha4 Hst) as (rs' & -> & Er);
    [pose proof (redirs_length _ _ _ Ha4); lia|].
  eexists. split; [f_equal; f_equal; unfold p; simpl; rewrite length_app; simpl; lia|]. by rewrite cmd_map_wrap, Er, Ec.
Qed.

Lemma pipe_simple c : show 2 c = show 3 c -> simple_ok c -> pipe_ok c.
Proof.
  intros E HS fuel s q rest Hs Ha Hst Hf. rewrite E in *. destruct fuel as [|fuel]; [lia|]. cbn [parsepipe].
  specialize (HS [] (Forall_nil_2 _)). change (show_redirs []) with (@nil Z) in HS. rewrite app_nil_r in HS.
  destruct (HS fuel s q rest Hs Ha) as (c' & -> & Ec); [|lia|].
  { destruct rest as [|x rest]; [done|]. simpl in Hst |- *. autorewrite with words in *.
    repeat match goal with |- context [?a =? ?b] => destruct (a =? b) end; done. }
  cbn [mbind outcome_bind]. pose proof (at_step _ _ _ Ha) as Ha2.
  rewrite (peek_stops _ _ rest [41; 38; 59] [124] (conj (proj1 Ha2) eq_refl) Ha2 Hst) by in_list. by eexists.
Qed.

Lemma stops_incl toks toks' rest : (forall x, x ∈ toks -> x ∈ symbols /\ occurs x toks' = true) -> stops toks rest -> stops toks' rest.
Proof.
  destruct rest as [|c rest]; [done|]. simpl. intros Hs Ho. apply Hs.
  by destruct (symbol_cases c toks (fun x Hx => proj1 (Hs x Hx)) Ho) as (_ & _ & ?).
Qed.

Lemma pipe_pipe l r : simple_ok l -> pipe_ok r -> pipe_ok (PIPE l r).
Proof.
  intros HS HR fuel s q rest Hs Ha Hst Hf. change (show 2 (PIPE l r)) with (show 3 l ++ 124 :: show 2 r) in *.
  rewrite <- app_assoc, <- app_comm_cons in Ha. destruct fuel as [|fuel]; [lia|]. cbn [parsepipe].
  specialize (HS [] (Forall_nil_2 _)). change (show_redirs []) with (@nil Z) in HS. rewrite app_nil_r in HS.
  destruct (HS fuel s q _ Hs Ha eq_refl) as (c1 & -> & E1); [lia|]. cbn [mbind outcome_bind].
  pose proof (at_step _ _ _ Ha) as Ha2. set (p := (q + length (show 3 l))%nat) in *.
  assert (reads p p) as Hpp by (split; [apply Ha2|done]).
  rewrite (peek_found p p 124 _ [124] Hpp Ha2 eq_refl). replace (occurs 124 [124]) with true by done.
  destruct (token_sep p p 124 _ Hpp Ha2) as (-> & Hs3 & Ha3); [rewrite !elem_of_cons; tauto|].
  destruct (at_char _ _ _ Ha2) as (_ & _ & Hp).
  destruct (HR fuel _ _ rest Hs3 Ha3 Hst) as (c2 & -> & E2); [lia|]. cbn [mbind outcome_bind].
  eexists. split; [f_equal; f_equal; unfold p; rewrite length_app; cbn [length]; lia|]. cbn [cmd_map]. by rewrite E1, E2.
Qed.

Lemma parsebacks_show n : forall fuel c s q rest,
  reads s q -> at_ q (replicate n 38 ++ rest) -> stops [41; 59] rest -> (n < fuel)%nat ->
  parsebacks fuel c buf s = Ret (Nat.iter n BACK c, (q + n)%nat).
Proof.
  induction n as [|n IH]; intros fuel c s q rest Hs Ha Hst Hf; (destruct fuel as [|fuel]; [lia|]); cbn [parsebacks].
  - rewrite (peek_stops s q rest [41; 59] [38] Hs Ha Hst) by in_list. cbn [negb Nat.iter]. by rewrite Nat.add_0_r.
  - cbn [replicate app] in Ha. rewrite (peek_found s q 38 _ [38] Hs Ha eq_refl). replace (occurs 38 [38]) with true by done. cbn [negb].
    destruct (token_sep q q 38 _ (conj (proj1 Ha) eq_refl) Ha) as (-> & Hs3 & Ha3); [rewrite !elem_of_cons; tauto|].
    rewrite (IH fuel (BACK c) _ (S q) rest Hs3 Ha3 Hst) by lia. rewrite <- Nat.iter_succ_r. f_equal. f_equal. lia.
Qed.

Lemma back_pipe c : show 1 c = show 2 c -> pipe_ok c -> back_ok c.
Proof.
  intros E HP n fuel s q rest Hs Ha Hst Hf. rewrite E in *. rewrite <- app_assoc in Ha. unfold parseback.
  destruct (HP fuel s q _ Hs Ha) as (c' & -> & Ec); [|lia|].
  { destruct n as [|n]; [|done]. simpl. eapply (stops_incl [41; 59]); [in_list|done]. }
  cbn [mbind outcome_bind]. pose proof (at_step _ _ _ Ha) as Ha2.
  assert (n <= length buf)%nat by (destruct (at_step _ _ _ Ha2) as [? _]; rewrite length_replicate in *; lia).
  rewrite (parsebacks_show n (S (length buf)) c' _ _ rest (conj (proj1 Ha2) eq_refl) Ha2 Hst) by lia.
  eexists. split; [f_equal; f_equal; rewrite length_app, length_replicate; lia|].
  rewrite <- Ec. clear. induction n as [|n IH]; cbn [Nat.iter cmd_map nat_rect]; [done|]. by f_equal.
Qed.

Lemma back_back c : back_ok c -> back_ok (BACK c).
Proof.
  intros HB n fuel s q rest Hs Ha Hst Hf. change (show 1 (BACK c)) with (show 1 c ++ [38]) in *.
  assert ((show 1 c ++ [38]) ++ replicate n 38 = show 1 c ++ replicate (S n) 38) as Es by (by rewrite <- app_assoc). rewrite Es in *.
  destruct (HB (S n) fuel s q rest Hs Ha Hst Hf) as (c' & E & Ec). exists c'. split; [done|]. rewrite Ec. apply Nat.iter_succ_r.
Qed.

Lemma parseback_inv fuel s p : parseback fuel buf s = Ret p ->
  exists c1 s1, parsepipe fuel buf s = Ret (c1, s1) /\ parsebacks (S (length buf)) c1 buf s1 = Ret p.
Proof. unfold parseback. destruct (parsepipe fuel buf s) as [[c1 s1]| |]; [|done..]. by exists c1, s1. Qed.

Lemma line_back c : show 0 c = show 1 c -> back_ok c -> line_ok c.
Proof.
  intros E HB fuel s q rest Hs Ha Hst Hf. rewrite E in *. destruct fuel as [|fuel]; [lia|]. cbn [parseline].
  specialize (HB O). cbn [replicate Nat.iter] in HB. rewrite app_nil_r in HB.
  destruct (HB fuel s q rest Hs Ha) as (c' & (c1 & s1 & -> & E1)%parseback_inv & Ec); [eapply (stops_incl [41]); [in_list|done]|lia|].
  cbn [mbind outcome_bind]. rewrite E1. cbn [mbind outcome_bind]. pose proof (at_step _ _ _ Ha) as Ha2.
  rewrite (peek_stops _ _ rest [41] [59] (conj (proj1 Ha2) eq_refl) Ha2 Hst) by in_list. by eexists.
Qed.

Lemma line_list l r : back_ok l -> line_ok r -> line_ok (LIST l r).
Proof.
  intros HB HR fuel s q rest Hs Ha Hst Hf. change (show 0 (LIST l r)) with (show 1 l ++ 59 :: show 0 r) in *.
  rewrite <- app_assoc, <- app_comm_cons in Ha. destruct fuel as [|fuel]; [lia|]. cbn [parseline].
  specialize (HB O). cbn [replicate Nat.iter] in HB. rewrite app_nil_r in HB.
  destruct (HB fuel s q _ Hs Ha eq_refl) as (c1' & (c1 & s1 & -> & E0)%parseback_inv & E1); [lia|]. cbn [mbind outcome_bind]. rewrite E0.
  cbn [mbind outcome_bind]. pose proof (at_step _ _ _ Ha) as Ha2. set (p := (q + length (show 1 l))%nat) in *.
  assert (reads p p) as Hpp by (split; [apply Ha2|done]).
  rewrite (peek_found p p 59 _ [59] Hpp Ha2 eq_refl). replace (occurs 59 [59]) with true by done.
  destruct (token_sep p p 59 _ Hpp Ha2) as (-> & Hs3 & Ha3); [rewrite !elem_of_cons; tauto|].
  destruct (at_char _ _ _ Ha2) as (_ & _ & Hp).
  destruct (HR fuel _ _ rest Hs3 Ha3 Hst) as (c2 & -> & E2); [lia|]. cbn [mbind outcome_bind].
  eexists. split; [f_equal; f_equal; unfold p; rewrite length_app; cbn [length]; lia|]. cbn [cmd_map]. by rewrite E1, E2.
Qed.

Lemma redir_ok c f m d : nice (REDIR c f m d) -> simple_ok c -> simple_ok (REDIR c f m d).
Proof.
  intros (_ & Hf & Hm) HS rs Hr. assert (Forall nice_redir ((f, m, d) :: rs)) as Hr' by (by apply Forall_cons). specialize (HS _ Hr').
  assert (show 3 (REDIR c f m d) ++ show_redirs rs = show 3 c ++ show_redirs ((f, m, d) :: rs)) as ->; [|done].
  change (show 3 (REDIR c f m d)) with (show 3 c ++ redir_sign m :: f).
  change (show_redirs ((f, m, d) :: rs)) with ((redir_sign m :: f) ++ show_redirs rs). by rewrite <- app_assoc.
Qed.

Lemma show_parses c : nice c -> simple_ok c /\ pipe_ok c /\ back_ok c /\ line_ok c.
Proof.
  induction c as [av|c IH f m d|l IHl r IHr|l IHl r IHr|c IH]; intros Hn.
  - assert (simple_ok (EXEC av)) as HS by (by apply exec_ok).
    assert (pipe_ok (EXEC av)) by (by apply pipe_simple). assert (back_ok (EXEC av)) by (by apply back_pipe).
    split_and!; [done..|]. by apply line_back.
  - destruct (IH (proj1 Hn)) as (HS & _). assert (simple_ok (REDIR c f m d)) by (by apply redir_ok).
    assert (pipe_ok (REDIR c f m d)) by (by apply pipe_simple). assert (back_ok (REDIR c f m d)) by (by apply back_pipe).
    split_and!; [done..|]. by apply line_back.
  - destruct Hn as [Hl Hr]. destruct (IHl Hl) as (HS & _), (IHr Hr) as (_ & HP & _).
    assert (pipe_ok (PIPE l r)) by (by apply pipe_pipe). assert (back_ok (PIPE l r)) by (by apply back_pipe).
    assert (line_ok (PIPE l r)) by (by apply line_back). split_and!; [|done..]. apply paren_ok; [simpl; lia|done].
  - destruct Hn as [Hl Hr]. destruct (IHl Hl) as (_ & _ & HB & _), (IHr Hr) as (_ & _ & _ & HL).
    assert (line_ok (LIST l r)) by (by apply line_list).
    assert (simple_ok (LIST l r)) by (apply paren_ok; [simpl; lia|done]).
    assert (pipe_ok (LIST l r)) by (by apply pipe_simple). split_and!; [done..| |done]. by apply back_pipe.
  - destruct (IH Hn) as (_ & _ & HB & _). assert (back_ok (BACK c)) by (by apply back_back).
    assert (line_ok (BACK c)) by (by apply line_back).
    assert (simple_ok (BACK c)) by (apply paren_ok; [simpl; lia|done]). split_and!; [done| |done..]. by apply pipe_simple.
Qed.
End Text.

(** ** Round trip *)

(** The command with its words as strings of the text. *)
Definition resolve (c : pcmd) (txt : list Z) : cmd (list Z) := cmd_map (fun w => cstring txt w.1) c.

Lemma cmd_map_ext {V W} (f g : V -> W) c : (forall w, w ∈ words c -> f w = g w) -> cmd_map f c = cmd_map g c.
Proof.
  induction c as [av|c IH w m d|l IHl r IHr|l IHl r IHr|c IH]; cbn [words cmd_map]; intros E.
  - f_equal. by apply list_fmap_ext; intros i x Hx; apply E; eapply list_elem_of_lookup_2.
  - rewrite IH by (intros; apply E, elem_of_app; by left). by rewrite (E w) by (apply elem_of_app; right; left).
  - rewrite IHl by (intros; apply E, elem_of_app; by left). by rewrite IHr by (intros; apply E, elem_of_app; by right).
  - rewrite IHl by (intros; apply E, elem_of_app; by left). by rewrite IHr by (intros; apply E, elem_of_app; by right).
  - by rewrite IH.
Qed.

Lemma show_nonzero lv c : nice c -> Forall (fun x => x <> 0) (show lv c).
Proof.
  assert (forall w, nice_word w -> Forall (fun x => x <> 0) w) as Hw.
  { intros w [_ H]. eapply Forall_impl; [exact H|]. by intros x [_ ?]. }
  revert lv. induction c as [av|c IH w m d|l IHl r IHr|l IHl r IHr|c IH]; intros lv; cbn [nice show]; intros Hn.
  all: match goal with |- Forall _ (if _ then 40 :: ?t ++ [41] else ?t) =>
         assert (Forall (fun x => x <> 0) t) as Ht; [|case_match; [constructor; [done|apply Forall_app; split; [done|by constructor]]|done]] end.
  - destruct Hn as [Hn _]. induction Hn as [|w av Hw1 _ IH]; cbn; [done|]. constructor; [done|]. apply Forall_app. auto.
  - destruct Hn as (Hn & Hf & _). apply Forall_app. split; [auto|]. constructor; [unfold redir_sign; by destruct (m =? O_RDONLY)|auto].
  - destruct Hn as [Hl Hr]. apply Forall_app. split; [auto|]. constructor; [done|auto].
  - destruct Hn as [Hl Hr]. apply Forall_app. split; [auto|]. constructor; [done|auto].
  - apply Forall_app. split; [auto|]. by constructor.
Qed.

(** C9. The text of a command, with the operators [|], [&], [;], [<], [>] and
    parentheses where the precedence needs them, is parsed by the shell as
    that command, and the strings of the parsed command are its words. *)
Theorem shell_roundtrip (c : cmd (list Z)) (Hc : nice c) :
  exists c' txt, parsecmd (show 0 c) = Ret (c', txt) /\ resolve c' txt = c.
Proof.
  set (buf := show 0 c). assert (Forall (fun x => x <> 0) buf) as Hz by (by apply show_nonzero).
  destruct (show_parses buf Hz c Hc) as (_ & _ & _ & HL).
  assert (at_ buf 0 (show 0 c ++ [])) as Ha by (split; [lia|by rewrite app_nil_r]).
  destruct (HL (4 * length buf + 4)%nat 0%nat 0%nat [] (conj (Nat.le_0_l _) eq_refl) Ha I) as (c' & E & Ec); [lia|].
  pose proof (parsecmd_strings buf Hz) as HT. unfold parsecmd in *. rewrite E in *. cbn [mbind outcome_bind] in *.
  fold buf in HT |- *. rewrite Nat.add_0_l in *.
  assert (peek buf (length buf) [] = (false, length buf)) as Hp.
  { apply (peek_end buf); [by apply (before_at buf _ []); [split; [lia|by rewrite drop_all]|]|split; [lia|by rewrite drop_all]]. }
  rewrite Hp in *. rewrite Nat.eqb_refl in *. cbn [negb] in *. eexists _, _. split; [done|].
  rewrite <- Ec. unfold resolve. apply cmd_map_ext. apply HT.
Qed.

(** [((a <f; b) | c >g)& ; d x] *)
Definition demo_cmd : cmd (list Z) :=
  LIST (BACK (PIPE (LIST (REDIR (EXEC [[97]]) [102] O_RDONLY 0) (EXEC [[98]])) (REDIR (EXEC [[99]]) [103] (Z.lor O_WRONLY O_CREATE) 1)))
    (EXEC [[100]; [120]]).
Lemma shell_roundtrip_witness : exists c' txt, parsecmd (show 0 demo_cmd) = Ret (c', txt) /\ resolve c' txt = demo_cmd.
Proof.
  apply (shell_roundtrip demo_cmd).
  cbn [nice demo_cmd]. unfold nice_word, MAXARGS.
  repeat first [split | apply Forall_cons | apply Forall_nil_2 | discriminate | reflexivity | (simpl; lia)].
Defined.
