(* ===== verification/ShRun.v ===== *)
(** * Running commands (runcmd, main of user/sh.c)

    A process of the shell is a tree of system calls [prog]; [runcmd] builds
    the tree of a command as the code does.  The interpreter [started] follows
    the tree and the descriptor tables of all processes it forks and collects
    the programs that are started with their descriptors; the theorem says
    which ones these are. *)

From S2P Require Import Prelude Ulib Proc SysFile Sh ShText.

(** ** System calls of the shell *)

Inductive prog :=
| Exit
| Exec (argv : list (list Z)) (k : prog)
| Print (fmt : list Z) (args : list (list Z)) (k : prog)
| Close (fd : nat) (k : prog)
| Dup (fd : nat) (k : prog)
| Open (file : list Z) (mode : Z) (k : option nat -> prog)
| Pipe (k : option (nat * nat) -> prog)
| Fork (k : option bool -> prog)
| Wait (k : prog)
| Chdir (dir : list Z) (k : bool -> prog).

(** The bytes of a message. *)
Fixpoint text (s : string) : list Z :=
  match s with
  | EmptyString => []
  | String a s => Z.of_N (Ascii.N_of_ascii a) :: text s
  end.

Definition panic (s : list Z) : prog := Print (text "%s" ++ [10]) [s] Exit.

(** [fork1]: the answer tells whether this is the child. *)
Definition fork1 (k : bool -> prog) : prog :=
  Fork (fun o => match o with Some child => k child | None => panic (text "fork") end).

(** [runcmd] never returns: every path ends in [exit]. *)
Fixpoint runcmd (c : cmd (list Z)) : prog :=
  match c with
  | EXEC [] => Exit
  | EXEC (a :: av) => Exec (a :: av) (Print (text "exec %s failed" ++ [10]) [a] Exit)
  | REDIR c file mode fd =>
    Close (Z.to_nat fd) (Open file mode (fun o =>
      match o with
      | None => Print (text "open %s failed" ++ [10]) [file] Exit
      | Some _ => runcmd c
      end))
  | LIST l r => fork1 (fun child => if child then runcmd l else Wait (runcmd r))
  | PIPE l r =>
    Pipe (fun o =>
      match o with
      | None => panic (text "pipe")
      | Some (p0, p1) =>
        fork1 (fun child =>
          if child then Close 1 (Dup p1 (Close p0 (Close p1 (runcmd l))))
          else fork1 (fun child =>
            if child then Close 0 (Dup p0 (Close p0 (Close p1 (runcmd r))))
            else Close p0 (Close p1 (Wait (Wait Exit)))))
      end)
  | BACK c => fork1 (fun child => if child then runcmd c else Exit)
  end.

(** ** The loop of [main]

    [inp] is what the reads of [gets] deliver. *)

Definition NBUF : Z := 100.

(** The line that [getcmd] finds in [buf], and the input that is left. *)
Definition getcmd (inp : list Z) : list Z * list Z :=
  let '(line, inp) := gets NBUF inp in (cstring (line ++ [0]) 0, inp).

(** The lines until the first empty one. *)
Fixpoint lines (fuel : nat) (inp : list Z) : list (list Z) :=
  match fuel with
  | O => []
  | S fuel =>
    let '(line, inp) := getcmd inp in
    match line with [] => [] | _ => line :: lines fuel inp end
  end.

Fixpoint sh_loop (ls : list (list Z)) : prog :=
  Print (text "$ ") [] (
    match ls with
    | [] => Exit
    | line :: ls =>
      match line with
      | 99 :: 100 :: 32 :: dir =>
        let dir := removelast dir in
        Chdir dir (fun ok => if ok then sh_loop ls else Print (text "cannot cd %s" ++ [10]) [dir] (sh_loop ls))
      | _ =>
        fork1 (fun child =>
          if child then
            match parsecmd line with
            | Ret (c, txt) => runcmd (resolve c txt)
            | Panic msg => panic (text msg)
            | Undef _ => Exit
            end
          else Wait (sh_loop ls))
      end
    end).

(** Opening the console until a descriptor above 2 appears; the lowest free
    descriptor grows from call to call. *)
Fixpoint open_console (fuel : nat) (k : prog) : prog :=
  match fuel with
  | O => k
  | S fuel =>
    Open (text "console") O_RDWR (fun o =>
      match o with
      | None => k
      | Some fd => if (3 <=? fd)%nat then Close fd k else open_console fuel k
      end)
  end.

Definition sh_main (inp : list Z) : prog := open_console (NOFILE + 1) (sh_loop (lines (S (length inp)) inp)).

(** ** Descriptor tables and the programs that are started *)

Inductive obj := Console | File (name : list Z) (mode : Z) | PipeRead (n : nat) | PipeWrite (n : nat).
Abbreviation fdtable := (list (option obj)).

(** The lowest free descriptor. *)
Fixpoint lowest (t : fdtable) : option nat :=
  match t with
  | [] => None
  | None :: _ => Some O
  | Some _ :: t => S <$> lowest t
  end.

Definition install (o : obj) (t : fdtable) : option (nat * fdtable) :=
  match lowest t with Some d => Some (d, <[d := Some o]> t) | None => None end.
Definition lookup_fd (t : fdtable) (fd : nat) : option obj := mjoin (t !! fd).

(** [openable]: which files the kernel opens.  Pipes are numbered in the order
    of their creation.  The programs that a process and its children start,
    and the number of pipes after it. *)
Fixpoint started (openable : list Z -> Z -> bool) (p : prog) (t : fdtable) (n : nat) : list (list (list Z) * fdtable) * nat :=
  match p with
  | Exit => ([], n)
  | Exec av _ => ([(av, t)], n)
  | Print _ _ k => started openable k t n
  | Close fd k => started openable k (<[fd := None]> t) n
  | Dup fd k =>
    match lookup_fd t fd with
    | Some o => match install o t with Some (_, t) => started openable k t n | None => started openable k t n end
    | None => started openable k t n
    end
  | Open f m k =>
    if openable f m then
      match install (File f m) t with Some (d, t) => started openable (k (Some d)) t n | None => started openable (k None) t n end
    else started openable (k None) t n
  | Pipe k =>
    match install (PipeRead n) t with
    | Some (p0, t') =>
      match install (PipeWrite n) t' with
      | Some (p1, t'') => started openable (k (Some (p0, p1))) t'' (S n)
      | None => started openable (k None) t n
      end
    | None => started openable (k None) t n
    end
  | Fork k =>
    let '(l1, n) := started openable (k (Some true)) t n in
    let '(l2, n) := started openable (k (Some false)) t n in
    (l1 ++ l2, n)
  | Wait k => started openable k t n
  | Chdir _ k => started openable (k true) t n
  end.

(** ** What a command means *)

(** Every simple command runs with the descriptors of the shell, except that
    redirections replace 0 or 1 by a file, and that a pipeline puts a new pipe
    between descriptor 1 of its left side and descriptor 0 of its right side.
    The number is that of the next pipe. *)
Fixpoint meaning (openable : list Z -> Z -> bool) (c : cmd (list Z)) (t : fdtable) (n : nat) : list (list (list Z) * fdtable) * nat :=
  match c with
  | EXEC [] => ([], n)
  | EXEC av => ([(av, t)], n)
  | REDIR c f m d => if openable f m then meaning openable c (<[Z.to_nat d := Some (File f m)]> t) n else ([], n)
  | PIPE l r =>
    let '(l1, n1) := meaning openable l (<[1%nat := Some (PipeWrite n)]> t) (S n) in
    let '(l2, n2) := meaning openable r (<[0%nat := Some (PipeRead n)]> t) n1 in
    (l1 ++ l2, n2)
  | LIST l r =>
    let '(l1, n1) := meaning openable l t n in
    let '(l2, n2) := meaning openable r t n1 in
    (l1 ++ l2, n2)
  | BACK c => meaning openable c t n
  end.

(** Descriptors 0 and 1 are open and two descriptors are free. *)
Definition usable (t : fdtable) : Prop :=
  exists o0 o1 t' d e, t = Some o0 :: Some o1 :: t' /\ lowest t' = Some d /\ lowest (<[d := Some o0]> t') = Some e.

Lemma lowest_Some t d : lowest t = Some d -> t !! d = Some None.
Proof.
  revert d. induction t as [|[o|] t IH]; intros d; simpl; [done| |by intros [= <-]].
  destruct (lowest t) as [e|]; [|done]. intros [= <-]. simpl. auto.
Qed.

Lemma lowest_same t d a b : lowest (<[d := Some a]> t) = lowest (<[d := Some b]> t).
Proof. revert d. induction t as [|[o|] t IH]; intros [|d]; simpl; try done. by rewrite IH. Qed.

Lemma restore (t : fdtable) d e x y :
  d <> e -> t !! d = Some None -> t !! e = Some None -> <[e := None]> (<[d := None]> (<[e := x]> (<[d := y]> t))) = t.
Proof.
  intros Hn Hd He. apply list_eq. intros i. rewrite !list_lookup_insert.
  pose proof (lookup_lt_Some _ _ _ Hd). pose proof (lookup_lt_Some _ _ _ He). rewrite !length_insert.
  destruct (decide (e = i)) as [<-|]; [rewrite decide_True by done; congruence|].
  rewrite decide_False by tauto. destruct (decide (d = i)) as [<-|]; [rewrite decide_True by done; congruence|].
  rewrite !decide_False by tauto. done.
Qed.

(** The two ends of a new pipe. *)
Lemma pipe_ends o0 o1 t' d e a b :
  lowest t' = Some d -> lowest (<[d := Some o0]> t') = Some e ->
  let u := <[e := Some b]> (<[d := Some a]> t') in
  install a (Some o0 :: Some o1 :: t') = Some (S (S d), Some o0 :: Some o1 :: <[d := Some a]> t')
  /\ install b (Some o0 :: Some o1 :: <[d := Some a]> t') = Some (S (S e), Some o0 :: Some o1 :: u)
  /\ u !! d = Some (Some a) /\ u !! e = Some (Some b) /\ <[e := None]> (<[d := None]> u) = t'.
Proof.
  intros Hd He u. pose proof (lowest_Some _ _ Hd) as Ld. pose proof (lowest_Some _ _ He) as Le.
  assert (d <> e) as Hn.
  { intros <-. rewrite list_lookup_insert_eq in Le by (by eapply lookup_lt_Some). done. }
  rewrite list_lookup_insert_ne in Le by done.
  assert (e < length t')%nat by (by eapply lookup_lt_Some). assert (d < length t')%nat by (by eapply lookup_lt_Some).
  split_and!.
  - unfold install. simpl. by rewrite Hd.
  - unfold install. simpl. by rewrite (lowest_same _ _ a o0), He.
  - unfold u. rewrite list_lookup_insert_ne by done. by rewrite list_lookup_insert_eq.
  - unfold u. rewrite list_lookup_insert_eq; [done|]. by rewrite length_insert.
  - by apply restore.
Qed.

Lemma usable_0 t o : usable t -> usable (<[0%nat := Some o]> t).
Proof.
  intros (o0 & o1 & t' & d & e & -> & Hd & He). exists o, o1, t', d, e. split_and!; [done..|]. by rewrite (lowest_same _ _ o o0).
Qed.
Lemma usable_1 t o : usable t -> usable (<[1%nat := Some o]> t).
Proof. intros (o0 & o1 & t' & d & e & -> & Hd & He). by exists o0, o, t', d, e. Qed.

(** C17. The shell starts exactly the simple commands of a command line, each
    with the descriptors of the shell except for its redirections and the
    pipes of its pipeline: no process keeps a stray end of a pipe, and files
    that cannot be opened stop only the command they belong to. *)
Theorem runcmd_meaning (openable : list Z -> Z -> bool) (c : cmd (list Z)) (t : fdtable) (n : nat)
  (Hc : nice c) (Ht : usable t) :
  started openable (runcmd c) t n = meaning openable c t n.
Proof.
  revert t n Hc Ht. induction c as [av|c IH f m d|l IHl r IHr|l IHl r IHr|c IH]; intros t n Hc Ht.
  - by destruct av.
  - destruct Hc as (Hc & _ & Hm). cbn [runcmd meaning started].
    assert (install (File f m) (<[Z.to_nat d := None]> t) = Some (Z.to_nat d, <[Z.to_nat d := Some (File f m)]> t)
      /\ usable (<[Z.to_nat d := Some (File f m)]> t)) as [E U].
    { destruct Hm as [[_ ->]|[_ ->]]; (split; [|by first [apply usable_0|apply usable_1]]);
        destruct Ht as (o0 & o1 & t' & d' & e & -> & _); done. }
    rewrite E. destruct (openable f m); [|done]. by rewrite IH.
  - destruct Hc as [Hl Hr]. pose proof Ht as (o0 & o1 & t' & d & e & -> & Hd & He). cbn [runcmd meaning started].
    destruct (pipe_ends o0 o1 t' d e (PipeRead n) (PipeWrite n) Hd He) as (-> & -> & Lr & Lw & Back).
    set (u := <[e := Some (PipeWrite n)]> (<[d := Some (PipeRead n)]> t')) in *.
    cbn [fork1 started]. unfold lookup_fd. simpl. rewrite Lr, Lw. simpl. rewrite Back.
    rewrite (IHl (Some o0 :: Some (PipeWrite n) :: t')) by (done || by apply (usable_1 (Some o0 :: Some o1 :: t'))).
    destruct (meaning openable l _ (S n)) as [l1 n1].
    rewrite (IHr (Some (PipeRead n) :: Some o1 :: t')) by (done || by apply (usable_0 (Some o0 :: Some o1 :: t'))).
    destruct (meaning openable r _ n1) as [l2 n2]. by rewrite app_nil_r.
  - destruct Hc as [Hl Hr]. cbn [runcmd meaning fork1 started]. rewrite IHl by done.
    destruct (meaning openable l t n) as [l1 n1]. by rewrite IHr.
  - cbn [runcmd meaning fork1 started]. rewrite IH by done. destruct (meaning openable c t n) as [l1 n1]. by rewrite app_nil_r.
Qed.

(** [a <f | b >g] *)
Definition demo_pipeline : cmd (list Z) :=
  PIPE (REDIR (EXEC [[97]]) [102] O_RDONLY 0) (REDIR (EXEC [[98]]) [103] (Z.lor O_WRONLY O_CREATE) 1).
Definition demo_fds : fdtable := [Some Console; Some Console; Some Console; None; None; None].
Lemma runcmd_meaning_witness :
  started (fun _ _ => true) (runcmd demo_pipeline) demo_fds 0
  = ([([[97]], [Some (File [102] O_RDONLY); Some (PipeWrite 0); Some Console; None; None; None]);
      ([[98]], [Some (PipeRead 0); Some (File [103] (Z.lor O_WRONLY O_CREATE)); Some Console; None; None; None])], 1%nat).
Proof.
  rewrite (runcmd_meaning (fun _ _ => true) demo_pipeline demo_fds 0).
  - reflexivity.
  - cbn [nice demo_pipeline]. unfold nice_word, MAXARGS.
    repeat first [split | apply Forall_cons | apply Forall_nil_2 | discriminate | reflexivity | (simpl; lia)].
  - exists Console, Console, [Some Console; None; None; None], 1%nat, 2%nat. repeat split.
Defined.

(** ** The lines of the input *)

Lemma gets_rest n inp l rest : gets_loop n inp = (l, rest) -> (length l + length rest = length inp)%nat.
Proof.
  revert inp l rest. induction n as [|n IH]; intros [|c inp] l rest; simpl; try (intros [= <- <-]; done).
  destruct ((c =? 10) || (c =? 13)); [intros [= <- <-]; done|].
  destruct (gets_loop n inp) as [l' r'] eqn:E. intros [= <- <-]. apply IH in E. simpl. lia.
Qed.

Lemma getcmd_shorter inp c line rest : getcmd inp = (c :: line, rest) -> (length rest < length inp)%nat.
Proof.
  unfold getcmd. destruct (gets NBUF inp) as [l r] eqn:E. apply gets_rest in E. intros [= Hl <-].
  destruct l; [discriminate Hl|]. simpl in E. lia.
Qed.

(** The number of rounds given to [lines] is enough. *)
Lemma lines_rounds inp n m : (length inp < n)%nat -> (length inp < m)%nat -> lines n inp = lines m inp.
Proof.
  revert inp m. induction n as [|n IH]; intros inp m Hn Hm; [lia|]. destruct m as [|m]; [lia|]. cbn [lines].
  destruct (getcmd inp) as [[|c line] rest] eqn:E; [done|]. apply getcmd_shorter in E. f_equal. apply IH; lia.
Qed.
