(* ===== verification/Textutils.v ===== *)
(** * Programs that filter text (user/grep.c, user/wc.c, user/cat.c, user/echo.c, user/ls.c)

    The input is the list of the results of [read]; the output is the list of
    bytes written.  The matcher of grep is related to a declarative meaning of
    patterns. *)

From S2P Require Import Prelude Ulib Fs Sh.

(** ** The matcher of grep *)

(** [matchhere], with the loop of [matchstar] inside it: a star may stand for
    the characters up to the first that does not fit. *)
Fixpoint matchhere (re text : list Z) {struct re} : bool :=
  match re with
  | [] => true
  | c :: re1 =>
    match re1 with
    | 42 :: re2 =>
      (fix matchstar (text : list Z) : bool :=
         if matchhere re2 text then true
         else match text with
              | [] => false
              | t :: text => if (t =? c) || (c =? 46) then matchstar text else false
              end) text
    | _ =>
      if (c =? 36) && (length re1 =? 0)%nat then (length text =? 0)%nat
      else match text with
           | t :: text => if (c =? 46) || (c =? t) then matchhere re1 text else false
           | [] => false
           end
    end
  end.

(** [matchstar] on its own. *)
Fixpoint matchstar (c : Z) (re text : list Z) : bool :=
  if matchhere re text then true
  else match text with
       | [] => false
       | t :: text => if (t =? c) || (c =? 46) then matchstar c re text else false
       end.

(** The loop of [match_]: every suffix of the text, the empty one included. *)
Fixpoint match_from (re text : list Z) : bool :=
  if matchhere re text then true
  else match text with [] => false | _ :: text => match_from re text end.

Definition match_ (re text : list Z) : bool :=
  match re with
  | 94 :: re => matchhere re text
  | _ => match_from re text
  end.

(** ** The meaning of patterns *)

(** A character of the pattern: itself, or any character. *)
Definition fits_char (c t : Z) : Prop := c = 46 \/ c = t.

(** The strings that a pattern describes; [true]: up to the end of the line. *)
Inductive describes : list Z -> list Z -> bool -> Prop :=
| d_empty : describes [] [] false
| d_end : describes [36] [] true
| d_char c re t u e : fits_char c t -> (forall r, re <> 42 :: r) -> ~ (c = 36 /\ re = []) -> describes re u e -> describes (c :: re) (t :: u) e
| d_star c re a u e : Forall (fits_char c) a -> describes re u e -> describes (c :: 42 :: re) (a ++ u) e.

Definition here (re text : list Z) : Prop :=
  exists u v e, text = u ++ v /\ describes re u e /\ (e = true -> v = []).

Definition selects (re text : list Z) : Prop :=
  match re with
  | 94 :: re => here re text
  | _ => exists a b, text = a ++ b /\ here re b
  end.

Lemma matchhere_star c re text : matchhere (c :: 42 :: re) text = matchstar c re text.
Proof. induction text as [|t text IH]; cbn in *; [done|]. by rewrite IH. Qed.

Lemma matchhere_char c re text : (forall r, re <> 42 :: r) ->
  matchhere (c :: re) text =
  if (c =? 36) && (length re =? 0)%nat then (length text =? 0)%nat
  else match text with
       | t :: text => if (c =? 46) || (c =? t) then matchhere re text else false
       | [] => false
       end.
Proof.
  intros Hr. destruct re as [|x re]; [done|]. cbn [matchhere]. destruct (Z.eq_dec x 42) as [->|Hx]; [by destruct (Hr re)|].
  destruct x as [|p|p]; try done. do 6 (destruct p as [p|p|]; try done).
Qed.

Lemma matchstar_spec c re text :
  matchstar c re text = true <-> exists a u, text = a ++ u /\ Forall (fits_char c) a /\ matchhere re u = true.
Proof.
  induction text as [|t text IH]; cbn [matchstar]; destruct (matchhere re _) eqn:E.
  - split; [|done]. intros _. by exists [], [].
  - split; [done|]. intros ([|] & [|] & [=] & _ & H). congruence.
  - split; [|done]. intros _. exists [], (t :: text). done.
  - assert ((t =? c) || (c =? 46) = true <-> fits_char c t) as Hf.
    { unfold fits_char. rewrite orb_true_iff, !Z.eqb_eq. split; intros [?|?]; auto. }
    destruct ((t =? c) || (c =? 46)).
    + rewrite IH. split.
      * intros (a & u & -> & Ha & Hu). exists (t :: a), u. split_and!; [done| |done]. constructor; [by apply Hf|done].
      * intros ([|x a] & u & Ea & Ha & Hu); [simpl in Ea; subst; congruence|].
        inversion Ea; subst. inversion Ha; subst. by exists a, u.
    + split; [done|]. intros ([|x a] & u & Ea & Ha & Hu); [simpl in Ea; subst; congruence|].
      inversion Ea; subst. inversion Ha as [|?? Hx _]; subst. apply Hf in Hx. done.
Qed.

Lemma star_dec (re : list Z) : {exists r, re = 42 :: r} + {forall r, re <> 42 :: r}.
Proof. destruct re as [|x re]; [by right|]. destruct (Z.eq_dec x 42) as [->|]; [left; eauto|right; congruence]. Qed.

Section Here.
Context (c : Z) (re : list Z) (IH : forall text, matchhere re text = true <-> here re text).

Lemma here_star text : matchstar c re text = true <-> here (c :: 42 :: re) text.
Proof.
  rewrite matchstar_spec. split.
  - intros (a & u & -> & Ha & (u1 & v & e & -> & Hd & He)%IH).
    exists (a ++ u1), v, e. split_and!; [by rewrite app_assoc|by constructor|done].
  - intros (u & v & e & -> & Hd & He). inversion Hd as [| |?? ??? ? Hno| ? ? a u1 ? Ha Hd']; subst; [by destruct (Hno re)|].
    exists a, (u1 ++ v). split_and!; [by rewrite app_assoc|done|]. apply IH. by exists u1, v, e.
Qed.

Context (Hno : forall r, re <> 42 :: r).

Lemma here_end text : c = 36 -> re = [] -> (length text =? 0)%nat = true <-> here (c :: re) text.
Proof.
  clear IH Hno. intros -> ->. split.
  - intros Ht%Nat.eqb_eq. destruct text; [|done]. exists [], [], true. split_and!; [done|constructor|done].
  - intros (u & v & e & -> & Hd & He). inversion Hd; subst; [by rewrite He|tauto].
Qed.

Lemma here_char t text : ~ (c = 36 /\ re = []) -> here (c :: re) (t :: text) <-> fits_char c t /\ here re text.
Proof.
  clear IH. intros Hend. split.
  - intros (u & v & e & Eu & Hd & He). inversion Hd as [| |? ? x u0 ? Hfit _ _ Hd'|? r]; subst; [tauto| |by destruct (Hno r)].
    inversion Eu; subst. split; [done|]. by exists u0, v, e.
  - intros [Hf (u & v & e & -> & Hd & He)]. exists (t :: u), v, e. split_and!; [done| |done]. by constructor.
Qed.

Lemma here_char_nil : ~ (c = 36 /\ re = []) -> ~ here (c :: re) [].
Proof.
  clear IH. intros Hend (u & v & e & Eu & Hd & He). symmetry in Eu. apply app_nil in Eu as [-> ->].
  inversion Hd as [| | |? r]; subst; [tauto|by destruct (Hno r)].
Qed.
End Here.

Lemma matchhere_spec re text : matchhere re text = true <-> here re text.
Proof.
  remember (length re) as n eqn:Hn. assert (length re <= n)%nat as Hl by lia. clear Hn. revert re text Hl.
  induction n as [|n IH]; intros [|c re] text Hl; simpl in Hl; try lia.
  1,2: split; [|done]; intros _; exists [], text, false; split_and!; [done|constructor|done].
  destruct (star_dec re) as [[r ->]|Hno].
  { rewrite matchhere_star. apply here_star. intros t. apply IH. simpl in Hl. lia. }
  rewrite matchhere_char by done. destruct ((c =? 36) && (length re =? 0)%nat) eqn:Ee.
  { apply andb_prop in Ee as [Hc%Z.eqb_eq Hre%Nat.eqb_eq]. destruct re; [|done]. by apply here_end. }
  assert (~ (c = 36 /\ re = [])) as Hend by (intros [-> ->]; done). destruct text as [|t text].
  { split; [done|]. by intros ?%here_char_nil. }
  rewrite here_char, <- IH by (done || lia).
  assert ((c =? 46) || (c =? t) = true <-> fits_char c t) as Hf by (unfold fits_char; by rewrite orb_true_iff, !Z.eqb_eq).
  destruct ((c =? 46) || (c =? t)); [tauto|]. split; [done|]. intros [?%Hf _]. done.
Qed.

Lemma match_from_spec re text : match_from re text = true <-> exists a b, text = a ++ b /\ here re b.
Proof.
  induction text as [|t text IH]; cbn [match_from]; destruct (matchhere re _) eqn:E.
  1,3: split; [|done]; intros _; eexists [], _; split; [done|]; by apply matchhere_spec.
  - split; [done|]. intros ([|] & [|] & [=] & H%matchhere_spec). congruence.
  - rewrite IH. split.
    + intros (a & b & -> & H). by exists (t :: a), b.
    + intros ([|x a] & b & Ea & H); [simpl in Ea; subst; apply matchhere_spec in H; congruence|]. inversion Ea; subst. by exists a, b.
Qed.

Lemma match_spec re text : match_ re text = true <-> selects re text.
Proof.
  destruct re as [|c re]; [apply match_from_spec|]. destruct (Z.eq_dec c 94) as [->|Hc]; [apply matchhere_spec|].
  assert (match_ (c :: re) text = match_from (c :: re) text /\ selects (c :: re) text = (exists a b, text = a ++ b /\ here (c :: re) b)) as [-> ->].
  { destruct c as [|p|p]; try done. do 7 (destruct p as [p|p|]; try done). }
  apply match_from_spec.
Qed.

(** ** The loop of grep over its buffer *)

Definition GBUF : nat := 1024.

(** [strchr] on a buffer without a terminator of its own. *)
Fixpoint strchr_in (l : list Z) (c : Z) (i : nat) : outcome (option nat) :=
  match l with
  | [] => Undef "read past the buffer"
  | x :: l => if x =? 0 then Ret None else if x =? c then Ret (Some i) else strchr_in l c (S i)
  end.

(** The inner loop: the buffer, the start of the first incomplete line and the
    output. *)
Fixpoint grep_lines (fuel : nat) (re buf : list Z) (p : nat) (out : list Z) : outcome (list Z * nat * list Z) :=
  match fuel with
  | O => Undef "loop bound"
  | S fuel =>
    o ← strchr_in (drop p buf) 10 p;
    match o with
    | None => Ret (buf, p, out)
    | Some q =>
      let buf := <[q := 0]> buf in
      if match_ re (cstring buf p) then
        let buf := <[q := 10]> buf in
        grep_lines fuel re buf (S q) (out ++ take (S q - p) (drop p buf))
      else grep_lines fuel re buf (S q) out
    end
  end.

(** One round of the outer loop, for a [read] that delivers [chunk]. *)
Definition grep_read (re chunk : list Z) (st : list Z * Z * list Z) : outcome (list Z * Z * list Z) :=
  let '(buf, m, out) := st in
  if decide (0 <= m /\ m + Z.of_nat (length chunk) <= Z.of_nat GBUF) then
    let i := Z.to_nat m in
    let buf := take i buf ++ chunk ++ drop (i + length chunk) buf in
    let m := m + Z.of_nat (length chunk) in
    '(buf, p, out) ← grep_lines (S GBUF) re buf 0 out;
    let m := if (p =? 0)%nat then 0 else m in
    if 0 <? m then
      let m := m - Z.of_nat p in
      let n := Z.to_nat m in
      Ret (take n (drop p buf) ++ drop n buf, m, out)
    else Ret (buf, m, out)
  else Undef "read outside the buffer".

Definition grep (re : list Z) (chunks : list (list Z)) : outcome (list Z) :=
  '(_, _, out) ← iterM (grep_read re) chunks (replicate GBUF 0, 0, []);
  Ret out.

(** The complete lines of a text, and what is left. *)
Fixpoint full_lines (s : list Z) : list (list Z) * list Z :=
  match s with
  | [] => ([], [])
  | c :: s =>
    let '(ls, rest) := full_lines s in
    if c =? 10 then ([] :: ls, rest)
    else match ls with
         | [] => ([], c :: rest)
         | l :: ls => ((c :: l) :: ls, rest)
         end
  end.

Lemma full_lines_spec s : let '(ls, rest) := full_lines s in
  s = concat (map (fun l => l ++ [10]) ls) ++ rest /\ Forall (fun l => Forall (fun c => c <> 10) l) ls /\ Forall (fun c => c <> 10) rest.
Proof.
  induction s as [|c s IH]; cbn [full_lines]; [done|]. destruct (full_lines s) as [ls rest]. destruct IH as (-> & Hl & Hr).
  destruct (Z.eqb_spec c 10) as [->|Hc]; [split_and!; [done|by constructor|done]|].
  destruct ls as [|l ls]; [split_and!; [done|done|by constructor]|].
  inversion Hl; subst. split_and!; [done| |done]. constructor; [by constructor|done].
Qed.

Lemma strchr_in_found l rest i :
  Forall (fun c => c <> 10 /\ c <> 0) l -> strchr_in (l ++ 10 :: rest) 10 i = Ret (Some (i + length l)%nat).
Proof.
  intros Hl. revert i. induction Hl as [|c l [H1 H2] Hl IH]; intros i; simpl; [by rewrite Nat.add_0_r|].
  destruct (Z.eqb_spec c 0); [done|]. destruct (Z.eqb_spec c 10); [done|]. rewrite IH. do 2 f_equal. lia.
Qed.
Lemma strchr_in_none l rest i :
  Forall (fun c => c <> 10 /\ c <> 0) l -> strchr_in (l ++ 0 :: rest) 10 i = Ret None.
Proof.
  intros Hl. revert i. induction Hl as [|c l [H1 H2] Hl IH]; intros i; simpl; [done|].
  destruct (Z.eqb_spec c 0); [done|]. destruct (Z.eqb_spec c 10); [done|]. apply IH.
Qed.

Definition chosen (re : list Z) (ls : list (list Z)) : list Z :=
  concat (map (fun l => if match_ re l then l ++ [10] else []) ls).

Lemma put_middle (a b c : list Z) x y : <[(length a + length b)%nat := x]> (a ++ b ++ y :: c) = a ++ b ++ x :: c.
Proof. rewrite insert_app_r. f_equal. rewrite <- (Nat.add_0_r (length b)) at 1. by rewrite insert_app_r. Qed.

Lemma cstring_prefix a l c : Forall (fun c => c <> 10 /\ c <> 0) l -> cstring (a ++ l ++ 0 :: c) (length a) = l.
Proof.
  intros Hl. unfold cstring. rewrite drop_app_length.
  assert (span (fun c => negb (c =? 0)) (l ++ 0 :: c) = length l) as ->; [|apply take_app_length].
  induction Hl as [|x l [_ Hx] Hl IH]; simpl; [done|]. destruct (Z.eqb_spec x 0); [done|]. simpl. by rewrite IH.
Qed.

Lemma grep_lines_spec re ls : forall fuel pre rest zs out,
  Forall (fun l => Forall (fun c => c <> 10 /\ c <> 0) l) ls -> Forall (fun c => c <> 10 /\ c <> 0) rest -> (length ls < fuel)%nat ->
  exists pre', length pre' = (length pre + length (concat (map (fun l => l ++ [10%Z]) ls)))%nat /\
  grep_lines fuel re (pre ++ concat (map (fun l => l ++ [10]) ls) ++ rest ++ 0 :: zs) (length pre) out
  = Ret (pre' ++ rest ++ 0 :: zs, length pre', out ++ chosen re ls).
Proof.
  induction ls as [|l ls IH]; intros fuel pre rest zs out Hl Hr Hf; (destruct fuel as [|fuel]; [lia|]); cbn [grep_lines].
  - exists pre. simpl. split; [lia|]. rewrite drop_app_length, strchr_in_none by done. cbn [mbind outcome_bind]. unfold chosen. simpl. by rewrite app_nil_r.
  - inversion Hl as [|?? Hl1 Hl2]; subst. cbn [map concat]. set (body := concat (map (fun l => l ++ [10]) ls) ++ rest ++ 0 :: zs).
    assert (pre ++ ((l ++ [10]) ++ concat (map (fun l => l ++ [10]) ls)) ++ rest ++ 0 :: zs = pre ++ l ++ 10 :: body) as ->
      by (unfold body; by rewrite <- !app_assoc).
    rewrite drop_app_length, strchr_in_found by done. cbn [mbind outcome_bind].
    rewrite put_middle, cstring_prefix by done. destruct (match_ re l) eqn:E.
    + rewrite put_middle. replace (S (length pre + length l)) with (length (pre ++ l ++ [10])) by (rewrite !length_app; simpl; lia).
      replace (pre ++ l ++ 10 :: body) with ((pre ++ l ++ [10]) ++ body) by (by rewrite <- !app_assoc).
      destruct (IH fuel (pre ++ l ++ [10]) rest zs (out ++ l ++ [10]) Hl2 Hr) as (pre' & Hp & Hi); [simpl in Hf; lia|].
      exists pre'. split; [rewrite Hp, !length_app; simpl; lia|].
      replace (take _ (drop (length pre) _)) with (l ++ [10]).
      2:{ rewrite <- app_assoc, drop_app_length, !length_app. replace (_ - length pre)%nat with (length (l ++ [10])) by (rewrite length_app; lia).
          by rewrite take_app_length. }
      unfold body. rewrite Hi. unfold chosen. cbn [map concat]. rewrite E, <- !app_assoc. done.
    + replace (S (length pre + length l)) with (length (pre ++ l ++ [0])) by (rewrite !length_app; simpl; lia).
      replace (pre ++ l ++ 0 :: body) with ((pre ++ l ++ [0]) ++ body) by (by rewrite <- !app_assoc).
      destruct (IH fuel (pre ++ l ++ [0]) rest zs out Hl2 Hr) as (pre' & Hp & Hi); [simpl in Hf; lia|].
      exists pre'. split; [rewrite Hp, !length_app; simpl; lia|]. unfold body. rewrite Hi. unfold chosen. cbn [map concat]. by rewrite E.
Qed.

Lemma concat_lines_length (ls : list (list Z)) : (length ls <= length (concat (map (fun l => l ++ [10%Z]) ls)))%nat.
Proof. induction ls as [|l ls IH]; simpl; [lia|]. rewrite !length_app. simpl. lia. Qed.

Lemma grep_once re chunk : Forall (fun c => c <> 0) chunk -> (length chunk < GBUF)%nat ->
  grep re [chunk] = Ret (chosen re (full_lines chunk).1).
Proof.
  intros Hz Hl. pose proof (full_lines_spec chunk) as HF. destruct (full_lines chunk) as [ls rest] eqn:EF. destruct HF as (E & Hls & Hr).
  assert (Forall (fun c => c <> 0) (concat (map (fun l => l ++ [10]) ls)) /\ Forall (fun c => c <> 0) rest) as [Z1 Z2] by (apply Forall_app; by rewrite <- E).
  unfold grep. cbn [iterM grep_read]. rewrite decide_True by lia. change (Z.to_nat 0) with 0%nat. rewrite Nat.add_0_l, take_0.
  assert (drop (length chunk) (replicate GBUF 0) = 0 :: replicate (GBUF - length chunk - 1) 0) as ->.
  { rewrite drop_replicate. destruct (GBUF - length chunk)%nat as [|k] eqn:Ek; [lia|]. simpl. by rewrite Nat.sub_0_r. }
  destruct (grep_lines_spec re ls (S GBUF) [] rest (replicate (GBUF - length chunk - 1) 0) []) as (pre' & Hp & Hg).
  - clear -Z1 Hls. induction Hls as [|l ls Hl _ IH]; [done|]. cbn [map concat] in Z1. apply Forall_app in Z1 as [Z1 Z2].
    apply Forall_app in Z1 as [Z1 _]. constructor; [by apply Forall_and|auto].
  - by apply Forall_and.
  - apply (f_equal length) in E. rewrite length_app in E. pose proof (concat_lines_length ls). lia.
  - rewrite E at 1. rewrite <- app_assoc. cbn [app length] in Hg |- *. rewrite Hg. cbn [mbind outcome_bind].
    by destruct (0 <? _).
Qed.



(** Bytes of an earlier [read] that are left in the buffer are taken for
    input: the lines are a, b, cd, and grep writes an empty line as well. *)
Lemma grep_stale : ends_in (grep [] [[97; 10; 98; 10; 99]; [100; 10]]) (fun out => bool_decide (out = [97; 10; 98; 10; 99; 100; 10; 10])) = true.
Proof. vm_compute. reflexivity. Qed.

(** ** wc, cat and echo *)

Record counts := Counts { wl : Z; ww : Z; wc_ : Z; inword : bool }.
Definition wc_byte (s : counts) (b : Z) : counts :=
  let l := if b =? 10 then i32 (wl s + 1) else wl s in
  let c := i32 (wc_ s + 1) in
  if occurs b [32; 13; 9; 10; 11] then Counts l (ww s) c false
  else if inword s then Counts l (ww s) c true
  else Counts l (i32 (ww s + 1)) c true.
Definition wc (chunks : list (list Z)) : Z * Z * Z :=
  let s := foldl (fun s chunk => foldl wc_byte s chunk) (Counts 0 0 0 false) chunks in (wl s, ww s, wc_ s).

Definition cat (chunks : list (list Z)) : list Z := foldl (fun out chunk => out ++ chunk) [] chunks.

Fixpoint echo (args : list (list Z)) : list Z :=
  match args with
  | [] => []
  | [a] => a ++ [10]
  | a :: args => a ++ 32 :: echo args
  end.

(** The counts do not depend on how the input is cut into reads. *)
Lemma wc_chunks chunks : wc chunks = wc [concat chunks].
Proof.
  unfold wc. simpl. assert (forall s, foldl (fun s chunk => foldl wc_byte s chunk) s chunks = foldl wc_byte s (concat chunks)) as E; [|by rewrite E].
  induction chunks as [|c chunks IH]; intros s; simpl; [done|]. by rewrite foldl_app, IH.
Qed.

Lemma cat_copies chunks : cat chunks = concat chunks.
Proof.
  unfold cat. assert (forall out, foldl (fun out chunk => out ++ chunk) out chunks = out ++ concat chunks) as E; [|by rewrite E].
  induction chunks as [|c chunks IH]; intros out; simpl; [by rewrite app_nil_r|]. by rewrite IH, app_assoc.
Qed.

(** Lines, words and bytes of a text. *)
Definition is_space (b : Z) : bool := occurs b [32; 13; 9; 10; 11].
Fixpoint word_starts (before : bool) (s : list Z) : Z :=
  match s with
  | [] => 0
  | b :: s => (if before && negb (is_space b) then 1 else 0) + word_starts (is_space b) s
  end.

Lemma wc_counts chunks : Z.of_nat (length (concat chunks)) < 2 ^ 31 ->
  wc chunks = (Z.of_nat (length (filter (fun b => b = 10) (concat chunks))), word_starts true (concat chunks), Z.of_nat (length (concat chunks))).
Proof.
  intros Hl. rewrite wc_chunks. unfold wc. simpl.
  assert (forall s l w c i, 0 <= l <= c -> 0 <= w <= c -> 0 <= c -> c + Z.of_nat (length s) < 2 ^ 31 ->
    exists j, foldl wc_byte (Counts l w c i) s = Counts (l + Z.of_nat (length (filter (fun b => b = 10) s))) (w + word_starts (negb i) s) (c + Z.of_nat (length s)) j) as E.
  { induction s as [|b s IH]; intros l w c i H1 H2 H3 H4; [exists i; simpl; f_equal; lia|]. cbn [foldl word_starts length] in *.
    rewrite filter_cons. unfold wc_byte at 2. cbn [wl ww wc_ inword]. rewrite !i32_small by (unfold is_i32; lia). fold (is_space b).
    destruct (Z.eqb_spec b 10) as [->|Hb]; [rewrite decide_True by done|rewrite decide_False by done].
    - replace (is_space 10) with true by done. rewrite andb_false_r. destruct (IH (l + 1) w (c + 1) false) as [j ->]; [lia..|].
      exists j. f_equal; simpl; lia.
    - destruct (is_space b) eqn:Es; [|destruct i].
      + destruct (IH l w (c + 1) false) as [j ->]; [lia..|]. exists j. rewrite andb_false_r. f_equal; simpl; lia.
      + destruct (IH l w (c + 1) true) as [j ->]; [lia..|]. exists j. f_equal; simpl; lia.
      + destruct (IH l (w + 1) (c + 1) true) as [j ->]; [lia..|]. exists j. f_equal; simpl; lia. }
  destruct (E (concat chunks) 0 0 0 false) as [j ->]; [lia..|]. done.
Qed.

(** ** The name that ls prints *)

(** The part of a path after the last slash. *)
Fixpoint after_slash (p best : list Z) : list Z :=
  match p with
  | [] => best
  | c :: p => if c =? 47 then after_slash p p else after_slash p best
  end.
Definition fmtname (path : list Z) : list Z :=
  let p := after_slash path path in
  if (DIRSIZ <=? length p)%nat then p else p ++ replicate (DIRSIZ - length p) 32.
