(* ===== verification/Trap.v ===== *)
(** * Traps (kernel/trap.c)

    [trap] decides what happens on an interrupt, an exception or a system
    call.  The interrupt handlers of the devices are an interface, the class
    [Devices]; the keyboard, the serial port and the disk of the other files
    are an instance of it.  A trap ends with the interrupted code running
    again, with the process asleep inside its system call, with the process
    giving up the processor, or with the end of the process. *)

From S2P Require Import Prelude Memory Kalloc Vm VmMap Proc Mlfq Sem Pipe Fs File Syscall ProcOps SysFile Exec Sysproc Console Kbd Ide.

Definition T_SYSCALL : Z := 64.
Definition T_IRQ0 : Z := 32.
Definition IRQ_TIMER : Z := 0.
Definition IRQ_KBD : Z := 1.
Definition IRQ_COM1 : Z := 4.
Definition IRQ_IDE : Z := 14.
Definition IRQ_SPURIOUS : Z := 31.

(** ** Interrupt handlers of devices

    A handler changes the state of its device and wakes the processes that
    sleep on the channels it returns. *)
Class Devices (D : Type) := {
  ide_irq : D -> outcome (list Z * D);
  kbd_irq : D -> outcome (list Z * D);
  uart_irq : D -> outcome (list Z * D)
}.

Inductive trapres := Resume | Asleep | Yields | Gone.

Section Trap.
Context {D : Type} {DV : Devices D} (nsect kend data : Z).
Context (trapret forkret : Z) (proc_addr : nat -> Z) (ticks_addr : Z) (sem_addr : Z -> Z) (local : nat -> Z).
Context (dev_read : Z -> option (Z -> D -> outcome (Z * list Z * D))).
Context (dev_write : Z -> option (list Z -> Z -> D -> outcome (Z * D))).

Abbreviation machine := (machine D).
Abbreviation do_syscall := (syscall nsect kend data trapret forkret proc_addr ticks_addr sem_addr local dev_read dev_write).

Definition set_table (t : ptable) (m : machine) : machine := set_kern (upd_pt (fun _ => t) (kern m)) m.
Definition wake (c : Z) (m : machine) : machine := set_table (wakeup c (pt (kern m))) m.

(** The handler of a device. *)
Definition device (f : D -> outcome (list Z * D)) (m : machine) : outcome machine :=
  let s := fsys (kern m) in
  '(cs, d) ← f (devs s);
  let m := set_kern (set_fsys (FS (dsk s) (icache s) d) (kern m)) m in
  Ret (foldl (fun m c => wake c m) m cs).

Definition die (m : machine) : outcome (trapres * machine) :=
  k ← ProcOps.exit nsect kend proc_addr (kern m);
  Ret (Gone, set_kern k m).

(** [proc && proc->killed] *)
Definition cur_killed (m : machine) : outcome bool :=
  match cur (pt (kern m)) with
  | None => Ret false
  | Some i => p ← getp (pt (kern m)) i; Ret (negb (killed p =? 0))
  end.

(** The end of a trap: [if(proc && proc->killed && (tf->cs&3) == DPL_USER) exit()]. *)
Definition trap_end (cs : Z) (m : machine) : outcome (trapres * machine) :=
  b ← cur_killed m;
  if b && (Z.land cs 3 =? DPL_USER) then die m else Ret (Resume, m).

(** The part of [trap] after the switch, up to [yield]. *)
Definition trap_tail (trapno cs : Z) (m : machine) : outcome (trapres * machine) :=
  b ← cur_killed m;
  if b && (Z.land cs 3 =? DPL_USER) then die m
  else
    match cur (pt (kern m)) with
    | Some i =>
      p ← getp (pt (kern m)) i;
      if bool_decide (state p = RUNNING) && (trapno =? T_IRQ0 + IRQ_TIMER)
      then t ← yield (pt (kern m)); Ret (Yields, set_table t m)
      else trap_end cs m
    | None => trap_end cs m
    end.

Definition trap_irq (cpuid trapno cs : Z) (m : machine) : outcome machine :=
  if trapno =? T_IRQ0 + IRQ_TIMER then
    if cpuid =? 0 then Ret (wake ticks_addr (set_ticks (u32 (ticks m + 1)) m)) else Ret m
  else if trapno =? T_IRQ0 + IRQ_IDE then device ide_irq m
  else if trapno =? T_IRQ0 + IRQ_IDE + 1 then Ret m
  else if trapno =? T_IRQ0 + IRQ_KBD then device kbd_irq m
  else if trapno =? T_IRQ0 + IRQ_COM1 then device uart_irq m
  else if (trapno =? T_IRQ0 + 7) || (trapno =? T_IRQ0 + IRQ_SPURIOUS) then Ret m
  else
    match cur (pt (kern m)) with
    | None => Panic "trap"
    | Some i =>
      if Z.land cs 3 =? 0 then Panic "trap"
      else p ← getp (pt (kern m)) i; Ret (set_table (updp i (p_killed 1) (pt (kern m))) m)
    end.

(** [trap(tf)] on processor [cpuid]; the frame gives the trap number and [cs]. *)
Definition trap (cpuid : Z) (frame : trapframe) (m : machine) : outcome (trapres * machine) :=
  if tf_trapno frame =? T_SYSCALL then
    '(i, p) ← curp (pt (kern m));
    if negb (killed p =? 0) then die m
    else
      let m := set_table (updp i (p_tf frame) (pt (kern m))) m in
      '(r, m) ← do_syscall m;
      match r with
      | Exited => Ret (Gone, m)
      | Blocked => Ret (Asleep, m)
      | Value _ =>
        '(_, p) ← curp (pt (kern m));
        if negb (killed p =? 0) then die m else Ret (Resume, m)
      end
  else
    m ← trap_irq cpuid (tf_trapno frame) (tf_cs frame) m;
    trap_tail (tf_trapno frame) (tf_cs frame) m.

(** ** Killed processes and faults *)

Lemma cur_killed_false m b : cur_killed m = Ret b -> b = false ->
  forall i p, curp (pt (kern m)) = Ret (i, p) -> killed p = 0.
Proof.
  unfold cur_killed, curp. intros E -> i p. destruct (cur (pt (kern m))) as [j|]; [|done].
  destruct (getp (pt (kern m)) j) as [q| |]; [|done..]. cbn [mbind outcome_bind] in *. intros [= <- <-].
  inversion E as [E']. apply negb_false_iff, Z.eqb_eq in E'. done.
Qed.

Lemma trap_end_safe cs m m' : trap_end cs m = Ret (Resume, m') -> Z.land cs 3 = DPL_USER ->
  forall i p, curp (pt (kern m')) = Ret (i, p) -> killed p = 0.
Proof.
  unfold trap_end. intros E Hcs. apply bind_Ret_inv in E as (b & Eb & E). rewrite Hcs, Z.eqb_refl, andb_true_r in E.
  destruct b; [unfold die in E; apply bind_Ret_inv in E as (k & _ & [=])|]. inversion E; subst. by eapply cur_killed_false.
Qed.

Lemma trap_resume_safe cpuid frame m m' : trap cpuid frame m = Ret (Resume, m') ->
  tf_trapno frame = T_SYSCALL \/ Z.land (tf_cs frame) 3 = DPL_USER ->
  forall i p, curp (pt (kern m')) = Ret (i, p) -> killed p = 0.
Proof.
  unfold trap. intros E Hu. destruct (Z.eqb_spec (tf_trapno frame) T_SYSCALL) as [Et|Ht].
  - apply bind_Ret_inv in E as ([i p] & Ec & E). destruct (negb (killed p =? 0)).
    { unfold die in E. apply bind_Ret_inv in E as (k & _ & [=]). }
    apply bind_Ret_inv in E as ([r m1] & Es & E). destruct r; [|done|done].
    apply bind_Ret_inv in E as ([j q] & Eq & E). destruct (negb (killed q =? 0)) eqn:Ek.
    { unfold die in E. apply bind_Ret_inv in E as (k & _ & [=]). }
    inversion E; subst. intros i' p' E'. rewrite Eq in E'. inversion E'; subst. by apply negb_false_iff, Z.eqb_eq in Ek.
  - destruct Hu as [?|Hcs]; [done|]. apply bind_Ret_inv in E as (m1 & _ & E). unfold trap_tail in E.
    apply bind_Ret_inv in E as (b & _ & E). destruct (b && _); [unfold die in E; apply bind_Ret_inv in E as (k & _ & [=])|].
    destruct (cur (pt (kern m1))) as [i|]; [|by eapply trap_end_safe].
    apply bind_Ret_inv in E as (p & _ & E). destruct (bool_decide _ && _); [|by eapply trap_end_safe].
    apply bind_Ret_inv in E as (t & _ & [=]).
Qed.

(** Numbers that [trap] treats as exceptions. *)
Definition is_fault (n : Z) : bool :=
  negb ((n =? T_SYSCALL) || (n =? T_IRQ0 + IRQ_TIMER) || (n =? T_IRQ0 + IRQ_IDE) || (n =? T_IRQ0 + IRQ_IDE + 1)
    || (n =? T_IRQ0 + IRQ_KBD) || (n =? T_IRQ0 + IRQ_COM1) || (n =? T_IRQ0 + 7) || (n =? T_IRQ0 + IRQ_SPURIOUS)).

Lemma fault_irq cpuid n cs m : is_fault n = true ->
  trap_irq cpuid n cs m =
    match cur (pt (kern m)) with
    | None => Panic "trap"
    | Some i =>
      if Z.land cs 3 =? 0 then Panic "trap"
      else p ← getp (pt (kern m)) i; Ret (set_table (updp i (p_killed 1) (pt (kern m))) m)
    end.
Proof.
  unfold is_fault. rewrite negb_true_iff, !orb_false_iff. intros [[[[[[[_ H1] H2] H3] H4] H5] H6] H7].
  unfold trap_irq. rewrite H1, H2, H3, H4, H5, H6, H7. done.
Qed.

Lemma fault_no_syscall n : is_fault n = true -> (n =? T_SYSCALL) = false.
Proof. unfold is_fault. rewrite negb_true_iff, !orb_false_iff. tauto. Qed.

Lemma fault_user cpuid frame m i p :
  is_fault (tf_trapno frame) = true -> Z.land (tf_cs frame) 3 = DPL_USER -> curp (pt (kern m)) = Ret (i, p) ->
  trap cpuid frame m = die (set_table (updp i (p_killed 1) (pt (kern m))) m).
Proof.
  intros Hf Hcs Hc. unfold trap. rewrite (fault_no_syscall _ Hf), (fault_irq _ _ _ _ Hf), Hcs.
  unfold curp in Hc. destruct (cur (pt (kern m))) as [j|] eqn:Ec; [|done]. unfold getp in *.
  destruct (procs (pt (kern m)) !! j) as [q|] eqn:Ej; [|done]. inversion Hc; subst. cbn [mbind outcome_bind Z.eqb DPL_USER].
  unfold trap_tail, cur_killed. cbn [set_table set_kern kern upd_pt set_pt pt]. cbn [cur updp set_procs]. rewrite Ec.
  unfold getp. rewrite lookup_updp, decide_True, Ej by done. cbn [fmap option_fmap option_map mbind outcome_bind].
  replace (killed (p_killed 1 p)) with 1 by (by destruct p). by rewrite Hcs, Z.eqb_refl.
Qed.

Lemma fault_kernel cpuid frame m :
  is_fault (tf_trapno frame) = true -> Z.land (tf_cs frame) 3 = 0 \/ cur (pt (kern m)) = None -> trap cpuid frame m = Panic "trap".
Proof.
  intros Hf Hk. unfold trap. rewrite (fault_no_syscall _ Hf), (fault_irq _ _ _ _ Hf).
  destruct (cur (pt (kern m))); [|done]. destruct Hk as [->|?]; done.
Qed.

(** The clock interrupt of processor 0. *)
Lemma timer_trap frame m i p :
  tf_trapno frame = T_IRQ0 + IRQ_TIMER -> curp (pt (kern m)) = Ret (i, p) -> state p = RUNNING -> killed p = 0 ->
  exists m', trap 0 frame m = Ret (Yields, m') /\ ticks m' = u32 (ticks m + 1) /\
    forall j q, procs (pt (kern m)) !! j = Some q ->
      procs (pt (kern m')) !! j = Some (if decide (i = j) then p_state RUNNABLE q else wakeup1_one ticks_addr q).
Proof.
  intros Ht Hc Hs Hk. unfold curp in Hc. destruct (cur (pt (kern m))) as [j|] eqn:Ec; [|done]. unfold getp in Hc.
  destruct (procs (pt (kern m)) !! j) as [q|] eqn:Ej; [|done]. inversion Hc; subst.
  unfold trap. rewrite Ht. cbn [Z.eqb Pos.eqb]. unfold trap_irq. rewrite Z.eqb_refl. cbn [mbind outcome_bind Z.eqb].
  change (T_IRQ0 + IRQ_TIMER =? T_SYSCALL) with false. cbn [mbind outcome_bind].
  assert (wakeup1_one ticks_addr p = p) as Hw by (unfold wakeup1_one; rewrite bool_decide_eq_false_2 by congruence; done).
  set (m1 := wake ticks_addr (set_ticks (u32 (ticks m + 1)) m)).
  assert (cur (pt (kern m1)) = Some i) as Ec1 by done.
  assert (forall j, procs (pt (kern m1)) !! j = wakeup1_one ticks_addr <$> procs (pt (kern m)) !! j) as Hp by (intros; apply list_lookup_fmap).
  unfold trap_tail, cur_killed, yield, curp. rewrite Ec1. unfold getp. rewrite Hp, Ej. cbn [fmap option_fmap option_map mbind outcome_bind].
  rewrite Hw, Hk, Hs. cbn [Z.eqb negb andb]. rewrite bool_decide_eq_true_2 by done. rewrite Z.eqb_refl. cbn [andb mbind outcome_bind].
  eexists. split; [done|]. split; [done|]. intros j' q Hq. cbn [set_table set_kern kern upd_pt set_pt pt]. rewrite lookup_updp, Hp, Hq.
  case_decide as Hd; [|done]. subst j'. rewrite Ej in Hq. inversion Hq; subst. cbn. by rewrite Hw.
Qed.

End Trap.

(** ** The devices of the machine

    What the keyboard and the serial port deliver until they are empty, the
    console, and the disk with its queue of buffers. *)
Record devices (H : Type) := Devs {
  kports : list (Z * Z); kshift : Z; uart_on : bool; uports : list (Z * Z);
  cin : input; cout : display; disk : ide H }.
Arguments Devs {H}. Arguments kports {H}. Arguments kshift {H}. Arguments uart_on {H}. Arguments uports {H}.
Arguments cin {H}. Arguments cout {H}. Arguments disk {H}.

(** Addresses of [input.r] and of the buffers are the channels. *)
Definition machine_devices {H} `{!Drive H} (polls : nat) (input_r : Z) (buf_addr : nat -> Z) : Devices (devices H) := {|
  ide_irq d :=
    s ← ideintr polls (disk d);
    Ret (match idequeue (disk d) with Some b => [buf_addr b] | None => [] end,
         Devs (kports d) (kshift d) (uart_on d) (uports d) (cin d) (cout d) s);
  kbd_irq d :=
    '(w, sh, i, o) ← kbdintr (kports d) (kshift d) (cin d) (cout d);
    Ret (if w : bool then [input_r] else [], Devs [] sh (uart_on d) (uports d) i o (disk d));
  uart_irq d :=
    '(w, i, o) ← uartintr (uart_on d) (uports d) (cin d) (cout d);
    Ret (if w : bool then [input_r] else [], Devs (kports d) (kshift d) (uart_on d) [] i o (disk d)) |}.

Definition demo_devices : devices ata := Devs [] 0 true [] input_init demo_display demo0.
Definition demo_table : ptable :=
  Ptable [Proc 4096 demo_dir 0 RUNNING 1 None tf_zero 0 0 (replicate NOFILE None) (Some 0%nat) (replicate 16 0) 0 mq_zero;
          Proc 4096 demo_dir 0 SLEEPING 2 (Some 0%nat) tf_zero 77 0 (replicate NOFILE None) (Some 0%nat) (replicate 16 0) 0 mq_zero]
    3 (Some 0%nat) [] [] (Some 0%nat).
Definition demo_machine : Sysproc.machine (devices ata) :=
  Machine (Kernel demo_table demo_vm (FS ∅ [] demo_devices) [] ∅) 41 semst_boot ∅.
Definition demo_frame : trapframe := Trapframe 0 0 0 0 0 0 0 0 0 0 0 0 32 0 0 0x23 0 0 0.

