(* ===== verification/Entry.v ===== *)
(** * Segments, gates and the way into the kernel

    kernel/mmu.h ([SEG], [SEG16], [SETGATE]), [seginit] and [switchuvm] of
    kernel/vm.c, [tvinit] of kernel/trap.c, the stubs that kernel/vectors.pl
    writes, and [alltraps] and [trapret] of kernel/trapasm.S.

    Descriptors are the 64-bit words that the bit fields of the C structures
    make up; the processor is modelled by what its manual says it does with
    them: which gates a program may use, which stack it switches to, what it
    pushes, and what [iret] pops.  The frame that hardware and assembly build
    together is read back as the [struct trapframe] of Proc.v, the argument of
    [trap].

    The theorems: descriptors decode to what was put in; from user mode the
    only gate a program can use is the system call gate; every trap from user
    mode arrives on the kernel stack of the process, with its frame where
    [allocproc] said it is, holding the registers of the program; and
    returning through it restores them. *)

From S2P Require Import Prelude Memory Fs FsData Proc ProcOps Trap.

(** ** Bit fields *)

(** Fields of the given widths, the first in the lowest bits. *)
Fixpoint pack (l : list (Z * Z)) : Z :=
  match l with
  | [] => 0
  | (w, v) :: l => v mod 2 ^ w + 2 ^ w * pack l
  end.

(** [w] bits of [x] from bit [k] on. *)
Definition bits (k w x : Z) : Z := (x / 2 ^ k) mod 2 ^ w.

Definition SEG_KCODE : Z := 1.
Definition SEG_KDATA : Z := 2.
Definition SEG_KCPU : Z := 3.
Definition SEG_TSS : Z := 6.
Definition NSEGS : Z := 7.
Definition STA_X : Z := 8.
Definition STA_W : Z := 2.
Definition STA_R : Z := 2.
Definition STS_T32A : Z := 9.
Definition STS_IG32 : Z := 14.
Definition STS_TG32 : Z := 15.

Record segdesc := Segdesc {
  lim_15_0 : Z; base_15_0 : Z; base_23_16 : Z; sd_type : Z; sd_s : Z; sd_dpl : Z; sd_p : Z;
  lim_19_16 : Z; avl : Z; rsv1 : Z; db : Z; sd_g : Z; base_31_24 : Z
}.

(** The layout of [struct segdesc]. *)
Definition segdesc_word (d : segdesc) : Z :=
  pack [(16, lim_15_0 d); (16, base_15_0 d); (8, base_23_16 d); (4, sd_type d); (1, sd_s d); (2, sd_dpl d); (1, sd_p d);
        (4, lim_19_16 d); (1, avl d); (1, rsv1 d); (1, db d); (1, sd_g d); (8, base_31_24 d)].

Definition SEG (type base lim dpl : Z) : segdesc :=
  Segdesc (Z.land (Z.shiftr lim 12) 0xffff) (Z.land base 0xffff) (Z.land (Z.shiftr base 16) 0xff) type 1 dpl 1
    (Z.shiftr lim 28) 0 0 1 1 (Z.shiftr base 24).

Definition SEG16 (type base lim dpl : Z) : segdesc :=
  Segdesc (Z.land lim 0xffff) (Z.land base 0xffff) (Z.land (Z.shiftr base 16) 0xff) type 1 dpl 1
    (Z.shiftr lim 16) 0 0 1 0 (Z.shiftr base 24).

Definition set_s (v : Z) (d : segdesc) : segdesc :=
  Segdesc (lim_15_0 d) (base_15_0 d) (base_23_16 d) (sd_type d) v (sd_dpl d) (sd_p d)
    (lim_19_16 d) (avl d) (rsv1 d) (db d) (sd_g d) (base_31_24 d).

(** [struct gatedesc] *)
Definition gatedesc (off_15_0 cs args rsv type s dpl p off_31_16 : Z) : Z :=
  pack [(16, off_15_0); (16, cs); (5, args); (3, rsv); (4, type); (1, s); (2, dpl); (1, p); (16, off_31_16)].

Definition SETGATE (istrap : bool) (sel off d : Z) : Z :=
  gatedesc (Z.land off 0xffff) sel 0 0 (if istrap then STS_TG32 else STS_IG32) 0 d 1 (Z.shiftr off 16).

(** ** What the processor takes from a descriptor *)

Definition hw_base (w : Z) : Z := bits 16 16 w + 2 ^ 16 * bits 32 8 w + 2 ^ 24 * bits 56 8 w.
Definition hw_limit (w : Z) : Z :=
  let l := bits 0 16 w + 2 ^ 16 * bits 48 4 w in if bits 55 1 w =? 1 then l * 4096 + 4095 else l.
Definition hw_type (w : Z) : Z := bits 40 4 w.
Definition hw_s (w : Z) : Z := bits 44 1 w.
Definition hw_dpl (w : Z) : Z := bits 45 2 w.
Definition hw_p (w : Z) : Z := bits 47 1 w.
Definition hw_sel (w : Z) : Z := bits 16 16 w.
Definition hw_off (w : Z) : Z := bits 0 16 w + 2 ^ 16 * bits 48 16 w.

(** A code segment: an application segment with the executable bit. *)
Definition is_code (w : Z) : bool := (hw_p w =? 1) && (hw_s w =? 1) && Z.testbit (hw_type w) 3.

(** ** The tables *)

(** The tables of a processor, its task register and page directory register. *)
Record cpu := Cpu { gdt : list segdesc; idt : list Z; tr : Z; cr3 : Z }.

(** The descriptor that a selector names. *)
Definition desc (c : cpu) (sel : Z) : Z :=
  match gdt c !! Z.to_nat (Z.shiftr sel 3) with Some d => segdesc_word d | None => 0 end.

(** [seginit], up to the cpu-local variables; [cpu_addr] is [&c->cpu]. *)
Definition seginit (cpu_addr : Z) (c : cpu) : cpu :=
  let l := gdt c in
  let l := <[Z.to_nat SEG_KCODE := SEG (Z.lor STA_X STA_R) 0 0xffffffff 0]> l in
  let l := <[Z.to_nat SEG_KDATA := SEG STA_W 0 0xffffffff 0]> l in
  let l := <[Z.to_nat SEG_UCODE := SEG (Z.lor STA_X STA_R) 0 0xffffffff DPL_USER]> l in
  let l := <[Z.to_nat SEG_UDATA := SEG STA_W 0 0xffffffff DPL_USER]> l in
  let l := <[Z.to_nat SEG_KCPU := SEG STA_W cpu_addr 8 0]> l in
  Cpu l (idt c) (tr c) (cr3 c).

(** [tvinit]; [vectors] are the addresses of the stubs. *)
Definition tvinit (vectors : Z -> Z) (c : cpu) : cpu :=
  let l := foldl (fun l i => <[Z.to_nat i := SETGATE false (Z.shiftl SEG_KCODE 3) (vectors i) 0]> l) (idt c) (seqZ 0 256) in
  let l := <[Z.to_nat T_SYSCALL := SETGATE true (Z.shiftl SEG_KCODE 3) (vectors T_SYSCALL) DPL_USER]> l in
  Cpu (gdt c) l (tr c) (cr3 c).

(** [struct taskstate]: its fields and their sizes.  The fields are aligned
    as they come. *)
Definition taskstate : list (string * Z) :=
  [("link", 4); ("esp0", 4); ("ss0", 2); ("padding1", 2); ("esp1", 4); ("ss1", 2); ("padding2", 2); ("esp2", 4);
   ("ss2", 2); ("padding3", 2); ("cr3", 4); ("eip", 4); ("eflags", 4); ("eax", 4); ("ecx", 4); ("edx", 4); ("ebx", 4);
   ("esp", 4); ("ebp", 4); ("esi", 4); ("edi", 4); ("es", 2); ("padding4", 2); ("cs", 2); ("padding5", 2);
   ("ss", 2); ("padding6", 2); ("ds", 2); ("padding7", 2); ("fs", 2); ("padding8", 2); ("gs", 2); ("padding9", 2);
   ("ldt", 2); ("padding10", 2); ("t", 2); ("iomb", 2)].

Fixpoint offset_of (f : string) (l : list (string * Z)) : Z :=
  match l with
  | [] => 0
  | (g, n) :: l => if String.eqb f g then 0 else n + offset_of f l
  end.

Definition TS_ESP0 : Z := Eval vm_compute in offset_of "esp0" taskstate.
Definition TS_SS0 : Z := Eval vm_compute in offset_of "ss0" taskstate.
Definition SIZEOF_TS : Z := Eval vm_compute in foldr Z.add 0 (snd <$> taskstate).

(** [switchuvm(p)]; [ts] is [&cpu->ts], [kstack] the kernel stack of the
    current process [proc], and [pgdir] the page directory of [p].  The calls
    of [pushcli] and [popcli] around it are those of Spinlock.v. *)
Definition switchuvm (ts kstack pgdir : Z) (c : cpu) (m : memory) : outcome (cpu * memory) :=
  let l := <[Z.to_nat SEG_TSS := SEG16 STS_T32A ts (SIZEOF_TS - 1) 0]> (gdt c) in
  let l := alter (set_s 0) (Z.to_nat SEG_TSS) l in
  let m := store16 m (ts + TS_SS0) (Z.shiftl SEG_KDATA 3) in
  let m := store32 m (ts + TS_ESP0) (u32 (kstack + KSTACKSIZE)) in
  if pgdir =? 0 then Panic "switchuvm: no pgdir"
  else Ret (Cpu l (idt c) (Z.shiftl SEG_TSS 3) pgdir, m).

(** ** The processor *)

Record regs := Regs {
  eax : Z; ecx : Z; edx : Z; ebx : Z; esp : Z; ebp : Z; esi : Z; edi : Z; eip : Z; eflags : Z;
  cs : Z; ss : Z; ds : Z; es : Z; fs : Z; gs : Z
}.

Definition set_eax v r := Regs v (ecx r) (edx r) (ebx r) (esp r) (ebp r) (esi r) (edi r) (eip r) (eflags r) (cs r) (ss r) (ds r) (es r) (fs r) (gs r).
Definition set_esp v r := Regs (eax r) (ecx r) (edx r) (ebx r) v (ebp r) (esi r) (edi r) (eip r) (eflags r) (cs r) (ss r) (ds r) (es r) (fs r) (gs r).
Definition set_segs d e f g r := Regs (eax r) (ecx r) (edx r) (ebx r) (esp r) (ebp r) (esi r) (edi r) (eip r) (eflags r) (cs r) (ss r) d e f g.

(** The current privilege level. *)
Definition cpl (r : regs) : Z := Z.land (cs r) 3.

Definition push (s : regs * memory) (v : Z) : regs * memory :=
  let a := u32 (esp s.1 - 4) in (set_esp a s.1, store32 s.2 a v).

(** Several pushes, in the order of the list. *)
Definition pushl (s : regs * memory) (l : list Z) : regs * memory := foldl push s l.

(** Where the processor looks in the task state for the stack of level 0. *)
Definition HW_ESP0 : Z := 4.
Definition HW_SS0 : Z := 8.

(** The vectors for which the processor pushes an error code. *)
Definition has_err (n : Z) : bool := (n =? 8) || ((10 <=? n) && (n <=? 14)) || (n =? 17).

(** The processor enters the kernel through gate [n].  [soft] tells an [int]
    instruction from an exception or a device interrupt; only the former is
    held to the privilege of the gate, and only exceptions push error codes.
    From an outer privilege level the stack comes from the task state.
    [None] is a further fault. *)
Definition hw_enter (c : cpu) (soft : bool) (n err : Z) (s : regs * memory) : option (regs * memory) :=
  let '(r, m) := s in
  g ← idt c !! Z.to_nat n;
  let code := desc c (hw_sel g) in
  if (hw_p g =? 1) && negb (soft && (hw_dpl g <? cpl r)) && is_code code && (hw_dpl code <=? cpl r) then
    let s1 := if hw_dpl code <? cpl r then
                let tss := hw_base (desc c (tr c)) in
                pushl (Regs (eax r) (ecx r) (edx r) (ebx r) (load32 m (tss + HW_ESP0)) (ebp r) (esi r) (edi r) (eip r) (eflags r)
                         (cs r) (load16 m (tss + HW_SS0)) (ds r) (es r) (fs r) (gs r), m) [ss r; esp r]
              else s in
    let s2 := pushl s1 [eflags r; cs r; eip r] in
    let '(r3, m3) := if has_err n && negb soft then push s2 err else s2 in
    Some (Regs (eax r3) (ecx r3) (edx r3) (ebx r3) (esp r3) (ebp r3) (esi r3) (edi r3) (hw_off g)
            (if hw_type g =? STS_IG32 then Z.land (eflags r) (Z.lnot FL_IF) else eflags r)
            (Z.lor (hw_sel g - Z.land (hw_sel g) 3) (hw_dpl code)) (ss r3) (ds r3) (es r3) (fs r3) (gs r3), m3)
  else None.

(** [popl] of a general register or a segment register. *)
Definition pop32 (s : regs * memory) (k : Z) : Z := load32 s.2 (u32 (esp s.1 + 4 * k)).
Definition pop16 (s : regs * memory) (k : Z) : Z := load16 s.2 (u32 (esp s.1 + 4 * k)).

(** [iret]: to the same or an outer privilege level, through a code segment
    of that level. *)
Definition hw_iret (c : cpu) (s : regs * memory) : option (regs * memory) :=
  let '(r, m) := s in
  let cs' := pop16 s 1 in
  let code := desc c cs' in
  if is_code code && (hw_dpl code =? Z.land cs' 3) && (cpl r <=? Z.land cs' 3) then
    let '(esp', ss') := if cpl r <? Z.land cs' 3 then (pop32 s 3, pop16 s 4) else (u32 (esp r + 12), ss r) in
    Some (Regs (eax r) (ecx r) (edx r) (ebx r) esp' (ebp r) (esi r) (edi r) (pop32 s 0) (pop32 s 2)
            cs' ss' (ds r) (es r) (fs r) (gs r), m)
  else None.

(** ** The stubs, [alltraps] and [trapret] *)

(** [vector<n>], as vectors.pl prints it. *)
Definition vector (n : Z) (s : regs * memory) : regs * memory :=
  let s := if negb ((n =? 8) || ((10 <=? n) && (n <=? 14)) || (n =? 17)) then push s 0 else s in
  push s n.

Definition pushal (s : regs * memory) : regs * memory :=
  let r := s.1 in pushl s [eax r; ecx r; edx r; ebx r; esp r; ebp r; esi r; edi r].

(** [movw $v, %ax] *)
Definition movw_ax (v : Z) (r : regs) : regs := set_eax (Z.lor (Z.land (eax r) 0xffff0000) v) r.

(** [alltraps], up to the call of [trap] *)
Definition alltraps (s : regs * memory) : regs * memory :=
  let r := s.1 in
  let s := pushl s [ds r; es r; fs r; gs r] in
  let s := pushal s in
  let r := movw_ax (Z.shiftl SEG_KDATA 3) s.1 in
  let r := set_segs (Z.shiftl SEG_KDATA 3) (Z.shiftl SEG_KDATA 3) (fs r) (gs r) r in
  let r := movw_ax (Z.shiftl SEG_KCPU 3) r in
  let r := set_segs (ds r) (es r) (Z.shiftl SEG_KCPU 3) (Z.shiftl SEG_KCPU 3) r in
  push (r, s.2) (esp r).

Definition popal (s : regs * memory) : regs * memory :=
  let r := s.1 in
  (Regs (pop32 s 7) (pop32 s 6) (pop32 s 5) (pop32 s 4) (u32 (esp r + 32)) (pop32 s 2) (pop32 s 1) (pop32 s 0)
     (eip r) (eflags r) (cs r) (ss r) (ds r) (es r) (fs r) (gs r), s.2).

Definition trapret (c : cpu) (s : regs * memory) : option (regs * memory) :=
  let s := popal s in
  let r := set_segs (pop16 s 3) (pop16 s 2) (pop16 s 1) (pop16 s 0) s.1 in
  let r := set_esp (u32 (esp r + 16)) r in
  let r := set_esp (u32 (esp r + 8)) r in
  hw_iret c (r, s.2).

(** The whole way in, and the way out after [trap] returned: [addl $4, %esp]
    and [trapret]. *)
Definition enter (c : cpu) (soft : bool) (n err : Z) (s : regs * memory) : option (regs * memory) :=
  s ← hw_enter c soft n err s; Some (alltraps (vector n s)).
Definition leave (c : cpu) (s : regs * memory) : option (regs * memory) :=
  trapret c (set_esp (u32 (esp s.1 + 4)) s.1, s.2).

(** [*tf], by the layout of [struct trapframe] *)
Definition read_frame (m : memory) (a : Z) : trapframe :=
  Trapframe (load32 m a) (load32 m (a + 4)) (load32 m (a + 8)) (load32 m (a + 12)) (load32 m (a + 16))
    (load32 m (a + 20)) (load32 m (a + 24)) (load32 m (a + 28)) (load16 m (a + 32)) (load16 m (a + 36))
    (load16 m (a + 40)) (load16 m (a + 44)) (load32 m (a + 48)) (load32 m (a + 52)) (load32 m (a + 56))
    (load16 m (a + 60)) (load32 m (a + 64)) (load32 m (a + 68)) (load16 m (a + 72)).

(** ** Bit fields: lemmas *)

Lemma pack_nonneg l : Forall (fun f => 0 <= f.1) l -> 0 <= pack l.
Proof.
  induction 1 as [|[w v] l Hw _ IH]; cbn [pack fst] in *; [done|].
  pose proof (Z.pow_pos_nonneg 2 w ltac:(lia) Hw). pose proof (Z.mod_pos_bound v (2 ^ w) ltac:(lia)). nia.
Qed.

(** The field at position [n] of a packed word. *)
Lemma bits_pack l n w v k :
  Forall (fun f => 0 <= f.1) l -> l !! n = Some (w, v) -> k = foldr Z.add 0 (fst <$> take n l) ->
  bits k w (pack l) = v mod 2 ^ w.
Proof.
  intros Hl. revert n k. induction Hl as [|[w0 v0] l Hw Hl IH]; intros n k Hn ->; [done|]. cbn [fst] in Hw.
  pose proof (Z.pow_pos_nonneg 2 w0 ltac:(lia) Hw) as Hp. pose proof (Z.mod_pos_bound v0 (2 ^ w0) ltac:(lia)) as Hm.
  unfold bits in *. destruct n as [|n]; cbn [lookup list_lookup] in Hn.
  - injection Hn as -> ->. cbn. rewrite Z.div_1_r, Z.mul_comm, Z.mod_add, Z.mod_mod by lia. done.
  - cbn [take fmap list_fmap foldr fst pack]. rewrite <- (IH n _ Hn eq_refl).
    assert (0 <= foldr Z.add 0 (fst <$> take n l)) as Hk.
    { clear -Hl. revert n. induction Hl as [|[a b] l Ha _ IH]; intros [|n]; cbn; try lia. specialize (IH n). cbn in Ha. lia. }
    rewrite Z.pow_add_r by lia. rewrite <- Z.div_div by lia. do 2 f_equal.
    rewrite Z.mul_comm, Z.div_add by lia. rewrite Z.div_small by lia. lia.
Qed.

(** Reads a field of a packed word. *)
Ltac field n :=
  erewrite (bits_pack _ n) by first [reflexivity | (repeat (apply Forall_cons; split); [cbn [fst]; lia ..|apply Forall_nil; done])].

Lemma land_ones x w k : 0 <= w -> k = Z.ones w -> Z.land x k = x mod 2 ^ w.
Proof. intros ? ->. by apply Z.land_ones. Qed.

(** A 32-bit base from its three pieces. *)
Lemma base_pieces b :
  is_u32 b ->
  Z.land b 0xffff mod 2 ^ 16 + 2 ^ 16 * (Z.land (Z.shiftr b 16) 0xff mod 2 ^ 8) + 2 ^ 24 * (Z.shiftr b 24 mod 2 ^ 8) = b.
Proof.
  unfold is_u32. intros. rewrite (land_ones b 16), (land_ones _ 8) by done. rewrite !Z.shiftr_div_pow2 by lia. dm.
Qed.

(** What the processor makes of the descriptors of [SEG] and [SEG16]: a base,
    a limit in pages or bytes, and a privilege level. *)
Lemma seg_decode type base lim dpl :
  is_u32 base -> is_u32 lim -> 0 <= type < 16 -> 0 <= dpl < 4 ->
  let w := segdesc_word (SEG type base lim dpl) in
  hw_base w = base /\ hw_limit w = lim / 4096 * 4096 + 4095 /\
  hw_type w = type /\ hw_s w = 1 /\ hw_dpl w = dpl /\ hw_p w = 1.
Proof.
  intros Hb Hl Ht Hd w. subst w. unfold segdesc_word, SEG, hw_base, hw_limit, hw_type, hw_s, hw_dpl, hw_p. cbn -[Z.land Z.shiftr Z.modulo bits pack].
  field 1%nat. field 2%nat. field 12%nat. field 11%nat. field 0%nat. field 7%nat. field 3%nat. field 4%nat. field 5%nat. field 6%nat.
  rewrite base_pieces by done. repeat split; try (rewrite Z.mod_small by lia; done).
  rewrite (land_ones _ 16) by done. rewrite !Z.shiftr_div_pow2 by lia. unfold is_u32 in *.
  change (1 mod 2 ^ 1 =? 1) with true. cbv iota. dm.
Qed.

Lemma tss_decode type base lim dpl :
  is_u32 base -> hw_base (segdesc_word (set_s 0 (SEG16 type base lim dpl))) = base.
Proof.
  intros Hb. unfold segdesc_word, hw_base. cbn -[Z.land Z.shiftr Z.modulo bits pack].
  field 1%nat. field 2%nat. field 12%nat. by apply base_pieces.
Qed.

Lemma gate_decode istrap sel off d :
  is_u32 off -> 0 <= sel < 2 ^ 16 -> 0 <= d < 4 ->
  let w := SETGATE istrap sel off d in
  hw_off w = off /\ hw_sel w = sel /\ hw_dpl w = d /\ hw_p w = 1 /\
  hw_type w = if istrap then STS_TG32 else STS_IG32.
Proof.
  intros Ho Hs Hd w. subst w. unfold SETGATE, gatedesc, hw_off, hw_sel, hw_dpl, hw_p, hw_type.
  field 0%nat. field 8%nat. field 1%nat. field 6%nat. field 7%nat. field 4%nat.
  repeat split; try (rewrite Z.mod_small by lia; done).
  - rewrite (land_ones _ 16) by done. rewrite Z.shiftr_div_pow2 by lia. unfold is_u32 in *. dm.
  - destruct istrap; done.
Qed.

(** ** The tables as the processor sees them *)

Definition gate_of (vectors : Z -> Z) (n : Z) : Z :=
  if n =? T_SYSCALL then SETGATE true 8 (vectors n) DPL_USER else SETGATE false 8 (vectors n) 0.

Lemma foldl_insert_seqZ {A} (f : Z -> A) n k (l : list A) i :
  0 <= k -> 0 <= n -> length l = Z.to_nat (k + n) ->
  foldl (fun l i => <[Z.to_nat i := f i]> l) l (seqZ k n) !! i =
  (if bool_decide (k <= Z.of_nat i < k + n) then Some (f (Z.of_nat i)) else l !! i).
Proof.
  intros Hk Hn. revert k l Hk. pattern n. apply natlike_ind; [| |done]; clear n Hn.
  - intros k l Hk Hl. rewrite bool_decide_eq_false_2 by lia. done.
  - intros n Hn IH k l Hk Hl. rewrite seqZ_cons by lia. cbn [foldl]. replace (Z.pred (Z.succ n)) with n by lia.
    rewrite IH by (rewrite ?length_insert; lia).
    destruct (decide (Z.to_nat k = i)) as [<-|Hne].
    + rewrite bool_decide_eq_false_2, bool_decide_eq_true_2 by lia.
      rewrite list_lookup_insert_eq by lia. by rewrite Z2Nat.id by lia.
    + rewrite list_lookup_insert_ne by done. apply (f_equal2 (fun (b : bool) x => if b then x else l !! i)); [|done].
      apply bool_decide_ext. lia.
Qed.

Lemma tvinit_gate vectors c n :
  length (idt c) = 256%nat -> 0 <= n < 256 -> idt (tvinit vectors c) !! Z.to_nat n = Some (gate_of vectors n).
Proof.
  intros Hl Hn. unfold tvinit, gate_of. cbn [idt].
  set (l := foldl _ _ _).
  assert (length l = 256%nat) as Hll.
  { subst l. rewrite <- Hl. generalize (seqZ 0 256), (idt c). clear. intros ks. induction ks as [|k ks IH]; intros l; [done|].
    cbn [foldl]. rewrite IH. apply length_insert. }
  destruct (Z.eqb_spec n T_SYSCALL) as [->|Hne].
  - apply list_lookup_insert_eq. rewrite Hll. unfold T_SYSCALL. lia.
  - rewrite list_lookup_insert_ne by (unfold T_SYSCALL in *; lia). subst l.
    rewrite foldl_insert_seqZ by (rewrite ?Hl; lia).
    rewrite bool_decide_eq_true_2 by lia. rewrite Z2Nat.id by lia. done.
Qed.

(** ** Pushes *)

(** Words stored downwards from [a]. *)
Fixpoint store_down (m : memory) (a : Z) (l : list Z) : memory :=
  match l with
  | [] => m
  | v :: l => store_down (store32 m (a - 4) v) (a - 4) l
  end.

Lemma store_down_app l1 l2 m a :
  store_down m a (l1 ++ l2) = store_down (store_down m a l1) (a - 4 * Z.of_nat (length l1)) l2.
Proof.
  revert m a. induction l1 as [|v l1 IH]; intros m a; cbn [app store_down length].
  - by rewrite Z.sub_0_r.
  - rewrite IH. f_equal. lia.
Qed.

Lemma rd8_store_down l m a b :
  ~ (a - 4 * Z.of_nat (length l) <= b < a) -> rd8 (store_down m a l) b = rd8 m b.
Proof.
  revert m a. induction l as [|v l IH]; intros m a Hb; cbn [store_down length] in *; [done|].
  rewrite IH by lia. apply rd8_store32_ne. lia.
Qed.

Lemma load32_store_down l m a i v :
  l !! i = Some v -> load32 (store_down m a l) (a - 4 * (Z.of_nat i + 1)) = u32 v.
Proof.
  revert m a i. induction l as [|w l IH]; intros m a [|i] Hi; cbn [store_down lookup list_lookup] in *; try done.
  - injection Hi as ->. rewrite <- (load32_store32_eq m (a - 4) v). cbn. apply load32_ext. intros. apply rd8_store_down. lia.
  - rewrite <- (IH (store32 m (a - 4) w) (a - 4) i Hi). f_equal. lia.
Qed.

Lemma load16_load32 m a : load16 m a = u16 (load32 m a).
Proof.
  unfold load16, load32, u16. pose proof (rd8_range m a). pose proof (rd8_range m (a + 1)).
  unfold is_u8 in *. dm.
Qed.

Lemma pushl_app s l1 l2 : pushl (pushl s l1) l2 = pushl s (l1 ++ l2).
Proof. symmetry. apply foldl_app. Qed.

Lemma pushl_store r m l :
  4 * Z.of_nat (length l) <= esp r < 2 ^ 32 ->
  pushl (r, m) l = (set_esp (esp r - 4 * Z.of_nat (length l)) r, store_down m (esp r) l).
Proof.
  revert r m. induction l as [|v l IH]; intros r m H; cbn [length] in H.
  - cbn. rewrite Z.sub_0_r. by destruct r.
  - change (pushl (r, m) (v :: l)) with (pushl (push (r, m) v) l). unfold push. cbn [fst snd].
    rewrite u32_small by (unfold is_u32; lia). rewrite IH by (cbn [esp set_esp]; lia).
    cbn [store_down length]. f_equal. unfold set_esp. cbn. f_equal. lia.
Qed.

(** ** The way in *)

(** The registers of a user program. *)
Definition is_user (r : regs) : Prop :=
  Forall is_u32 [eax r; ecx r; edx r; ebx r; esp r; ebp r; esi r; edi r; eip r; eflags r] /\
  Forall (fun x => 0 <= x < 2 ^ 16) [ss r; ds r; es r; fs r; gs r] /\ cs r = Z.lor (Z.shiftl SEG_UCODE 3) DPL_USER.

(** The tables that [tvinit], [seginit] and [switchuvm] leave behind. *)
Record ready (vectors : Z -> Z) (kstack : Z) (c : cpu) (m : memory) : Prop := {
  ready_idt n : 0 <= n < 256 -> idt c !! Z.to_nat n = Some (gate_of vectors n);
  ready_kcode : desc c 8 = segdesc_word (SEG (Z.lor STA_X STA_R) 0 0xffffffff 0);
  ready_ucode : desc c 35 = segdesc_word (SEG (Z.lor STA_X STA_R) 0 0xffffffff DPL_USER);
  ready_esp0 : load32 m (hw_base (desc c (tr c)) + HW_ESP0) = u32 (kstack + KSTACKSIZE);
  ready_ss0 : load16 m (hw_base (desc c (tr c)) + HW_SS0) = Z.shiftl SEG_KDATA 3
}.

Lemma Ret_pair_inj {A B} (a a' : A) (b b' : B) : Ret (a, b) = Ret (a', b') -> a' = a /\ b' = b.
Proof. by intros [= -> ->]. Qed.

Lemma switchuvm_ready vectors cpu_addr ts kstack pgdir c0 m0 c m :
  length (gdt c0) = Z.to_nat NSEGS -> length (idt c0) = 256%nat -> is_u32 ts ->
  switchuvm ts kstack pgdir (seginit cpu_addr (tvinit vectors c0)) m0 = Ret (c, m) ->
  ready vectors kstack c m.
Proof.
  intros Hg Hi Hts. pose proof (tvinit_gate vectors c0) as Hgate.
  pose proof (tss_decode STS_T32A ts (SIZEOF_TS - 1) 0 Hts) as Ht.
  unfold switchuvm, seginit. change (gdt (tvinit vectors c0)) with (gdt c0).
  destruct (pgdir =? 0); [done|]. intros [-> ->]%Ret_pair_inj. cbn [gdt idt].
  generalize dependent (idt (tvinit vectors c0)). intros i Hgate.
  generalize dependent (gdt c0). intros g Hg. do 7 (destruct g as [|? g]; [done|]). destruct g; [|done].
  split; cbn [idt].
  - intros n Hn. by apply Hgate.
  - reflexivity.
  - reflexivity.
  - change (desc ?x ?y) with (segdesc_word (set_s 0 (SEG16 STS_T32A ts (SIZEOF_TS - 1) 0))). rewrite Ht. change HW_ESP0 with TS_ESP0.
    rewrite load32_store32_eq. unfold u32. apply Zmod_mod.
  - change (desc ?x ?y) with (segdesc_word (set_s 0 (SEG16 STS_T32A ts (SIZEOF_TS - 1) 0))). rewrite Ht. change HW_SS0 with TS_SS0.
    rewrite (load16_ext (store16 m0 (ts + TS_SS0) (Z.shiftl SEG_KDATA 3))).
    { rewrite load16_store16_eq. done. }
    intros b Hb. apply rd8_store32_ne. unfold TS_ESP0, TS_SS0 in *. lia.
Qed.

(** Where the frame of a trap from user mode is: [allocproc]'s [p->tf]. *)
Definition tf_addr (kstack : Z) : Z := kstack + KSTACKSIZE - SIZEOF_TF.

(** The frame that describes a user program, with trap number and error code. *)
Definition frame_of (r : regs) (n err a : Z) : trapframe :=
  Trapframe (edi r) (esi r) (ebp r) (a + 32) (ebx r) (edx r) (ecx r) (eax r) (gs r) (fs r) (es r) (ds r)
    n (if has_err n then err else 0) (eip r) (cs r) (eflags r) (esp r) (ss r).

(** The words on the stack, from the top. *)
Definition stack_words (r : regs) (n err a : Z) : list Z :=
  [ss r; esp r; eflags r; cs r; eip r] ++ (if has_err n then [err] else [0]) ++
  [n; ds r; es r; fs r; gs r; eax r; ecx r; edx r; ebx r; a + 32; ebp r; esi r; edi r].

(** Reads one word of a stack of stored words. *)
Lemma load_down l m top a i v :
  l !! i = Some v -> a = top - 4 * (Z.of_nat i + 1) -> is_u32 v -> load32 (store_down m top l) a = v.
Proof. intros Hi -> Hv. rewrite (load32_store_down _ _ _ _ _ Hi). by apply u32_small. Qed.

Lemma load_down16 l m top a i v :
  l !! i = Some v -> a = top - 4 * (Z.of_nat i + 1) -> 0 <= v < 2 ^ 16 -> load16 (store_down m top l) a = v.
Proof.
  intros Hi Ha Hv. rewrite load16_load32, (load_down _ _ _ _ _ _ Hi Ha) by (unfold is_u32; lia).
  unfold u16. apply Z.mod_small. lia.
Qed.

Lemma read_stack_words m r n err kstack w :
  0 <= kstack -> kstack + KSTACKSIZE < 2 ^ 32 -> is_user r -> 0 <= n < 256 -> is_u32 err ->
  read_frame (store_down m (kstack + KSTACKSIZE) (stack_words r n err (tf_addr kstack) ++ w)) (tf_addr kstack) =
  frame_of r n err (tf_addr kstack).
Proof.
  intros Hk1 Hk2 (H32 & H16 & Hcs) Hn He. rewrite !Forall_cons in H32. rewrite !Forall_cons in H16.
  unfold read_frame, frame_of, stack_words, tf_addr, KSTACKSIZE, SIZEOF_TF in *.
  destruct (has_err n); cbn [app];
    (f_equal;
     [ apply (load_down _ _ _ _ 18) | apply (load_down _ _ _ _ 17) | apply (load_down _ _ _ _ 16) | apply (load_down _ _ _ _ 15)
     | apply (load_down _ _ _ _ 14) | apply (load_down _ _ _ _ 13) | apply (load_down _ _ _ _ 12) | apply (load_down _ _ _ _ 11)
     | apply (load_down16 _ _ _ _ 10) | apply (load_down16 _ _ _ _ 9) | apply (load_down16 _ _ _ _ 8) | apply (load_down16 _ _ _ _ 7)
     | apply (load_down _ _ _ _ 6) | apply (load_down _ _ _ _ 5) | apply (load_down _ _ _ _ 4) | apply (load_down16 _ _ _ _ 3)
     | apply (load_down _ _ _ _ 2) | apply (load_down _ _ _ _ 1) | apply (load_down16 _ _ _ _ 0)];
     try reflexivity; try lia; try tauto; try (unfold is_u32; lia); rewrite ?Hcs; try done).
Qed.

(** What the descriptors of the kernel and user code segments say. *)
Lemma code_decode dpl :
  0 <= dpl < 4 ->
  is_code (segdesc_word (SEG (Z.lor STA_X STA_R) 0 0xffffffff dpl)) = true /\
  hw_dpl (segdesc_word (SEG (Z.lor STA_X STA_R) 0 0xffffffff dpl)) = dpl.
Proof.
  intros Hd.
  destruct (seg_decode (Z.lor STA_X STA_R) 0 0xffffffff dpl) as (_ & _ & Ht & Hs & Hdp & Hp);
    [by vm_compute; split; congruence..|done|].
  split; [|done]. unfold is_code. by rewrite Hp, Hs, Ht.
Qed.

(** The gates: all lead to the kernel's code segment, and only the system
    call gate is open to user programs. *)
Lemma gate_of_decode vectors n :
  is_u32 (vectors n) ->
  hw_off (gate_of vectors n) = vectors n /\ hw_sel (gate_of vectors n) = 8 /\ hw_p (gate_of vectors n) = 1 /\
  hw_dpl (gate_of vectors n) = (if n =? T_SYSCALL then DPL_USER else 0) /\
  hw_type (gate_of vectors n) = (if n =? T_SYSCALL then STS_TG32 else STS_IG32).
Proof.
  intros Hv. unfold gate_of. destruct (n =? T_SYSCALL);
    [destruct (gate_decode true 8 (vectors n) DPL_USER) as (? & ? & ? & ? & ?)
    |destruct (gate_decode false 8 (vectors n) 0) as (? & ? & ? & ? & ?)]; unfold DPL_USER in *; try lia; done.
Qed.

(** Equal sequences of stores, addresses compared by arithmetic. *)
Ltac stores :=
  cbn -[Z.sub Z.add Z.mul Z.pow Z.shiftl Z.lor Z.land Z.of_nat store32];
  repeat match goal with |- store32 _ _ _ = store32 _ _ _ => f_equal end; lia.

Lemma regs_eq r r' :
  eax r = eax r' -> ecx r = ecx r' -> edx r = edx r' -> ebx r = ebx r' -> esp r = esp r' -> ebp r = ebp r' ->
  esi r = esi r' -> edi r = edi r' -> eip r = eip r' -> eflags r = eflags r' -> cs r = cs r' -> ss r = ss r' ->
  ds r = ds r' -> es r = es r' -> fs r = fs r' -> gs r = gs r' -> r = r'.
Proof. destruct r, r'. cbn. intros. subst. reflexivity. Qed.

Lemma vector_pushes n r m :
  8 <= esp r < 2 ^ 32 ->
  let l := (if has_err n then [] else [0]) ++ [n] in
  vector n (r, m) = (set_esp (esp r - 4 * Z.of_nat (length l)) r, store_down m (esp r) l).
Proof.
  intros H l. subst l. rewrite <- pushl_store by (destruct (has_err n); cbn; lia).
  unfold vector. change (_ || _ || _) with (has_err n). by destruct (has_err n).
Qed.

Lemma alltraps_pushes r m :
  52 <= esp r < 2 ^ 32 ->
  exists v, alltraps (r, m) =
    (Regs v (ecx r) (edx r) (ebx r) (esp r - 52) (ebp r) (esi r) (edi r) (eip r) (eflags r) (cs r) (ss r)
       (Z.shiftl SEG_KDATA 3) (Z.shiftl SEG_KDATA 3) (Z.shiftl SEG_KCPU 3) (Z.shiftl SEG_KCPU 3),
     store_down m (esp r) [ds r; es r; fs r; gs r; eax r; ecx r; edx r; ebx r; esp r - 16; ebp r; esi r; edi r; esp r - 48]).
Proof.
  intros H. unfold alltraps, pushal. rewrite (pushl_store r) by (cbn; lia). cbn [fst snd].
  rewrite pushl_store by (cbn -[Z.sub Z.mul Z.pow]; lia).
  match goal with |- context [push ?s ?v] => change (push s v) with (pushl s [v]) end.
  rewrite pushl_store by (cbn -[Z.sub Z.mul Z.pow]; lia).
  eexists. cbn -[Z.sub Z.mul Z.pow Z.shiftl Z.lor Z.land Z.of_nat store32].
  apply pair_equal_spec. split.
  2: { stores. }
  apply regs_eq; try reflexivity. cbn [esp set_esp]. lia.
Qed.

(** Addresses relative to the frame. *)
Ltac addr U e k :=
  first [rewrite (U e k) by lia | let k' := eval vm_compute in (k + 4) in addr U e k'].
Ltac addrs U :=
  repeat match goal with
  | |- context [u32 ?e] => lazymatch e with context [u32 _] => fail | _ => idtac end; addr U e 0
  end.

Section entering.
  Context (vectors : Z -> Z) (kstack : Z) (c : cpu) (m : memory) (r : regs) (n err : Z).
  Context (Hready : ready vectors kstack c m) (Hvec : is_u32 (vectors n)).
  Context (Hk1 : 0 <= kstack) (Hk2 : kstack + KSTACKSIZE < 2 ^ 32).
  Context (Huser : is_user r) (Hn : 0 <= n < 256).

Lemma user_cpl : cpl r = 3.
Proof. unfold cpl. destruct Huser as (_ & _ & ->). done. Qed.

(** An [int] through any gate but the system call gate faults. *)
Lemma hw_enter_refused : n <> T_SYSCALL -> hw_enter c true n err (r, m) = None.
Proof.
  intros Hne. unfold hw_enter. rewrite (ready_idt _ _ _ _ Hready) by done. cbn [mbind option_bind].
  destruct (gate_of_decode vectors n Hvec) as (_ & -> & -> & -> & _). rewrite user_cpl.
  rewrite (proj2 (Z.eqb_neq _ _) Hne). done.
Qed.

Lemma hw_enter_state soft :
  (soft = true -> n = T_SYSCALL) ->
  hw_enter c soft n err (r, m) =
  let l := [ss r; esp r; eflags r; cs r; eip r] ++ (if has_err n then [err] else []) in
  Some (Regs (eax r) (ecx r) (edx r) (ebx r) (kstack + KSTACKSIZE - 4 * Z.of_nat (length l)) (ebp r) (esi r) (edi r)
          (vectors n) (if n =? T_SYSCALL then eflags r else Z.land (eflags r) (Z.lnot FL_IF))
          (Z.shiftl SEG_KCODE 3) (Z.shiftl SEG_KDATA 3) (ds r) (es r) (fs r) (gs r),
        store_down m (kstack + KSTACKSIZE) l).
Proof.
  intros Hs. unfold hw_enter. rewrite (ready_idt _ _ _ _ Hready) by done. cbn [mbind option_bind].
  destruct (gate_of_decode vectors n Hvec) as (-> & -> & -> & -> & ->). rewrite user_cpl.
  rewrite (ready_kcode _ _ _ _ Hready). destruct (code_decode 0) as [-> ->]; [lia|].
  rewrite (ready_esp0 _ _ _ _ Hready), (ready_ss0 _ _ _ _ Hready).
  unfold KSTACKSIZE in *. rewrite u32_small by (unfold is_u32; lia).
  assert (negb (soft && ((if n =? T_SYSCALL then DPL_USER else 0) <? 3)) = true) as ->.
  { destruct soft; [rewrite Hs by done|]; done. }
  change (_ && _ && _ && _) with true. change (0 <? 3) with true. cbv iota.
  assert (has_err n && negb soft = has_err n) as ->.
  { destruct soft; [rewrite Hs by done; done|apply andb_true_r]. }
  rewrite pushl_app.
  match goal with |- context [if has_err n then push ?s err else ?s] =>
    replace (if has_err n then push s err else s) with (pushl s (if has_err n then [err] else []))
      by (by destruct (has_err n)) end.
  rewrite pushl_app. cbn [app]. rewrite pushl_store by (destruct (has_err n); cbn; lia).
  cbn [esp eax ecx edx ebx ebp esi edi ss ds es fs gs set_esp]. by destruct (n =? T_SYSCALL).
Qed.

(** The registers in the kernel: the frame's address is on top of the stack,
    as the argument of [trap]. *)
Lemma enter_state soft :
  (soft = true -> n = T_SYSCALL) ->
  let tf := tf_addr kstack in
  exists r', enter c soft n err (r, m) = Some (r', store_down m (kstack + KSTACKSIZE) (stack_words r n err tf ++ [tf])) /\
    esp r' = tf - 4 /\ cs r' = Z.shiftl SEG_KCODE 3 /\ ss r' = Z.shiftl SEG_KDATA 3 /\
    ds r' = Z.shiftl SEG_KDATA 3 /\ gs r' = Z.shiftl SEG_KCPU 3 /\
    eflags r' = (if n =? T_SYSCALL then eflags r else Z.land (eflags r) (Z.lnot FL_IF)).
Proof.
  intros Hs tf. unfold enter. rewrite (hw_enter_state _ Hs). cbv zeta. cbn [mbind option_bind].
  unfold tf, tf_addr, KSTACKSIZE, SIZEOF_TF in *.
  assert (has_err n = true \/ has_err n = false) as He by (destruct (has_err n); auto).
  rewrite vector_pushes by (destruct He as [-> | ->]; cbn -[Z.sub Z.mul Z.pow]; lia).
  match goal with |- context [alltraps (?r, ?m)] => destruct (alltraps_pushes r m) as [v ->] end.
  { destruct He as [-> | ->]; cbn -[Z.sub Z.mul Z.pow]; lia. }
  eexists. split.
  - f_equal. apply pair_equal_spec. split; [reflexivity|]. unfold stack_words.
    destruct He as [-> | ->]; stores.
  - destruct He as [-> | ->]; cbn -[Z.sub Z.add Z.mul Z.pow Z.shiftl Z.lor Z.land Z.of_nat]; repeat split; lia.
Qed.

(** ** The way out *)

(** Returning through a frame that still describes the program, apart from
    the value returned in [eax]. *)
Lemma leave_restores r' m' v :
  let tf := tf_addr kstack in
  esp r' = tf - 4 -> cpl r' = 0 ->
  read_frame m' tf = frame_of (set_eax v r) n err tf ->
  leave c (r', m') = Some (set_eax v r, m').
Proof.
  intros tf Hsp Hc Hf. unfold leave, trapret, hw_iret, popal, pop32, pop16.
  assert (0 <= tf /\ tf + 76 < 2 ^ 32) as Htf by (unfold tf, tf_addr, KSTACKSIZE, SIZEOF_TF in *; lia).
  assert (forall e k, e = tf + k -> 0 <= k <= 76 -> u32 e = tf + k) as U.
  { intros e k -> Hk. apply u32_small. unfold is_u32. lia. }
  cbn -[Z.add Z.mul Z.pow Z.land u32]. rewrite Hsp.
  addrs U. rewrite Z.add_0_r. unfold cpl in *. cbn [cs set_esp set_segs]. rewrite Hc.
  unfold read_frame, frame_of in Hf. clearbody tf.
  injection Hf as -> -> -> _ -> -> -> -> -> -> -> -> _ _ -> -> -> -> ->.
  cbn [edi esi ebp ebx edx ecx eax gs fs es ds eip cs eflags esp ss set_eax].
  destruct Huser as (_ & _ & Hcs). unfold set_eax. rewrite Hcs.
  change (Z.lor (Z.shiftl SEG_UCODE 3) DPL_USER) with 35. rewrite (ready_ucode _ _ _ _ Hready).
  destruct (code_decode DPL_USER) as [-> ->]; [done|]. reflexivity.
Qed.
End entering.

(** ** [swtch] (kernel/swtch.S) *)

Definition swtch (s : regs * memory) : regs * memory :=
  let '(r, m) := s in
  let old := load32 m (u32 (esp r + 4)) in
  let new := load32 m (u32 (esp r + 8)) in
  let '(r1, m1) := pushl (r, m) [ebp r; ebx r; esi r; edi r] in
  let m2 := store32 m1 old (esp r1) in
  let pop k := load32 m2 (u32 (new + 4 * k)) in
  (Regs old (ecx r) new (pop 2) (u32 (new + 20)) (pop 3) (pop 1) (pop 0) (pop 4) (eflags r)
     (cs r) (ss r) (ds r) (es r) (fs r) (gs r), m2).

(** The context at [a], by the layout of [struct context]: [edi], [esi],
    [ebx], [ebp], [eip]. *)
Definition read_context (m : memory) (a : Z) : list Z := (fun k => load32 m (a + 4 * k)) <$> seqZ 0 5.

(** Switching away stores the context where [old] points; switching to it
    later, from anywhere, resumes after the call with the saved registers. *)
Lemma swtch_resumes r m :
  let old := load32 m (esp r + 4) in
  16 <= esp r -> esp r + 12 < 2 ^ 32 -> Forall is_u32 [ebp r; ebx r; esi r; edi r] ->
  old + 4 <= esp r - 16 \/ esp r + 4 <= old ->
  let m' := (swtch (r, m)).2 in
  let ctx := esp r - 16 in
  load32 m' old = ctx /\ read_context m' ctx = [edi r; esi r; ebx r; ebp r; load32 m (esp r)] /\
  forall r2 m2 old2, esp r2 + 12 < 2 ^ 32 -> 16 <= esp r2 -> load32 m2 (esp r2 + 4) = old2 -> load32 m2 (esp r2 + 8) = ctx ->
    read_context (swtch (r2, m2)).2 ctx = read_context m' ctx ->
    let r3 := (swtch (r2, m2)).1 in
    eip r3 = load32 m (esp r) /\ esp r3 = esp r + 4 /\ ebp r3 = ebp r /\ ebx r3 = ebx r /\ esi r3 = esi r /\ edi r3 = edi r.
Proof.
  intros old H1 H2 Hu Hold m' ctx. rewrite !Forall_cons in Hu. destruct Hu as (U1 & U2 & U3 & U4 & _).
  assert (m' = store32 (store_down m (esp r) [ebp r; ebx r; esi r; edi r]) old ctx) as Hm'.
  { unfold m', swtch. rewrite pushl_store by (cbn [length]; lia). cbn [snd].
    rewrite (u32_small (esp r + 4)) by (unfold is_u32; lia). reflexivity. }
  assert (is_u32 ctx) as Hc by (unfold is_u32, ctx; lia).
  assert (forall i v, [ebp r; ebx r; esi r; edi r] !! i = Some v -> is_u32 v -> load32 m' (esp r - 4 * (Z.of_nat i + 1)) = v) as Hw.
  { intros i v Hi Hv. pose proof (lookup_lt_Some _ _ _ Hi) as Hl. cbn in Hl. rewrite Hm', load32_store32_ne by lia.
    rewrite (load32_store_down _ _ _ _ _ Hi). by apply u32_small. }
  assert (read_context m' ctx = [edi r; esi r; ebx r; ebp r; load32 m (esp r)]) as Hctx.
  { unfold read_context. change (seqZ 0 5) with [0; 1; 2; 3; 4]. cbn [fmap list_fmap]. unfold ctx.
    rewrite <- (Hw 3%nat (edi r)), <- (Hw 2%nat (esi r)), <- (Hw 1%nat (ebx r)), <- (Hw 0%nat (ebp r)) by done.
    repeat (apply f_equal2; [f_equal; lia|]). apply f_equal2; [|done].
    replace (esp r - 16 + 4 * 4) with (esp r) by lia.
    rewrite Hm', load32_store32_ne by lia. apply load32_ext. intros b Hb. apply rd8_store_down. cbn. lia. }
  split; [rewrite Hm', load32_store32_eq; by apply u32_small|]. split; [done|].
  intros r2 m2 old2 H3 H4 Ho Hn Hr r3. rewrite Hctx in Hr. unfold r3, swtch in *.
  rewrite (u32_small (esp r2 + 8)), Hn in * by (unfold is_u32; lia).
  destruct (pushl (r2, m2) _) as [r1 m1]. cbn [fst snd eip esp ebp ebx esi edi] in *.
  set (mm := store32 m1 _ _) in *. unfold read_context in Hr. change (seqZ 0 5) with [0; 1; 2; 3; 4] in Hr. cbn [fmap list_fmap] in Hr.
  injection Hr as R0 R1 R2 R3 R4.
  rewrite !u32_small by (unfold is_u32, ctx; lia). split_and!; try done. unfold ctx. lia.
Qed.

(** C7. The way into the kernel and back.  After [tvinit], [seginit] and
    [switchuvm], while a user program with registers [r] runs: an [int]
    instruction faults unless it names the system call gate; a system call, an
    exception or a device interrupt [n] jumps to the stub of [n] at privilege
    level 0, with interrupts off unless it is a system call, on the kernel
    stack of the process, writes nothing but the 80 bytes at its top, and
    calls [trap] with a pointer to the place that [allocproc] gave [p->tf];
    the [struct trapframe] there holds every register of the program, the trap
    number, and the error code of the processor or 0.  When [trap] returns,
    whatever it did elsewhere, a frame changed in [eax] only resumes the
    program with that [eax] and every other register as before. *)
Theorem trap_entry vectors cpu_addr ts kstack pgdir c0 m0 c m r n err :
  length (gdt c0) = Z.to_nat NSEGS -> length (idt c0) = 256%nat ->
  is_u32 ts -> (forall i, is_u32 (vectors i)) -> 0 <= kstack -> kstack + KSTACKSIZE < 2 ^ 32 ->
  switchuvm ts kstack pgdir (seginit cpu_addr (tvinit vectors c0)) m0 = Ret (c, m) ->
  is_user r -> 0 <= n < 256 -> is_u32 err ->
  let tf := kstack + KSTACKSIZE - SIZEOF_TF in
  (n <> T_SYSCALL -> hw_enter c true n err (r, m) = None) /\
  forall soft, (soft = true -> n = T_SYSCALL) ->
  (exists s, hw_enter c soft n err (r, m) = Some s /\ eip s.1 = vectors n) /\
  exists r' m', enter c soft n err (r, m) = Some (r', m') /\
    cpl r' = 0 /\ load32 m' (esp r') = tf /\
    eflags r' = (if n =? T_SYSCALL then eflags r else Z.land (eflags r) (Z.lnot FL_IF)) /\
    read_frame m' tf = frame_of r n err tf /\
    (forall b, ~ (kstack + KSTACKSIZE - 80 <= b < kstack + KSTACKSIZE) -> rd8 m' b = rd8 m b) /\
    (forall r2 m2 v, esp r2 = esp r' -> cpl r2 = 0 -> read_frame m2 tf = frame_of (set_eax v r) n err tf ->
       leave c (r2, m2) = Some (set_eax v r, m2)).
Proof.
  intros Hg Hi Hts Hvec Hk1 Hk2 Hsw Hu Hn He tf.
  pose proof (switchuvm_ready _ _ _ _ _ _ _ _ _ Hg Hi Hts Hsw) as Hr.
  split; [intros; by eapply hw_enter_refused|]. intros soft Hs.
  split.
  { eexists. split; [by eapply hw_enter_state|done]. }
  destruct (enter_state vectors kstack c m r n err Hr (Hvec n) Hk1 Hk2 Hu Hn soft Hs)
    as (r' & E & Hsp & Hcs & _ & _ & _ & Hfl).
  eexists r', _. split; [exact E|]. fold (tf_addr kstack) in tf. repeat split.
  - unfold cpl. by rewrite Hcs.
  - rewrite Hsp. unfold stack_words. destruct (has_err n); cbn [app];
      (apply (load_down _ _ _ _ 19); [reflexivity|..]; unfold is_u32, tf_addr, KSTACKSIZE, SIZEOF_TF in *; lia).
  - exact Hfl.
  - by apply read_stack_words.
  - intros b Hb. apply rd8_store_down. unfold stack_words. rewrite !length_app.
    destruct (has_err n); cbn; cbn in Hb; lia.
  - intros r2 m2 v H1 H2 H3. eapply (leave_restores vectors kstack c m r n err); try done. by rewrite H1.
Qed.

Module Demo.
Definition d0 : segdesc := Segdesc 0 0 0 0 0 0 0 0 0 0 0 0 0.
Definition c0 : cpu := Cpu (replicate 7 d0) (replicate 256 0) 0 0.
Definition vectors (i : Z) : Z := u32 (0x104000 + 16 * i).
Definition r : regs := Regs 5 0 0 0 0x2f00 0x2f20 7 0 0x40 0x202 35 43 43 43 0 0.
Definition c : cpu :=
  match switchuvm 0x110000 0x8000 0x9000 (seginit 0x110100 (tvinit vectors c0)) ∅ with Ret (c, _) => c | _ => c0 end.
Definition m : memory :=
  match switchuvm 0x110000 0x8000 0x9000 (seginit 0x110100 (tvinit vectors c0)) ∅ with Ret (_, m) => m | _ => ∅ end.

(** A system call with number 5 in [eax] that returns 0. *)
Lemma user : is_user r.
Proof. split; [|split; [|done]]; repeat (apply Forall_cons; split; [vm_compute; split; congruence|]); by apply Forall_nil. Qed.

Lemma switched : switchuvm 0x110000 0x8000 0x9000 (seginit 0x110100 (tvinit vectors c0)) ∅ = Ret (c, m).
Proof. unfold c, m. generalize (seginit 0x110100 (tvinit vectors c0)). intros x. unfold switchuvm. reflexivity. Qed.
End Demo.

Lemma trap_entry_witness :
  exists r' m', enter Demo.c true T_SYSCALL 0 (Demo.r, Demo.m) = Some (r', m') /\
    load32 m' (esp r') = 0x8000 + 4096 - 76 /\ read_frame m' (0x8000 + 4096 - 76) = frame_of Demo.r 64 0 (0x8000 + 4096 - 76).
Proof.
  destruct (trap_entry Demo.vectors 0x110100 0x110000 0x8000 0x9000 Demo.c0 ∅ Demo.c Demo.m Demo.r 64 0)
    as (_ & H); [reflexivity|reflexivity|vm_compute; split; congruence|intros; apply u32_range|lia|done|
                 exact Demo.switched|exact Demo.user|lia|vm_compute; split; congruence|].
  - destruct (H true) as (_ & r' & m' & E & _ & Hl & _ & Hf & _); [done|].
    exists r', m'. split; [exact E|]. split; [exact Hl|exact Hf].
Defined.
