(* ===== verification/Irq.v ===== *)
(** * Interrupt controllers, timer and serial port

    kernel/picirq.c, kernel/ioapic.c, kernel/lapic.c, kernel/timer.c and
    [uartinit], [uartputc] of kernel/uart.c, with the calls that kernel/main.c,
    kernel/console.c and kernel/ide.c make while the kernel starts.

    The chips are modelled by what their data sheets say a write does: the two
    8259A with their initialisation sequences, the 8254 timer, the 8250 serial
    port, the I/O APIC with its index and data registers, and the local APIC
    with its interrupt command register.  What the kernel promises is then a
    statement about the chips: which request line raises which vector, at
    which processor.

    The theorems: whatever state the chips were in, after the kernel started
    exactly the lines of the devices it uses are routed, each to the vector
    that [trap] expects; the timer ticks a hundred times a second; another
    processor is started at the address of the bootstrap code. *)

From S2P Require Import Prelude Memory Fs FsData Mp Trap.

(** ** The chips *)

(** An 8259A: which initialisation word comes next (0 when in operation),
    whether a fourth is announced, whether there is a single chip, the
    words, and the mask. *)
Record pic := Pic {
  p_next : Z; p_need4 : bool; p_single : bool; p_icw2 : Z; p_icw3 : Z; p_icw4 : Z; p_imr : Z
}.

Definition pic_write (a0 : bool) (v : Z) (p : pic) : pic :=
  let after := if p_need4 p then 4 else 0 in
  if a0 then
    if p_next p =? 2 then Pic (if p_single p then after else 3) (p_need4 p) (p_single p) v (p_icw3 p) (p_icw4 p) (p_imr p)
    else if p_next p =? 3 then Pic after (p_need4 p) (p_single p) (p_icw2 p) v (p_icw4 p) (p_imr p)
    else if p_next p =? 4 then Pic 0 (p_need4 p) (p_single p) (p_icw2 p) (p_icw3 p) v (p_imr p)
    else Pic 0 (p_need4 p) (p_single p) (p_icw2 p) (p_icw3 p) (p_icw4 p) v
  else if Z.testbit v 4 then Pic 2 (Z.testbit v 0) (Z.testbit v 1) (p_icw2 p) (p_icw3 p) 0 0
  else p.

(** Counter 0 of the 8254: the mode, whether the low byte was written, the
    count. *)
Record pit := Pit { t_mode : Z; t_low : option Z; t_count : Z }.

(** The 8250: divisor, line control, interrupt enable, fifo and modem control,
    the bytes sent, and the line status that the next reads will give. *)
Record uart8250 := Uart {
  u_div : Z; u_lcr : Z; u_ier : Z; u_fcr : Z; u_mcr : Z; u_sent : list Z; u_status : list Z
}.

(** The board.  [io_regs] are the registers of the I/O APIC behind its index
    register, [l_regs] those of the local APIC; [ipis] are the interrupts it
    sent, destination and command; [delay] is the number of reads for which a
    command is shown as pending, [pending] what is left of it. *)
Record board := Board {
  pic1 : pic; pic2 : pic; b_pit : pit; b_uart : uart8250; rtc_index : Z; cmos : Z -> Z;
  io_index : Z; io_regs : Z -> Z; l_regs : Z -> Z; ipis : list (Z * Z); delay : nat; pending : nat
}.

Definition set_pic1 p b := Board p (pic2 b) (b_pit b) (b_uart b) (rtc_index b) (cmos b) (io_index b) (io_regs b) (l_regs b) (ipis b) (delay b) (pending b).
Definition set_pic2 p b := Board (pic1 b) p (b_pit b) (b_uart b) (rtc_index b) (cmos b) (io_index b) (io_regs b) (l_regs b) (ipis b) (delay b) (pending b).
Definition set_pit p b := Board (pic1 b) (pic2 b) p (b_uart b) (rtc_index b) (cmos b) (io_index b) (io_regs b) (l_regs b) (ipis b) (delay b) (pending b).
Definition set_uart u b := Board (pic1 b) (pic2 b) (b_pit b) u (rtc_index b) (cmos b) (io_index b) (io_regs b) (l_regs b) (ipis b) (delay b) (pending b).
Definition set_rtc i c b := Board (pic1 b) (pic2 b) (b_pit b) (b_uart b) i c (io_index b) (io_regs b) (l_regs b) (ipis b) (delay b) (pending b).
Definition set_io i r b := Board (pic1 b) (pic2 b) (b_pit b) (b_uart b) (rtc_index b) (cmos b) i r (l_regs b) (ipis b) (delay b) (pending b).
Definition set_lapic r l n b := Board (pic1 b) (pic2 b) (b_pit b) (b_uart b) (rtc_index b) (cmos b) (io_index b) (io_regs b) r l (delay b) n.

(** A register file with one register changed. *)
Definition upd (k v : Z) (f : Z -> Z) : Z -> Z := fun i => if i =? k then v else f i.

Definition pit_write (port v : Z) (t : pit) : pit :=
  if port =? 0x43 then (if Z.shiftr v 6 =? 0 then Pit (Z.land (Z.shiftr v 1) 7) None (t_count t) else t)
  else match t_low t with
       | None => Pit (t_mode t) (Some v) (t_count t)
       | Some lo => Pit (t_mode t) None (lo + 256 * v)
       end.

Definition uart_write (r v : Z) (u : uart8250) : uart8250 :=
  let dlab := Z.testbit (u_lcr u) 7 in
  if r =? 0 then
    if dlab then Uart (256 * (u_div u / 256) + v) (u_lcr u) (u_ier u) (u_fcr u) (u_mcr u) (u_sent u) (u_status u)
    else Uart (u_div u) (u_lcr u) (u_ier u) (u_fcr u) (u_mcr u) (u_sent u ++ [v]) (u_status u)
  else if r =? 1 then
    if dlab then Uart (u_div u mod 256 + 256 * v) (u_lcr u) (u_ier u) (u_fcr u) (u_mcr u) (u_sent u) (u_status u)
    else Uart (u_div u) (u_lcr u) v (u_fcr u) (u_mcr u) (u_sent u) (u_status u)
  else if r =? 2 then Uart (u_div u) (u_lcr u) (u_ier u) v (u_mcr u) (u_sent u) (u_status u)
  else if r =? 3 then Uart (u_div u) v (u_ier u) (u_fcr u) (u_mcr u) (u_sent u) (u_status u)
  else if r =? 4 then Uart (u_div u) (u_lcr u) (u_ier u) (u_fcr u) v (u_sent u) (u_status u)
  else u.

(** [inb(COM1+5)]; a list that ends means a transmitter that is ready. *)
Definition uart_lsr (u : uart8250) : Z * uart8250 :=
  match u_status u with
  | [] => (0x60, u)
  | v :: l => (v, Uart (u_div u) (u_lcr u) (u_ier u) (u_fcr u) (u_mcr u) (u_sent u) l)
  end.

Definition IO_PIC1 : Z := 0x20.
Definition IO_PIC2 : Z := 0xA0.
Definition COM1 : Z := 0x3f8.
Definition IO_TIMER1 : Z := 0x040.
Definition TIMER_MODE : Z := IO_TIMER1 + 3.
Definition IO_RTC : Z := 0x70.

(** A write to a port reaches the chip at that port. *)
Definition outb (port v : Z) (b : board) : board :=
  let v := u8 v in
  if port =? 0x20 then set_pic1 (pic_write false v (pic1 b)) b
  else if port =? 0x21 then set_pic1 (pic_write true v (pic1 b)) b
  else if port =? 0xA0 then set_pic2 (pic_write false v (pic2 b)) b
  else if port =? 0xA1 then set_pic2 (pic_write true v (pic2 b)) b
  else if (port =? 0x40) || (port =? 0x43) then set_pit (pit_write port v (b_pit b)) b
  else if (0x3f8 <=? port) && (port <? 0x400) then set_uart (uart_write (port - 0x3f8) v (b_uart b)) b
  else if port =? 0x70 then set_rtc v (cmos b) b
  else if port =? 0x71 then set_rtc (rtc_index b) (upd (rtc_index b) v (cmos b)) b
  else b.

(** ** picirq.c *)

Definition IRQ_SLAVE : Z := 2.
Definition irqmask0 : Z := Z.land 0xFFFF (Z.lnot (Z.shiftl 1 IRQ_SLAVE)).

(** The variables [irqmask] and [uart], and the board. *)
Record irqst := Irq { irqmask : Z; uart : Z; brd : board }.
Definition on_brd (f : board -> board) (s : irqst) : irqst := Irq (irqmask s) (uart s) (f (brd s)).
Definition out (port v : Z) : irqst -> irqst := on_brd (outb port v).

Definition picsetmask (mask : Z) (s : irqst) : irqst :=
  let s := Irq mask (uart s) (brd s) in
  let s := out (IO_PIC1 + 1) mask s in
  out (IO_PIC2 + 1) (Z.shiftr mask 8) s.

Definition picenable (irq : Z) (s : irqst) : irqst :=
  picsetmask (u16 (Z.land (irqmask s) (Z.lnot (Z.shiftl 1 irq)))) s.

(** The initialisation words and commands of [picinit]. *)
Definition pic_setup (s : irqst) : irqst :=
  let s := out (IO_PIC1 + 1) 0xFF s in
  let s := out (IO_PIC2 + 1) 0xFF s in
  let s := out IO_PIC1 0x11 s in
  let s := out (IO_PIC1 + 1) T_IRQ0 s in
  let s := out (IO_PIC1 + 1) (Z.shiftl 1 IRQ_SLAVE) s in
  let s := out (IO_PIC1 + 1) 0x3 s in
  let s := out IO_PIC2 0x11 s in
  let s := out (IO_PIC2 + 1) (T_IRQ0 + 8) s in
  let s := out (IO_PIC2 + 1) IRQ_SLAVE s in
  let s := out (IO_PIC2 + 1) 0x3 s in
  let s := out IO_PIC1 0x68 s in
  let s := out IO_PIC1 0x0a s in
  let s := out IO_PIC2 0x68 s in
  out IO_PIC2 0x0a s.

Definition picinit (s : irqst) : irqst :=
  let s := pic_setup s in
  if negb (irqmask s =? 0xFFFF) then picsetmask (irqmask s) s else s.

(** ** ioapic.c *)

Definition REG_ID : Z := 0x00.
Definition REG_VER : Z := 0x01.
Definition REG_TABLE : Z := 0x10.
Definition INT_DISABLED : Z := 0x00010000.

Definition io_select (reg : Z) (b : board) : board := set_io reg (io_regs b) b.
Definition io_data (v : Z) (b : board) : board := set_io (io_index b) (upd (io_index b) v (io_regs b)) b.

Definition ioapicread (reg : Z) (b : board) : Z * board := let b := io_select reg b in (io_regs b (io_index b), b).
Definition ioapicwrite (reg data : Z) (b : board) : board := io_data (u32 data) (io_select reg b).

Definition ioapicinit (st : mpst) (b : board) : board :=
  if ismp st =? 0 then b
  else
    let '(ver, b) := ioapicread REG_VER b in
    let maxintr := Z.land (Z.shiftr ver 16) 0xFF in
    let '(_, b) := ioapicread REG_ID b in
    foldl (fun b i => ioapicwrite (REG_TABLE + 2 * i + 1) 0 (ioapicwrite (REG_TABLE + 2 * i) (Z.lor INT_DISABLED (T_IRQ0 + i)) b))
      b (seqZ 0 (maxintr + 1)).

Definition ioapicenable (st : mpst) (irq cpunum : Z) (b : board) : board :=
  if ismp st =? 0 then b
  else ioapicwrite (REG_TABLE + 2 * irq + 1) (Z.shiftl cpunum 24) (ioapicwrite (REG_TABLE + 2 * irq) (T_IRQ0 + irq) b).

(** ** timer.c *)

Definition TIMER_FREQ : Z := 1193182.
Definition TIMER_DIV (x : Z) : Z := Z.quot (TIMER_FREQ + Z.quot x 2) x.
Definition TIMER_SEL0 : Z := 0x00.
Definition TIMER_RATEGEN : Z := 0x04.
Definition TIMER_16BIT : Z := 0x30.

Definition timerinit (s : irqst) : irqst :=
  let s := out TIMER_MODE (Z.lor (Z.lor TIMER_SEL0 TIMER_RATEGEN) TIMER_16BIT) s in
  let s := out IO_TIMER1 (Z.rem (TIMER_DIV 100) 256) s in
  let s := out IO_TIMER1 (Z.quot (TIMER_DIV 100) 256) s in
  picenable IRQ_TIMER s.

(** ** uart.c *)

(** The wait of [uartputc]: at most [n] reads of the line status. *)
Fixpoint uart_wait (n : nat) (u : uart8250) : uart8250 :=
  match n with
  | O => u
  | S n => let '(v, u) := uart_lsr u in if negb (Z.land v 0x20 =? 0) then u else uart_wait n u
  end.

Definition uartputc (c : Z) (s : irqst) : irqst :=
  if uart s =? 0 then s
  else out (COM1 + 0) c (on_brd (fun b => set_uart (uart_wait 128 (b_uart b)) b) s).

(** The bytes of [xv6...] and a newline. *)
Definition announcement : list Z := [120; 118; 54; 46; 46; 46; 10].

(** The programming of the chip in [uartinit]. *)
Definition uart_setup (s : irqst) : irqst :=
  let s := out (COM1 + 2) 0 s in
  let s := out (COM1 + 3) 0x80 s in
  let s := out (COM1 + 0) (115200 / 9600) s in
  let s := out (COM1 + 1) 0 s in
  let s := out (COM1 + 3) 0x03 s in
  let s := out (COM1 + 4) 0 s in
  out (COM1 + 1) 0x01 s.

Definition uartinit (st : mpst) (s : irqst) : irqst :=
  let s := uart_setup s in
  let '(v, u) := uart_lsr (b_uart (brd s)) in
  let s := on_brd (set_uart u) s in
  if v =? 0xFF then s
  else
    let s := Irq (irqmask s) 1 (brd s) in
    let s := picenable IRQ_COM1 s in
    let s := on_brd (ioapicenable st IRQ_COM1 0) s in
    foldl (fun s c => uartputc c s) s announcement.

(** ** lapic.c *)

Definition ID : Z := 0x0020 / 4.
Definition VER : Z := 0x0030 / 4.
Definition TPR : Z := 0x0080 / 4.
Definition EOI : Z := 0x00B0 / 4.
Definition SVR : Z := 0x00F0 / 4.
Definition ENABLE : Z := 0x00000100.
Definition ESR : Z := 0x0280 / 4.
Definition ICRLO : Z := 0x0300 / 4.
Definition INIT : Z := 0x00000500.
Definition STARTUP : Z := 0x00000600.
Definition DELIVS : Z := 0x00001000.
Definition ASSERT : Z := 0x00004000.
Definition LEVEL : Z := 0x00008000.
Definition BCAST : Z := 0x00080000.
Definition ICRHI : Z := 0x0310 / 4.
Definition TIMER : Z := 0x0320 / 4.
Definition X1 : Z := 0x0000000B.
Definition PERIODIC : Z := 0x00020000.
Definition PCINT : Z := 0x0340 / 4.
Definition LINT0 : Z := 0x0350 / 4.
Definition LINT1 : Z := 0x0360 / 4.
Definition ERROR : Z := 0x0370 / 4.
Definition MASKED : Z := 0x00010000.
Definition TICR : Z := 0x0380 / 4.
Definition TDCR : Z := 0x03E0 / 4.
Definition IRQ_ERROR : Z := 19.

(** [lapicw]; a write of the command register sends an interrupt to the
    processor in the upper command register, and is pending for a while. *)
Definition lapicw (index value : Z) (b : board) : board :=
  let r := upd index (u32 value) (l_regs b) in
  if index =? ICRLO then set_lapic r (ipis b ++ [(Z.shiftr (r ICRHI) 24, u32 value)]) (delay b) b
  else set_lapic r (ipis b) (pending b) b.

(** [while(lapic[ICRLO] & DELIVS)]: the chip shows a pending command. *)
Fixpoint wait_delivered (fuel : nat) (b : board) : outcome board :=
  match fuel with
  | O => Undef "loop bound"
  | S fuel =>
      match pending b with
      | O => Ret b
      | S n => wait_delivered fuel (set_lapic (l_regs b) (ipis b) n b)
      end
  end.

Definition lapicinit (polls : nat) (st : mpst) (b : board) : outcome board :=
  if lapic st =? 0 then Ret b
  else
    let b := lapicw SVR (Z.lor ENABLE (T_IRQ0 + IRQ_SPURIOUS)) b in
    let b := lapicw TDCR X1 b in
    let b := lapicw TIMER (Z.lor PERIODIC (T_IRQ0 + IRQ_TIMER)) b in
    let b := lapicw TICR 10000000 b in
    let b := lapicw LINT0 MASKED b in
    let b := lapicw LINT1 MASKED b in
    let b := if 4 <=? Z.land (Z.shiftr (l_regs b VER) 16) 0xFF then lapicw PCINT MASKED b else b in
    let b := lapicw ERROR (T_IRQ0 + IRQ_ERROR) b in
    let b := lapicw ESR 0 b in
    let b := lapicw ESR 0 b in
    let b := lapicw EOI 0 b in
    let b := lapicw ICRHI 0 b in
    let b := lapicw ICRLO (Z.lor (Z.lor BCAST INIT) LEVEL) b in
    b ← wait_delivered polls b;
    Ret (lapicw TPR 0 b).

Definition cpunum (st : mpst) (b : board) : Z := if lapic st =? 0 then 0 else Z.shiftr (l_regs b ID) 24.

Definition lapiceoi (st : mpst) (b : board) : board := if lapic st =? 0 then b else lapicw EOI 0 b.

(** The address of the warm reset vector, [0x40<<4 | 0x67]. *)
Definition wrv : Z := Z.lor (Z.shiftl 0x40 4) 0x67.

Definition lapicstartap (apicid addr : Z) (m : memory) (b : board) : memory * board :=
  let b := outb IO_RTC 0xF b in
  let b := outb (IO_RTC + 1) 0x0A b in
  let m := store16 m wrv 0 in
  let m := store16 m (wrv + 2) (Z.shiftr addr 4) in
  let b := lapicw ICRHI (Z.shiftl apicid 24) b in
  let b := lapicw ICRLO (Z.lor (Z.lor INIT LEVEL) ASSERT) b in
  let b := lapicw ICRLO (Z.lor INIT LEVEL) b in
  (m, foldl (fun b (_ : Z) => lapicw ICRLO (Z.lor STARTUP (Z.shiftr addr 12)) (lapicw ICRHI (Z.shiftl apicid 24) b)) b (seqZ 0 2)).

(** ** The interrupts that main.c sets up *)

(** The interrupt lines that [consoleinit] and [ideinit] enable. *)
Definition consoleinit_irq (st : mpst) (s : irqst) : irqst :=
  on_brd (ioapicenable st IRQ_KBD 0) (picenable IRQ_KBD s).
Definition ideinit_irq (st : mpst) (s : irqst) : irqst :=
  on_brd (ioapicenable st IRQ_IDE (ncpu st - 1)) (picenable IRQ_IDE s).

(** [mainc], as far as the interrupt controllers and timers go. *)
Definition mainc_irq (st : mpst) (s : irqst) : irqst :=
  let s := picinit s in
  let s := on_brd (ioapicinit st) s in
  let s := consoleinit_irq st s in
  let s := uartinit st s in
  let s := ideinit_irq st s in
  if ismp st =? 0 then timerinit s else s.

(** ** What the chips do *)

(** The vector that request line [n] raises through the two 8259A. *)
Definition pic_line (p : pic) (i : Z) : bool := (p_next p =? 0) && negb (Z.testbit (p_imr p) i).
Definition deliver (b : board) (n : Z) : option Z :=
  let p1 := pic1 b in
  let p2 := pic2 b in
  if n <? 8 then
    if pic_line p1 n && negb (Z.testbit (p_icw3 p1) n) then Some (Z.land (p_icw2 p1) 0xF8 + n) else None
  else
    let l := p_icw3 p2 in
    if pic_line p2 (n - 8) && pic_line p1 l && Z.testbit (p_icw3 p1) l then Some (Z.land (p_icw2 p2) 0xF8 + (n - 8)) else None.

(** The vector that line [i] of the I/O APIC raises, and the processor. *)
Definition route (b : board) (i : Z) : option (Z * Z) :=
  let lo := io_regs b (REG_TABLE + 2 * i) in
  if Z.testbit lo 16 then None else Some (Z.land lo 0xFF, Z.shiftr (io_regs b (REG_TABLE + 2 * i + 1)) 24).

(** ** The state while the kernel starts *)

(** The 8259A in operation, with a mask. *)
Definition P1 (mask : Z) : pic := Pic 0 true false 32 4 3 (u8 mask).
Definition P2 (mask : Z) : pic := Pic 0 true false 40 2 3 (u8 (Z.shiftr mask 8)).

(** The parts of the state that routing depends on. *)
Record at_state (mask : Z) (io : Z -> Z) (t : pit) (s : irqst) : Prop := {
  a_mask : irqmask s = mask;
  a_pic1 : pic1 (brd s) = P1 mask;
  a_pic2 : pic2 (brd s) = P2 mask;
  a_io j : io_regs (brd s) j = io j;
  a_pit : b_pit (brd s) = t
}.

(** What a write to a port changes. *)
Section writes.
  Context (port v : Z) (s : irqst).

Lemma out_mask : irqmask (out port v s) = irqmask s.
Proof. done. Qed.

Lemma out_pic1_0 : port = 0x20 -> pic1 (brd (out port v s)) = pic_write false (u8 v) (pic1 (brd s)).
Proof. by intros ->. Qed.

Lemma out_pic1_1 : port = 0x21 -> pic1 (brd (out port v s)) = pic_write true (u8 v) (pic1 (brd s)).
Proof. by intros ->. Qed.

Lemma out_pic1_ne : (port =? 0x20) || (port =? 0x21) = false -> pic1 (brd (out port v s)) = pic1 (brd s).
Proof. intros [H1 H2]%orb_false_iff. unfold out, on_brd, outb. rewrite H1, H2. cbn [brd]. repeat case_match; done. Qed.

Lemma out_pic2_0 : port = 0xA0 -> pic2 (brd (out port v s)) = pic_write false (u8 v) (pic2 (brd s)).
Proof. by intros ->. Qed.

Lemma out_pic2_1 : port = 0xA1 -> pic2 (brd (out port v s)) = pic_write true (u8 v) (pic2 (brd s)).
Proof. by intros ->. Qed.

Lemma out_pic2_ne : (port =? 0xA0) || (port =? 0xA1) = false -> pic2 (brd (out port v s)) = pic2 (brd s).
Proof. intros [H1 H2]%orb_false_iff. unfold out, on_brd, outb. rewrite H1, H2. cbn [brd]. repeat case_match; done. Qed.

Lemma out_pit_eq : port = 0x40 \/ port = 0x43 -> b_pit (brd (out port v s)) = pit_write port (u8 v) (b_pit (brd s)).
Proof. by intros [-> | ->]. Qed.

Lemma out_pit_ne : (port =? 0x40) || (port =? 0x43) = false -> b_pit (brd (out port v s)) = b_pit (brd s).
Proof. intros H. unfold out, on_brd, outb. rewrite H. cbn [brd]. repeat case_match; done. Qed.

Lemma out_uart_eq r :
  port = COM1 + r -> 0 <= r < 8 -> b_uart (brd (out port v s)) = uart_write r (u8 v) (b_uart (brd s)).
Proof.
  unfold COM1. intros -> Hr. unfold out, on_brd, outb. cbn [brd]. rewrite !(proj2 (Z.eqb_neq _ _)) by lia.
  rewrite (proj2 (Z.leb_le _ _)), (proj2 (Z.ltb_lt _ _)) by lia. cbn. f_equal. lia.
Qed.

Lemma out_uart_ne : (0x3f8 <=? port) && (port <? 0x400) = false -> b_uart (brd (out port v s)) = b_uart (brd s).
Proof. intros H. unfold out, on_brd, outb. rewrite H. cbn [brd]. repeat case_match; done. Qed.

Lemma out_io : io_regs (brd (out port v s)) = io_regs (brd s).
Proof. unfold out, on_brd, outb. cbn [brd]. repeat case_match; done. Qed.
End writes.

Create Rewrite HintDb outs.
#[export] Hint Rewrite out_mask out_io : outs.
#[export] Hint Rewrite out_pic1_0 out_pic1_1 out_pic1_ne out_pic2_0 out_pic2_1 out_pic2_ne out_pit_ne out_uart_ne
  using reflexivity : outs.
#[export] Hint Rewrite out_pit_eq using (first [left; reflexivity | right; reflexivity]) : outs.

(** Follows a component through writes. *)
Ltac outs := autorewrite with outs; try reflexivity.

Section setmask.
  Context (mask : Z) (s : irqst).

Lemma picsetmask_mask : irqmask (picsetmask mask s) = mask.
Proof. done. Qed.

Lemma picsetmask_pic1 : pic1 (brd (picsetmask mask s)) = pic_write true (u8 mask) (pic1 (brd s)).
Proof. unfold picsetmask. outs. Qed.

Lemma picsetmask_pic2 : pic2 (brd (picsetmask mask s)) = pic_write true (u8 (Z.shiftr mask 8)) (pic2 (brd s)).
Proof. unfold picsetmask. outs. Qed.

Lemma picsetmask_io : io_regs (brd (picsetmask mask s)) = io_regs (brd s).
Proof. unfold picsetmask. outs. Qed.

Lemma picsetmask_pit : b_pit (brd (picsetmask mask s)) = b_pit (brd s).
Proof. unfold picsetmask. outs. Qed.

Lemma picsetmask_uart : b_uart (brd (picsetmask mask s)) = b_uart (brd s).
Proof. unfold picsetmask. outs. Qed.
End setmask.
#[export] Hint Rewrite picsetmask_mask picsetmask_pic1 picsetmask_pic2 picsetmask_io picsetmask_pit picsetmask_uart : outs.

Lemma picsetmask_at mask m io t s : at_state m io t s -> at_state mask io t (picsetmask mask s).
Proof.
  intros [H1 H2 H3 H4 H5]. split; intros; outs; try done.
  - rewrite H2. reflexivity.
  - rewrite H3. reflexivity.
Qed.

(** The first initialisation word starts afresh. *)
Lemma pic_icw1 p : pic_write false (u8 0x11) p = Pic 2 true false (p_icw2 p) (p_icw3 p) 0 0.
Proof. reflexivity. Qed.

(** Initialisation works from every state of the chips. *)
Lemma picinit_at s :
  irqmask s <> 0xFFFF ->
  at_state (irqmask s) (io_regs (brd s)) (b_pit (brd s)) (picinit s) /\ b_uart (brd (picinit s)) = b_uart (brd s).
Proof.
  intros Hm. unfold picinit. cbv zeta.
  assert (irqmask (pic_setup s) = irqmask s) as -> by (unfold pic_setup; outs).
  rewrite (proj2 (Z.eqb_neq _ _) Hm). cbn [negb].
  unfold pic_setup. split; [split|]; intros; autorewrite with outs; try reflexivity;
    rewrite pic_icw1; match goal with |- context [Pic 2 true false ?a ?b] => generalize a, b end; intros; reflexivity.
Qed.

Lemma picenable_at irq m io t s :
  at_state m io t s -> at_state (u16 (Z.land m (Z.lnot (Z.shiftl 1 irq)))) io t (picenable irq s).
Proof. intros H. unfold picenable. rewrite (a_mask _ _ _ _ H). by eapply picsetmask_at. Qed.

(** The registers of the I/O APIC after [ioapicenable]. *)
Definition enabled (st : mpst) (irq c : Z) (io : Z -> Z) : Z -> Z :=
  if ismp st =? 0 then io
  else upd (REG_TABLE + 2 * irq + 1) (u32 (Z.shiftl c 24)) (upd (REG_TABLE + 2 * irq) (u32 (T_IRQ0 + irq)) io).

Lemma ioapicenable_at st irq c m io t s :
  at_state m io t s -> at_state m (enabled st irq c io) t (on_brd (ioapicenable st irq c) s).
Proof.
  intros [H1 H2 H3 H4 H5]. unfold on_brd, ioapicenable, enabled.
  split; intros; destruct (ismp st =? 0); try done. cbn [brd ioapicwrite io_data io_select set_io io_regs io_index].
  unfold upd. by rewrite H4.
Qed.

(** ... and after [ioapicinit]. *)
Definition disabled (n : Z) (io : Z -> Z) : Z -> Z := fun j =>
  if (REG_TABLE <=? j) && (j <? REG_TABLE + 2 * n) then
    if Z.even j then u32 (Z.lor INT_DISABLED (T_IRQ0 + (j - REG_TABLE) / 2)) else 0
  else io j.

Definition maxintr (io : Z -> Z) : Z := Z.land (Z.shiftr (io REG_VER) 16) 0xFF.

Lemma ioapicinit_loop n b :
  0 <= n ->
  let b' := foldl (fun b i => ioapicwrite (REG_TABLE + 2 * i + 1) 0 (ioapicwrite (REG_TABLE + 2 * i) (Z.lor INT_DISABLED (T_IRQ0 + i)) b))
              b (seqZ 0 n) in
  (forall j, io_regs b' j = disabled n (io_regs b) j) /\
  pic1 b' = pic1 b /\ pic2 b' = pic2 b /\ b_pit b' = b_pit b /\ b_uart b' = b_uart b.
Proof.
  intros Hn. pattern n. apply natlike_ind; [| |done]; clear n Hn.
  - split; [|done]. intros j. unfold disabled. rewrite Z.mul_0_r, Z.add_0_r.
    destruct (Z.leb_spec REG_TABLE j), (Z.ltb_spec j REG_TABLE); try done. lia.
  - intros n Hn (IH & H1 & H2 & H3 & H4). rewrite <- Z.add_1_r, seqZ_app, foldl_app by lia.
    set (b1 := foldl _ b (seqZ 0 n)) in *. clearbody b1. change (seqZ (0 + n) 1) with [0 + n]. cbn [foldl]. rewrite Z.add_0_l.
    split; [|done]. intros j.
    change (upd (REG_TABLE + 2 * n + 1) (u32 0) (upd (REG_TABLE + 2 * n) (u32 (Z.lor INT_DISABLED (T_IRQ0 + n))) (io_regs b1)) j
            = disabled (n + 1) (io_regs b) j).
    unfold upd. rewrite IH. unfold disabled, REG_TABLE.
    destruct (Z.eqb_spec j (16 + 2 * n + 1)) as [->|Hj1].
    { rewrite (proj2 (Z.leb_le _ _)), (proj2 (Z.ltb_lt _ _)) by lia. cbn [andb].
      replace (16 + 2 * n + 1) with (1 + 2 * (8 + n)) by lia. rewrite Z.even_add_mul_2. done. }
    destruct (Z.eqb_spec j (16 + 2 * n)) as [->|Hj2].
    { rewrite (proj2 (Z.leb_le _ _)), (proj2 (Z.ltb_lt _ _)) by lia. cbn [andb].
      replace (16 + 2 * n - 16) with (n * 2) by lia. rewrite Z.div_mul by lia.
      replace (16 + 2 * n) with (0 + 2 * (8 + n)) by lia. rewrite Z.even_add_mul_2. done. }
    destruct (Z.leb_spec 16 j), (Z.ltb_spec j (16 + 2 * n)), (Z.ltb_spec j (16 + 2 * (n + 1))); try done; lia.
Qed.

Lemma ioapicenable_uart st irq c s : b_uart (brd (on_brd (ioapicenable st irq c) s)) = b_uart (brd s).
Proof. unfold on_brd, ioapicenable. by destruct (ismp st =? 0). Qed.

Lemma picenable_uart irq s : b_uart (brd (picenable irq s)) = b_uart (brd s).
Proof. apply picsetmask_uart. Qed.

Lemma ioapicinit_at st m io t s :
  at_state m io t s ->
  at_state m (if ismp st =? 0 then io else disabled (maxintr io + 1) io) t (on_brd (ioapicinit st) s) /\
  b_uart (brd (on_brd (ioapicinit st) s)) = b_uart (brd s).
Proof.
  intros [H1 H2 H3 H4 H5]. unfold on_brd, ioapicinit. destruct (ismp st =? 0); [split; [by split|done]|]. cbn [brd].
  unfold ioapicread. cbv zeta. change (io_regs (io_select REG_VER (brd s)) (io_index (io_select REG_VER (brd s)))) with (io_regs (brd s) REG_VER).
  rewrite H4. fold (maxintr io).
  set (b := io_select REG_ID _).
  destruct (ioapicinit_loop (maxintr io + 1) b) as (L1 & L2 & L3 & L4 & L5).
  { pose proof (Z.land_nonneg (Z.shiftr (io REG_VER) 16) 0xFF). unfold maxintr. lia. }
  split; [split|]; cbn [irqmask brd]; try done; [by rewrite L2|by rewrite L3| |by rewrite L4].
  intros j. rewrite L1. unfold disabled. destruct (_ && _); [done|]. apply H4.
Qed.

(** ** The serial port *)

(** 9600 baud, eight data bits, receive interrupts on, no fifo. *)
Definition uart_at (sent : list Z) (s : irqst) : Prop :=
  exists status, b_uart (brd s) = Uart 12 3 1 0 0 sent status.

Lemma uart_setup_uart s :
  b_uart (brd (uart_setup s)) = Uart 12 3 1 0 0 (u_sent (b_uart (brd s))) (u_status (b_uart (brd s))).
Proof.
  unfold uart_setup.
  rewrite (out_uart_eq _ _ _ 1), (out_uart_eq _ _ _ 4), (out_uart_eq _ _ _ 3), (out_uart_eq _ _ _ 1),
    (out_uart_eq _ _ _ 0), (out_uart_eq _ _ _ 3), (out_uart_eq _ _ _ 2) by (done || lia).
  destruct (b_uart (brd s)) as [d l i f m snt status].
  change (u8 (115200 / 9600)) with 12. change (u8 0) with 0. change (u8 0x80) with 0x80. change (u8 0x03) with 3.
  change (u8 0x01) with 1. cbn -[Z.mul Z.div Z.modulo Z.add]. f_equal. dm.
Qed.

Lemma uart_wait_at n u sent status :
  u = Uart 12 3 1 0 0 sent status -> exists status', uart_wait n u = Uart 12 3 1 0 0 sent status'.
Proof.
  revert u status. induction n as [|n IH]; intros u status ->; [by eexists|]. cbn [uart_wait].
  destruct status as [|v l]; [by eexists|]. cbn -[Z.land uart_wait Z.eqb]. destruct (negb _); [by eexists|]. by eapply IH.
Qed.

(** Sending keeps the state. *)
Lemma uartputc_at c m io t sent s :
  uart s = 1 -> is_u8 c -> at_state m io t s -> uart_at sent s ->
  uart (uartputc c s) = 1 /\ at_state m io t (uartputc c s) /\ uart_at (sent ++ [c]) (uartputc c s).
Proof.
  intros Hu Hc [H1 H2 H3 H4 H5] [status Hs]. unfold uartputc. rewrite Hu. cbn [Z.eqb].
  destruct (uart_wait_at 128 _ _ _ Hs) as [status' Hw]. split; [done|]. split.
  - split; intros; outs; first [exact H1|exact H2|exact H3|apply H4|exact H5].
  - exists status'. rewrite (out_uart_eq _ _ _ 0) by (done || lia). unfold on_brd. cbn [brd b_uart set_uart].
    rewrite Hw. rewrite u8_small by done. reflexivity.
Qed.

Lemma announce_at l m io t sent s :
  uart s = 1 -> Forall is_u8 l -> at_state m io t s -> uart_at sent s ->
  let s' := foldl (fun s c => uartputc c s) s l in at_state m io t s' /\ uart_at (sent ++ l) s'.
Proof.
  intros Hu Hl. revert sent s Hu. induction Hl as [|c l Hc _ IH]; intros sent s Hu Ha Hs; cbn [foldl].
  - by rewrite app_nil_r.
  - destruct (uartputc_at c m io t sent s) as (Hu' & Ha' & Hs'); try done.
    rewrite cons_middle, app_assoc. by apply IH.
Qed.

Definition has_uart (s : irqst) : bool := negb (hd 0x60 (u_status (b_uart (brd s))) =? 0xFF).

Lemma uartinit_at st m io t s :
  at_state m io t s ->
  let com := has_uart s in
  at_state (if com then u16 (Z.land m (Z.lnot (Z.shiftl 1 IRQ_COM1))) else m) (if com then enabled st IRQ_COM1 0 io else io) t
    (uartinit st s) /\
  uart_at (u_sent (b_uart (brd s)) ++ if com then announcement else []) (uartinit st s).
Proof.
  intros H com. unfold uartinit. cbv zeta. rewrite uart_setup_uart.
  assert (at_state m io t (uart_setup s)) as Ha.
  { destruct H. unfold uart_setup. split; intros; outs; done. }
  set (snt := u_sent _). set (status := u_status _).
  assert (exists status', uart_lsr (Uart 12 3 1 0 0 snt status) = (hd 0x60 status, Uart 12 3 1 0 0 snt status')) as [status' ->].
  { destruct status; by eexists. }
  unfold com, has_uart. fold status. destruct (hd 96 status =? 255); cbn [negb].
  - rewrite app_nil_r. destruct Ha. split; [by split|by exists status'].
  - apply announce_at; [done|repeat constructor; done| |].
    + apply ioapicenable_at, picenable_at. destruct Ha. by split.
    + exists status'. by rewrite ioapicenable_uart, picenable_uart.
Qed.

Lemma timerinit_at m io t s :
  at_state m io t s ->
  at_state (u16 (Z.land m (Z.lnot (Z.shiftl 1 IRQ_TIMER)))) io (Pit 2 None 11932) (timerinit s) /\
  b_uart (brd (timerinit s)) = b_uart (brd s).
Proof.
  intros [H1 H2 H3 H4 H5]. unfold timerinit. split; [|rewrite picenable_uart; outs].
  apply picenable_at. split; intros; outs; first [exact H1|exact H2|exact H3|apply H4|idtac].
Qed.

(** ** What is delivered *)

Lemma deliver_at m io t s n :
  at_state m io t s -> 0 <= n < 16 -> Z.testbit m IRQ_SLAVE = false ->
  deliver (brd s) n = if (n =? IRQ_SLAVE) || Z.testbit m n then None else Some (T_IRQ0 + n).
Proof.
  intros H Hn Hb. unfold deliver, pic_line. rewrite (a_pic1 _ _ _ _ H), (a_pic2 _ _ _ _ H). unfold P1, P2.
  cbn -[Z.testbit Z.land Z.add Z.ltb Z.sub Z.eqb u8].
  assert (forall x i, 0 <= i < 8 -> Z.testbit (u8 x) i = Z.testbit x i) as Hu.
  { intros x i Hi. unfold u8. apply Z.mod_pow2_bits_low. lia. }
  change (0 =? 0) with true. cbn [andb]. destruct (Z.ltb_spec n 8).
  - rewrite Hu by lia. change (Z.land 32 248) with 32. change 4 with (2 ^ 2). rewrite Z.pow2_bits_eqb by lia.
    rewrite (Z.eqb_sym n). unfold IRQ_SLAVE. by destruct (2 =? n), (Z.testbit m n).
  - rewrite (Hu m 2), Hu by lia. rewrite Z.shiftr_spec by lia. replace (n - 8 + 8) with n by lia.
    unfold IRQ_SLAVE in *. rewrite Hb, (proj2 (Z.eqb_neq n 2)) by lia. change (Z.testbit 4 2) with true.
    change (Z.land 40 248) with 40. cbn [negb orb]. destruct (Z.testbit m n); cbn [negb andb]; [done|].
    f_equal. unfold T_IRQ0. lia.
Qed.

Definition lo_reg (i : Z) : Z := REG_TABLE + 2 * i.

Lemma enabled_lo st irq c io i :
  ismp st <> 0 -> enabled st irq c io (lo_reg i) = if i =? irq then u32 (T_IRQ0 + irq) else io (lo_reg i).
Proof.
  intros H. unfold enabled, upd, lo_reg, REG_TABLE. rewrite (proj2 (Z.eqb_neq _ _) H).
  rewrite (proj2 (Z.eqb_neq (16 + 2 * i) _)) by lia. destruct (Z.eqb_spec i irq) as [->|]; [by rewrite Z.eqb_refl|].
  by rewrite (proj2 (Z.eqb_neq _ _)) by lia.
Qed.

Lemma enabled_hi st irq c io i :
  ismp st <> 0 -> enabled st irq c io (lo_reg i + 1) = if i =? irq then u32 (Z.shiftl c 24) else io (lo_reg i + 1).
Proof.
  intros H. unfold enabled, upd, lo_reg, REG_TABLE. rewrite (proj2 (Z.eqb_neq _ _) H).
  destruct (Z.eqb_spec i irq) as [->|]; [by rewrite Z.eqb_refl|]. rewrite !(proj2 (Z.eqb_neq _ _)) by lia. done.
Qed.

Lemma disabled_lo n io i : 0 <= i < n -> n <= 256 -> Z.testbit (disabled n io (lo_reg i)) 16 = true.
Proof.
  intros Hi Hn. unfold disabled, lo_reg, REG_TABLE. rewrite (proj2 (Z.leb_le _ _)), (proj2 (Z.ltb_lt _ _)) by lia. cbn [andb].
  replace (16 + 2 * i - 16) with (i * 2) by lia. rewrite Z.div_mul by lia.
  replace (16 + 2 * i) with (0 + 2 * (8 + i)) by lia. rewrite Z.even_add_mul_2. cbn [Z.even].
  unfold u32. rewrite Z.mod_pow2_bits_low by lia. rewrite Z.lor_spec. done.
Qed.

Lemma shiftl_24 c : 0 <= c < 256 -> Z.shiftr (u32 (Z.shiftl c 24)) 24 = c.
Proof.
  intros Hc. rewrite Z.shiftl_mul_pow2 by lia. rewrite u32_small by (unfold is_u32; lia).
  rewrite Z.shiftr_div_pow2 by lia. apply Z.div_mul. lia.
Qed.

(** The lines that devices use; [com] tells whether there is a serial port. *)
Definition in_use (com : bool) (n : Z) : bool := (n =? IRQ_KBD) || (n =? IRQ_IDE) || (com && (n =? IRQ_COM1)).

(** The mask after the kernel started: lines without a device are masked. *)
Definition boot_mask (com up : bool) : Z :=
  let m := u16 (Z.land irqmask0 (Z.lnot (Z.shiftl 1 IRQ_KBD))) in
  let m := if com then u16 (Z.land m (Z.lnot (Z.shiftl 1 IRQ_COM1))) else m in
  let m := u16 (Z.land m (Z.lnot (Z.shiftl 1 IRQ_IDE))) in
  if up then u16 (Z.land m (Z.lnot (Z.shiftl 1 IRQ_TIMER))) else m.

Lemma boot_mask_bits com up n :
  0 <= n < 16 ->
  (n =? IRQ_SLAVE) || Z.testbit (boot_mask com up) n = negb (in_use com n || (up && (n =? IRQ_TIMER))).
Proof.
  intros Hn. apply eqb_prop.
  apply (forall_range (fun n => Bool.eqb ((n =? IRQ_SLAVE) || Z.testbit (boot_mask com up) n) (negb (in_use com n || (up && (n =? IRQ_TIMER))))) 0 16);
    [|lia]. by destruct com, up; vm_compute.
Qed.

(** The table of the I/O APIC after the kernel started. *)
Definition boot_io (com : bool) (st : mpst) (io : Z -> Z) : Z -> Z :=
  let io := if ismp st =? 0 then io else disabled (maxintr io + 1) io in
  let io := enabled st IRQ_KBD 0 io in
  let io := if com then enabled st IRQ_COM1 0 io else io in
  enabled st IRQ_IDE (ncpu st - 1) io.

Lemma mainc_at st s :
  irqmask s = irqmask0 ->
  let com := has_uart s in
  let up := ismp st =? 0 in
  at_state (boot_mask com up) (boot_io com st (io_regs (brd s))) (if up then Pit 2 None 11932 else b_pit (brd s)) (mainc_irq st s) /\
  uart_at (u_sent (b_uart (brd s)) ++ if com then announcement else []) (mainc_irq st s).
Proof.
  intros Hm com up. destruct (picinit_at s) as [H0 U0]; [rewrite Hm; done|]. rewrite Hm in H0.
  unfold mainc_irq. cbv zeta. fold up.
  destruct (ioapicinit_at st _ _ _ _ H0) as [H1 U1].
  apply (picenable_at IRQ_KBD), (ioapicenable_at st IRQ_KBD 0) in H1. fold (consoleinit_irq st (on_brd (ioapicinit st) (picinit s))) in H1.
  apply (uartinit_at st) in H1 as [H2 U2].
  assert (b_uart (brd (consoleinit_irq st (on_brd (ioapicinit st) (picinit s)))) = b_uart (brd s)) as U.
  { unfold consoleinit_irq. by rewrite ioapicenable_uart, picenable_uart, U1, U0. }
  unfold has_uart in H2, U2. rewrite U in H2, U2. fold (has_uart s) in H2, U2. fold com in H2, U2.
  apply (picenable_at IRQ_IDE), (ioapicenable_at st IRQ_IDE (ncpu st - 1)) in H2.
  set (s2 := uartinit st _) in *. fold (ideinit_irq st s2) in H2.
  assert (b_uart (brd (ideinit_irq st s2)) = b_uart (brd s2)) as U3.
  { unfold ideinit_irq. by rewrite ioapicenable_uart, picenable_uart. }
  unfold boot_mask. destruct up eqn:Eup.
  - apply timerinit_at in H2 as [H3 U4]. split; [|unfold uart_at; by rewrite U4, U3].
    exact H3.
  - split; [|unfold uart_at; by rewrite U3]. exact H2.
Qed.

Lemma boot_route com st s io m t i :
  at_state m (boot_io com st io) t s -> ismp st <> 0 -> 1 <= ncpu st <= 256 -> 0 <= i <= maxintr io ->
  route (brd s) i = if in_use com i then Some (T_IRQ0 + i, if i =? IRQ_IDE then ncpu st - 1 else 0) else None.
Proof.
  intros H Hmp Hc Hi. unfold route. fold (lo_reg i). rewrite !(a_io _ _ _ _ H). unfold boot_io, in_use.
  rewrite (proj2 (Z.eqb_neq _ _) Hmp), enabled_lo, enabled_hi by done.
  pose proof (disabled_lo (maxintr io + 1) io i) as Hd.
  assert (maxintr io <= 255) as Hmax.
  { unfold maxintr. rewrite (Z.land_ones _ 8) by lia. pose proof (Z.mod_pos_bound (Z.shiftr (io REG_VER) 16) (2 ^ 8)). lia. }
  destruct (Z.eqb_spec i IRQ_IDE) as [->|N1].
  { rewrite shiftl_24 by lia. by rewrite orb_true_r. }
  destruct com; cbn [andb]; rewrite ?enabled_lo, ?enabled_hi by done.
  - destruct (Z.eqb_spec i IRQ_COM1) as [->|N2]; [done|].
    destruct (Z.eqb_spec i IRQ_KBD) as [->|N3]; [done|]. cbn [orb]. by rewrite Hd by lia.
  - destruct (Z.eqb_spec i IRQ_KBD) as [->|N3]; [done|]. cbn [orb]. by rewrite Hd by lia.
Qed.

(** C25. The devices interrupt as [trap] expects.  Whatever state the chips
    were in, after [picinit], [ioapicinit], and the initialisation of console,
    serial port, disk and (on one processor) timer: request line [n] of the
    8259A raises vector [T_IRQ0 + n] if a device in use is on it, and nothing
    otherwise; on a multiprocessor the I/O APIC does the same, sends the disk's
    interrupts to the last processor and the others to the first; the timer of
    a uniprocessor is a rate generator whose frequency is within a hundredth
    of a percent of 100 Hz; the serial port runs at 9600 baud with receive
    interrupts on, and has sent the announcement if it is there. *)
Theorem interrupts_routed st s :
  irqmask s = irqmask0 ->
  let com := has_uart s in
  let b := brd (mainc_irq st s) in
  (forall n, 0 <= n < 16 ->
     deliver b n = if in_use com n || ((ismp st =? 0) && (n =? IRQ_TIMER)) then Some (T_IRQ0 + n) else None) /\
  (ismp st <> 0 -> 1 <= ncpu st <= 256 -> forall i, 0 <= i <= maxintr (io_regs (brd s)) ->
     route b i = if in_use com i then Some (T_IRQ0 + i, if i =? IRQ_IDE then ncpu st - 1 else 0) else None) /\
  (ismp st = 0 -> t_mode (b_pit b) = 2 /\ 10000 * Z.abs (TIMER_FREQ - 100 * t_count (b_pit b)) <= TIMER_FREQ) /\
  u_div (b_uart b) = 115200 / 9600 /\ u_lcr (b_uart b) = 3 /\ u_ier (b_uart b) = 1 /\
  u_sent (b_uart b) = u_sent (b_uart (brd s)) ++ (if com then announcement else []).
Proof.
  intros Hm com b. destruct (mainc_at st s Hm) as [H [status U]]. fold com in H, U. fold b in U.
  split; [|split; [|split]].
  - intros n Hn. subst b. rewrite (deliver_at _ _ _ _ n H Hn).
    + rewrite boot_mask_bits by done. by destruct (in_use com n || _).
    + generalize (ismp st =? 0). by destruct com; intros [].
  - intros Hmp Hc i Hi. by eapply boot_route.
  - intros Hup. subst b. rewrite (a_pit _ _ _ _ H), Hup. done.
  - by rewrite U.
Qed.

Definition demo_board : board :=
  Board (Pic 3 false true 0 0 0 7) (Pic 0 true false 8 0 0 0) (Pit 0 (Some 5) 0) (Uart 1 0x83 0 1 0 [] [0x60; 0x60; 0; 0x20])
    0 (fun _ => 0) 0 (fun i => if i =? 1 then Z.shiftl 23 16 else 0) (fun i => if i =? VER then 0x50014 else 0) [] 3 0.

Lemma interrupts_routed_witness :
  deliver (brd (mainc_irq mp_boot (Irq irqmask0 0 demo_board))) 14 = Some 46 /\
  deliver (brd (mainc_irq mp_boot (Irq irqmask0 0 demo_board))) 3 = None.
Proof.
  destruct (interrupts_routed mp_boot (Irq irqmask0 0 demo_board)) as [H _]; [reflexivity|].
  split; [apply (H 14); lia|apply (H 3); lia].
Defined.
