(* ===== verification/Startup.v ===== *)
(** * Starting the processors (kernel/lapic.c, [bootothers] of kernel/main.c)

    The boot processor programs its local APIC, and starts the others one
    after the other: it copies the bootstrap code to the page at 0x7000, puts
    the address of a new stack and of [mpmain] below it, and sends the
    processor the sequence of interrupts that makes it start there.  The
    chips are those of Irq.v, the allocator is that of Kalloc.v.  The wait for
    [c->booted] ends when the started processor runs [mpmain]; the words it
    finds at that time are part of the result.

    The theorems: [lapicinit] ends and leaves the timer as the only local
    source of interrupts besides errors; every other processor is started
    exactly once, at the bootstrap code, with a stack of its own. *)

From S2P Require Import Prelude Memory Fs FsData Kalloc ProcOps Mp Trap Irq.

(** ** What the other processors do *)

(** Delivery mode and vector of an interrupt command. *)
Definition ipi_mode (cmd : Z) : Z := Z.land (Z.shiftr cmd 8) 7.
Definition ipi_vector (cmd : Z) : Z := Z.land cmd 0xFF.
Definition MODE_INIT : Z := 5.
Definition MODE_STARTUP : Z := 6.

(** Where a processor starts after a sequence of commands: an INIT makes it
    wait, the first STARTUP after it gives the page. *)
Fixpoint start_of (waiting : bool) (l : list Z) : option Z :=
  match l with
  | [] => None
  | cmd :: l =>
      if ipi_mode cmd =? MODE_INIT then start_of true l
      else if waiting && (ipi_mode cmd =? MODE_STARTUP) then Some (ipi_vector cmd * 4096)
      else start_of waiting l
  end.

(** The commands sent to processor [c]. *)
Definition sent_to (c : Z) (l : list (Z * Z)) : list Z := snd <$> filter (fun x => x.1 = c) l.

(** ** [bootothers] *)

Definition code : Z := 0x7000.

(** A processor that was started: its APIC, its stack pointer, and the
    address it calls. *)
Record started := Started { s_id : Z; s_esp : Z; s_call : Z }.

Section Main.
  Variables (mpmain start size : Z) (st : mpst).

(** The body of the loop for [c = &cpus[i]]. *)
Definition start_one (i : Z) (r : list started * kst * board) : outcome (list started * kst * board) :=
  let '(l, s, b) := r in
  if i =? cpunum st b then Ret r
  else
    id ← aget (ids st) i;
    '(stack, s) ← kalloc s;
    let m := store32 (mem s) (code - 4) (u32 (stack + KSTACKSIZE)) in
    let m := store32 m (code - 8) mpmain in
    let '(m, b) := lapicstartap id code m b in
    Ret (l ++ [Started id (load32 m (code - 4)) (load32 m (code - 8))], set_mem m s, b).

Definition bootothers (s : kst) (b : board) : outcome (list started * kst * board) :=
  let s := set_mem (memmove (mem s) code start size) s in
  foldl (fun r i => r ← r; start_one i r) (Ret ([], s, b)) (seqZ 0 (ncpu st)).
End Main.

(** ** The local APIC *)

Section lapicw.
  Context (index value : Z) (b : board).

Lemma lapicw_regs : l_regs (lapicw index value b) = upd index (u32 value) (l_regs b).
Proof. unfold lapicw. by destruct (index =? ICRLO). Qed.

Lemma lapicw_send :
  index = ICRLO -> ipis (lapicw index value b) = ipis b ++ [(Z.shiftr (l_regs b ICRHI) 24, u32 value)] /\ pending (lapicw index value b) = delay b.
Proof. by intros ->. Qed.

Lemma lapicw_ipis : (index =? ICRLO) = false -> ipis (lapicw index value b) = ipis b.
Proof. intros H. unfold lapicw. by rewrite H. Qed.

Lemma lapicw_pending : (index =? ICRLO) = false -> pending (lapicw index value b) = pending b.
Proof. intros H. unfold lapicw. by rewrite H. Qed.

Lemma lapicw_delay : delay (lapicw index value b) = delay b.
Proof. unfold lapicw. by destruct (index =? ICRLO). Qed.

Lemma lapicw_cmos : cmos (lapicw index value b) = cmos b.
Proof. unfold lapicw. by destruct (index =? ICRLO). Qed.
End lapicw.

Lemma upd_eq k v f : upd k v f k = v.
Proof. unfold upd. by rewrite Z.eqb_refl. Qed.

Lemma upd_ne i k v f : (i =? k) = false -> upd k v f i = f i.
Proof. intros H. unfold upd. by rewrite H. Qed.

Create Rewrite HintDb lapic.
#[export] Hint Rewrite upd_eq : lapic.
#[export] Hint Rewrite upd_ne using reflexivity : lapic.
#[export] Hint Rewrite lapicw_regs lapicw_delay lapicw_cmos : lapic.
#[export] Hint Rewrite lapicw_ipis lapicw_pending using reflexivity : lapic.
#[export] Hint Rewrite (fun v b => proj1 (lapicw_send ICRLO v b eq_refl)) (fun v b => proj2 (lapicw_send ICRLO v b eq_refl)) : lapic.

Lemma wait_delivered_ends polls b :
  (pending b < polls)%nat -> wait_delivered polls b = Ret (set_lapic (l_regs b) (ipis b) 0 b).
Proof.
  revert b. induction polls as [|polls IH]; intros b H; [lia|]. cbn [wait_delivered].
  destruct (pending b) as [|n] eqn:E; [destruct b; cbn in *; by subst|].
  rewrite IH by (cbn; lia). done.
Qed.

(** Which local sources of interrupts are on, and with which vector. *)
Definition lvt (b : board) (reg : Z) : option Z :=
  if Z.testbit (l_regs b reg) 16 then None else Some (Z.land (l_regs b reg) 0xFF).

Lemma lapicinit_spec polls st b :
  lapic st <> 0 -> (delay b < polls)%nat ->
  exists b', lapicinit polls st b = Ret b' /\
    lvt b' TIMER = Some (T_IRQ0 + IRQ_TIMER) /\ Z.testbit (l_regs b' TIMER) 17 = true /\ l_regs b' TICR = 10000000 /\
    lvt b' ERROR = Some (T_IRQ0 + IRQ_ERROR) /\ lvt b' LINT0 = None /\ lvt b' LINT1 = None /\
    (4 <= Z.land (Z.shiftr (l_regs b VER) 16) 0xFF -> lvt b' PCINT = None) /\
    Z.testbit (l_regs b' SVR) 8 = true /\ l_regs b' TPR = 0 /\ l_regs b' ID = l_regs b ID.
Proof.
  intros Hl Hp. unfold lapicinit. rewrite (proj2 (Z.eqb_neq _ _) Hl). cbv zeta.
  set (b1 := lapicw LINT1 MASKED _).
  assert (l_regs b1 VER = l_regs b VER) as -> by (subst b1; autorewrite with lapic; reflexivity).
  assert (delay b1 = delay b) as Hd by (subst b1; autorewrite with lapic; reflexivity).
  set (b2 := if 4 <=? _ then _ else _).
  assert (delay b2 = delay b) as Hd2. { subst b2. destruct (4 <=? _); autorewrite with lapic; done. }
  rewrite wait_delivered_ends by (autorewrite with lapic; rewrite Hd2; lia). cbn [mbind outcome_bind].
  assert (forall k, (k =? PCINT) = false -> l_regs b2 k = l_regs b1 k) as H2.
  { intros k Hk. subst b2. destruct (4 <=? _); [|done]. rewrite lapicw_regs. by apply upd_ne. }
  eexists. split; [reflexivity|]. unfold lvt. autorewrite with lapic. cbn [l_regs set_lapic]. autorewrite with lapic.
  rewrite !(H2 TIMER), (H2 TICR), !(H2 LINT0), !(H2 LINT1), (H2 SVR), (H2 ID) by reflexivity. subst b1. autorewrite with lapic.
  split_and!; try reflexivity.
  intros Hv. subst b2. rewrite (proj2 (Z.leb_le _ _) Hv). by autorewrite with lapic.
Qed.

(** ** [lapicstartap] *)

(** The commands that start a processor. *)
Definition start_cmds (addr : Z) : list Z :=
  [Z.lor (Z.lor INIT LEVEL) ASSERT; Z.lor INIT LEVEL; Z.lor STARTUP (Z.shiftr addr 12); Z.lor STARTUP (Z.shiftr addr 12)].

Lemma lapicstartap_spec id m b :
  0 <= id < 256 ->
  exists b', lapicstartap id code m b = (store16 (store16 m wrv 0) (wrv + 2) (Z.shiftr code 4), b') /\
    ipis b' = ipis b ++ ((fun cmd => (id, cmd)) <$> start_cmds code) /\
    cmos b' 0xF = 0x0A /\ l_regs b' ID = l_regs b ID.
Proof.
  intros Hid. unfold lapicstartap. eexists. split; [reflexivity|].
  change (seqZ 0 2) with [0; 1]. cbn [foldl]. autorewrite with lapic. rewrite shiftl_24 by done.
  split; [|split; reflexivity]. rewrite <- !app_assoc. reflexivity.
Qed.

(** ** Starting them all *)

(** Writes outside the free pages keep the allocator's invariant. *)
Lemma kinv_low kend s fl m' :
  kinv kend s fl -> (forall a, kend <= a -> rd8 m' a = rd8 (mem s) a) -> kinv kend (set_mem m' s) fl.
Proof.
  intros [Hl Hnd Hg Hsz Hseed Hh] Hm. split; try done. cbn [mem set_mem freelist].
  eapply lseg_ext; [|exact Hl]. intros p Hp. rewrite Forall_forall in Hg. destruct (Hg p Hp) as (_ & Hk & _).
  apply load32_ext. intros b Hb. apply Hm. lia.
Qed.

(** Processor [i] on the page [p]. *)
Definition on_stack (mpmain i p : Z) : started := Started i (p + KSTACKSIZE) mpmain.

(** The memory that starting a processor writes. *)
Definition low (a : Z) : Prop := code - 8 <= a < code \/ wrv <= a < wrv + 4.

Section starting.
  Context (mpmain : Z) (st : mpst) (kend : Z).
  Context (Hmain : is_u32 mpmain) (Hkend : code + PGSIZE <= kend).

(** One processor: its stack [p] comes off the free list. *)
Lemma start_one_spec i l s b fl :
  i <> cpunum st b -> aget (ids st) i = Ret i -> 0 <= i < 256 ->
  kinv kend s fl -> fl <> [] -> num_alloc s < Z.of_nat NALLOCATED ->
  exists p s' b' fl', start_one mpmain st i (l, s, b) = Ret (l ++ [Started i (p + KSTACKSIZE) mpmain], s', b') /\
    fl ≡ₚ p :: fl' /\ kinv kend s' fl' /\ num_alloc s' = num_alloc s + 1 /\
    cpunum st b' = cpunum st b /\ ipis b' = ipis b ++ ((fun cmd => (i, cmd)) <$> start_cmds code) /\
    cmos b' 0xF = 0x0A /\
    forall a, a < kend -> ~ low a -> rd8 (mem s') a = rd8 (mem s) a.
Proof.
  intros Hi Hid Hr Hk Hne Hroom. unfold start_one. rewrite (proj2 (Z.eqb_neq _ _) Hi), Hid. cbn [mbind outcome_bind].
  destruct (kalloc_spec _ _ _ Hk Hne Hroom) as (l1 & p & l2 & s1 & -> & _ & -> & Hk1 & Hm1 & _ & Hn1).
  cbn [mbind outcome_bind].
  assert (good_page kend p) as Hp. { apply (proj1 (Forall_forall _ _) (kinv_pages _ _ _ Hk)). set_solver. }
  set (m1 := store32 (store32 (mem s1) _ _) _ _).
  destruct (lapicstartap_spec i m1 b Hr) as (b' & -> & Hip & Hc & Hrg).
  set (m2 := store16 _ _ _).
  assert (forall a, ~ low a -> rd8 m2 a = rd8 (mem s1) a) as Hlow.
  { intros a Ha. unfold low in Ha. unfold m2, m1. rewrite !rd8_store16_ne, !rd8_store32_ne by lia. done. }
  assert (forall a, code - 8 <= a < code -> rd8 m2 a = rd8 m1 a) as Hcode.
  { intros a Ha. unfold m2. change wrv with 0x467. change code with 0x7000 in Ha. rewrite !rd8_store16_ne by lia. done. }
  assert (load32 m2 (code - 8) = mpmain) as ->.
  { rewrite (load32_ext m1) by (intros; apply Hcode; lia). unfold m1. rewrite load32_store32_eq. by apply u32_small. }
  assert (load32 m2 (code - 4) = p + KSTACKSIZE) as ->.
  { rewrite (load32_ext m1) by (intros; apply Hcode; lia). unfold m1. rewrite load32_store32_ne, load32_store32_eq by lia.
    destruct Hp as (_ & Hp1 & Hp2). unfold PHYSTOP, KSTACKSIZE in *. 
    rewrite (u32_small (u32 _)) by apply u32_range. apply u32_small. unfold is_u32, code, PGSIZE in *. lia. }
  eexists p, _, b', (l1 ++ l2). split; [reflexivity|]. split; [by rewrite Permutation_middle|].
  split. { apply kinv_low; [done|]. intros a Ha. apply Hlow. unfold low. change wrv with 0x467. unfold code, PGSIZE in *. lia. }
  split_and!; try done.
  - unfold cpunum. by rewrite Hrg.
  - intros a Ha Hl. cbn [mem set_mem]. rewrite Hlow by done. apply Hm1. intros q Hq [Hq1 _].
    assert (good_page kend q) as (_ & ? & _) by (apply (proj1 (Forall_forall _ _) (kinv_pages _ _ _ Hk)); set_solver). lia.
Qed.

Lemma start_all js l s b fl :
  Forall (fun i => aget (ids st) i = Ret i /\ 0 <= i < 256) js ->
  kinv kend s fl ->
  let todo := filter (fun i => i <> cpunum st b) js in
  (length todo <= length fl)%nat -> num_alloc s + Z.of_nat (length todo) <= Z.of_nat NALLOCATED ->
  exists ps s' b' fl',
    foldl (fun r i => r ← r; start_one mpmain st i r) (Ret (l, s, b)) js =
      Ret (l ++ zip_with (on_stack mpmain) todo ps, s', b') /\
    length ps = length todo /\ fl ≡ₚ ps ++ fl' /\ kinv kend s' fl' /\
    ipis b' = ipis b ++ concat ((fun i => (fun cmd => (i, cmd)) <$> start_cmds code) <$> todo) /\
    forall a, a < kend -> ~ low a -> rd8 (mem s') a = rd8 (mem s) a.
Proof.
  intros Hjs. revert l s b fl. induction Hjs as [|i js [Hid Hr] _ IH]; intros l s b fl Hk todo Hlen Hroom; subst todo.
  { exists [], s, b, fl. cbn. rewrite !app_nil_r. done. }
  cbn [foldl]. destruct (decide (i = cpunum st b)) as [Hi|Hi].
  - rewrite filter_cons_False in * by tauto. unfold start_one at 2. cbn [mbind outcome_bind].
    rewrite (proj2 (Z.eqb_eq _ _) Hi). by apply IH.
  - rewrite filter_cons_True in * by done. cbn [length] in *. cbn [mbind outcome_bind].
    destruct (start_one_spec i l s b fl) as (p & s1 & b1 & fl1 & -> & Hp & Hk1 & Hn1 & Hc1 & Hi1 & _ & Hm1); try done; [intros ->; cbn [length] in Hlen; lia|lia|].
    pose proof (Permutation_length Hp) as Hpl. cbn [length] in Hpl.
    destruct (IH (l ++ [Started i (p + KSTACKSIZE) mpmain]) s1 b1 fl1) as (ps & s' & b' & fl' & -> & H1 & H2 & H3 & H4 & H5);
      [done|rewrite Hc1; lia..|]. rewrite Hc1 in *.
    exists (p :: ps), s', b', fl'. cbn [zip_with length fmap list_fmap concat app]. rewrite <- app_assoc.
    split; [done|]. split; [lia|]. split; [by rewrite Hp, H2|]. split; [done|]. split.
    + rewrite H4, Hi1, <- app_assoc. done.
    + intros a Ha Hl. rewrite H5, Hm1; done.
Qed.
End starting.

(** Every started processor begins at the bootstrap code. *)
Lemma start_cmds_start : start_of false (start_cmds code) = Some code.
Proof. reflexivity. Qed.

Lemma sent_to_app c l1 l2 : sent_to c (l1 ++ l2) = sent_to c l1 ++ sent_to c l2.
Proof. unfold sent_to. by rewrite filter_app, fmap_app. Qed.

Lemma sent_to_one c i l : sent_to c ((fun cmd => (i, cmd)) <$> l) = if decide (i = c) then l else [].
Proof.
  unfold sent_to. induction l as [|x l IH]; cbn [fmap list_fmap]; [by case_decide|].
  rewrite filter_cons. cbn [fst]. case_decide as Hd; rewrite ?fmap_cons; cbn [snd]; by rewrite IH.
Qed.

Lemma sent_to_all c js cmds :
  NoDup js -> sent_to c (concat ((fun i => (fun cmd => (i, cmd)) <$> cmds) <$> js)) = if decide (c ∈ js) then cmds else [].
Proof.
  induction 1 as [|i js Hi _ IH]; [by rewrite decide_False by set_solver|].
  cbn [fmap list_fmap concat]. rewrite sent_to_app, sent_to_one. setoid_rewrite IH.
  destruct (decide (i = c)) as [->|Hne].
  - rewrite decide_False, app_nil_r, decide_True by set_solver. done.
  - apply decide_ext. set_solver.
Qed.

(** What the list of started processors says. *)
Section zip.
  Context (mpmain : Z).

Lemma zip_started_id js ps : length ps = length js -> s_id <$> zip_with (on_stack mpmain) js ps = js.
Proof. revert ps. induction js as [|j js IH]; intros [|p ps] H; cbn in *; try done. by rewrite IH by lia. Qed.

Lemma zip_started_esp js ps : length ps = length js -> s_esp <$> zip_with (on_stack mpmain) js ps = (fun p => p + KSTACKSIZE) <$> ps.
Proof. revert ps. induction js as [|j js IH]; intros [|p ps] H; cbn in *; try done. by rewrite IH by lia. Qed.

Lemma zip_started_call js ps : Forall (fun x => s_call x = mpmain) (zip_with (on_stack mpmain) js ps).
Proof. revert ps. induction js as [|j js IH]; intros [|p ps]; cbn; constructor; done. Qed.
End zip.

(** C26. The processors are started.  [lapicinit] ends, with the timer and the
    error interrupt on at the vectors of [trap] and everything else off.
    [bootothers] starts every processor but the one it runs on, once each and
    in order: the commands sent to it make it begin at the page of the
    bootstrap code, which holds the copied image; it finds there the top of a
    stack that came off the free list and no other processor has, and the
    address of [mpmain]. *)
Theorem processors_started mpmain start size st kend s b fl polls :
  is_u32 mpmain -> 0 <= size <= PGSIZE -> code + PGSIZE <= kend ->
  lapic st <> 0 -> (delay b < polls)%nat ->
  0 <= ncpu st <= NCPU -> (forall i, Z.of_nat i < ncpu st -> ids st !! i = Some (Z.of_nat i)) ->
  kinv kend s fl -> ncpu st <= Z.of_nat (length fl) -> num_alloc s + ncpu st <= Z.of_nat NALLOCATED ->
  let others := filter (fun i => i <> cpunum st b) (seqZ 0 (ncpu st)) in
  (exists b', lapicinit polls st b = Ret b' /\ lvt b' TIMER = Some (T_IRQ0 + IRQ_TIMER) /\
     lvt b' ERROR = Some (T_IRQ0 + IRQ_ERROR) /\ lvt b' LINT0 = None /\ lvt b' LINT1 = None /\ cpunum st b' = cpunum st b) /\
  exists l s' b' ps fl', bootothers mpmain start size st s b = Ret (l, s', b') /\
    s_id <$> l = others /\ Forall (fun x => s_call x = mpmain) l /\
    s_esp <$> l = (fun p => p + KSTACKSIZE) <$> ps /\ fl ≡ₚ ps ++ fl' /\ NoDup ps /\ kinv kend s' fl' /\
    (forall c, sent_to c (ipis b') = sent_to c (ipis b) ++ if decide (c ∈ others) then start_cmds code else []) /\
    start_of false (start_cmds code) = Some code /\
    (forall k, 0 <= k < size -> rd8 (mem s') (code + k) = rd8 (mem s) (start + k)).
Proof.
  intros Hmain Hsize Hkend Hl Hd Hn Hids Hk Hfl Hroom others. split.
  { destruct (lapicinit_spec polls st b Hl Hd) as (b' & E & H1 & _ & _ & H2 & H3 & H4 & _ & _ & _ & H5).
    exists b'. split_and!; try done. unfold cpunum. by rewrite H5. }
  unfold bootothers. set (s0 := set_mem _ s).
  assert (kinv kend s0 fl) as Hk0.
  { apply kinv_low; [done|]. intros a Ha. rewrite rd8_memmove, decide_False by lia. done. }
  assert (length others <= Z.to_nat (ncpu st))%nat as Hlen.
  { unfold others. rewrite length_filter. by rewrite length_seqZ. }
  destruct (start_all mpmain st kend Hmain Hkend (seqZ 0 (ncpu st)) [] s0 b fl) as (ps & s' & b' & fl' & E & Hp & Hperm & Hk' & Hi & Hm).
  - apply Forall_forall. intros i Hi%elem_of_seqZ. unfold NCPU in Hn. split; [|lia].
    replace i with (Z.of_nat (Z.to_nat i)) by lia. apply aget_Some, Hids. lia.
  - done.
  - fold others. lia.
  - fold others. change (num_alloc s0) with (num_alloc s). lia.
  - fold others in E, Hp, Hi. eexists _, s', b', ps, fl'. split; [exact E|]. cbn [app].
    pose proof (kinv_nodup _ _ _ Hk) as Hnd. rewrite Hperm in Hnd. apply NoDup_app in Hnd as (Hnd & _ & _).
    split_and!; try done.
    + apply zip_started_id. lia.
    + by apply zip_started_call.
    + apply zip_started_esp. lia.
    + intros c. rewrite Hi, sent_to_app, sent_to_all; [done|]. apply NoDup_filter, NoDup_seqZ.
    + intros k Hk1. rewrite Hm.
      * cbn [s0 mem set_mem]. rewrite rd8_memmove, decide_True by lia. f_equal. lia.
      * unfold PGSIZE in *. lia.
      * unfold low. change wrv with 0x467. unfold code. lia.
Qed.

(** ** Example: a second processor *)

Definition demo_st : mpst := MpState 0 1 2 2 0xFEE00000 [0; 1; 0; 0; 0; 0; 0; 0] [].

Lemma processors_started_witness :
  exists l s' b', bootothers 0x103000 0x10a4e8 100 demo_st demo_boot demo_board = Ret (l, s', b') /\
    s_id <$> l = [1] /\ sent_to 1 (ipis b') = start_cmds code.
Proof.
  destruct (kinit_spec demo_kend ∅) as (s & E & Hk & Hn); [vm_compute; split; congruence|].
  assert (demo_boot = s) as -> by (unfold demo_boot; by rewrite E).
  destruct (processors_started 0x103000 0x10a4e8 100 demo_st demo_kend s demo_board (reverse (boot_pages demo_kend)) 4)
    as (_ & l & s' & b' & ps & fl' & El & Hid & _ & _ & _ & _ & _ & Hs & _).
  - vm_compute; split; congruence.
  - unfold PGSIZE. lia.
  - vm_compute; congruence.
  - done.
  - cbn. lia.
  - vm_compute; split; congruence.
  - intros i Hi. cbn [ncpu demo_st] in Hi. destruct i as [|[|i]]; [done..|lia].
  - exact Hk.
  - vm_compute; congruence.
  - rewrite Hn. vm_compute; congruence.
  - exists l, s', b'. split; [exact El|]. split; [exact Hid|exact (Hs 1)].
Defined.
